(** * Shopify image SEO tool: a shallow embedding of the naming, sizing,
      batching and keyword-classification code, with the properties its
      specification states.

    Sources embedded here:
    - [App.tsx] (both revisions of the component: the one whose batch loop
      inlines the per-image pipeline, and the later one that factors it out
      as [processSingleImage] and adds single-image reprocessing and
      deletion);
    - [utils/imageClassifier.ts] (both revisions: the plain substring
      matcher, and the later one with file-name cleaning, regular-expression
      matching and the visual recogniser in front).

    JavaScript strings are sequences of UTF-16 code units, so a string is a
    [list N] of code units and every length below is a JavaScript length.
    JavaScript numbers are IEEE-754 doubles and are Rocq's primitive floats
    here; byte counts and indices are naturals. *)

From Stdlib Require Import NArith ZArith List String Ascii Bool Lia.
From Stdlib Require Import Floats Uint63 DecimalNat DecimalFacts.
Import ListNotations.

(* ================================================================== *)
(** * JavaScript strings *)
(* ================================================================== *)

Module JS.

Definition jsstring := list N.

(** ** Literals

    Source text is UTF-8; [utf16] decodes a literal into the code units a
    JavaScript engine holds for it. *)

Fixpoint utf8_points (bs : list N) (pending : nat) (acc : N) : list N :=
  match bs with
  | [] => []
  | b :: t =>
      match pending with
      | O =>
          if (b <? 0x80)%N then b :: utf8_points t 0 0%N
          else if (b <? 0xE0)%N then utf8_points t 1 (N.land b 0x1F)
          else if (b <? 0xF0)%N then utf8_points t 2 (N.land b 0x0F)
          else utf8_points t 3 (N.land b 0x07)
      | S O => (acc * 64 + N.land b 0x3F)%N :: utf8_points t 0 0%N
      | S p => utf8_points t p (acc * 64 + N.land b 0x3F)%N
      end
  end.

Definition utf16_units (cp : N) : list N :=
  if (cp <? 0x10000)%N then [cp]
  else [(0xD800 + N.shiftr (cp - 0x10000) 10)%N;
        (0xDC00 + N.land (cp - 0x10000) 0x3FF)%N].

Definition utf16 (s : string) : jsstring :=
  flat_map utf16_units
    (utf8_points (map N_of_ascii (list_ascii_of_string s)) 0 0%N).

Arguments utf16 s%_string.

Definition eqb (a b : jsstring) : bool :=
  if list_eq_dec N.eq_dec a b then true else false.

(** A string is falsy exactly when it is empty: [a || b]. *)
Definition orElse (a b : jsstring) : jsstring :=
  match a with [] => b | _ => a end.

(** ** White space: the set shared by [String.prototype.trim] and [\s] *)

Definition isWhiteSpace (c : N) : bool :=
  ((c =? 0x09) || (c =? 0x0A) || (c =? 0x0B) || (c =? 0x0C) || (c =? 0x0D)
   || (c =? 0x20) || (c =? 0xA0) || (c =? 0x1680)
   || ((0x2000 <=? c) && (c <=? 0x200A))
   || (c =? 0x2028) || (c =? 0x2029) || (c =? 0x202F) || (c =? 0x205F)
   || (c =? 0x3000) || (c =? 0xFEFF))%N.

Fixpoint trimStart (s : jsstring) : jsstring :=
  match s with
  | [] => []
  | c :: t => if isWhiteSpace c then trimStart t else s
  end.

Definition trimEnd (s : jsstring) : jsstring := rev (trimStart (rev s)).

Definition trim (s : jsstring) : jsstring := trimEnd (trimStart s).

(** ** [toLowerCase]

    The Unicode case table is the engine's, not the repository's, so the
    function is an interface.  What the development relies on is its
    behaviour on ASCII and on CJK ideographs, where it is the unit-wise
    map that lowers [A-Z] and leaves everything else alone. *)

Class CaseFolding := { toLowerCase : jsstring -> jsstring }.

Definition isUpperAZ (c : N) : bool := ((0x41 <=? c) && (c <=? 0x5A))%N.
Definition isLowerAZ (c : N) : bool := ((0x61 <=? c) && (c <=? 0x7A))%N.
Definition isDigit (c : N) : bool := ((0x30 <=? c) && (c <=? 0x39))%N.

Definition lowerUnit (c : N) : N := if isUpperAZ c then (c + 32)%N else c.

Definition basicUnit (c : N) : bool :=
  ((c <? 0x80) || ((0x4E00 <=? c) && (c <=? 0x9FFF)))%N.

Definition LowerLaw (cf : CaseFolding) : Prop :=
  forall s, forallb basicUnit s = true -> toLowerCase s = map lowerUnit s.

(** The folding used to run the code on concrete inputs: ASCII lowering,
    every other unit unchanged. *)
Definition asciiFolding : CaseFolding := {| toLowerCase := map lowerUnit |}.

(** ** Global replacement of the runs of a character class

    [s.replace(/C+/g, rep)]: every maximal run of units in class [C] is
    replaced by [rep].  [inRun] says that the unit just before belonged to
    a run that has already been replaced. *)

Fixpoint replaceRuns (cls : N -> bool) (rep : jsstring) (inRun : bool)
    (s : jsstring) : jsstring :=
  match s with
  | [] => []
  | c :: t =>
      if cls c then
        (if inRun then replaceRuns cls rep true t
         else rep ++ replaceRuns cls rep true t)
      else c :: replaceRuns cls rep false t
  end.

(** ** Searching *)

Fixpoint isPrefixOf (p s : jsstring) : bool :=
  match p, s with
  | [], _ => true
  | _ :: _, [] => false
  | a :: p', b :: s' => (a =? b)%N && isPrefixOf p' s'
  end.

Definition startsWith (s p : jsstring) : bool := isPrefixOf p s.

Fixpoint includes (s p : jsstring) : bool :=
  isPrefixOf p s ||
  match s with
  | [] => false
  | _ :: t => includes t p
  end.

(** ** Numbers to text *)

Fixpoint digitsOf (d : Decimal.uint) : jsstring :=
  match d with
  | Decimal.Nil => []
  | Decimal.D0 r => 0x30%N :: digitsOf r
  | Decimal.D1 r => 0x31%N :: digitsOf r
  | Decimal.D2 r => 0x32%N :: digitsOf r
  | Decimal.D3 r => 0x33%N :: digitsOf r
  | Decimal.D4 r => 0x34%N :: digitsOf r
  | Decimal.D5 r => 0x35%N :: digitsOf r
  | Decimal.D6 r => 0x36%N :: digitsOf r
  | Decimal.D7 r => 0x37%N :: digitsOf r
  | Decimal.D8 r => 0x38%N :: digitsOf r
  | Decimal.D9 r => 0x39%N :: digitsOf r
  end.

(** [String(n)] for a non-negative integer. *)
Definition decimal (n : nat) : jsstring := digitsOf (Nat.to_uint n).

(** [s.padStart(width, fill)] for a one-unit [fill]. *)
Definition padStart (width : nat) (fill : N) (s : jsstring) : jsstring :=
  repeat fill (width - List.length s) ++ s.

Fixpoint join (sep : jsstring) (parts : list jsstring) : jsstring :=
  match parts with
  | [] => []
  | [p] => p
  | p :: rest => p ++ sep ++ join sep rest
  end.

End JS.

Import JS.

(* ================================================================== *)
(** * Sanitizer and naming ([App.tsx]) *)
(* ================================================================== *)

Definition MAX_FILES : nat := 10.

Definition hyphen : N := 0x2D%N.

Definition isHyphen (c : N) : bool := (c =? hyphen)%N.

(** The units the first replacement keeps: the complement of
    [[^a-z0-9一-龥\s-]]. *)
Definition keptUnit (c : N) : bool :=
  isLowerAZ c || isDigit c || ((0x4E00 <=? c) && (c <=? 0x9FA5))%N
  || isWhiteSpace c || isHyphen c.

(** The units a sanitized keyword is made of: [a-z], [0-9], the
    ideographs and the hyphen. *)
Definition tokenUnit (c : N) : bool :=
  isLowerAZ c || isDigit c || ((0x4E00 <=? c) && (c <=? 0x9FA5))%N
  || isHyphen c.

Definition sanitizeKeyword `{CaseFolding} (value : jsstring) : jsstring :=
  replaceRuns isHyphen [hyphen] false
    (replaceRuns isWhiteSpace [hyphen] false
       (filter keptUnit (toLowerCase (trim value)))).

Definition mimeToExt (type : jsstring) : option jsstring :=
  if JS.eqb type (utf16 "image/jpeg") then Some (utf16 "jpg")
  else if JS.eqb type (utf16 "image/png") then Some (utf16 "png")
  else if JS.eqb type (utf16 "image/webp") then Some (utf16 "webp")
  else None.

(* ================================================================== *)
(** * Numbers

    JavaScript numbers are IEEE-754 binary64 values; they are Rocq's
    primitive floats here, so every quotient and product rounds as it does
    in the engine. *)
(* ================================================================== *)

Module Num.

Import PrimFloat.

(** The number of an integer count (a byte length, an index): exact below
    [2^53], rounded to nearest from there to [2^63], the range of the
    conversion. *)
Definition ofZ (z : Z) : float := of_uint63 (Uint63.of_Z z).

Definition ofNat (n : nat) : float := ofZ (Z.of_nat n).

(** For a finite non-negative number [m * 2^e], the integer [n] for which
    [n / 10] is closest to it, the larger one on a tie: the digits that
    [toFixed(1)] prints. *)
Definition tenthsOf (m : positive) (e : Z) : Z :=
  match e with
  | Zneg k => ((20 * Zpos m + 2 ^ Zpos k) / 2 ^ (Zpos k + 1))%Z
  | _ => (10 * Zpos m * 2 ^ e)%Z
  end.

(** [+(x.toFixed(1))]: print with one decimal, read the text back.

    Not-a-number and the infinities print as their names and read back as
    themselves.  From [2^49] on a binary64 value has at most three binary
    places, its neighbours are at least [1/8] away, and the printed
    decimal, at most [1/20] off, reads back as the value itself (from
    [10^21] on [toFixed] prints the shortest round-tripping text, with the
    same result).  Below [2^49] the tenths fit in 53 bits and reading
    ["n/10"] back is the correctly rounded quotient. *)
Definition toFixed1 (x : float) : float :=
  match Prim2SF x with
  | S754_finite s m e =>
      if (abs x <? ofZ (2 ^ 49))%float then
        let r := (ofZ (tenthsOf m e) / ofZ 10)%float in
        if s then (- r)%float else r
      else x
  | _ => x
  end.

(** [Math.max(0, y)].  Not-a-number is contagious; of the two zeros the
    positive one is the larger. *)
Definition max0 (y : float) : float :=
  if is_nan y then nan else if (zero <? y)%float then y else zero.

(** [Math.floor(x)] as an integer, for a finite [x]. *)
Definition floorZ (x : float) : Z :=
  match Prim2SF x with
  | S754_finite s m e =>
      let v := if s then Zneg m else Zpos m in
      match e with
      | Zneg k => (v / 2 ^ Zpos k)%Z
      | _ => (v * 2 ^ e)%Z
      end
  | _ => 0%Z
  end.

(** [bytes / 1024]. *)
Definition kib (bytes : nat) : float := (ofNat bytes / ofZ 1024)%float.

(** The classes of values the proofs tell apart: zero or finite, and
    anything but not-a-number. *)
Definition isFinite (x : spec_float) : bool :=
  match x with
  | S754_zero _ | S754_finite _ _ _ => true
  | _ => false
  end.

Definition isNumber (x : spec_float) : bool :=
  match x with
  | S754_nan => false
  | _ => true
  end.

End Num.

(* ================================================================== *)
(** * The component's data ([App.tsx]) *)
(* ================================================================== *)

Record Blob := {
  blob_type : jsstring;
  blob_bytes : list Byte.byte
}.

Definition blob_size (b : Blob) : nat := List.length (blob_bytes b).

(** A [File] is a [Blob] with a name and a modification time. *)
Record File := {
  file_name : jsstring;
  file_lastModified : nat;
  file_blob : Blob
}.

Definition file_type (f : File) : jsstring := blob_type (file_blob f).
Definition file_size (f : File) : nat := blob_size (file_blob f).

Record InputImage := {
  id : jsstring;
  file : File;
  previewUrl : jsstring;
  customKeyword : option jsstring;
  forceSquare : option bool;
  processingProgress : option nat;
  isProcessing : option bool
}.

Record ProcessedImage := {
  p_id : jsstring;
  originalName : jsstring;
  seoName : jsstring;
  blob : Blob;
  sizeKb : float;
  originalSizeKb : float;
  savedPercent : float;
  downloadUrl : jsstring
}.

Inductive Lang := zh | en.

(** The texts shown to the user, by the key the code reads them under. *)
Inductive Message :=
| messageInvalidType (l : Lang)
| messageLimit (l : Lang) (max : nat)
| messageProcessing (l : Lang)
| messageDone (l : Lang)
| messageFail (l : Lang)
| messageEnterKeyword (l : Lang)
| messageRetry (l : Lang).

Definition Message_eqb (a b : Message) : bool :=
  match a, b with
  | messageInvalidType _, messageInvalidType _ => true
  | messageLimit _ m, messageLimit _ n => Nat.eqb m n
  | messageProcessing _, messageProcessing _ => true
  | messageDone _, messageDone _ => true
  | messageFail _, messageFail _ => true
  | messageEnterKeyword _, messageEnterKeyword _ => true
  | messageRetry _, messageRetry _ => true
  | _, _ => false
  end.

(** ** The browser

    Decoding, the canvas and object URLs are the browser's.  A promise that
    rejects, a callback that receives [null] and a context that cannot be
    had are [None]. *)

Record Bitmap := {
  bm_width : nat;
  bm_height : nat;
  bm_pixels : list Byte.byte
}.

Record Canvas := {
  canvas_width : nat;
  canvas_height : nat;
  (* the one [drawImage] call: source, source rectangle, target size *)
  drawn : option (Bitmap * (float * float * nat * nat) * (nat * nat))
}.

Record Browser := {
  createImageBitmap : Blob -> option Bitmap;
  (* the [<img>] element fallback *)
  loadImage : Blob -> option Bitmap;
  getContext2d : Canvas -> bool;
  toBlob : Canvas -> jsstring -> option float -> option Blob;
  createObjectURL : Blob -> jsstring;
  (* [Math.random().toString(36).slice(2)], by call number *)
  randomSalt : nat -> jsstring
}.

(** ** Component state

    The [useState] cells the handlers read and write.  [signals] records
    every [setMessage] call in order and [revoked] every
    [URL.revokeObjectURL]; [persistedTotal] is the [totalProcessedCount]
    item of local storage. *)

Record AppState := {
  keyword : jsstring;
  files : list InputImage;
  processed : list ProcessedImage;
  isSquare : bool;
  batchProcessing : bool;
  message : option Message;
  lang : Lang;
  totalProcessedCount : nat;
  aiCompletedItemIds : list jsstring;
  signals : list (option Message);
  revoked : list jsstring;
  persistedTotal : option nat
}.

Definition setMessage (m : option Message) (st : AppState) : AppState :=
  {| keyword := keyword st; files := files st; processed := processed st;
     isSquare := isSquare st; batchProcessing := batchProcessing st;
     message := m; lang := lang st;
     totalProcessedCount := totalProcessedCount st;
     aiCompletedItemIds := aiCompletedItemIds st;
     signals := signals st ++ [m]; revoked := revoked st;
     persistedTotal := persistedTotal st |}.

Definition setFiles (f : list InputImage -> list InputImage) (st : AppState)
  : AppState :=
  {| keyword := keyword st; files := f (files st); processed := processed st;
     isSquare := isSquare st; batchProcessing := batchProcessing st;
     message := message st; lang := lang st;
     totalProcessedCount := totalProcessedCount st;
     aiCompletedItemIds := aiCompletedItemIds st;
     signals := signals st; revoked := revoked st;
     persistedTotal := persistedTotal st |}.

Definition setProcessed (f : list ProcessedImage -> list ProcessedImage)
    (st : AppState) : AppState :=
  {| keyword := keyword st; files := files st; processed := f (processed st);
     isSquare := isSquare st; batchProcessing := batchProcessing st;
     message := message st; lang := lang st;
     totalProcessedCount := totalProcessedCount st;
     aiCompletedItemIds := aiCompletedItemIds st;
     signals := signals st; revoked := revoked st;
     persistedTotal := persistedTotal st |}.

Definition setKeyword (k : jsstring) (st : AppState) : AppState :=
  {| keyword := k; files := files st; processed := processed st;
     isSquare := isSquare st; batchProcessing := batchProcessing st;
     message := message st; lang := lang st;
     totalProcessedCount := totalProcessedCount st;
     aiCompletedItemIds := aiCompletedItemIds st;
     signals := signals st; revoked := revoked st;
     persistedTotal := persistedTotal st |}.

Definition setIsProcessing (b : bool) (st : AppState) : AppState :=
  {| keyword := keyword st; files := files st; processed := processed st;
     isSquare := isSquare st; batchProcessing := b;
     message := message st; lang := lang st;
     totalProcessedCount := totalProcessedCount st;
     aiCompletedItemIds := aiCompletedItemIds st;
     signals := signals st; revoked := revoked st;
     persistedTotal := persistedTotal st |}.

Definition setAiCompletedItemIds (f : list jsstring -> list jsstring)
    (st : AppState) : AppState :=
  {| keyword := keyword st; files := files st; processed := processed st;
     isSquare := isSquare st; batchProcessing := batchProcessing st;
     message := message st; lang := lang st;
     totalProcessedCount := totalProcessedCount st;
     aiCompletedItemIds := f (aiCompletedItemIds st);
     signals := signals st; revoked := revoked st;
     persistedTotal := persistedTotal st |}.

(** [setTotalProcessedCount(prev => prev + n)] with its write to local
    storage. *)
Definition addTotalProcessed (n : nat) (st : AppState) : AppState :=
  {| keyword := keyword st; files := files st; processed := processed st;
     isSquare := isSquare st; batchProcessing := batchProcessing st;
     message := message st; lang := lang st;
     totalProcessedCount := totalProcessedCount st + n;
     aiCompletedItemIds := aiCompletedItemIds st;
     signals := signals st; revoked := revoked st;
     persistedTotal := Some (totalProcessedCount st + n) |}.

Definition revokeObjectURL (url : jsstring) (st : AppState) : AppState :=
  {| keyword := keyword st; files := files st; processed := processed st;
     isSquare := isSquare st; batchProcessing := batchProcessing st;
     message := message st; lang := lang st;
     totalProcessedCount := totalProcessedCount st;
     aiCompletedItemIds := aiCompletedItemIds st;
     signals := signals st; revoked := revoked st ++ [url];
     persistedTotal := persistedTotal st |}.

Definition revokeDownloadUrls (items : list ProcessedImage) (st : AppState)
  : AppState :=
  fold_left
    (fun s item =>
       match downloadUrl item with
       | [] => s
       | url => revokeObjectURL url s
       end)
    items st.

(** [prev.map(f => f.id === target ? change(f) : f)] *)
Definition updateById (target : jsstring) (change : InputImage -> InputImage)
    (prev : list InputImage) : list InputImage :=
  map (fun f => if JS.eqb (id f) target then change f else f) prev.

Definition withProgress (busy : option bool) (progress : option nat)
    (f : InputImage) : InputImage :=
  {| id := id f; file := file f; previewUrl := previewUrl f;
     customKeyword := customKeyword f; forceSquare := forceSquare f;
     processingProgress := progress; isProcessing := busy |}.

Definition withProgressOnly (progress : option nat) (f : InputImage)
  : InputImage :=
  withProgress (isProcessing f) progress f.

Definition withCustomKeyword (k : option jsstring) (f : InputImage)
  : InputImage :=
  {| id := id f; file := file f; previewUrl := previewUrl f;
     customKeyword := k; forceSquare := forceSquare f;
     processingProgress := processingProgress f;
     isProcessing := isProcessing f |}.

(* ================================================================== *)
(** * The per-image pipeline *)
(* ================================================================== *)

(** A [throw] or a rejected promise inside the [try] block ends it: the
    option monad. *)
Definition bindOpt {A B : Type} (a : option A) (k : A -> option B)
  : option B :=
  match a with
  | Some x => k x
  | None => None
  end.

Notation "x <- a ;; k" := (bindOpt a (fun x => k))
  (at level 61, a at next level, right associativity).

Definition imageJpeg : jsstring := utf16 "image/jpeg".
Definition imagePng : jsstring := utf16 "image/png".
Definition imageWebp : jsstring := utf16 "image/webp".

(** [list.includes(s)] *)
Definition listIncludes (l : list jsstring) (s : jsstring) : bool :=
  existsb (JS.eqb s) l.

(** [createImageBitmap(blob).catch(() => <load it through an img element>)] *)
Definition decodeImage (B : Browser) (b : Blob) : option Bitmap :=
  match createImageBitmap B b with
  | Some bm => Some bm
  | None => loadImage B b
  end.

(** The canvas after sizing it and drawing the (possibly cropped) image. *)
Definition drawOnCanvas (imgBitmap : Bitmap) (forceSquareToUse : bool)
  : Canvas :=
  let width := bm_width imgBitmap in
  let height := bm_height imgBitmap in
  if forceSquareToUse then
    let size := Nat.min width height in
    {| canvas_width := size; canvas_height := size;
       drawn := Some (imgBitmap,
                      ((Num.ofNat (width - size) / Num.ofZ 2)%float,
                       (Num.ofNat (height - size) / Num.ofZ 2)%float,
                       size, size),
                      (size, size)) |}
  else
    {| canvas_width := width; canvas_height := height;
       drawn := Some (imgBitmap,
                      (Num.ofZ 0, Num.ofZ 0, width, height),
                      (width, height)) |}.

Definition blankCanvas (c : Canvas) : Canvas :=
  {| canvas_width := canvas_width c; canvas_height := canvas_height c;
     drawn := None |}.

Definition originalTypeOf (input : InputImage) : jsstring :=
  orElse (file_type (file input)) imageJpeg.

Definition preferredTypeOf (originalType : jsstring) : jsstring :=
  if listIncludes [imageJpeg; imagePng; imageWebp] originalType
  then originalType else imageJpeg.

Definition canAdjustQualityOf (preferredType : jsstring) : bool :=
  JS.eqb preferredType imageJpeg || JS.eqb preferredType imageWebp.

Definition targetBytes : nat := 200 * 1024.

(** Lines up to the second [toBlobAsync]: decode, draw, encode at 0.78 and,
    for an adjustable type whose result is over [targetBytes], once more at
    0.6.  The result is the final encoded blob. *)
Definition encodeImage (B : Browser) (input : InputImage)
    (forceSquareToUse : bool) : option Blob :=
  imgBitmap <- decodeImage B (file_blob (file input)) ;;
  let canvas := drawOnCanvas imgBitmap forceSquareToUse in
  if negb (getContext2d B (blankCanvas canvas)) then None else
  let preferredType := preferredTypeOf (originalTypeOf input) in
  let canAdjustQuality := canAdjustQualityOf preferredType in
  let quality := if canAdjustQuality then Some 0x1.8f5c28f5c28f6p-1%float
                 else None in
  outputBlob <- toBlob B canvas preferredType quality ;;
  if canAdjustQuality && (targetBytes <? blob_size outputBlob) then
    toBlob B canvas preferredType (Some 0x1.3333333333333p-1%float)
  else Some outputBlob.

Definition indexStrOf (index : nat) : jsstring :=
  padStart 2 0x30%N (decimal (index + 1)).

Definition savedPercentOf (originalSizeKb : float) (finalSize : nat) : float :=
  if (Num.ofZ 0 <? originalSizeKb)%float then
    Num.max0
      (Num.toFixed1
         (((originalSizeKb - Num.kib finalSize) / originalSizeKb)
            * Num.ofZ 100)%float)
  else Num.ofZ 0.

Definition processSingleImage `{CaseFolding} (B : Browser)
    (input : InputImage) (keywordToUse : jsstring) (forceSquareToUse : bool)
    (index : nat) : option ProcessedImage :=
  outputBlob <- encodeImage B input forceSquareToUse ;;
  let originalType := originalTypeOf input in
  let preferredType := preferredTypeOf originalType in
  let indexStr := indexStrOf index in
  let originalSizeKb := Num.toFixed1 (Num.kib (file_size (file input))) in
  let ext :=
    match mimeToExt preferredType with
    | Some e => e
    | None => utf16 "jpg"
    end in
  let '(finalBlob, ext) :=
    if blob_size (file_blob (file input)) <? blob_size outputBlob then
      (file_blob (file input),
       match mimeToExt originalType with
       | Some e => e
       | None => ext
       end)
    else (outputBlob, ext) in
  let cleanKeyword := orElse (sanitizeKeyword keywordToUse) (utf16 "product") in
  let seoName := cleanKeyword ++ [hyphen] ++ indexStr ++ [0x2E%N] ++ ext in
  let finalSizeKb := Num.toFixed1 (Num.kib (blob_size finalBlob)) in
  let savedPercent := savedPercentOf originalSizeKb (blob_size finalBlob) in
  let downloadUrl := createObjectURL B finalBlob in
  Some {| p_id := id input;
          originalName := file_name (file input);
          seoName := seoName;
          blob := finalBlob;
          sizeKb := finalSizeKb;
          originalSizeKb := originalSizeKb;
          savedPercent := savedPercent;
          downloadUrl := downloadUrl |}.

(* ================================================================== *)
(** * The handlers *)
(* ================================================================== *)

Definition acceptedTypes : list jsstring :=
  [imageJpeg; imagePng; imageWebp; utf16 "image/heic"; utf16 "image/heif"].

(** [a.slice(0, end)]: a negative [end] counts from the end of the array. *)
Definition slice0 {A : Type} (l : list A) (finish : Z) : list A :=
  if (finish <? 0)%Z
  then firstn (Z.to_nat (Z.max 0 (Z.of_nat (List.length l) + finish))) l
  else firstn (Z.to_nat finish) l.

(** [`${file.name}-${file.size}-${file.lastModified}-${salt}`] *)
Definition freshId (f : File) (salt : jsstring) : jsstring :=
  file_name f ++ [hyphen] ++ decimal (file_size f) ++ [hyphen]
    ++ decimal (file_lastModified f) ++ [hyphen] ++ salt.

(** [sliced.map(file => ({ id, file, previewUrl }))]; [k] counts the calls
    to [Math.random]. *)
Fixpoint mapToInputs (B : Browser) (k : nat) (sliced : list File)
  : list InputImage :=
  match sliced with
  | [] => []
  | f :: rest =>
      {| id := freshId f (randomSalt B k);
         file := f;
         previewUrl := createObjectURL B (file_blob f);
         customKeyword := None; forceSquare := None;
         processingProgress := None; isProcessing := None |}
      :: mapToInputs B (S k) rest
  end.

Definition handleFiles (B : Browser) (fileList : option (list File))
    (st : AppState) : AppState :=
  match fileList with
  | None => st
  | Some fileList =>
      let incoming :=
        filter (fun f => listIncludes acceptedTypes (file_type f)) fileList in
      match incoming with
      | [] => setMessage (Some (messageInvalidType (lang st))) st
      | _ =>
          let remainingSlots :=
            (Z.of_nat MAX_FILES - Z.of_nat (List.length (files st)))%Z in
          let sliced := slice0 incoming remainingSlots in
          let mapped := mapToInputs B 0 sliced in
          let st1 :=
            if MAX_FILES <=? List.length (files st) + List.length mapped
            then setMessage (Some (messageLimit (lang st) MAX_FILES)) st
            else setMessage None st in
          let st2 := setFiles (fun prev => prev ++ mapped) st1 in
          setProcessed (fun _ => []) st2
      end
  end.

(** Is this [setMessage] call the capacity signal? *)
Definition isLimitSignal (m : option Message) : bool :=
  match m with
  | Some (messageLimit _ _) => true
  | _ => false
  end.

Definition isAccepted (f : File) : bool :=
  listIncludes acceptedTypes (file_type f).

(** [input.customKeyword || keyword] *)
Definition keywordFor (input : InputImage) (keyword : jsstring) : jsstring :=
  match customKeyword input with
  | Some (c :: k) => c :: k
  | _ => keyword
  end.

(** [input.forceSquare !== undefined ? input.forceSquare : isSquare] *)
Definition forceSquareFor (input : InputImage) (isSquare : bool) : bool :=
  match forceSquare input with
  | Some b => b
  | None => isSquare
  end.

Definition isBlank (s : jsstring) : bool :=
  match trim s with [] => true | _ => false end.

(** [Math.floor(((i + 1) / n) * 90)] *)
Definition progressOf (i n : nat) : nat :=
  Z.to_nat
    (Num.floorZ (((Num.ofNat (i + 1) / Num.ofNat n) * Num.ofZ 90)%float)).

(** The body of [for (let i = 0; i < files.length; i += 1)] in
    [processImages], from index [i] on; [todo] is what is left of the
    captured [files], [total] its full length. *)
Fixpoint processLoop `{CaseFolding} (B : Browser) (keyword : jsstring)
    (isSquare : bool) (total : nat) (todo : list InputImage) (i : nat)
    (results : list ProcessedImage) (st : AppState)
  : list ProcessedImage * AppState :=
  match todo with
  | [] => (results, st)
  | input :: rest =>
      let keywordToUse := keywordFor input keyword in
      let forceSquareToUse := forceSquareFor input isSquare in
      if isBlank keywordToUse then
        processLoop B keyword isSquare total rest (S i) results
          (setFiles (updateById (id input) (withProgress (Some false) None))
             st)
      else
        let progress := progressOf i total in
        let st1 :=
          setFiles (updateById (id input) (withProgressOnly (Some progress)))
            st in
        match processSingleImage B input keywordToUse forceSquareToUse i with
        | Some result =>
            processLoop B keyword isSquare total rest (S i)
              (results ++ [result])
              (setFiles
                 (updateById (id input) (withProgress (Some false) (Some 100)))
                 st1)
        | None =>
            processLoop B keyword isSquare total rest (S i) results
              (setFiles
                 (updateById (id input) (withProgress (Some false) None))
                 st1)
        end
  end.

(** [processImages], up to the point where it returns; the timer it leaves
    behind is [clearProgress]. *)
Definition processImages `{CaseFolding} (B : Browser) (st : AppState)
  : AppState :=
  match files st with
  | [] => st
  | _ =>
      if isBlank (keyword st) then st else
      let st1 := setIsProcessing true st in
      let st2 := setMessage (Some (messageProcessing (lang st))) st1 in
      let st3 := revokeDownloadUrls (processed st) st2 in
      let st4 :=
        setFiles (map (withProgress (Some true) (Some 0))) st3 in
      let '(results, st5) :=
        processLoop B (keyword st) (isSquare st) (List.length (files st))
          (files st) 0 [] st4 in
      let st6 := setProcessed (fun _ => results) st5 in
      let st7 := setIsProcessing false st6 in
      let st8 :=
        setMessage
          (Some (match results with
                 | [] => messageFail (lang st)
                 | _ => messageDone (lang st)
                 end)) st7 in
      match results with
      | [] => st8
      | _ => addTotalProcessed (List.length results) st8
      end
  end.

(** The callback of [setTimeout(..., 500)] at the end of [processImages]. *)
Definition clearProgress (st : AppState) : AppState :=
  setFiles (map (withProgress (Some false) None)) st.

(** [files.findIndex(f => f.id === imageId)], [-1] when there is none. *)
Fixpoint findIndexFrom (imageId : jsstring) (l : list InputImage) (i : Z)
  : Z :=
  match l with
  | [] => (-1)%Z
  | f :: rest =>
      if JS.eqb (id f) imageId then i else findIndexFrom imageId rest (i + 1)%Z
  end.

Definition findIndex (imageId : jsstring) (l : list InputImage) : Z :=
  findIndexFrom imageId l 0%Z.

(** [compressSingleImage]: reprocess one image.  The progress ticker it
    starts and stops around the pipeline only touches the progress field
    that the branches below overwrite. *)
Definition compressSingleImage `{CaseFolding} (B : Browser)
    (imageId : jsstring) (st : AppState) : AppState :=
  match find (fun f => JS.eqb (id f) imageId) (files st) with
  | None => st
  | Some image =>
      let keywordToUse := keywordFor image (keyword st) in
      let forceSquareToUse := forceSquareFor image (isSquare st) in
      if isBlank keywordToUse then
        setMessage (Some (messageEnterKeyword (lang st))) st
      else
        let index := findIndex imageId (files st) in
        let st1 :=
          match find (fun p => JS.eqb (p_id p) imageId) (processed st) with
          | Some existingProcessed =>
              revokeObjectURL (downloadUrl existingProcessed) st
          | None => st
          end in
        let st2 :=
          setFiles (updateById imageId (withProgress (Some true) (Some 0)))
            st1 in
        match processSingleImage B image keywordToUse forceSquareToUse
                (Z.to_nat index) with
        | Some result =>
            let st3 :=
              setFiles
                (updateById imageId (withProgress (Some false) (Some 100)))
                st2 in
            let st4 :=
              setProcessed
                (fun prev =>
                   filter (fun p => negb (JS.eqb (p_id p) imageId)) prev
                     ++ [result]) st3 in
            addTotalProcessed 1 st4
        | None =>
            let st3 :=
              setFiles (updateById imageId (withProgress (Some false) None))
                st2 in
            setMessage (Some (messageRetry (lang st))) st3
        end
  end.

Definition deleteSingleImage (imageId : jsstring) (st : AppState)
  : AppState :=
  let st1 :=
    match find (fun f => JS.eqb (id f) imageId) (files st) with
    | Some image => revokeObjectURL (previewUrl image) st
    | None => st
    end in
  let st2 :=
    setFiles (filter (fun f => negb (JS.eqb (id f) imageId))) st1 in
  let st3 :=
    match find (fun p => JS.eqb (p_id p) imageId) (processed st2) with
    | Some processedItem => revokeObjectURL (downloadUrl processedItem) st2
    | None => st2
    end in
  let st4 :=
    setProcessed (filter (fun p => negb (JS.eqb (p_id p) imageId))) st3 in
  setAiCompletedItemIds (filter (fun i => negb (JS.eqb i imageId))) st4.

Definition handleClear (st : AppState) : AppState :=
  let st1 :=
    fold_left (fun s f => revokeObjectURL (previewUrl f) s) (files st) st in
  let st2 := revokeDownloadUrls (processed st) st1 in
  let st3 := setFiles (fun _ => []) st2 in
  let st4 := setProcessed (fun _ => []) st3 in
  let st5 := setKeyword [] st4 in
  let st6 := setMessage None st5 in
  setAiCompletedItemIds (fun _ => []) st6.

(** Committing the inline keyword editor of one row (Enter or blur):
    [customKeyword: editingKeyword.trim() || undefined]. *)
Definition commitKeywordEdit (itemId : jsstring) (editingKeyword : jsstring)
    (st : AppState) : AppState :=
  setFiles
    (updateById itemId
       (withCustomKeyword
          (match trim editingKeyword with
           | [] => None
           | k => Some k
           end))) st.



(* ================================================================== *)
(** * The keyword classifier ([utils/imageClassifier.ts]) *)
(* ================================================================== *)

(** A rule table: the entries of one [Record<string, string[]>] literal in
    the order [Object.entries] lists them (none of the keys is an integer
    index, so that is the order they are written in). *)
Definition RuleTable := list (jsstring * list jsstring).

Definition rules (rows : list (string * list string)) : RuleTable :=
  map (fun row => (utf16 (fst row), map utf16 (snd row))) rows.

(** [for (const [item, patterns] of entries)
       if (patterns.some(hit)) { keywords.push(item); break; }] *)
Fixpoint firstHit (hit : jsstring -> bool) (entries : RuleTable)
    (keywords : list jsstring) : list jsstring :=
  match entries with
  | [] => keywords
  | (item, patterns) :: rest =>
      if existsb hit patterns then keywords ++ [item]
      else firstHit hit rest keywords
  end.

(** The same loop without the [break]. *)
Fixpoint everyHit (hit : jsstring -> bool) (entries : RuleTable)
    (keywords : list jsstring) : list jsstring :=
  match entries with
  | [] => keywords
  | (item, patterns) :: rest =>
      if existsb hit patterns then everyHit hit rest (keywords ++ [item])
      else everyHit hit rest keywords
  end.

(** The tables that the two revisions of the classifier share. *)
Module Rules.

Definition styles : RuleTable := rules
  [
    ("casual",
     ["休闲"; "日常"; "随性"]);
    ("formal",
     ["正式"; "商务"; "职场"]);
    ("vintage",
     ["复古"; "怀旧"; "vintage"]);
    ("minimalist",
     ["简约"; "极简"; "简单"]);
    ("luxury",
     ["奢华"; "豪华"; "奢侈"; "高端"]);
    ("cute",
     ["可爱"; "萌"; "甜美"]);
    ("elegant",
     ["优雅"; "典雅"; "优雅"]);
    ("sport",
     ["运动"; "活力"; "户外"]);
    ("classic",
     ["经典"; "经典款"]);
    ("modern",
     ["现代"; "潮流"; "时尚"]);
    ("bohemian",
     ["波西米亚"; "波西米亚风"]);
    ("preppy",
     ["学院"; "学院风"]);
    ("street",
     ["街头"; "街头风"])
  ]%string.

Definition shoes : RuleTable := rules
  [
    ("sneakers",
     ["运动鞋"; "休闲鞋"; "板鞋"; "sneaker"; "trainer"]);
    ("running-shoes",
     ["跑鞋"; "跑步鞋"; "慢跑鞋"]);
    ("boots",
     ["靴子"; "靴"; "长靴"; "短靴"; "马丁靴"; "切尔西靴"; "snow-boots"]);
    ("ankle-boots",
     ["短靴"; "踝靴"]);
    ("heels",
     ["高跟鞋"; "高跟"; "stiletto"; "pumps"]);
    ("stilettos",
     ["细高跟"; "细跟"]);
    ("flats",
     ["平底鞋"; "平底"; "ballet"]);
    ("sandals",
     ["凉鞋"; "凉鞋"; "sandals"]);
    ("slippers",
     ["拖鞋"; "拖鞋"]);
    ("loafers",
     ["乐福鞋"; "豆豆鞋"; "loafer"]);
    ("oxfords",
     ["牛津鞋"]);
    ("derby",
     ["德比鞋"]);
    ("canvas-shoes",
     ["帆布鞋"])
  ]%string.

Definition bags : RuleTable := rules
  [
    ("handbag",
     ["手提包"; "拎包"; "handbag"]);
    ("shoulder-bag",
     ["单肩包"; "肩包"; "斜挎包"]);
    ("crossbody-bag",
     ["斜挎包"; "跨包"]);
    ("backpack",
     ["双肩包"; "背包"; "书包"]);
    ("tote-bag",
     ["托特包"; "tote"; "大容量包"]);
    ("clutch",
     ["手拿包"; "晚宴包"; "clutch"]);
    ("wallet",
     ["钱包"; "皮夹"; "长款钱包"; "短款钱包"]);
    ("purse",
     ["零钱包"; "小包"]);
    ("belt-bag",
     ["腰包"; "胸包"]);
    ("messenger-bag",
     ["邮差包"; "信使包"]);
    ("backpack-purse",
     ["双肩包"; "背包"])
  ]%string.

Definition jewelry : RuleTable := rules
  [
    ("necklace",
     ["项链"; "吊坠"; "pendant"; "chain"]);
    ("choker",
     ["颈链"; "choker"]);
    ("earrings",
     ["耳环"; "耳钉"; "earring"; "stud"]);
    ("drop-earrings",
     ["耳坠"; "长耳环"]);
    ("bracelet",
     ["手链"; "手镯"; "bracelet"]);
    ("bangle",
     ["手镯"; "硬手镯"]);
    ("ring",
     ["戒指"; "指环"; "wedding-ring"; "engagement-ring"]);
    ("brooch",
     ["胸针"; "胸花"]);
    ("watch",
     ["手表"; "腕表"; "智能手表"]);
    ("anklet",
     ["脚链"])
  ]%string.

Definition accessories : RuleTable := rules
  [
    ("belt",
     ["腰带"; "皮带"; "皮带"]);
    ("scarf",
     ["围巾"; "丝巾"; "羊绒围巾"]);
    ("hat",
     ["帽子"; "鸭舌帽"; "cap"; "礼帽"]);
    ("beanie",
     ["针织帽"; "冷帽"; "毛线帽"]);
    ("gloves",
     ["手套"; "皮手套"; "针织手套"]);
    ("sunglasses",
     ["太阳镜"; "墨镜"; "sunglasses"]);
    ("eyeglasses",
     ["眼镜"; "光学镜"; "frame"]);
    ("tie",
     ["领带"; "necktie"]);
    ("bow-tie",
     ["领结"]);
    ("hair-accessory",
     ["发饰"; "发夹"; "发箍"])
  ]%string.

Definition electronics : RuleTable := rules
  [
    ("smartphone",
     ["智能手机"; "手机"; "iphone"; "android"]);
    ("phone",
     ["手机"; "移动电话"]);
    ("laptop",
     ["笔记本电脑"; "笔记本"; "laptop"; "macbook"]);
    ("tablet",
     ["平板电脑"; "平板"; "ipad"; "tablet"]);
    ("headphones",
     ["头戴式耳机"; "耳机"; "headphones"; "over-ear"]);
    ("earbuds",
     ["入耳式耳机"; "耳塞"; "earbuds"; "airpods"]);
    ("speaker",
     ["音箱"; "扬声器"; "音响"; "蓝牙音箱"]);
    ("camera",
     ["相机"; "摄像机"; "单反"; "微单"; "dslr"]);
    ("smartwatch",
     ["智能手表"; "智能手环"]);
    ("keyboard",
     ["键盘"; "机械键盘"]);
    ("mouse",
     ["鼠标"; "无线鼠标"]);
    ("charger",
     ["充电器"; "充电头"]);
    ("cable",
     ["数据线"; "充电线"; "连接线"]);
    ("case",
     ["手机壳"; "保护壳"; "case"; "cover"])
  ]%string.

Definition home : RuleTable := rules
  [
    ("coffee-maker",
     ["咖啡机"; "咖啡壶"; "espresso"]);
    ("coffee-grinder",
     ["磨豆机"; "研磨机"; "磨咖啡"]);
    ("kettle",
     ["电水壶"; "烧水壶"; "水壶"]);
    ("blender",
     ["搅拌机"; "榨汁机"; "破壁机"]);
    ("toaster",
     ["烤面包机"; "多士炉"]);
    ("microwave",
     ["微波炉"]);
    ("air-fryer",
     ["空气炸锅"; "炸锅"]);
    ("rice-cooker",
     ["电饭煲"; "电饭锅"]);
    ("mixer",
     ["厨师机"; "和面机"]);
    ("vacuum",
     ["吸尘器"; "扫地机"]);
    ("lamp",
     ["台灯"; "落地灯"; "吊灯"; "灯具"]);
    ("bulb",
     ["灯泡"; "照明"]);
    ("fan",
     ["风扇"; "电风扇"; "台扇"]);
    ("heater",
     ["取暖器"; "电暖器"]);
    ("humidifier",
     ["加湿器"]);
    ("dehumidifier",
     ["除湿机"]);
    ("purifier",
     ["净化器"; "空气净化器"])
  ]%string.

Definition furniture : RuleTable := rules
  [
    ("sofa",
     ["沙发"; "真皮沙发"; "布艺沙发"; "couch"]);
    ("chair",
     ["椅子"; "餐椅"; "办公椅"; "armchair"; "休闲椅"]);
    ("table",
     ["桌子"; "餐桌"; "书桌"; "coffee-table"; "茶几"]);
    ("desk",
     ["书桌"; "办公桌"; "写字台"]);
    ("bed",
     ["床"; "双人床"; "单人床"; "床架"]);
    ("mattress",
     ["床垫"; "弹簧床垫"]);
    ("cabinet",
     ["柜子"; "储物柜"; "电视柜"; "sideboard"]);
    ("shelf",
     ["架子"; "书架"; "置物架"]);
    ("wardrobe",
     ["衣柜"; "衣橱"]);
    ("drawer",
     ["抽屉"; "床头柜"; "bedside-table"])
  ]%string.

Definition kitchen : RuleTable := rules
  [
    ("cookware",
     ["锅具"; "炒锅"; "汤锅"; "平底锅"]);
    ("knife",
     ["刀具"; "菜刀"; "chef-knife"]);
    ("cutting-board",
     ["砧板"; "切菜板"]);
    ("dinnerware",
     ["餐具"; "碗碟"; "盘子"; "plate"]);
    ("flatware",
     ["刀叉"; "勺子"; "cutlery"]);
    ("glassware",
     ["玻璃杯"; "水杯"; "酒杯"]);
    ("storage",
     ["收纳盒"; "保鲜盒"; "储物罐"])
  ]%string.

Definition beauty : RuleTable := rules
  [
    ("foundation",
     ["粉底液"; "粉底"; "底妆"]);
    ("lipstick",
     ["口红"; "唇膏"; "lipstick"; "liquid-lipstick"]);
    ("lip-gloss",
     ["唇釉"; "唇蜜"; "lip-gloss"]);
    ("mascara",
     ["睫毛膏"; "mascara"]);
    ("eyeliner",
     ["眼线笔"; "眼线"]);
    ("eyeshadow",
     ["眼影"; "palette"]);
    ("skincare",
     ["护肤"; "护肤品"; "护肤套装"]);
    ("serum",
     ["精华液"; "精华"; "serum"]);
    ("moisturizer",
     ["面霜"; "乳液"; "保湿霜"]);
    ("cleanser",
     ["洁面"; "洗面奶"; "洁面乳"]);
    ("toner",
     ["爽肤水"; "化妆水"; "水"]);
    ("mask",
     ["面膜"; "face-mask"]);
    ("perfume",
     ["香水"; "fragrance"; "cologne"]);
    ("makeup-brush",
     ["化妆刷"; "美妆蛋"; "工具"])
  ]%string.

Definition sports : RuleTable := rules
  [
    ("yoga-mat",
     ["瑜伽垫"; "健身垫"]);
    ("dumbbell",
     ["哑铃"; "壶铃"]);
    ("resistance-band",
     ["弹力带"; "拉力器"]);
    ("tent",
     ["帐篷"; "露营帐篷"]);
    ("sleeping-bag",
     ["睡袋"]);
    ("backpack",
     ["登山包"; "旅行包"; "hiking-backpack"]);
    ("water-bottle",
     ["水壶"; "运动水壶"])
  ]%string.

Definition baby : RuleTable := rules
  [
    ("diaper",
     ["尿布"; "纸尿裤"; "diaper"]);
    ("baby-clothes",
     ["童装"; "婴儿装"; "baby-clothes"]);
    ("stroller",
     ["婴儿车"; "推车"]);
    ("baby-carrier",
     ["婴儿背带"; "腰凳"]);
    ("baby-bottle",
     ["奶瓶"; "水杯"]);
    ("pacifier",
     ["奶嘴"; "安抚奶嘴"]);
    ("toy",
     ["玩具"; "益智玩具"; "plush-toy"])
  ]%string.

Definition pet : RuleTable := rules
  [
    ("pet-bed",
     ["宠物床"; "猫窝"; "狗窝"]);
    ("pet-food",
     ["宠物粮"; "猫粮"; "狗粮"]);
    ("pet-toy",
     ["宠物玩具"; "猫玩具"; "狗玩具"]);
    ("leash",
     ["牵引绳"; "狗绳"]);
    ("collar",
     ["项圈"; "pet-collar"]);
    ("litter-box",
     ["猫砂盆"])
  ]%string.

Definition scenes : RuleTable := rules
  [
    ("office",
     ["办公"; "办公室"; "work"]);
    ("home",
     ["家居"; "家用"; "home"]);
    ("outdoor",
     ["户外"; "旅行"; "travel"]);
    ("party",
     ["派对"; "晚宴"; "party"]);
    ("wedding",
     ["婚礼"; "婚庆"; "wedding"]);
    ("casual",
     ["日常"; "休闲"; "casual"]);
    ("business",
     ["商务"; "正式"; "business"])
  ]%string.

Definition seasons : RuleTable := rules
  [
    ("spring",
     ["春"; "春季"; "spring"]);
    ("summer",
     ["夏"; "夏季"; "summer"]);
    ("autumn",
     ["秋"; "秋季"; "autumn"; "fall"]);
    ("winter",
     ["冬"; "冬季"; "winter"]);
    ("all-season",
     ["四季"; "全年"; "all-season"])
  ]%string.

Definition sizes : RuleTable := rules
  [
    ("mini",
     ["迷你"; "小型"; "mini"; "小号"]);
    ("small",
     ["小"; "sm"; "s"]);
    ("medium",
     ["中"; "m"; "md"]);
    ("large",
     ["大"; "l"; "lg"]);
    ("xlarge",
     ["特大"; "xl"; "加大"]);
    ("plus-size",
     ["加肥"; "大码"; "plus"]);
    ("oversized",
     ["宽松"; "大版型"])
  ]%string.

End Rules.

Record ImageInfo := {
  fileName : jsstring;
  fileType : jsstring;
  fileSize : nat;
  suggestedCategory : jsstring;
  suggestedKeywords : list jsstring
}.

Definition product : jsstring := utf16 "product".

(** ** First revision: substring matching on the lower-cased name *)

Module Plain.

Definition colors : RuleTable := rules
  [
    ("red",
     ["红"; "红色"; "赤"; "朱红"; "绯红"]);
    ("blue",
     ["蓝"; "蓝色"; "湛蓝"; "天蓝"; "宝蓝"]);
    ("green",
     ["绿"; "绿色"; "翠绿"; "墨绿"; "草绿"]);
    ("yellow",
     ["黄"; "黄色"; "金黄"; "橙黄"; "柠檬黄"]);
    ("black",
     ["黑"; "黑色"; "玄"; "墨黑"; "乌黑"]);
    ("white",
     ["白"; "白色"; "纯白"; "象牙白"; "雪白"]);
    ("gray",
     ["灰"; "灰色"; "炭灰"; "银灰"; "浅灰"]);
    ("pink",
     ["粉"; "粉色"; "桃红"; "玫红"; "粉红"]);
    ("purple",
     ["紫"; "紫色"; "紫罗兰"; "薰衣草"]);
    ("orange",
     ["橙"; "橙色"; "橘色"; "橘红"]);
    ("brown",
     ["棕"; "棕色"; "褐色"; "咖啡色"; "卡其"]);
    ("beige",
     ["米色"; "米白"; "杏色"; "卡其"]);
    ("gold",
     ["金"; "金色"; "黄金"; "金属色"]);
    ("silver",
     ["银"; "银色"; "金属银"]);
    ("multicolor",
     ["彩"; "多彩"; "拼色"; "渐变"; "花色"])
  ]%string.

Definition materials : RuleTable := rules
  [
    ("leather",
     ["皮"; "皮革"; "真皮"; "牛皮"; "羊皮"]);
    ("canvas",
     ["帆布"; "canvas"]);
    ("cotton",
     ["棉"; "纯棉"; "棉质"]);
    ("silk",
     ["丝"; "丝绸"; "真丝"; "缎面"]);
    ("wool",
     ["羊毛"; "毛"; "绒"]);
    ("denim",
     ["丹宁"; "牛仔布"]);
    ("linen",
     ["亚麻"; "麻"]);
    ("velvet",
     ["天鹅绒"; "绒布"; "velvet"]);
    ("lace",
     ["蕾丝"; "镂空"]);
    ("knit",
     ["针织"; "编织"]);
    ("metal",
     ["金属"; "合金"; "不锈钢"]);
    ("wood",
     ["木"; "木质"; "实木"]);
    ("ceramic",
     ["陶瓷"; "瓷"]);
    ("glass",
     ["玻璃"; "钢化玻璃"]);
    ("plastic",
     ["塑料"; "塑胶"])
  ]%string.

Definition clothing : RuleTable := rules
  [
    ("dress",
     ["连衣裙"; "裙装"; "礼服裙"; "晚礼服"; "婚纱裙"; "tea-dress"; "maxi-dress"]);
    ("skirt",
     ["半身裙"; "短裙"; "长裙"; "a字裙"; "百褶裙"; "包臀裙"]);
    ("pants",
     ["裤子"; "长裤"; "休闲裤"; "直筒裤"; "阔腿裤"; "小脚裤"]);
    ("jeans",
     ["牛仔裤"; "牛仔裤"; "denim"; "丹宁"]);
    ("shorts",
     ["短裤"; "热裤"]);
    ("t-shirt",
     ["t恤"; "tshirt"; "t-shirt"; "短袖"; "体恤"]);
    ("shirt",
     ["衬衫"; "长袖"; "top"; "上衣"]);
    ("blouse",
     ["女衫"; "女士衬衫"; "雪纺衫"]);
    ("sweater",
     ["毛衣"; "针织衫"; "pullover"]);
    ("hoodie",
     ["卫衣"; "连帽衫"; "套头衫"]);
    ("cardigan",
     ["开衫"; "开襟衫"]);
    ("jacket",
     ["夹克"; "外套"; "短外套"]);
    ("coat",
     ["大衣"; "风衣"; "毛呢大衣"; "羊毛大衣"]);
    ("blazer",
     ["西装外套"; "小西装"]);
    ("suit",
     ["西装"; "套装"; "正装"]);
    ("vest",
     ["背心"; "马甲"]);
    ("jumpsuit",
     ["连体裤"; "连身衣"]);
    ("romper",
     ["连体短裤"])
  ]%string.

Definition analyzeFileName `{CaseFolding} (fileName : jsstring)
  : list jsstring :=
  let name := toLowerCase fileName in
  let hit := includes name in
  let keywords := [] in
  let keywords := firstHit hit colors keywords in
  let keywords := firstHit hit materials keywords in
  let keywords := firstHit hit Rules.styles keywords in
  let keywords := firstHit hit clothing keywords in
  let keywords := firstHit hit Rules.shoes keywords in
  let keywords := firstHit hit Rules.bags keywords in
  let keywords := firstHit hit Rules.jewelry keywords in
  let keywords := firstHit hit Rules.accessories keywords in
  let keywords := firstHit hit Rules.electronics keywords in
  let keywords := everyHit hit Rules.home keywords in
  let keywords := firstHit hit Rules.furniture keywords in
  let keywords := firstHit hit Rules.kitchen keywords in
  let keywords := firstHit hit Rules.beauty keywords in
  let keywords := firstHit hit Rules.sports keywords in
  let keywords := firstHit hit Rules.baby keywords in
  let keywords := firstHit hit Rules.pet keywords in
  let keywords := firstHit hit Rules.scenes keywords in
  let keywords := firstHit hit Rules.seasons keywords in
  let keywords := firstHit hit Rules.sizes keywords in
  keywords.

Definition analyzeImage `{CaseFolding} (f : File) : ImageInfo :=
  let keywords := analyzeFileName (file_name f) in
  let keywords := match keywords with [] => [product] | _ => keywords end in
  {| fileName := file_name f;
     fileType := file_type f;
     fileSize := file_size f;
     suggestedCategory := orElse (hd [] keywords) product;
     suggestedKeywords := keywords |}.

Definition colorSet : list jsstring :=
  map utf16
    ["red"; "blue"; "green"; "yellow"; "black"; "white"; "gray"; "pink";
     "purple"; "orange"; "brown"; "beige"; "gold"; "silver"]%string.

Definition materialSet : list jsstring :=
  map utf16
    ["leather"; "canvas"; "cotton"; "silk"; "wool"; "denim"; "linen";
     "velvet"; "lace"; "knit"; "metal"; "wood"]%string.

Definition styleSet : list jsstring :=
  map utf16
    ["casual"; "formal"; "vintage"; "minimalist"; "luxury"; "cute";
     "elegant"; "sport"; "classic"; "modern"]%string.

(** [if (x) combinedKeywords.push(x)]: an empty string is falsy too. *)
Definition pushIf (x : option jsstring) (l : list jsstring) : list jsstring :=
  match x with
  | Some (c :: k) => l ++ [c :: k]
  | _ => l
  end.

Definition truthy (x : option jsstring) : bool :=
  match x with
  | Some (_ :: _) => true
  | _ => false
  end.

(** The body of [extractKeywords] after [analyzeImage] has answered. *)
Definition composeKeywords (info : ImageInfo) : jsstring :=
  let category := orElse (hd [] (suggestedKeywords info)) product in
  let color := find (listIncludes colorSet) (suggestedKeywords info) in
  let material := find (listIncludes materialSet) (suggestedKeywords info) in
  let style := find (listIncludes styleSet) (suggestedKeywords info) in
  let combinedKeywords := [category] in
  let combinedKeywords := pushIf color combinedKeywords in
  let combinedKeywords := pushIf material combinedKeywords in
  let combinedKeywords := pushIf style combinedKeywords in
  let combinedKeywords :=
    if negb (truthy color) && negb (truthy material) && negb (truthy style)
       && (1 <? List.length (suggestedKeywords info))
    then
      pushIf
        (find (fun k => negb (JS.eqb k category)) (suggestedKeywords info))
        combinedKeywords
    else combinedKeywords in
  let finalKeywords := join [hyphen] (firstn 4 combinedKeywords) in
  orElse finalKeywords product.

Definition extractKeywords `{CaseFolding} (f : File) : jsstring :=
  composeKeywords (analyzeImage f).

End Plain.

(** ** Second revision: cleaned names, regular expressions, and the visual
       recogniser's labels in front *)

Module Enhanced.

Definition colors : RuleTable := rules
  [
    ("red",
     ["红"; "红色"; "赤"; "朱红"; "绯红"; "red"; "crimson"; "scarlet"; "burgundy";
      "maroon"]);
    ("blue",
     ["蓝"; "蓝色"; "湛蓝"; "天蓝"; "宝蓝"; "navy"; "royal"; "sky"; "azure"; "cyan"]);
    ("green",
     ["绿"; "绿色"; "翠绿"; "墨绿"; "草绿"; "emerald"; "mint"; "lime"; "olive";
      "forest"]);
    ("yellow",
     ["黄"; "黄色"; "金黄"; "橙黄"; "柠檬黄"; "golden"; "amber"; "lemon"; "mustard"]);
    ("black",
     ["黑"; "黑色"; "玄"; "墨黑"; "乌黑"; "ebony"; "charcoal"; "onyx"]);
    ("white",
     ["白"; "白色"; "纯白"; "象牙白"; "雪白"; "ivory"; "pearl"; "cream"; "off-white"]);
    ("gray",
     ["灰"; "灰色"; "炭灰"; "银灰"; "浅灰"; "grey"; "slate"; "ash"; "silver"]);
    ("pink",
     ["粉"; "粉色"; "桃红"; "玫红"; "粉红"; "rose"; "coral"; "salmon"; "blush"]);
    ("purple",
     ["紫"; "紫色"; "紫罗兰"; "薰衣草"; "violet"; "lavender"; "plum"; "mauve"]);
    ("orange",
     ["橙"; "橙色"; "橘色"; "橘红"; "tangerine"; "peach"; "apricot"]);
    ("brown",
     ["棕"; "棕色"; "褐色"; "咖啡色"; "卡其"; "tan"; "beige"; "khaki"; "camel";
      "chocolate"]);
    ("beige",
     ["米色"; "米白"; "杏色"; "卡其"; "nude"; "sand"; "taupe"]);
    ("gold",
     ["金"; "金色"; "黄金"; "金属色"; "metallic"]);
    ("silver",
     ["银"; "银色"; "金属银"; "platinum"]);
    ("multicolor",
     ["彩"; "多彩"; "拼色"; "渐变"; "花色"; "colorful"; "rainbow"; "print"; "pattern"])
  ]%string.

Definition materials : RuleTable := rules
  [
    ("leather",
     ["皮"; "皮革"; "真皮"; "牛皮"; "羊皮"; "leather"; "genuine-leather"; "suede";
      "nappa"]);
    ("canvas",
     ["帆布"; "canvas"; "duck-canvas"]);
    ("cotton",
     ["棉"; "纯棉"; "棉质"; "cotton"; "organic-cotton"; "pima-cotton"]);
    ("silk",
     ["丝"; "丝绸"; "真丝"; "缎面"; "silk"; "satin"; "chiffon"]);
    ("wool",
     ["羊毛"; "毛"; "绒"; "wool"; "cashmere"; "merino"; "alpaca"]);
    ("denim",
     ["丹宁"; "牛仔布"; "denim"; "jean"]);
    ("linen",
     ["亚麻"; "麻"; "linen"]);
    ("velvet",
     ["天鹅绒"; "绒布"; "velvet"; "velour"]);
    ("lace",
     ["蕾丝"; "镂空"; "lace"]);
    ("knit",
     ["针织"; "编织"; "knit"; "knitted"; "sweater"]);
    ("metal",
     ["金属"; "合金"; "不锈钢"; "metal"; "stainless-steel"; "aluminum"; "brass"]);
    ("wood",
     ["木"; "木质"; "实木"; "wood"; "wooden"; "bamboo"; "oak"; "walnut"]);
    ("ceramic",
     ["陶瓷"; "瓷"; "ceramic"; "porcelain"]);
    ("glass",
     ["玻璃"; "钢化玻璃"; "glass"; "crystal"]);
    ("plastic",
     ["塑料"; "塑胶"; "plastic"; "pvc"; "acrylic"]);
    ("rubber",
     ["橡胶"; "rubber"; "silicone"]);
    ("carbon-fiber",
     ["碳纤维"; "carbon-fiber"; "carbon"]);
    ("fabric",
     ["布料"; "fabric"; "textile"; "cloth"])
  ]%string.

Definition clothing : RuleTable := rules
  [
    ("dress",
     ["连衣裙"; "裙装"; "礼服裙"; "晚礼服"; "婚纱裙"; "tea-dress"; "maxi-dress";
      "midi-dress"; "mini-dress"; "cocktail-dress"; "dress"; "gown"]);
    ("skirt",
     ["半身裙"; "短裙"; "长裙"; "a字裙"; "百褶裙"; "包臀裙"; "skirt"; "pencil-skirt";
      "a-line-skirt"; "pleated-skirt"]);
    ("pants",
     ["裤子"; "长裤"; "休闲裤"; "直筒裤"; "阔腿裤"; "小脚裤"; "pants"; "trousers"; "slacks";
      "wide-leg-pants"]);
    ("jeans",
     ["牛仔裤"; "牛仔裤"; "denim"; "丹宁"; "jeans"; "jean"; "denim-pants"]);
    ("shorts",
     ["短裤"; "热裤"; "shorts"; "bermuda-shorts"; "cargo-shorts"]);
    ("t-shirt",
     ["t恤"; "tshirt"; "t-shirt"; "短袖"; "体恤"; "tee"; "tank-top"; "sleeveless"]);
    ("shirt",
     ["衬衫"; "长袖"; "top"; "上衣"; "shirt"; "button-down"; "button-up";
      "oxford-shirt"]);
    ("blouse",
     ["女衫"; "女士衬衫"; "雪纺衫"; "blouse"; "chiffon-blouse"]);
    ("sweater",
     ["毛衣"; "针织衫"; "pullover"; "sweater"; "knit-sweater"; "cardigan-sweater"]);
    ("hoodie",
     ["卫衣"; "连帽衫"; "套头衫"; "hoodie"; "hooded-sweatshirt"; "sweatshirt"]);
    ("cardigan",
     ["开衫"; "开襟衫"; "cardigan"]);
    ("jacket",
     ["夹克"; "外套"; "短外套"; "jacket"; "bomber-jacket"; "denim-jacket";
      "leather-jacket"]);
    ("coat",
     ["大衣"; "风衣"; "毛呢大衣"; "羊毛大衣"; "coat"; "trench-coat"; "wool-coat";
      "overcoat"]);
    ("blazer",
     ["西装外套"; "小西装"; "blazer"; "sport-coat"]);
    ("suit",
     ["西装"; "套装"; "正装"; "suit"; "business-suit"; "formal-suit"]);
    ("vest",
     ["背心"; "马甲"; "vest"; "waistcoat"]);
    ("jumpsuit",
     ["连体裤"; "连身衣"; "jumpsuit"; "romper"; "onesie"]);
    ("romper",
     ["连体短裤"; "romper"]);
    ("leggings",
     ["打底裤"; "leggings"; "yoga-pants"]);
    ("sweatpants",
     ["运动裤"; "sweatpants"; "joggers"]);
    ("pajamas",
     ["睡衣"; "pajamas"; "pjs"; "sleepwear"])
  ]%string.

Definition underscore : N := 0x5F%N.
Definition space : N := 0x20%N.
Definition dot : N := 0x2E%N.

(** [[-_]] and [[-_\s]] *)
Definition isDashUnderscore (c : N) : bool :=
  (c =? hyphen)%N || (c =? underscore)%N.

Definition isSep (c : N) : bool := isDashUnderscore c || isWhiteSpace c.

(** [\w] *)
Definition isWord (c : N) : bool :=
  isUpperAZ c || isLowerAZ c || isDigit c || (c =? underscore)%N.

(** Two units match under the [i] flag.  Every unit of every pattern below
    is ASCII or an ideograph, and for those the engine's canonicalisation
    identifies exactly a letter of [A-Z] with its lower-case form. *)
Definition eqCI (a b : N) : bool := (lowerUnit a =? lowerUnit b)%N.

Fixpoint isPrefixCI (p s : jsstring) : bool :=
  match p, s with
  | [], _ => true
  | _ :: _, [] => false
  | a :: p', b :: s' => eqCI a b && isPrefixCI p' s'
  end.

Fixpoint eqbCI (a b : jsstring) : bool :=
  match a, b with
  | [], [] => true
  | x :: a', y :: b' => eqCI x y && eqbCI a' b'
  | _, _ => false
  end.

Fixpoint dropWhile (cls : N -> bool) (s : jsstring) : jsstring :=
  match s with
  | [] => []
  | c :: t => if cls c then dropWhile cls t else s
  end.

(** Is there a place in [s] where [here] accepts what is left? *)
Fixpoint anywhere (here : jsstring -> bool) (s : jsstring) : bool :=
  here s ||
  match s with
  | [] => false
  | _ :: t => anywhere here t
  end.

(** The same, at the places where [\b] holds; [prev] is the unit before. *)
Definition isWordOpt (c : option N) : bool :=
  match c with Some x => isWord x | None => false end.

Fixpoint atBoundary (here : jsstring -> bool) (prev : option N)
    (s : jsstring) : bool :=
  (xorb (isWordOpt prev) (isWordOpt (hd_error s)) && here s) ||
  match s with
  | [] => false
  | c :: t => atBoundary here (Some c) t
  end.

(** [new RegExp(`\\b${p}\\w*|${p}`, 'i').test(name)]: the trailing [\w*]
    accepts the empty string. *)
Definition testWord (name p : jsstring) : bool :=
  atBoundary (isPrefixCI p) None name || anywhere (isPrefixCI p) name.

(** [p.replace(/[-_]/g, '[-_]?')] matched at the head of [s]. *)
Fixpoint isPrefixLoose (p s : jsstring) : bool :=
  match p with
  | [] => true
  | c :: p' =>
      if isDashUnderscore c then
        match s with
        | x :: s' =>
            (isDashUnderscore x && isPrefixLoose p' s') || isPrefixLoose p' s
        | [] => isPrefixLoose p' []
        end
      else
        match s with
        | x :: s' => eqCI c x && isPrefixLoose p' s'
        | [] => false
        end
  end.

(** [new RegExp(`\\b${p.replace(/[-_]/g, '[-_]?')}\\w*|${p}`, 'i').test(name)] *)
Definition testGarment (name p : jsstring) : bool :=
  atBoundary (isPrefixLoose p) None name || anywhere (isPrefixCI p) name.

(** [Math.max(...patterns.map(p => p.length))] of a non-empty list. *)
Definition maxLen (patterns : list jsstring) : nat :=
  fold_right Nat.max 0 (map (@List.length N) patterns).

(** [entries.sort((a, b) => bMaxLen - aMaxLen)]: a stable sort, longest
    first. *)
Fixpoint insertByMaxLen (x : jsstring * list jsstring) (sorted : RuleTable)
  : RuleTable :=
  match sorted with
  | [] => [x]
  | y :: rest =>
      if maxLen (snd y) <? maxLen (snd x) then x :: y :: rest
      else y :: insertByMaxLen x rest
  end.

Definition sortByMaxLen (entries : RuleTable) : RuleTable :=
  fold_left (fun sorted x => insertByMaxLen x sorted) entries [].

Definition prefixes : list jsstring :=
  map utf16
    ["img_"; "image_"; "photo_"; "pic_"; "picture_"; "dsc_"; "dscn";
     "dscf"; "dsc_"; "img"; "photo"; "pic"; "p"; "wp_"; "wp";
     "snap"; "snapshot"; "capture"; "screenshot"; "screen";
     "wechat"; "wx_"; "qq_"; "alipay_"; "taobao_";
     "export_"; "export"; "output_"; "output";
     "untitled"; "new"; "copy"; "copy of"; "副本"; "新建";
     "2024"; "2023"; "2025"; "2022"; "2021"; "2020";
     "01"; "02"; "03"; "04"; "05"; "06"; "07"; "08"; "09"; "10"; "11";
     "12"]%string.

Definition extensions : list jsstring :=
  map utf16 ["jpg"; "jpeg"; "png"; "gif"; "webp"; "heic"; "heif"]%string.

(** [s.replace(/T$/, '')] for a pattern [T] that can only end at the end
    of the string: the match starts at the first place from which the rest
    of the string is accepted. *)
Fixpoint removeTail (tail : jsstring -> bool) (s : jsstring) : jsstring :=
  if tail s then []
  else match s with
       | [] => []
       | c :: t => c :: removeTail tail t
       end.

(** [\.(jpg|jpeg|png|gif|webp|heic|heif)$] with the [i] flag *)
Definition isExtensionTail (s : jsstring) : bool :=
  match s with
  | c :: ext => (c =? dot)%N && existsb (eqbCI ext) extensions
  | [] => false
  end.

(** [[-_\s]*\d{4,}$] *)
Definition isDigitsTail (s : jsstring) : bool :=
  let r := dropWhile isSep s in
  (4 <=? List.length r) && forallb isDigit r.

(** [[-_\s]*\([^)]*\)$] and [[-_\s]*\[[^\]]*\]$], by their brackets *)
Definition isBracketTail (opening closing : N) (s : jsstring) : bool :=
  match dropWhile isSep s with
  | c :: inner =>
      (c =? opening)%N &&
      match rev inner with
      | z :: body => (z =? closing)%N && forallb (fun x => negb (x =? closing)%N) body
      | [] => false
      end
  | [] => false
  end.

(** One turn of [for (const prefix of prefixes)]. *)
Definition stripPrefix (cleaned prefix : jsstring) : jsstring :=
  if startsWith cleaned prefix
  then dropWhile isSep (trim (skipn (List.length prefix) cleaned))
  else cleaned.

Definition cleanFileName `{CaseFolding} (fileName : jsstring) : jsstring :=
  let cleaned := toLowerCase fileName in
  let cleaned := removeTail isExtensionTail cleaned in
  let cleaned := fold_left stripPrefix prefixes cleaned in
  let cleaned := removeTail isDigitsTail cleaned in
  let cleaned := removeTail (isBracketTail 0x28%N 0x29%N) cleaned in
  let cleaned := removeTail (isBracketTail 0x5B%N 0x5D%N) cleaned in
  trim (replaceRuns isSep [space] false cleaned).

Definition analyzeFileName `{CaseFolding} (fileName : jsstring)
  : list jsstring :=
  let cleaned := cleanFileName fileName in
  let keywords := [] in
  let name :=
    if 2 <? List.length cleaned then cleaned else toLowerCase fileName in
  let hit := includes name in
  let keywords := firstHit (testWord name) colors keywords in
  let keywords := firstHit (testWord name) materials keywords in
  let keywords := firstHit hit Rules.styles keywords in
  let clothingEntries := sortByMaxLen clothing in
  let keywords := firstHit (testGarment name) clothingEntries keywords in
  let keywords := firstHit hit Rules.shoes keywords in
  let keywords := firstHit hit Rules.bags keywords in
  let keywords := firstHit hit Rules.jewelry keywords in
  let keywords := firstHit hit Rules.accessories keywords in
  let keywords := firstHit hit Rules.electronics keywords in
  let keywords := everyHit hit Rules.home keywords in
  let keywords := firstHit hit Rules.furniture keywords in
  let keywords := firstHit hit Rules.kitchen keywords in
  let keywords := firstHit hit Rules.beauty keywords in
  let keywords := firstHit hit Rules.sports keywords in
  let keywords := firstHit hit Rules.baby keywords in
  let keywords := firstHit hit Rules.pet keywords in
  let keywords := firstHit hit Rules.scenes keywords in
  let keywords := firstHit hit Rules.seasons keywords in
  let keywords := firstHit hit Rules.sizes keywords in
  keywords.

(** [Array.from(new Set(all))]: first occurrences, in order. *)
Fixpoint uniqueFrom (seen all : list jsstring) : list jsstring :=
  match all with
  | [] => []
  | k :: rest =>
      if listIncludes seen k then uniqueFrom seen rest
      else k :: uniqueFrom (seen ++ [k]) rest
  end.

(** [analyzeImage]; [aiKeywords] is what [recognizeWithAI] answered, the
    empty list when no recogniser is available or it failed. *)
Definition analyzeImage `{CaseFolding} (aiKeywords : list jsstring)
    (f : File) : ImageInfo :=
  let fileNameKeywords := analyzeFileName (file_name f) in
  let allKeywords := aiKeywords ++ fileNameKeywords in
  let uniqueKeywords := uniqueFrom [] allKeywords in
  let uniqueKeywords :=
    match uniqueKeywords with [] => [product] | _ => uniqueKeywords end in
  {| fileName := file_name f;
     fileType := file_type f;
     fileSize := file_size f;
     suggestedCategory := orElse (hd [] uniqueKeywords) product;
     suggestedKeywords := uniqueKeywords |}.

Definition colorSet : list jsstring :=
  map utf16
    ["red"; "blue"; "green"; "yellow"; "black"; "white"; "gray"; "grey";
     "pink"; "purple"; "orange"; "brown"; "beige"; "gold"; "silver";
     "multicolor"]%string.

Definition materialSet : list jsstring :=
  map utf16
    ["leather"; "canvas"; "cotton"; "silk"; "wool"; "denim"; "linen";
     "velvet"; "lace"; "knit"; "metal"; "wood"; "ceramic"; "glass";
     "plastic"; "rubber"; "carbon-fiber"; "fabric"]%string.

Definition styleSet : list jsstring :=
  map utf16
    ["casual"; "formal"; "vintage"; "minimalist"; "luxury"; "cute";
     "elegant"; "sport"; "classic"; "modern"; "bohemian"; "preppy";
     "street"]%string.

Definition genericSet : list jsstring :=
  map utf16
    ["product"; "all-season"; "mini"; "small"; "medium"; "large";
     "xlarge"]%string.

(** [s.split(/C+/)] *)
Fixpoint splitRuns (cls : N -> bool) (inRun : bool) (cur s : jsstring)
  : list jsstring :=
  match s with
  | [] => [cur]
  | c :: t =>
      if cls c then
        (if inRun then splitRuns cls true [] t
         else cur :: splitRuns cls true [] t)
      else splitRuns cls false (cur ++ [c]) t
  end.

(** [[a-z一-龥\s-]] *)
Definition isWordUnit (c : N) : bool :=
  isLowerAZ c || ((0x4E00 <=? c) && (c <=? 0x9FA5))%N
  || isWhiteSpace c || isHyphen c.

(** [/\.[^.]+$/] *)
Definition isLastDotTail (s : jsstring) : bool :=
  match s with
  | c :: (x :: rest) as ext =>
      (c =? dot)%N && forallb (fun y => negb (y =? dot)%N) ext
  | _ => false
  end.

(** [/^\d+$/.test(w)] *)
Definition allDigits (w : jsstring) : bool :=
  match w with [] => false | _ => forallb isDigit w end.

(** The words the early exit of [extractKeywords] joins. *)
Definition nameWords (cleaned : jsstring) : list jsstring :=
  firstn 3
    (filter (fun w => (2 <? List.length w) && negb (allDigits w))
       (splitRuns (fun c => isWhiteSpace c || isHyphen c) false []
          (map (fun c => if isWordUnit c then c else space) cleaned))).

(** [x !== y] for an optional string [y]. *)
Definition differs (x : jsstring) (y : option jsstring) : bool :=
  match y with
  | Some v => negb (JS.eqb x v)
  | None => true
  end.

(** The part of [extractKeywords] from "智能组合关键词" on. *)
Definition combine (info : ImageInfo) : jsstring :=
  let category := orElse (hd [] (suggestedKeywords info)) product in
  let color := find (listIncludes colorSet) (suggestedKeywords info) in
  let material := find (listIncludes materialSet) (suggestedKeywords info) in
  let style := find (listIncludes styleSet) (suggestedKeywords info) in
  let combinedKeywords := [] in
  let combinedKeywords :=
    if negb (JS.eqb category product) then combinedKeywords ++ [category]
    else combinedKeywords in
  let combinedKeywords := Plain.pushIf color combinedKeywords in
  let combinedKeywords := Plain.pushIf material combinedKeywords in
  let combinedKeywords :=
    if Plain.truthy style && (List.length combinedKeywords <? 3)
    then Plain.pushIf style combinedKeywords else combinedKeywords in
  let combinedKeywords :=
    if (List.length combinedKeywords <? 2)
       && (1 <? List.length (suggestedKeywords info))
    then
      let additionalKeywords :=
        filter
          (fun k =>
             negb (JS.eqb k category) && differs k color
             && differs k material && differs k style
             && negb (listIncludes genericSet k))
          (suggestedKeywords info) in
      match additionalKeywords with
      | k :: _ => combinedKeywords ++ [k]
      | [] => combinedKeywords
      end
    else combinedKeywords in
  let combinedKeywords :=
    match combinedKeywords with
    | [] => [category]
    | _ => combinedKeywords
    end in
  let finalKeywords := join [hyphen] (firstn 4 combinedKeywords) in
  orElse finalKeywords product.

(** The body of [extractKeywords] after [analyzeImage] has answered. *)
Definition composeKeywords `{CaseFolding} (info : ImageInfo) (f : File)
  : jsstring :=
  let early :=
    match suggestedKeywords info with
    | [] => true
    | k :: _ => JS.eqb k product
    end in
  let words :=
    if early then
      let cleaned := cleanFileName (file_name f) in
      if (2 <? List.length cleaned)
         && negb (JS.eqb cleaned
                    (removeTail isLastDotTail (toLowerCase (file_name f))))
      then nameWords cleaned else []
    else [] in
  match words with
  | _ :: _ => join [hyphen] words
  | [] => combine info
  end.

Definition extractKeywords `{CaseFolding} (aiKeywords : list jsstring)
    (f : File) : jsstring :=
  composeKeywords (analyzeImage aiKeywords f) f.

End Enhanced.

(* ================================================================== *)
(** * The specification's own formulations

    What the design document states in its words, to compare the code
    with. *)
(* ================================================================== *)

Module Spec.

(** §4.2: the fixed content-type to extension table, unsupported types
    defaulting to the JPEG extension. *)
Definition extensionFor (type : jsstring) : jsstring :=
  if JS.eqb type (utf16 "image/png") then utf16 "png"
  else if JS.eqb type (utf16 "image/webp") then utf16 "webp"
  else utf16 "jpg".

(** §4.2: a zero-padded two-digit decimal, natural width from 100 on. *)
Definition paddedIndex (sequenceIndex : nat) : jsstring :=
  if sequenceIndex <? 10 then 0x30%N :: decimal sequenceIndex
  else decimal sequenceIndex.

(** §4.2: [{sanitize(keyword) or "product"}-{paddedIndex}.{extension}] *)
Definition name `{CaseFolding} (keyword : jsstring) (sequenceIndex : nat)
    (type : jsstring) : jsstring :=
  match sanitizeKeyword keyword with
  | [] => utf16 "product"
  | c :: sanitized => c :: sanitized
  end ++ utf16 "-" ++ paddedIndex sequenceIndex ++ utf16 "."
    ++ extensionFor type.

(** §4.5: what one image contributes to the result set of a batch run:
    its record when it has a keyword and its transform succeeds, nothing
    otherwise. *)
Definition contribution `{CaseFolding} (B : Browser) (keyword : jsstring)
    (isSquare : bool) (i : nat) (input : InputImage) : list ProcessedImage :=
  if isBlank (keywordFor input keyword) then []
  else match processSingleImage B input (keywordFor input keyword)
               (forceSquareFor input isSquare) i with
       | Some r => [r]
       | None => []
       end.

(** The contributions of the images at positions [i], [i + 1], ... *)
Fixpoint batchResults `{CaseFolding} (B : Browser) (keyword : jsstring)
    (isSquare : bool) (i : nat) (inputs : list InputImage)
  : list ProcessedImage :=
  match inputs with
  | [] => []
  | input :: rest =>
      contribution B keyword isSquare i input
        ++ batchResults B keyword isSquare (S i) rest
  end.

Definition optional (x : option jsstring) : list jsstring :=
  match x with Some k => [k] | None => [] end.

(** §4.4, [extractKeyword] as the document words it: the primary token,
    then a colour, then a material, then a style while fewer than three
    are chosen, otherwise one more non-generic token while fewer than two
    are; at most four, joined by hyphens, ["product"] when empty. *)
Definition claimedKeyword (tokens : list jsstring) : jsstring :=
  let primary := match tokens with k :: _ => k | [] => product end in
  let chosen := [primary] in
  let chosen := chosen ++ optional (find (listIncludes Enhanced.colorSet) tokens) in
  let chosen :=
    chosen ++ optional (find (listIncludes Enhanced.materialSet) tokens) in
  let oneMore (chosen : list jsstring) :=
    if List.length chosen <? 2 then
      chosen ++
        optional
          (find (fun k => negb (listIncludes chosen k)
                          && negb (listIncludes Enhanced.genericSet k))
             tokens)
    else chosen in
  let chosen :=
    match find (listIncludes Enhanced.styleSet) tokens with
    | Some s => if List.length chosen <? 3 then chosen ++ [s]
                else oneMore chosen
    | None => oneMore chosen
    end in
  match join [hyphen] (firstn 4 chosen) with
  | [] => product
  | c :: k => c :: k
  end.

(** The primary token: the first element of the result, ["product"] when
    there is none or it is the empty string. *)
Definition primaryToken (tokens : list jsstring) : jsstring :=
  match tokens with
  | (c :: k) :: _ => c :: k
  | _ => utf16 "product"
  end.

(** The composition of the later revision, stated outright: which tokens
    are chosen, in order. *)
Definition chosenTokens (tokens : list jsstring) : list jsstring :=
  let category := primaryToken tokens in
  let color := find (listIncludes Enhanced.colorSet) tokens in
  let material := find (listIncludes Enhanced.materialSet) tokens in
  let style := find (listIncludes Enhanced.styleSet) tokens in
  let nonEmpty (x : option jsstring) :=
    match x with Some (c :: k) => [c :: k] | _ => [] end in
  let head :=
    (if JS.eqb category product then [] else [category])
      ++ nonEmpty color ++ nonEmpty material in
  let withStyle :=
    if List.length head <? 3 then head ++ nonEmpty style else head in
  let extra :=
    if (List.length withStyle <? 2) && (1 <? List.length tokens) then
      firstn 1
        (filter
           (fun k =>
              negb (JS.eqb k category) && Enhanced.differs k color
              && Enhanced.differs k material && Enhanced.differs k style
              && negb (listIncludes Enhanced.genericSet k))
           tokens)
    else [] in
  match withStyle ++ extra with
  | [] => [category]
  | chosen => chosen
  end.

(** A letter: one of [a-z] or an ideograph of U+4E00..U+9FA5. *)
Definition isLetter (c : N) : bool :=
  ((0x61 <=? c) && (c <=? 0x7A))%N || ((0x4E00 <=? c) && (c <=? 0x9FA5))%N.

(** The words of a text: its maximal runs of letters, in order.  [cur] is
    the run being read. *)
Fixpoint wordsOf (cur s : jsstring) : list jsstring :=
  match s with
  | [] => match cur with [] => [] | _ => [cur] end
  | c :: t =>
      if isLetter c then wordsOf (cur ++ [c]) t
      else match cur with
           | [] => wordsOf [] t
           | _ => cur :: wordsOf [] t
           end
  end.

(** The units of [s] before its first dot. *)
Fixpoint untilDot (s : jsstring) : jsstring :=
  match s with
  | [] => []
  | c :: t => if (c =? 0x2E)%N then [] else c :: untilDot t
  end.

(** A name without its extension: what precedes the last dot, when
    something follows that dot; the whole name otherwise. *)
Definition withoutExtension (name : jsstring) : jsstring :=
  let reversed := rev name in
  let extension := untilDot reversed in
  match extension, skipn (List.length extension) reversed with
  | _ :: _, _ :: stem => rev stem
  | _, _ => name
  end.

(** The early exit of the later revision: when the result is trivial and
    the cleaned file name is longer than two units and is not just the
    lower-cased name without its extension, the first three words of more
    than two letters of the cleaned name. *)
Definition nameWordsOf `{CaseFolding} (tokens : list jsstring)
    (fileName : jsstring) : list jsstring :=
  let cleaned := Enhanced.cleanFileName fileName in
  let trivial :=
    match tokens with
    | [] => true
    | k :: _ => JS.eqb k (utf16 "product")
    end in
  if trivial && (2 <? List.length cleaned)
     && negb (JS.eqb cleaned (withoutExtension (toLowerCase fileName)))
  then firstn 3 (filter (fun w => 2 <? List.length w) (wordsOf [] cleaned))
  else [].

(** The composition of the earlier revision, stated outright. *)
Definition chosenTokensPlain (tokens : list jsstring) : list jsstring :=
  let category := primaryToken tokens in
  let color := find (listIncludes Plain.colorSet) tokens in
  let material := find (listIncludes Plain.materialSet) tokens in
  let style := find (listIncludes Plain.styleSet) tokens in
  let nonEmpty (x : option jsstring) :=
    match x with Some (c :: k) => [c :: k] | _ => [] end in
  let described := nonEmpty color ++ nonEmpty material ++ nonEmpty style in
  match described with
  | [] =>
      category ::
      (if 1 <? List.length tokens
       then nonEmpty (find (fun k => negb (JS.eqb k category)) tokens)
       else [])
  | _ => category :: described
  end.

(** §4.4: the contribution of a category that stops at its first hit, and
    of one that does not. *)
Definition firstToken (hit : jsstring -> bool) (entries : RuleTable)
  : list jsstring :=
  match find (fun e => existsb hit (snd e)) entries with
  | Some e => [fst e]
  | None => []
  end.

Definition everyToken (hit : jsstring -> bool) (entries : RuleTable)
  : list jsstring :=
  map fst (filter (fun e => existsb hit (snd e)) entries).

End Spec.

(* ================================================================== *)
(** * Concrete inputs

    A browser and a few files to run the code on. *)
(* ================================================================== *)

Module Demo.

Definition bytesOf (n : nat) : list Byte.byte := repeat Byte.x2a n.

Definition fileOf (name type : string) (size : nat) : File :=
  {| file_name := utf16 name; file_lastModified := 17;
     file_blob := {| blob_type := utf16 type; blob_bytes := bytesOf size |} |}.

Arguments fileOf (name type)%_string size.

(** A browser that decodes every non-empty blob, always has a 2d context,
    and whose encoder writes [scale / 4] times the bytes it was given. *)
Definition browser (scale : nat) : Browser :=
  {| createImageBitmap := fun b =>
       match blob_bytes b with
       | [] => None
       | bs => Some {| bm_width := 4; bm_height := 3; bm_pixels := bs |}
       end;
     loadImage := fun _ => None;
     getContext2d := fun _ => true;
     toBlob := fun c type _ =>
       match drawn c with
       | Some (bm, _, _) =>
           Some {| blob_type := type;
                   blob_bytes :=
                     bytesOf (List.length (bm_pixels bm) * scale / 4) |}
       | None => None
       end;
     createObjectURL := fun b => utf16 "blob:" ++ decimal (blob_size b);
     randomSalt := fun k => utf16 "salt" ++ decimal k |}.

Definition inputOf (name type : string) (size : nat) : InputImage :=
  {| id := utf16 name; file := fileOf name type size; previewUrl := [];
     customKeyword := None; forceSquare := None;
     processingProgress := None; isProcessing := None |}.

Arguments inputOf (name type)%_string size.

Definition shrinking : Browser := browser 2.
Definition inflating : Browser := browser 6.

Definition emptyState : AppState :=
  {| keyword := []; files := []; processed := []; isSquare := false;
     batchProcessing := false; message := None; lang := en;
     totalProcessedCount := 0; aiCompletedItemIds := []; signals := [];
     revoked := []; persistedTotal := None |}.

Definition twelveFiles : list File :=
  map (fun k => fileOf "photo.jpg" "image/jpeg" (100 + k)) (seq 0 12).

(** Three accepted images, the second of which cannot be decoded. *)
Definition threeImages : AppState :=
  setKeyword (utf16 "Summer Silk Dress!!")
    (handleFiles shrinking
       (Some [fileOf "a.jpg" "image/jpeg" 400;
              fileOf "b.png" "image/png" 0;
              fileOf "c.webp" "image/webp" 800])
       emptyState).

Definition idAt (st : AppState) (i : nat) : jsstring :=
  match nth_error (files st) i with
  | Some f => id f
  | None => []
  end.

End Demo.

(* ================================================================== *)
(** * More of the component ([App.tsx])

    The rest of the later revision: the derived flags, the file-name
    preview of a row, the timers' callbacks, the mount effect and the
    language switch. *)
(* ================================================================== *)

Definition setIsSquare (checked : bool) (st : AppState) : AppState :=
  {| keyword := keyword st; files := files st; processed := processed st;
     isSquare := checked; batchProcessing := batchProcessing st;
     message := message st; lang := lang st;
     totalProcessedCount := totalProcessedCount st;
     aiCompletedItemIds := aiCompletedItemIds st;
     signals := signals st; revoked := revoked st;
     persistedTotal := persistedTotal st |}.

Definition setLang (l : Lang) (st : AppState) : AppState :=
  {| keyword := keyword st; files := files st; processed := processed st;
     isSquare := isSquare st; batchProcessing := batchProcessing st;
     message := message st; lang := l;
     totalProcessedCount := totalProcessedCount st;
     aiCompletedItemIds := aiCompletedItemIds st;
     signals := signals st; revoked := revoked st;
     persistedTotal := persistedTotal st |}.

(** [setTotalProcessedCount(count)] as the mount effect calls it: no write
    to local storage. *)
Definition setTotalProcessedCount (count : nat) (st : AppState) : AppState :=
  {| keyword := keyword st; files := files st; processed := processed st;
     isSquare := isSquare st; batchProcessing := batchProcessing st;
     message := message st; lang := lang st;
     totalProcessedCount := count;
     aiCompletedItemIds := aiCompletedItemIds st;
     signals := signals st; revoked := revoked st;
     persistedTotal := persistedTotal st |}.

(** [!!keyword.trim() && files.length > 0 && !isProcessing] *)
Definition canProcess (st : AppState) : bool :=
  negb (isBlank (keyword st)) && (0 <? List.length (files st))
  && negb (batchProcessing st).

Definition hasProcessedImages (st : AppState) : bool :=
  0 <? List.length (processed st).

(** ** The preview of a row *)

(** [s.split(sep)] for a one-unit separator; [cur] is the piece being
    read. *)
Fixpoint splitOn (sep : N) (cur s : jsstring) : list jsstring :=
  match s with
  | [] => [cur]
  | c :: t =>
      if (c =? sep)%N then cur :: splitOn sep [] t
      else splitOn sep (cur ++ [c]) t
  end.

(** The value of [a.pop()]. *)
Definition pop (a : list jsstring) : option jsstring :=
  match rev a with
  | x :: _ => Some x
  | [] => None
  end.

(** What the second column of a row shows: the waiting text or a name. *)
Inductive PreviewName :=
| waiting (l : Lang)
| named (n : jsstring).

Definition generatePreviewName `{CaseFolding} (l : Lang)
    (displayKeyword : jsstring) (item : InputImage) (index : nat)
  : PreviewName :=
  if isBlank displayKeyword then waiting l
  else
    let cleanKeyword :=
      orElse (sanitizeKeyword displayKeyword) (utf16 "product") in
    let indexStr := indexStrOf index in
    let ext :=
      match pop (splitOn Enhanced.dot [] (file_name (file item))) with
      | Some (c :: e) => c :: e
      | _ => utf16 "jpg"
      end in
    named (cleanKeyword ++ [hyphen] ++ indexStr ++ [Enhanced.dot] ++ ext).

(** [matched ? matched.seoName : generatePreviewName()] for the row of
    [item], the [index]-th of [files]. *)
Definition previewName `{CaseFolding} (st : AppState) (item : InputImage)
    (index : nat) : PreviewName :=
  match find (fun p => JS.eqb (p_id p) (id item)) (processed st) with
  | Some matched => named (seoName matched)
  | None =>
      generatePreviewName (lang st) (keywordFor item (keyword st)) item index
  end.

(** ** Timers *)

(** The callback of the [setTimeout(..., 500)] that a successful
    [compressSingleImage] leaves behind. *)
Definition clearProgressOf (imageId : jsstring) (st : AppState) : AppState :=
  setFiles (updateById imageId (withProgress (Some false) None)) st.

(** One tick of the [setInterval(..., 200)] that runs while
    [compressSingleImage] waits for the pipeline. *)
Definition progressTick (imageId : jsstring) (st : AppState) : AppState :=
  setFiles
    (map (fun f =>
            match isProcessing f, processingProgress f with
            | Some true, Some progress =>
                if JS.eqb (id f) imageId
                then withProgressOnly (Some (Nat.min (progress + 10) 90)) f
                else f
            | _, _ => f
            end)) st.

(** ** The lifetime count in local storage *)

Fixpoint leadingDigits (s : jsstring) : jsstring :=
  match s with
  | c :: t => if isDigit c then c :: leadingDigits t else []
  | [] => []
  end.

Definition numberOfDigits (ds : jsstring) : Z :=
  fold_left (fun acc c => (acc * 10 + (Z.of_N c - 48))%Z) ds 0%Z.

(** [parseInt(text, 10)], [None] for not-a-number: leading white space, an
    optional sign, then the longest run of decimal digits.  The integer is
    the number the engine returns as long as a double holds it exactly
    (below [2^53] in magnitude). *)
Definition parseInt10 (text : jsstring) : option Z :=
  let s := trimStart text in
  let '(negative, s) :=
    match s with
    | c :: t =>
        if (c =? 0x2D)%N then (true, t)
        else if (c =? 0x2B)%N then (false, t)
        else (false, s)
    | [] => (false, [])
    end in
  match leadingDigits s with
  | [] => None
  | ds => Some (if negative then (- numberOfDigits ds)%Z
                else numberOfDigits ds)
  end.

(** [localStorage.getItem('totalProcessedCount')] after the writes of
    [addTotalProcessed]: [String(newTotal)]. *)
Definition storedTotal (st : AppState) : option jsstring :=
  option_map decimal (persistedTotal st).

(** The first lines of the mount effect. *)
Definition loadTotal (savedCount : option jsstring) (st : AppState)
  : AppState :=
  match savedCount with
  | Some (c :: s) =>
      match parseInt10 (c :: s) with
      | Some count =>
          if (0 <=? count)%Z then setTotalProcessedCount (Z.to_nat count) st
          else st
      | None => st
      end
  | _ => st
  end.

(** ** The language *)

Definition zhList : list jsstring :=
  map utf16 ["zh"; "zh-cn"; "zh-hans"; "zh-hk"; "zh-mo"; "zh-tw"]%string.

(** [navigator] is [None] where there is no [navigator] object, and its
    [language] is [None] where the property is missing. *)
Definition detectLangFromNavigator `{CaseFolding}
    (navigator : option (option jsstring)) : Lang :=
  match navigator with
  | None => zh
  | Some language =>
      let nav :=
        match language with
        | Some l => orElse (toLowerCase l) []
        | None => []
        end in
      if existsb (startsWith nav) zhList then zh else en
  end.

(** The [lang] item of local storage and the [userSelectedLang] ref. *)
Record LangPrefs := {
  savedLang : option jsstring;
  userSelectedLang : bool
}.

Definition langCode (l : Lang) : jsstring :=
  match l with
  | zh => utf16 "zh"
  | en => utf16 "en"
  end.

Definition handleLangToggle (st : AppState) (p : LangPrefs)
  : AppState * LangPrefs :=
  let next := match lang st with zh => en | en => zh end in
  (setLang next st,
   {| savedLang := Some (langCode next); userSelectedLang := true |}).

(** The mount effect up to the point where it returns or sends the
    geolocation request; the flag says whether the request was sent. *)
Definition mountEffect `{CaseFolding} (savedCount : option jsstring)
    (navigator : option (option jsstring)) (p : LangPrefs) (st : AppState)
  : AppState * bool :=
  let st1 := loadTotal savedCount st in
  let detect := (setLang (detectLangFromNavigator navigator) st1, true) in
  match savedLang p with
  | Some saved =>
      if JS.eqb saved (utf16 "zh") then (setLang zh st1, false)
      else if JS.eqb saved (utf16 "en") then (setLang en st1, false)
      else detect
  | None => detect
  end.

(** [data?.country_code] in the answer of the geolocation service: falsy,
    a string, or a truthy value that is not a string. *)
Inductive CountryCode :=
| noCountry
| country (code : jsstring)
| notText.

(** The [then] callback of the request.  [toUpperCase] is the engine's;
    calling it on a value that is not a string throws, and the [catch]
    that follows ignores the error. *)
Definition geoAnswer (zhCountries : list jsstring)
    (toUpperCase : jsstring -> jsstring) (cancelled : bool)
    (data : CountryCode) (p : LangPrefs) (st : AppState) : AppState :=
  if cancelled || userSelectedLang p then st
  else
    match data with
    | notText => st
    | noCountry =>
        if listIncludes zhCountries (toUpperCase []) then setLang zh st
        else setLang en st
    | country code =>
        if listIncludes zhCountries (toUpperCase code) then setLang zh st
        else setLang en st
    end.

(** The countries of the later and of the earlier revision. *)
Definition zhCountries : list jsstring :=
  map utf16 ["CN"; "HK"; "TW"; "MO"]%string.

Definition zhCountriesEarlier : list jsstring :=
  map utf16 ["CN"; "HK"]%string.

(* ================================================================== *)
(** * The visual recogniser ([utils/imageClassifier.ts], later revision)

    What the class does with the answers of the recognisers.  The model,
    the network and the image decoder are outside: an answer that did not
    arrive, for whatever reason, is [None]. *)
(* ================================================================== *)

Module Vision.

Import PrimFloat.

Record Prediction := {
  className : jsstring;
  probability : float
}.

(** The complement of [[^a-z0-9\s-]]. *)
Definition labelUnit (c : N) : bool :=
  isLowerAZ c || isDigit c || isWhiteSpace c || isHyphen c.

(** [name.toLowerCase().replace(/[^a-z0-9\s-]/g, '').replace(/\s+/g, '-')] *)
Definition labelOf `{CaseFolding} (name : jsstring) : jsstring :=
  replaceRuns isWhiteSpace [hyphen] false
    (filter labelUnit (toLowerCase name)).

(** [predictions.forEach(...)]: the labels of the predictions above 0.3,
    longer than two units, each once. *)
Definition collectLabels `{CaseFolding} (predictions : list Prediction)
  : list jsstring :=
  fold_left
    (fun keywords prediction =>
       if (0x1.3333333333333p-2 <? probability prediction)%float then
         let label := labelOf (className prediction) in
         if (2 <? List.length label) && negb (listIncludes keywords label)
         then keywords ++ [label]
         else keywords
       else keywords)
    predictions [].

Definition keywordMap : list (jsstring * jsstring) :=
  map (fun row => (utf16 (fst row), utf16 (snd row)))
    [("dress", "dress"); ("shirt", "shirt"); ("t-shirt", "t-shirt");
     ("jeans", "jeans"); ("pants", "pants"); ("trousers", "pants");
     ("shoes", "sneakers"); ("boots", "boots"); ("handbag", "handbag");
     ("backpack", "backpack"); ("watch", "watch");
     ("sunglasses", "sunglasses"); ("jacket", "jacket"); ("coat", "coat");
     ("sweater", "sweater"); ("skirt", "skirt"); ("shorts", "shorts");
     ("phone", "smartphone"); ("mobile-phone", "smartphone");
     ("laptop", "laptop"); ("headphones", "headphones");
     ("camera", "camera"); ("bottle", "water-bottle"); ("cup", "cup");
     ("chair", "chair"); ("table", "table"); ("sofa", "sofa");
     ("couch", "sofa"); ("bed", "bed"); ("lamp", "lamp");
     ("sneakers", "sneakers"); ("running-shoes", "sneakers");
     ("sports-shoe", "sneakers"); ("tennis-shoe", "sneakers")]%string.

Definition excludeWords : list jsstring :=
  map utf16 ["image"; "photo"; "picture"; "photograph"; "snapshot"]%string.

(** The names every object literal answers to besides its own keys: the
    members of [Object.prototype]. *)
Definition inheritedNames : list jsstring :=
  map utf16
    ["constructor"; "hasOwnProperty"; "isPrototypeOf";
     "propertyIsEnumerable"; "toLocaleString"; "toString"; "valueOf";
     "__proto__"; "__defineGetter__"; "__defineSetter__";
     "__lookupGetter__"; "__lookupSetter__"]%string.

(** The value of [keywordMap[label] || label]: a string, or one of the
    inherited members (functions of at most two parameters, and the
    prototype object). *)
Inductive Mapped :=
| text (k : jsstring)
| inherited.

Fixpoint lookup (table : list (jsstring * jsstring)) (key : jsstring)
  : option jsstring :=
  match table with
  | [] => None
  | (k, v) :: rest => if JS.eqb k key then Some v else lookup rest key
  end.

Definition mapLabel (label : jsstring) : Mapped :=
  match lookup keywordMap label with
  | Some (c :: v) => text (c :: v)
  | Some [] => text label
  | None =>
      if listIncludes inheritedNames label then inherited else text label
  end.

(** [k.length > 2 && !excludeWords.includes(k)]; the [length] of an
    inherited member is at most 2 or undefined. *)
Definition keepMapped (k : Mapped) : list jsstring :=
  match k with
  | text k =>
      if (2 <? List.length k) && negb (listIncludes excludeWords k)
      then [k] else []
  | inherited => []
  end.

(** [recognizeWithMobileNet]; [predictions] is the answer of
    [model.classify], [None] when the model or the image could not be
    loaded. *)
Definition recognizeWithMobileNet `{CaseFolding}
    (predictions : option (list Prediction)) : list jsstring :=
  match predictions with
  | None => []
  | Some predictions =>
      let keywords := collectLabels predictions in
      firstn 4 (flat_map keepMapped (map mapLabel keywords))
  end.

Inductive Provider := openai | google | huggingface | none.

Record AIConfig := {
  provider : Provider;
  apiKey : option jsstring;
  enabled : bool
}.

Definition hasKey (config : AIConfig) : bool :=
  match apiKey config with
  | Some (_ :: _) => true
  | _ => false
  end.

(** [recognizeWithOpenAI]; [answer] is [None] when the request failed and
    holds the [content] of the first choice otherwise, if there is one. *)
Definition recognizeWithOpenAI `{CaseFolding} (config : AIConfig)
    (answer : option (option jsstring)) : list jsstring :=
  if negb (hasKey config) then []
  else
    match answer with
    | None => []
    | Some content =>
        let keywords :=
          match content with
          | Some c => orElse (trim c) []
          | None => []
          end in
        map (fun k =>
               replaceRuns isWhiteSpace [hyphen] false (toLowerCase (trim k)))
          (splitOn 0x2C%N [] keywords)
    end.

Record Annotation := {
  description : jsstring;
  score : float
}.

Definition confident `{CaseFolding} (annotations : list Annotation)
  : list jsstring :=
  flat_map
    (fun a =>
       if (0x1.6666666666666p-1 <? score a)%float
       then [replaceRuns isWhiteSpace [hyphen] false
               (toLowerCase (description a))]
       else [])
    annotations.

(** [recognizeWithGoogle]; [answer] is [None] when the request failed and
    holds the label and the object annotations of the first response
    otherwise. *)
Definition recognizeWithGoogle `{CaseFolding} (config : AIConfig)
    (answer : option (list Annotation * list Annotation)) : list jsstring :=
  if negb (hasKey config) then []
  else
    match answer with
    | None => []
    | Some (labels, objects) =>
        firstn 5 (confident labels ++ confident objects)
    end.

(** What the recognisers would answer for one image. *)
Record Answers := {
  mobileNet : option (list Prediction);
  openAI : option (option jsstring);
  googleVision : option (list Annotation * list Annotation)
}.

Definition recognizeWithAI `{CaseFolding} (config : AIConfig)
    (answers : Answers) : list jsstring :=
  match recognizeWithMobileNet (mobileNet answers) with
  | k :: rest => k :: rest
  | [] =>
      if enabled config
         && negb (match provider config with none => true | _ => false end)
      then
        match provider config with
        | openai => recognizeWithOpenAI config (openAI answers)
        | google => recognizeWithGoogle config (googleVision answers)
        | _ => []
        end
      else []
  end.

Definition analyzeImage `{CaseFolding} (config : AIConfig)
    (answers : Answers) (f : File) : ImageInfo :=
  Enhanced.analyzeImage (recognizeWithAI config answers) f.

Definition extractKeywords `{CaseFolding} (config : AIConfig)
    (answers : Answers) (f : File) : jsstring :=
  Enhanced.extractKeywords (recognizeWithAI config answers) f.

End Vision.

(* ================================================================== *)
(** * More concrete inputs *)
(* ================================================================== *)

Module Sample.

(** Two images to process with the keyword ["Desk Lamp"]. *)
Definition twoImages : AppState :=
  setKeyword (utf16 "Desk Lamp")
    (handleFiles Demo.shrinking
       (Some [Demo.fileOf "a.jpg" "image/jpeg" 400;
              Demo.fileOf "c.webp" "image/webp" 800])
       Demo.emptyState).

(** A browser without a 2d canvas context. *)
Definition broken : Browser :=
  {| createImageBitmap := createImageBitmap Demo.shrinking;
     loadImage := loadImage Demo.shrinking;
     getContext2d := fun _ => false;
     toBlob := toBlob Demo.shrinking;
     createObjectURL := createObjectURL Demo.shrinking;
     randomSalt := randomSalt Demo.shrinking |}.

Definition noAnswers : Vision.Answers :=
  {| Vision.mobileNet := None; Vision.openAI := None;
     Vision.googleVision := None |}.

(** The model is sure to see a running shoe, and less sure of a
    sandal. *)
Definition shoePhoto : Vision.Answers :=
  {| Vision.mobileNet :=
       Some [ {| Vision.className := utf16 "Running Shoes";
                 Vision.probability := 0x1.ccccccccccccdp-1%float |};
              {| Vision.className := utf16 "Sandal";
                 Vision.probability := 0x1.999999999999ap-4%float |} ];
     Vision.openAI := None; Vision.googleVision := None |}.

Definition offline : Vision.AIConfig :=
  {| Vision.provider := Vision.none; Vision.apiKey := None;
     Vision.enabled := false |}.

End Sample.

(* ================================================================== *)
(** * Predicates the properties are stated with *)
(* ================================================================== *)

(** In [s], every unit of the class [cls] is [h] and no two of them are
    neighbours; [prev] says that the unit before [s] is of the class. *)
Fixpoint normalRuns (cls : N -> bool) (h : N) (prev : bool) (s : jsstring)
  : bool :=
  match s with
  | [] => true
  | c :: t =>
      if cls c then (c =? h)%N && negb prev && normalRuns cls h true t
      else normalRuns cls h false t
  end.

(** A piece of a split that is not the empty string. *)
Definition nonEmpty (w : jsstring) : bool :=
  match w with [] => false | _ => true end.

Definition notDot (c : N) : bool := negb (c =? Enhanced.dot)%N.

(** [if (item.downloadUrl)]: an empty URL is falsy. *)
Definition nonEmptyUrl (u : jsstring) : bool :=
  match u with [] => false | _ => true end.

(** The part of an image that no handler rewrites: its id and its file. *)
Definition core (f : InputImage) : jsstring * File := (id f, file f).

(** A token that joins well: not empty, made of [a-z], [0-9], ideographs
    and hyphens, with no hyphen first, last or twice in a row. *)
Definition tidyToken (s : jsstring) : bool :=
  match s with
  | [] => false
  | c :: _ =>
      forallb tokenUnit s && negb (isHyphen c) && negb (isHyphen (last s c))
      && normalRuns isHyphen hyphen false s
  end.

(** A keyword that [sanitizeKeyword] has nothing to do on. *)
Definition tidyKeyword (s : jsstring) : bool :=
  forallb tokenUnit s && normalRuns isHyphen hyphen false s.

(** The units of a recognised label: [a-z], [0-9] and the hyphen. *)
Definition labelChar (c : N) : bool :=
  isLowerAZ c || isDigit c || isHyphen c.

(** Longest pattern first: no entry comes after one whose longest pattern
    is shorter. *)
Fixpoint descending (l : RuleTable) : bool :=
  match l with
  | [] => true
  | x :: rest =>
      forallb
        (fun y => Enhanced.maxLen (snd y) <=? Enhanced.maxLen (snd x)) rest
      && descending rest
  end.

(* ================================================================== *)
(** * The component in time

    A handler runs with the cells of the render that created it.  What it
    leaves pending, an awaited promise or a timer, resumes later with those
    same cells, whatever the cells have become by then, while the updater
    functions it hands to the setters act on the cells of that moment.
    [processImages] waits for the pipeline once per image, and
    [compressSingleImage] is only ever called by a timer that the keyword
    editor of a row sets 300 ms earlier.  The pipeline itself reads and
    writes no cell, so a wait for it is one step.

    The cells a user's event meets are those of the render on screen: the
    setters of one handler or continuation are rendered together before
    the next event is served.

    [processImages] and [compressSingleImage] above are these two handlers
    when nothing comes in between and the cells they run on are the cells
    they captured. *)
(* ================================================================== *)

(** The cells of the component that only the rows read. *)
Record Ui := {
  hoveredItemId : option jsstring;
  editingItemId : option jsstring;
  editingKeyword : jsstring;
  aiProcessingItemId : option jsstring
}.

(** What is pending: a promise that a handler awaits or a timer it has
    set, with the cells that handler was created with where it goes on
    reading them, and with the answer that is going to come where the
    answer is not the browser's: the keyword that [extractKeywords] finds,
    the archive, and for the geolocation request of the mount effect the
    country and whether its three seconds will have passed. *)
Inductive Task :=
| batchAwaits (closure : AppState) (i : nat) (results : list ProcessedImage)
| batchTimeout
| reprocessTimeout (closure : AppState) (imageId : jsstring)
| reprocessAwaits (closure : AppState) (imageId : jsstring)
| progressTimeout (imageId : jsstring)
| aiAwaits (imageId detectedKeyword : jsstring)
| zipAwaits (zip : Blob)
| geoAwaits (toUpperCase : jsstring -> jsstring) (cancelled : bool)
    (data : CountryCode)
| settled.

(** ** [processImages], one wait at a time *)

(** From [setProcessed(results)] to the end. *)
Definition batchEnd (closure : AppState) (results : list ProcessedImage)
    (st : AppState) : AppState :=
  let st1 := setProcessed (fun _ => results) st in
  let st2 := setIsProcessing false st1 in
  let st3 :=
    setMessage
      (Some (match results with
             | [] => messageFail (lang closure)
             | _ => messageDone (lang closure)
             end)) st2 in
  match results with
  | [] => st3
  | _ => addTotalProcessed (List.length results) st3
  end.

(** The loop from the head of its body at position [i], where [todo] is
    what is left of the captured [files], up to the next
    [await processSingleImage(...)] or, past the loop, to the end of the
    function, which leaves the 500 ms timer behind. *)
Fixpoint batchLoop (closure : AppState) (todo : list InputImage) (i : nat)
    (results : list ProcessedImage) (st : AppState) : AppState * Task :=
  match todo with
  | [] => (batchEnd closure results st, batchTimeout)
  | input :: rest =>
      let keywordToUse := keywordFor input (keyword closure) in
      if isBlank keywordToUse then
        batchLoop closure rest (S i) results
          (setFiles (updateById (id input) (withProgress (Some false) None))
             st)
      else
        let progress := progressOf i (List.length (files closure)) in
        (setFiles (updateById (id input) (withProgressOnly (Some progress)))
           st,
         batchAwaits closure i results)
  end.

(** The call itself, up to its first wait. *)
Definition batchStart (closure : AppState) (st : AppState)
  : AppState * option Task :=
  match files closure with
  | [] => (st, None)
  | _ =>
      if isBlank (keyword closure) then (st, None) else
      let st1 := setIsProcessing true st in
      let st2 := setMessage (Some (messageProcessing (lang closure))) st1 in
      let st3 := revokeDownloadUrls (processed closure) st2 in
      let st4 :=
        setFiles (map (withProgress (Some true) (Some 0))) st3 in
      let '(st5, t) := batchLoop closure (files closure) 0 [] st4 in
      (st5, Some t)
  end.

(** The pipeline has answered for the image at position [i]. *)
Definition batchResume `{CaseFolding} (B : Browser) (closure : AppState)
    (i : nat) (results : list ProcessedImage) (st : AppState)
  : AppState * Task :=
  match skipn i (files closure) with
  | [] => (st, settled)
  | input :: rest =>
      let keywordToUse := keywordFor input (keyword closure) in
      let forceSquareToUse := forceSquareFor input (isSquare closure) in
      match processSingleImage B input keywordToUse forceSquareToUse i with
      | Some result =>
          batchLoop closure rest (S i) (results ++ [result])
            (setFiles
               (updateById (id input) (withProgress (Some false) (Some 100)))
               st)
      | None =>
          batchLoop closure rest (S i) results
            (setFiles
               (updateById (id input) (withProgress (Some false) None)) st)
      end
  end.

(** ** [compressSingleImage], one wait at a time *)

(** The call, up to [await processSingleImage(...)]. *)
Definition reprocessStart (closure : AppState) (imageId : jsstring)
    (st : AppState) : AppState * Task :=
  match find (fun f => JS.eqb (id f) imageId) (files closure) with
  | None => (st, settled)
  | Some image =>
      let keywordToUse := keywordFor image (keyword closure) in
      if isBlank keywordToUse then
        (setMessage (Some (messageEnterKeyword (lang closure))) st, settled)
      else
        let st1 :=
          match find (fun p => JS.eqb (p_id p) imageId) (processed closure)
          with
          | Some existingProcessed =>
              revokeObjectURL (downloadUrl existingProcessed) st
          | None => st
          end in
        (setFiles (updateById imageId (withProgress (Some true) (Some 0)))
           st1,
         reprocessAwaits closure imageId)
  end.

(** The pipeline has answered. *)
Definition reprocessResume `{CaseFolding} (B : Browser) (closure : AppState)
    (imageId : jsstring) (st : AppState) : AppState * Task :=
  match find (fun f => JS.eqb (id f) imageId) (files closure) with
  | None => (st, settled)
  | Some image =>
      let keywordToUse := keywordFor image (keyword closure) in
      let forceSquareToUse := forceSquareFor image (isSquare closure) in
      let index := findIndex imageId (files closure) in
      match processSingleImage B image keywordToUse forceSquareToUse
              (Z.to_nat index) with
      | Some result =>
          let st1 :=
            setFiles
              (updateById imageId (withProgress (Some false) (Some 100)))
              st in
          let st2 :=
            setProcessed
              (fun prev =>
                 filter (fun p => negb (JS.eqb (p_id p) imageId)) prev
                   ++ [result]) st1 in
          (addTotalProcessed 1 st2, progressTimeout imageId)
      | None =>
          let st1 :=
            setFiles (updateById imageId (withProgress (Some false) None))
              st in
          (setMessage (Some (messageRetry (lang closure))) st1, settled)
      end
  end.

(** ** The other continuations *)

(** [new Set(prev).add(imageId)] *)
Definition setAdd (x : jsstring) (s : list jsstring) : list jsstring :=
  if listIncludes s x then s else s ++ [x].

(** [handleSingleImageAiDetect] after [await extractKeywords(image.file)];
    both revisions of [extractKeywords] catch every failure themselves. *)
Definition aiAnswer (imageId detectedKeyword : jsstring) (st : AppState)
  : AppState :=
  setAiCompletedItemIds (setAdd imageId)
    (setFiles
       (updateById imageId (withCustomKeyword (Some detectedKeyword))) st).

(** A pending continuation runs on the cells [st]; what it leaves
    pending takes its place. *)
Definition advance `{CaseFolding} (B : Browser) (p : LangPrefs) (t : Task)
    (st : AppState) : AppState * Task :=
  match t with
  | batchAwaits closure i results => batchResume B closure i results st
  | batchTimeout => (clearProgress st, settled)
  | reprocessTimeout closure imageId => reprocessStart closure imageId st
  | reprocessAwaits closure imageId => reprocessResume B closure imageId st
  | progressTimeout imageId => (clearProgressOf imageId st, settled)
  | aiAwaits imageId detectedKeyword =>
      (aiAnswer imageId detectedKeyword st, settled)
  | zipAwaits zip => (revokeObjectURL (createObjectURL B zip) st, settled)
  | geoAwaits toUpperCase cancelled data =>
      (geoAnswer zhCountries toUpperCase cancelled data p st, settled)
  | settled => (st, settled)
  end.

(** ** The component *)

(** The cells, the pending continuations in the order they were created
    (a continuation keeps its place), the language items of local
    storage, and how often [Math.random] has been called. *)
Record Component := {
  cells : AppState;
  ui : Ui;
  prefs : LangPrefs;
  pending : list Task;
  randomCalls : nat
}.

Definition setCells (st : AppState) (m : Component) : Component :=
  {| cells := st; ui := ui m; prefs := prefs m; pending := pending m;
     randomCalls := randomCalls m |}.

Definition setUi (u : Ui) (m : Component) : Component :=
  {| cells := cells m; ui := u; prefs := prefs m; pending := pending m;
     randomCalls := randomCalls m |}.

Definition later (t : Task) (m : Component) : Component :=
  {| cells := cells m; ui := ui m; prefs := prefs m;
     pending := pending m ++ [t]; randomCalls := randomCalls m |}.

Fixpoint replaceAt {A : Type} (n : nat) (x : A) (l : list A) : list A :=
  match l, n with
  | [], _ => []
  | _ :: rest, 0 => x :: rest
  | y :: rest, S k => y :: replaceAt k x rest
  end.

(** The browser after [k] calls of [Math.random]. *)
Definition fromCall (k : nat) (B : Browser) : Browser :=
  {| createImageBitmap := createImageBitmap B;
     loadImage := loadImage B;
     getContext2d := getContext2d B;
     toBlob := toBlob B;
     createObjectURL := createObjectURL B;
     randomSalt := fun n => randomSalt B (k + n) |}.

(** The row of an id, and [processed.find(p => p.id === item.id)]. *)
Definition rowOf (st : AppState) (itemId : jsstring) : option InputImage :=
  find (fun f => JS.eqb (id f) itemId) (files st).

Definition matched (st : AppState) (itemId : jsstring)
  : option ProcessedImage :=
  find (fun p => JS.eqb (p_id p) itemId) (processed st).

(** [item.isProcessing || (isProcessing && files.length === 1 &&
    files[0].id === item.id)] *)
Definition isProcessingSingle (st : AppState) (item : InputImage) : bool :=
  match isProcessing item with Some true => true | _ => false end
  || (batchProcessing st && (List.length (files st) =? 1)
      && match files st with
         | f :: _ => JS.eqb (id f) (id item)
         | [] => false
         end).

Definition withHovered (h : option jsstring) (u : Ui) : Ui :=
  {| hoveredItemId := h; editingItemId := editingItemId u;
     editingKeyword := editingKeyword u;
     aiProcessingItemId := aiProcessingItemId u |}.

Definition withEditing (e : option jsstring) (k : jsstring) (u : Ui) : Ui :=
  {| hoveredItemId := hoveredItemId u; editingItemId := e;
     editingKeyword := k; aiProcessingItemId := aiProcessingItemId u |}.

Definition withAiProcessing (a : option jsstring) (u : Ui) : Ui :=
  {| hoveredItemId := hoveredItemId u; editingItemId := editingItemId u;
     editingKeyword := editingKeyword u; aiProcessingItemId := a |}.

(** [onKeyDown] with Enter and [onBlur] of the inline editor: the edit is
    stored, the editor closes, and a row that has a result is reprocessed
    300 ms later by the [compressSingleImage] of this render. *)
Definition commitEditor (m : Component) : Component :=
  match editingItemId (ui m) with
  | None => m
  | Some itemId =>
      match rowOf (cells m) itemId with
      | None => m
      | Some item =>
          let m1 :=
            setUi (withEditing None [] (ui m))
              (setCells
                 (commitKeywordEdit (id item) (editingKeyword (ui m))
                    (cells m)) m) in
          match matched (cells m) (id item) with
          | Some _ => later (reprocessTimeout (cells m) (id item)) m1
          | None => m1
          end
      end
  end.

(** [handleSingleImageAiDetect] up to its wait; [detectedKeyword] is what
    [extractKeywords] is going to answer. *)
Definition handleSingleImageAiDetect (imageId detectedKeyword : jsstring)
    (m : Component) : Component :=
  match rowOf (cells m) imageId with
  | None => m
  | Some image =>
      later (aiAwaits imageId detectedKeyword)
        (setUi (withAiProcessing (Some imageId) (ui m))
           (setCells (setMessage None (cells m)) m))
  end.

(** [downloadZip] up to its wait; [zip] is the archive that the library is
    going to produce. *)
Definition downloadZip (zip : Blob) (m : Component) : Component :=
  match processed (cells m) with
  | [] => m
  | _ => later (zipAwaits zip) m
  end.

(** What happens to the component: the user's events, by the element that
    receives them, and the continuations that come due. *)
Inductive Event :=
| dropFiles (fileList : option (list File))
| changeKeyword (value : jsstring)
| changeSquare (checked : bool)
| clickMain (zip : Blob)
| clickClear
| clickLang
| mouseEnter (itemId : jsstring)
| mouseLeave (itemId : jsstring)
| clickEdit (itemId : jsstring)
| changeEditing (value : jsstring)
| pressEnter
| pressEscape
| blur
| clickAi (itemId detectedKeyword : jsstring)
| clickDelete (itemId : jsstring)
| resume (n : nat)
| tick (n : nat).

Definition react `{CaseFolding} (B : Browser) (m : Component) (e : Event)
  : Component :=
  match e with
  | dropFiles fileList =>
      let st' := handleFiles (fromCall (randomCalls m) B) fileList (cells m) in
      {| cells := st'; ui := ui m; prefs := prefs m; pending := pending m;
         randomCalls :=
           randomCalls m
           + (List.length (files st') - List.length (files (cells m))) |}
  | changeKeyword value => setCells (setKeyword value (cells m)) m
  | changeSquare checked => setCells (setIsSquare checked (cells m)) m
  | clickMain zip =>
      if hasProcessedImages (cells m) then downloadZip zip m
      else
        let '(st', t) := batchStart (cells m) (cells m) in
        match t with
        | Some t => later t (setCells st' m)
        | None => setCells st' m
        end
  | clickClear => setCells (handleClear (cells m)) m
  | clickLang =>
      let '(st', p') := handleLangToggle (cells m) (prefs m) in
      {| cells := st'; ui := ui m; prefs := p'; pending := pending m;
         randomCalls := randomCalls m |}
  | mouseEnter itemId => setUi (withHovered (Some itemId) (ui m)) m
  | mouseLeave itemId =>
      let u := withHovered None (ui m) in
      match editingItemId u with
      | Some editing =>
          if JS.eqb editing itemId then setUi u m
          else setUi (withEditing None [] u) m
      | None => setUi (withEditing None [] u) m
      end
  | clickEdit itemId =>
      match rowOf (cells m) itemId with
      | Some item =>
          setUi
            (withEditing (Some (id item))
               (match customKeyword item with
                | Some k => k
                | None => []
                end) (ui m)) m
      | None => m
      end
  | changeEditing value =>
      setUi (withEditing (editingItemId (ui m)) value (ui m)) m
  | pressEnter => commitEditor m
  | pressEscape => setUi (withEditing None [] (ui m)) m
  | blur => commitEditor m
  | clickAi itemId detectedKeyword =>
      handleSingleImageAiDetect itemId detectedKeyword m
  | clickDelete itemId => setCells (deleteSingleImage itemId (cells m)) m
  | resume n =>
      match nth_error (pending m) n with
      | None => m
      | Some t =>
          let '(st', t') := advance B (prefs m) t (cells m) in
          {| cells := st';
             ui := match t with
                   | aiAwaits _ _ => withAiProcessing None (ui m)
                   | _ => ui m
                   end;
             prefs := prefs m;
             pending := replaceAt n t' (pending m);
             randomCalls := randomCalls m |}
      end
  | tick n =>
      match nth_error (pending m) n with
      | Some (reprocessAwaits _ imageId) =>
          setCells (progressTick imageId (cells m)) m
      | _ => m
      end
  end.

Definition run `{CaseFolding} (B : Browser) (events : list Event)
    (m : Component) : Component :=
  fold_left (react B) events m.

(** ** What the page offers

    Which events the render on screen can receive.  The inline editor
    takes the focus when it opens, so while it is open a pointer or
    keyboard event on any other element comes after its [blur]; moving
    the pointer over the rows needs no focus. *)

Definition isSome {A : Type} (x : option A) : bool :=
  match x with Some _ => true | None => false end.

Definition editorClosed (m : Component) : bool :=
  negb (isSome (editingItemId (ui m))).

Definition editorOpen (m : Component) : bool :=
  match editingItemId (ui m) with
  | Some itemId => isSome (rowOf (cells m) itemId)
  | None => false
  end.

Definition offered (m : Component) (e : Event) : bool :=
  let st := cells m in
  match e with
  | dropFiles _ | changeKeyword _ | changeSquare _ | clickLang =>
      editorClosed m
  | clickMain _ =>
      editorClosed m && (hasProcessedImages st || canProcess st)
  | clickClear =>
      editorClosed m
      && ((0 <? List.length (files st)) || (0 <? List.length (processed st)))
  | mouseEnter itemId | mouseLeave itemId => isSome (rowOf st itemId)
  | clickEdit itemId =>
      editorClosed m
      && match hoveredItemId (ui m), rowOf st itemId with
         | Some hovered, Some item =>
             JS.eqb hovered (id item)
             && negb (isSome (matched st (id item)))
             && negb (isProcessingSingle st item)
         | _, _ => false
         end
  | changeEditing _ | pressEnter | pressEscape | blur => editorOpen m
  | clickAi itemId _ =>
      editorClosed m
      && match rowOf st itemId with
         | Some item =>
             negb (isSome (matched st (id item)))
             && negb (listIncludes (aiCompletedItemIds st) (id item))
             && negb (match aiProcessingItemId (ui m) with
                      | Some busy => JS.eqb busy (id item)
                      | None => false
                      end)
             && negb (isProcessingSingle st item)
         | None => false
         end
  | clickDelete itemId =>
      editorClosed m
      && match rowOf st itemId with
         | Some item => negb (isSome (matched st (id item)))
         | None => false
         end
  | resume n =>
      match nth_error (pending m) n with
      | Some settled | None => false
      | Some _ => true
      end
  | tick n =>
      match nth_error (pending m) n with
      | Some (reprocessAwaits _ _) => true
      | _ => false
      end
  end.

(** The events one after the other, as long as each is offered. *)
Fixpoint play `{CaseFolding} (B : Browser) (events : list Event)
    (m : Component) : option Component :=
  match events with
  | [] => Some m
  | e :: rest => if offered m e then play B rest (react B m e) else None
  end.

(** The component once the mount effect has run on the cells [st] with
    the language items [p] of local storage, with what the effect has
    left pending. *)
Definition mounted (st : AppState) (p : LangPrefs) (answer : list Task)
  : Component :=
  {| cells := st;
     ui := {| hoveredItemId := None; editingItemId := None;
              editingKeyword := []; aiProcessingItemId := None |};
     prefs := p; pending := answer; randomCalls := 0 |}.

(* ================================================================== *)
(** * Predicates for the component in time *)
(* ================================================================== *)

(** The events that leave the rows of the list as they are. *)
Definition keepsRows (e : Event) : bool :=
  match e with
  | dropFiles _ | clickDelete _ | clickClear => false
  | _ => true
  end.

(** A batch run that captured [closure] names by position in the list it
    captured: while it waits for the image at position [i], which has a
    keyword, its results are those of the images before [i], each under
    its own position; once it has ended, the results it has stored are
    those of the whole captured list. *)
Definition namedByPosition `{CaseFolding} (B : Browser) (closure : AppState)
    (t : Task) (st : AppState) : Prop :=
  match t with
  | batchAwaits c i results =>
      c = closure
      /\ (exists input,
            nth_error (files closure) i = Some input
            /\ isBlank (keywordFor input (keyword closure)) = false)
      /\ results
         = Spec.batchResults B (keyword closure) (isSquare closure) 0
             (firstn i (files closure))
  | batchTimeout =>
      processed st
      = Spec.batchResults B (keyword closure) (isSquare closure) 0
          (files closure)
  | _ => False
  end.

(** A pending continuation that, if it is a batch run, names by position
    in its own list. *)
Definition namedTask `{CaseFolding} (B : Browser) (t : Task) (st : AppState)
  : Prop :=
  match t with
  | batchAwaits c _ _ => namedByPosition B c t st
  | _ => True
  end.

Definition batchesNamed `{CaseFolding} (B : Browser) (m : Component) : Prop :=
  Forall (fun t => namedTask B t (cells m)) (pending m).

(** A batch run resumed again and again with nothing in between. *)
Fixpoint drainBatch `{CaseFolding} (B : Browser) (fuel : nat)
    (x : AppState * Task) : AppState * Task :=
  match fuel with
  | 0 => x
  | S fuel =>
      match snd x with
      | batchAwaits closure i results =>
          drainBatch B fuel (batchResume B closure i results (fst x))
      | _ => x
      end
  end.

(** The lifetime count and its stored copy, from one state to a later
    one: both as they were, or the count higher and the copy equal to
    it. *)
Definition counted (st st' : AppState) : Prop :=
  (totalProcessedCount st' = totalProcessedCount st
   /\ persistedTotal st' = persistedTotal st)
  \/ (totalProcessedCount st < totalProcessedCount st'
      /\ persistedTotal st' = Some (totalProcessedCount st')).

(* ================================================================== *)
(** * Sessions

    What a user does on the page, event by event. *)
(* ================================================================== *)

Module Session.

Definition a : File := Demo.fileOf "a.jpg" "image/jpeg" 400.
Definition b : File := Demo.fileOf "b.png" "image/png" 600.
Definition c : File := Demo.fileOf "c.webp" "image/webp" 800.

(** A file that the browser cannot decode. *)
Definition broken : File := Demo.fileOf "broken.jpg" "image/jpeg" 0.

(** The id of the [k]-th image ever submitted. *)
Definition idOf (f : File) (k : nat) : jsstring :=
  freshId f (randomSalt Demo.shrinking k).

Definition archive : Blob :=
  {| blob_type := utf16 "application/zip"; blob_bytes := [] |}.

(** A first visit, in English; the geolocation request never answers. *)
Definition start : Component :=
  mounted Demo.emptyState
    {| savedLang := None; userSelectedLang := false |} [].

(** Three images are submitted, the first is deleted with its [×]
    button, and the batch is run. *)
Definition deleteThenRun : list Event :=
  [dropFiles (Some [a; b; c]);
   changeKeyword (utf16 "Summer Silk Dress!!");
   clickDelete (idOf a 0);
   clickMain archive;
   resume 0;
   resume 0].

(** Three images, the first of which fails.  While the run waits for the
    second, the failed first row is deleted; while it waits for the last,
    the editor is opened on the second row, which has its result in the
    run's memory but not yet on the page.  The run ends. *)
Definition editDuringRun : list Event :=
  [dropFiles (Some [broken; b; c]);
   changeKeyword (utf16 "Summer Silk Dress!!");
   clickMain archive;
   resume 0;
   clickDelete (idOf broken 0);
   resume 0;
   mouseEnter (idOf b 1);
   clickEdit (idOf b 1);
   resume 0].

(** Then a keyword is typed into the editor and committed with Enter; the
    timer comes due and the pipeline answers. *)
Definition thenCommit : list Event :=
  [changeEditing (utf16 "Evening Gown");
   pressEnter;
   resume 1;
   resume 1].

(** Or the editor is left, all is cleared, and then the timer comes due
    and the pipeline answers. *)
Definition thenClear : list Event :=
  [blur; clickClear; resume 1; resume 1].

End Session.

(** ** The page after [Session.editDuringRun] *)

Module Story.

Definition afterRun : Component :=
  @run asciiFolding Demo.shrinking Session.editDuringRun Session.start.

(** The row the editor is open on, and the result it has. *)
Definition editedRow : InputImage :=
  hd (Demo.inputOf "" "" 0) (files (cells afterRun)).

Definition itsResult : option ProcessedImage :=
  matched (cells afterRun) (id editedRow).

End Story.

(** Every id on the page was made with the salt of one of the calls of
    [Math.random] so far, and no two rows share an id. *)
Definition issued (B : Browser) (m : Component) : Prop :=
  NoDup (map id (files (cells m)))
  /\ Forall
       (fun i =>
          exists (k : nat) (f : File),
            k < randomCalls m /\ i = freshId f (randomSalt B k))
       (map id (files (cells m))).

(* ================================================================== *)
(** * Properties of the string layer *)
(* ================================================================== *)

Section ReplaceRuns.

Variable cls : N -> bool.
Variable h : N.
Hypothesis cls_h : cls h = true.

(** Replacing runs a second time changes nothing, whichever state the
    scan of the first pass ended in. *)
Lemma replaceRuns_fixed (s : jsstring) :
  replaceRuns cls [h] true (replaceRuns cls [h] true s)
    = replaceRuns cls [h] true s
  /\ replaceRuns cls [h] false (replaceRuns cls [h] false s)
    = replaceRuns cls [h] false s
  /\ replaceRuns cls [h] false (replaceRuns cls [h] true s)
    = replaceRuns cls [h] true s.
Proof.
  induction s as [|c t (IHtt & IHff & IHft)]; simpl; [auto|].
  destruct (cls c) eqn:Hc; simpl; rewrite ?cls_h, ?Hc; simpl;
    repeat split; congruence.
Qed.

Lemma replaceRuns_Forall (P : N -> Prop) (b : bool) (s : jsstring) :
  P h -> Forall P s -> Forall P (replaceRuns cls [h] b s).
Proof.
  intros Hh Hs. revert b.
  induction Hs as [|c t Hc Ht IH]; intros b; simpl; [constructor|].
  destruct (cls c), b; simpl; auto.
Qed.

End ReplaceRuns.

(** A class that occurs nowhere has no runs to replace. *)
Lemma replaceRuns_absent (cls : N -> bool) (rep : jsstring) (b : bool)
    (s : jsstring) :
  Forall (fun c => cls c = false) s -> replaceRuns cls rep b s = s.
Proof.
  intros Hs. revert b.
  induction Hs as [|c t Hc Ht IH]; intros b; simpl; [reflexivity|].
  rewrite Hc, IH. reflexivity.
Qed.

(** After the runs of a class have been replaced by a unit outside the
    class, the class is gone. *)
Lemma replaceRuns_clears (cls : N -> bool) (h : N) (b : bool) (s : jsstring) :
  cls h = false ->
  Forall (fun c => cls c = false) (replaceRuns cls [h] b s).
Proof.
  intros Hh. revert b.
  induction s as [|c t IH]; intros b; simpl; [constructor|].
  destruct (cls c) eqn:Hc; [destruct b; simpl; auto|auto].
Qed.

Lemma trimStart_absent (s : jsstring) :
  Forall (fun c => isWhiteSpace c = false) s -> trimStart s = s.
Proof.
  intros [|c t Hc Ht]; simpl; [reflexivity|]. rewrite Hc. reflexivity.
Qed.

Lemma trim_absent (s : jsstring) :
  Forall (fun c => isWhiteSpace c = false) s -> trim s = s.
Proof.
  intros Hs. unfold trim, trimEnd.
  rewrite (trimStart_absent s Hs).
  rewrite trimStart_absent; [apply rev_involutive|].
  apply Forall_rev. exact Hs.
Qed.

(* ================================================================== *)
(** * The sanitizer *)
(* ================================================================== *)


Lemma keptUnit_split (c : N) :
  keptUnit c = true -> isWhiteSpace c = false -> tokenUnit c = true.
Proof.
  unfold keptUnit, tokenUnit. intros Hk Hw. rewrite Hw in Hk.
  rewrite orb_false_r in Hk. exact Hk.
Qed.

Lemma tokenUnit_hyphen : tokenUnit hyphen = true.
Proof. reflexivity. Qed.

Lemma tokenUnit_kept (c : N) : tokenUnit c = true -> keptUnit c = true.
Proof.
  unfold keptUnit, tokenUnit. intros H.
  repeat (apply orb_true_iff in H; destruct H as [H|H]);
    rewrite H, ?orb_true_r; reflexivity.
Qed.

Lemma tokenUnit_not_space (c : N) :
  tokenUnit c = true -> isWhiteSpace c = false.
Proof.
  unfold tokenUnit, isLowerAZ, isDigit, isHyphen, hyphen, isWhiteSpace.
  intros H.
  repeat match goal with
         | H : (_ || _) = true |- _ => apply orb_true_iff in H; destruct H as [H|H]
         | H : (_ && _) = true |- _ => apply andb_true_iff in H; destruct H
         | H : (_ <=? _)%N = true |- _ => apply N.leb_le in H
         | H : (_ =? _)%N = true |- _ => apply N.eqb_eq in H
         end;
    repeat match goal with
           | |- (_ || _) = false => apply orb_false_iff; split
           | |- (_ && _) = false => apply andb_false_iff
           | |- (_ =? _)%N = false => apply N.eqb_neq; lia
           end;
    try (left; apply N.leb_gt; lia); try (right; apply N.leb_gt; lia).
Qed.

Lemma tokenUnit_basic (c : N) : tokenUnit c = true -> basicUnit c = true.
Proof.
  unfold tokenUnit, isLowerAZ, isDigit, isHyphen, hyphen, basicUnit.
  intros H.
  repeat match goal with
         | H : (_ || _) = true |- _ => apply orb_true_iff in H; destruct H as [H|H]
         | H : (_ && _) = true |- _ => apply andb_true_iff in H; destruct H
         | H : (_ <=? _)%N = true |- _ => apply N.leb_le in H
         | H : (_ =? _)%N = true |- _ => apply N.eqb_eq in H
         end;
    apply orb_true_iff;
    first [ left; apply N.ltb_lt; lia
          | right; apply andb_true_iff; split; apply N.leb_le; lia ].
Qed.

Lemma tokenUnit_lower (c : N) : tokenUnit c = true -> lowerUnit c = c.
Proof.
  unfold tokenUnit, isLowerAZ, isDigit, isHyphen, hyphen, lowerUnit, isUpperAZ.
  intros H.
  destruct ((65 <=? c)%N && (c <=? 90)%N) eqn:Hu; [|reflexivity].
  apply andb_true_iff in Hu. destruct Hu as [H1 H2].
  apply N.leb_le in H1, H2.
  repeat match goal with
         | H : (_ || _) = true |- _ => apply orb_true_iff in H; destruct H as [H|H]
         | H : (_ && _) = true |- _ => apply andb_true_iff in H; destruct H
         | H : (_ <=? _)%N = true |- _ => apply N.leb_le in H
         | H : (_ =? _)%N = true |- _ => apply N.eqb_eq in H
         end; lia.
Qed.

(** What [sanitizeKeyword] returns is made of token units only. *)
Lemma sanitizeKeyword_units `{CaseFolding} (value : jsstring) :
  Forall (fun c => tokenUnit c = true) (sanitizeKeyword value).
Proof.
  unfold sanitizeKeyword.
  apply replaceRuns_Forall; [exact tokenUnit_hyphen|].
  set (kept := filter keptUnit (toLowerCase (trim value))).
  assert (Hkept : Forall (fun c => keptUnit c = true) kept).
  { apply Forall_forall. intros c Hc. apply filter_In in Hc. tauto. }
  assert (Hclear := replaceRuns_clears isWhiteSpace hyphen false kept eq_refl).
  assert (Hk : Forall (fun c => keptUnit c = true)
                 (replaceRuns isWhiteSpace [hyphen] false kept)).
  { apply replaceRuns_Forall; [reflexivity|exact Hkept]. }
  rewrite Forall_forall in *. intros c Hc.
  apply keptUnit_split; auto.
Qed.

Lemma filter_all {A : Type} (f : A -> bool) (l : list A) :
  Forall (fun x => f x = true) l -> filter f l = l.
Proof.
  induction 1 as [|x t Hx Ht IH]; simpl; [reflexivity|].
  rewrite Hx, IH. reflexivity.
Qed.

Lemma map_fixed {A : Type} (f : A -> A) (l : list A) :
  Forall (fun x => f x = x) l -> map f l = l.
Proof.
  induction 1 as [|x t Hx Ht IH]; simpl; [reflexivity|].
  rewrite Hx, IH. reflexivity.
Qed.

(** A string of token units passes the first four steps unchanged. *)
Lemma sanitize_steps_fixed (cf : CaseFolding) (law : LowerLaw cf)
    (r : jsstring) :
  Forall (fun c => tokenUnit c = true) r ->
  replaceRuns isWhiteSpace [hyphen] false
    (filter keptUnit (toLowerCase (trim r))) = r.
Proof.
  intros Hr.
  assert (Hws : Forall (fun c => isWhiteSpace c = false) r).
  { eapply Forall_impl; [|exact Hr]. exact tokenUnit_not_space. }
  rewrite (trim_absent r Hws).
  rewrite law.
  2:{ apply forallb_forall. rewrite Forall_forall in Hr.
      intros c Hc. apply tokenUnit_basic. auto. }
  rewrite map_fixed.
  2:{ eapply Forall_impl; [|exact Hr]. exact tokenUnit_lower. }
  rewrite filter_all.
  2:{ eapply Forall_impl; [|exact Hr]. exact tokenUnit_kept. }
  apply replaceRuns_absent. exact Hws.
Qed.

Lemma asciiFolding_law : LowerLaw asciiFolding.
Proof. intros s _. reflexivity. Qed.

(** C3. Idempotence of the keyword sanitizer: for every string [s],
    [sanitize(sanitize(s)) = sanitize(s)], for every [toLowerCase] that
    lowers ASCII and ideograph text unit by unit. *)
Theorem sanitizeKeyword_idempotent (cf : CaseFolding) (law : LowerLaw cf)
    (s : jsstring) :
  sanitizeKeyword (sanitizeKeyword s) = sanitizeKeyword s.
Proof.
  unfold sanitizeKeyword at 1.
  rewrite (sanitize_steps_fixed cf law _ (sanitizeKeyword_units s)).
  unfold sanitizeKeyword.
  apply (replaceRuns_fixed isHyphen hyphen eq_refl).
Qed.

Lemma sanitizeKeyword_idempotent_witness :
  LowerLaw asciiFolding /\
  @sanitizeKeyword asciiFolding
    (@sanitizeKeyword asciiFolding (utf16 "  Summer --  Silk Dress!! 夏 "))
  = @sanitizeKeyword asciiFolding (utf16 "  Summer --  Silk Dress!! 夏 ").
Proof.
  split.
  - exact asciiFolding_law.
  - exact (sanitizeKeyword_idempotent asciiFolding asciiFolding_law
             (utf16 "  Summer --  Silk Dress!! 夏 ")).
Defined.

(* ================================================================== *)
(** * Naming *)
(* ================================================================== *)

Lemma digitsOf_length (d : Decimal.uint) :
  List.length (digitsOf d) = Decimal.nb_digits d.
Proof. induction d; simpl; congruence. Qed.

Lemma decimal_small (n : nat) : n < 10 -> List.length (decimal n) = 1.
Proof.
  intros H. do 10 (destruct n as [|n]; [reflexivity|]). lia.
Qed.

Lemma decimal_large (n : nat) : 10 <= n -> 2 <= List.length (decimal n).
Proof.
  intros H. unfold decimal. rewrite digitsOf_length.
  pose proof (DecimalNat.Unsigned.of_to n) as E.
  destruct (Nat.to_uint n) as [|d|d|d|d|d|d|d|d|d|d] eqn:Hd;
    try (destruct d; simpl; try lia; cbv in E; lia).
  cbv in E. lia.
Qed.

(** [String(i).padStart(2, '0')] is the padded index of §4.2. *)
Lemma padStart_paddedIndex (i : nat) :
  padStart 2 0x30%N (decimal i) = Spec.paddedIndex i.
Proof.
  unfold padStart, Spec.paddedIndex.
  destruct (i <? 10) eqn:Hi.
  - apply Nat.ltb_lt in Hi. rewrite (decimal_small i Hi). reflexivity.
  - apply Nat.ltb_ge in Hi. pose proof (decimal_large i Hi) as Hl.
    replace (2 - List.length (decimal i)) with 0 by lia. reflexivity.
Qed.

Lemma jseqb_eq (a b : jsstring) : JS.eqb a b = true <-> a = b.
Proof.
  unfold JS.eqb. destruct (list_eq_dec N.eq_dec a b); split; congruence.
Qed.

Lemma jseqb_refl (a : jsstring) : JS.eqb a a = true.
Proof. apply jseqb_eq. reflexivity. Qed.

(** The extension looked up for the preferred type, with its default. *)
Lemma preferred_extension (t : jsstring) :
  match mimeToExt (preferredTypeOf t) with
  | Some e => e
  | None => utf16 "jpg"
  end = Spec.extensionFor (preferredTypeOf t).
Proof.
  unfold mimeToExt, Spec.extensionFor.
  destruct (JS.eqb (preferredTypeOf t) (utf16 "image/jpeg")) eqn:Hj.
  - apply jseqb_eq in Hj. rewrite Hj. reflexivity.
  - destruct (JS.eqb (preferredTypeOf t) (utf16 "image/png")); [reflexivity|].
    destruct (JS.eqb (preferredTypeOf t) (utf16 "image/webp")); reflexivity.
Qed.

(** The preferred type resolves to the same extension as the original. *)
Lemma preferred_same_extension (t : jsstring) :
  Spec.extensionFor (preferredTypeOf t) = Spec.extensionFor t.
Proof.
  unfold preferredTypeOf, listIncludes. simpl.
  fold imageJpeg.
  destruct (JS.eqb t imageJpeg) eqn:Hj; simpl; [reflexivity|].
  destruct (JS.eqb t imagePng) eqn:Hp; simpl; [reflexivity|].
  destruct (JS.eqb t imageWebp) eqn:Hw; simpl; [reflexivity|].
  unfold Spec.extensionFor. fold imagePng imageWebp. rewrite Hp, Hw.
  reflexivity.
Qed.

(** The extension the fallback branch resolves from the original type. *)
Lemma fallback_extension (t : jsstring) :
  match mimeToExt t with
  | Some e => e
  | None => match mimeToExt (preferredTypeOf t) with
            | Some e => e
            | None => utf16 "jpg"
            end
  end = Spec.extensionFor t.
Proof.
  rewrite preferred_extension, preferred_same_extension.
  unfold mimeToExt, Spec.extensionFor.
  destruct (JS.eqb t (utf16 "image/jpeg")) eqn:Hj.
  - apply jseqb_eq in Hj. rewrite Hj. reflexivity.
  - destruct (JS.eqb t (utf16 "image/png")); [reflexivity|].
    destruct (JS.eqb t (utf16 "image/webp")); reflexivity.
Qed.

Lemma originalType_extension (input : InputImage) :
  Spec.extensionFor (originalTypeOf input)
  = Spec.extensionFor (file_type (file input)).
Proof.
  unfold originalTypeOf. destruct (file_type (file input)); reflexivity.
Qed.

(** [a || b] on strings: [b] when [a] is empty, [a] otherwise. *)
Lemma orElse_cases (a b : jsstring) :
  orElse a b = match a with [] => b | c :: t => c :: t end.
Proof. destruct a; reflexivity. Qed.

(** What a successful run of the pipeline returns, field by field, in
    terms of the final encoded blob. *)
Lemma processSingleImage_fields `{CaseFolding} (B : Browser)
    (input : InputImage) (keywordToUse : jsstring) (forceSquareToUse : bool)
    (index : nat) (r : ProcessedImage) :
  processSingleImage B input keywordToUse forceSquareToUse index = Some r ->
  exists outputBlob,
    encodeImage B input forceSquareToUse = Some outputBlob
    /\ blob r =
         (if blob_size (file_blob (file input)) <? blob_size outputBlob
          then file_blob (file input) else outputBlob)
    /\ seoName r = Spec.name keywordToUse (index + 1) (originalTypeOf input)
    /\ originalSizeKb r = Num.toFixed1 (Num.kib (file_size (file input)))
    /\ sizeKb r = Num.toFixed1 (Num.kib (blob_size (blob r)))
    /\ savedPercent r = savedPercentOf (originalSizeKb r) (blob_size (blob r))
    /\ p_id r = id input
    /\ originalName r = file_name (file input)
    /\ downloadUrl r = createObjectURL B (blob r).
Proof.
  unfold processSingleImage. intros Hr.
  destruct (encodeImage B input forceSquareToUse) as [outputBlob|] eqn:He;
    [|discriminate].
  exists outputBlob. split; [reflexivity|].
  cbn [bindOpt] in Hr.
  unfold Spec.name, indexStrOf in *.
  rewrite padStart_paddedIndex, orElse_cases in Hr.
  destruct (blob_size (file_blob (file input)) <? blob_size outputBlob);
    injection Hr as <-; cbn [blob seoName originalSizeKb sizeKb savedPercent
                              p_id originalName downloadUrl];
    rewrite ?fallback_extension, ?preferred_extension,
            ?preferred_same_extension;
    repeat split; reflexivity.
Qed.

(** The pipeline fails only where decoding, the canvas or the encoder do. *)
Lemma processSingleImage_total `{CaseFolding} (B : Browser)
    (input : InputImage) (keywordToUse : jsstring) (forceSquareToUse : bool)
    (index : nat) (outputBlob : Blob) :
  encodeImage B input forceSquareToUse = Some outputBlob ->
  exists r,
    processSingleImage B input keywordToUse forceSquareToUse index = Some r.
Proof.
  intros He. unfold processSingleImage. rewrite He. cbn [bindOpt].
  destruct (blob_size (file_blob (file input)) <? blob_size outputBlob);
    eexists; reflexivity.
Qed.

(** C4. Output names: for every keyword [k], 0-based position [index]
    (sequence index [index + 1]) and image, the name a successful run
    produces is [sanitize(k)], or ["product"] when that is empty, a hyphen,
    the sequence index as a zero-padded two-digit decimal (natural width
    from 100 on), a dot, and the extension that the fixed table gives for
    the output type, unsupported types defaulting to [jpg] (the preferred
    type and the original type always resolve to the same extension).
    Keyword ["Summer Silk Dress!!"] at sequence index 1 on a JPEG yields
    [summer-silk-dress-01.jpg]; a keyword of which sanitizing leaves
    nothing, such as ["!!!"], yields [product-01.jpg] there and
    [product-100.png] at sequence index 100 on a PNG. *)
Theorem seoName_format (cf : CaseFolding) (law : LowerLaw cf) (B : Browser)
    (input : InputImage) (k : jsstring) (forceSquareToUse : bool)
    (index : nat) (r : ProcessedImage) :
  processSingleImage B input k forceSquareToUse index = Some r ->
  seoName r
  = match sanitizeKeyword k with
    | [] => utf16 "product"
    | c :: sanitized => c :: sanitized
    end ++ utf16 "-" ++ Spec.paddedIndex (index + 1) ++ utf16 "."
      ++ Spec.extensionFor (preferredTypeOf (originalTypeOf input))
  /\ Spec.extensionFor (preferredTypeOf (originalTypeOf input))
     = Spec.extensionFor (file_type (file input))
  /\ (k = utf16 "Summer Silk Dress!!" -> index = 0 ->
      file_type (file input) = utf16 "image/jpeg" ->
      seoName r = utf16 "summer-silk-dress-01.jpg")
  /\ (sanitizeKeyword k = [] ->
      seoName r
      = utf16 "product-" ++ Spec.paddedIndex (index + 1) ++ utf16 "."
          ++ Spec.extensionFor (file_type (file input)))
  /\ (k = utf16 "!!!" -> index = 0 ->
      file_type (file input) = utf16 "image/jpeg" ->
      seoName r = utf16 "product-01.jpg")
  /\ (k = utf16 "!!!" -> index = 99 ->
      file_type (file input) = utf16 "image/png" ->
      seoName r = utf16 "product-100.png").
Proof.
  intros Hr.
  destruct (processSingleImage_fields _ _ _ _ _ _ Hr)
    as (outputBlob & _ & _ & Hname & _).
  rewrite preferred_same_extension, originalType_extension.
  unfold Spec.name in Hname. rewrite originalType_extension in Hname.
  assert (Hbang : sanitizeKeyword (utf16 "!!!") = []).
  { unfold sanitizeKeyword.
    assert (E : trim (utf16 "!!!") = utf16 "!!!") by reflexivity.
    rewrite E, law by reflexivity. reflexivity. }
  split; [exact Hname|]. split; [reflexivity|].
  split; [|split; [|split]].
  - intros -> -> Ht. rewrite Hname, Ht.
    unfold sanitizeKeyword.
    assert (E : trim (utf16 "Summer Silk Dress!!")
                = utf16 "Summer Silk Dress!!") by reflexivity.
    rewrite E, law by reflexivity. reflexivity.
  - intros Hempty. rewrite Hname, Hempty. reflexivity.
  - intros -> -> Ht. rewrite Hname, Ht, Hbang. reflexivity.
  - intros -> -> Ht. rewrite Hname, Ht, Hbang. reflexivity.
Qed.

Lemma seoName_format_witness :
  (exists r,
     @processSingleImage asciiFolding Demo.shrinking
       (Demo.inputOf "IMG_0001.JPG" "image/jpeg" 400)
       (utf16 "Summer Silk Dress!!") false 0 = Some r
     /\ seoName r = utf16 "summer-silk-dress-01.jpg")
  /\ (exists r,
        @processSingleImage asciiFolding Demo.shrinking
          (Demo.inputOf "IMG_0002.JPG" "image/jpeg" 400)
          (utf16 "!!!") false 0 = Some r
        /\ seoName r = utf16 "product-01.jpg").
Proof.
  split.
  - destruct (@processSingleImage asciiFolding Demo.shrinking
                (Demo.inputOf "IMG_0001.JPG" "image/jpeg" 400)
                (utf16 "Summer Silk Dress!!") false 0) as [r|] eqn:Hr.
    + exists r. split; [reflexivity|].
      exact (proj1 (proj2 (proj2
                (seoName_format _ asciiFolding_law _ _ _ _ _ _ Hr)))
               eq_refl eq_refl eq_refl).
    + vm_compute in Hr. discriminate Hr.
  - destruct (@processSingleImage asciiFolding Demo.shrinking
                (Demo.inputOf "IMG_0002.JPG" "image/jpeg" 400)
                (utf16 "!!!") false 0) as [r|] eqn:Hr.
    + exists r. split; [reflexivity|].
      exact (proj1 (proj2 (proj2 (proj2 (proj2
                (seoName_format _ asciiFolding_law _ _ _ _ _ _ Hr)))))
               eq_refl eq_refl eq_refl).
    + vm_compute in Hr. discriminate Hr.
Defined.

(* ================================================================== *)
(** * The fallback to the original bytes *)
(* ================================================================== *)

(** C1. Fallback: whenever the final encoded blob is strictly larger than
    the original input, the run succeeds, its output is the original blob
    (so the output bytes are the input bytes exactly), and the extension
    of the output name is the one the content-type table resolves for the
    original content type. *)
Theorem fallback_keeps_original (cf : CaseFolding) (B : Browser)
    (input : InputImage) (k : jsstring) (forceSquareToUse : bool)
    (index : nat) (outputBlob : Blob) :
  encodeImage B input forceSquareToUse = Some outputBlob ->
  blob_size (file_blob (file input)) < blob_size outputBlob ->
  exists r,
    processSingleImage B input k forceSquareToUse index = Some r
    /\ blob r = file_blob (file input)
    /\ blob_bytes (blob r) = blob_bytes (file_blob (file input))
    /\ seoName r
       = orElse (sanitizeKeyword k) (utf16 "product") ++ utf16 "-"
           ++ Spec.paddedIndex (index + 1) ++ utf16 "."
           ++ Spec.extensionFor (file_type (file input)).
Proof.
  intros He Hlt.
  destruct (processSingleImage_total B input k forceSquareToUse index outputBlob He)
    as [r Hr].
  exists r. split; [exact Hr|].
  destruct (processSingleImage_fields _ _ _ _ _ _ Hr)
    as (outputBlob' & He' & Hblob & Hname & _).
  rewrite He in He'. injection He' as <-.
  apply Nat.ltb_lt in Hlt. rewrite Hlt in Hblob.
  rewrite Hblob, Hname. unfold Spec.name.
  rewrite originalType_extension, orElse_cases. repeat split; reflexivity.
Qed.

Lemma fallback_keeps_original_witness :
  exists r,
    @processSingleImage asciiFolding Demo.inflating
      (Demo.inputOf "scan.heic" "image/heic" 400) (utf16 "Scan") true 4
    = Some r
    /\ blob r = file_blob (file (Demo.inputOf "scan.heic" "image/heic" 400))
    /\ blob_bytes (blob r)
       = blob_bytes (file_blob (file (Demo.inputOf "scan.heic" "image/heic" 400)))
    /\ seoName r
       = orElse (@sanitizeKeyword asciiFolding (utf16 "Scan")) (utf16 "product")
           ++ utf16 "-" ++ Spec.paddedIndex (4 + 1) ++ utf16 "."
           ++ Spec.extensionFor
                (file_type (file (Demo.inputOf "scan.heic" "image/heic" 400))).
Proof.
  apply (fallback_keeps_original asciiFolding Demo.inflating
           (Demo.inputOf "scan.heic" "image/heic" 400) (utf16 "Scan") true 4
           {| blob_type := utf16 "image/jpeg"; blob_bytes := Demo.bytesOf 600 |}).
  - vm_compute. reflexivity.
  - vm_compute. lia.
Defined.

(* ================================================================== *)
(** * Accepting files *)
(* ================================================================== *)

Lemma mapToInputs_files (B : Browser) (sliced : list File) (k : nat) :
  map file (mapToInputs B k sliced) = sliced.
Proof.
  revert k. induction sliced as [|f rest IH]; intros k; simpl;
    [reflexivity|]. rewrite IH. reflexivity.
Qed.

Lemma mapToInputs_length (B : Browser) (sliced : list File) (k : nat) :
  List.length (mapToInputs B k sliced) = List.length sliced.
Proof.
  rewrite <- (mapToInputs_files B sliced k) at 2.
  rewrite length_map. reflexivity.
Qed.

(** With room left (or none), [slice] keeps the first [room] files. *)
Lemma slice0_room {A : Type} (l : list A) (used : nat) :
  used <= MAX_FILES ->
  slice0 l (Z.of_nat MAX_FILES - Z.of_nat used) = firstn (MAX_FILES - used) l.
Proof.
  intros Hle. unfold slice0.
  destruct (Z.of_nat MAX_FILES - Z.of_nat used <? 0)%Z eqn:Hneg.
  - apply Z.ltb_lt in Hneg. lia.
  - f_equal. lia.
Qed.

(** The state after a submission that contains a supported file. *)
Lemma handleFiles_accepting (B : Browser) (fileList : list File)
    (st : AppState) :
  filter isAccepted fileList <> [] ->
  let mapped :=
    mapToInputs B 0
      (slice0 (filter isAccepted fileList)
         (Z.of_nat MAX_FILES - Z.of_nat (List.length (files st)))) in
  let shown :=
    if MAX_FILES <=? List.length (files st) + List.length mapped
    then Some (messageLimit (lang st) MAX_FILES) else None in
  handleFiles B (Some fileList) st
  = setProcessed (fun _ => [])
      (setFiles (fun prev => prev ++ mapped) (setMessage shown st)).
Proof.
  intros Hne. unfold handleFiles. fold isAccepted.
  destruct (filter isAccepted fileList) as [|f incoming] eqn:Hin;
    [contradiction|].
  cbv zeta.
  destruct (MAX_FILES <=? _); reflexivity.
Qed.

(** C8. Capacity: for every submission to a batch within capacity, the
    accepted images are the first supported files that fit the remaining
    slots, in order, the batch never exceeds 10, the only signal a
    submission raises is one [setMessage], which is the "limit reached"
    signal exactly when a supported file was submitted and the batch
    reached 10; 12 supported files submitted to an empty batch are 10
    accepted, 2 dropped, and one limit signal. *)
Theorem handleFiles_capacity (B : Browser) (fileList : list File)
    (st : AppState) :
  List.length (files st) <= MAX_FILES ->
  let st' := handleFiles B (Some fileList) st in
  let incoming := filter isAccepted fileList in
  exists accepted raised,
    files st' = files st ++ accepted
    /\ map file accepted
       = firstn (MAX_FILES - List.length (files st)) incoming
    /\ List.length accepted
       = Nat.min (List.length incoming) (MAX_FILES - List.length (files st))
    /\ List.length (files st') <= MAX_FILES
    /\ signals st' = signals st ++ raised
    /\ List.length raised = 1
    /\ List.length (filter isLimitSignal raised)
       = (if negb (Nat.eqb (List.length incoming) 0)
             && (MAX_FILES <=? List.length (files st'))
          then 1 else 0)
    /\ (files st = [] -> List.length incoming = 12 ->
        List.length accepted = 10
        /\ List.length incoming - List.length accepted = 2
        /\ List.length (filter isLimitSignal raised) = 1).
Proof.
  intros Hcap st' incoming.
  destruct incoming as [|f0 rest] eqn:Hin.
  - (* nothing supported: the unsupported-type message, nothing accepted *)
    exists [], [Some (messageInvalidType (lang st))].
    assert (E : st' = setMessage (Some (messageInvalidType (lang st))) st).
    { unfold st', handleFiles. fold isAccepted. fold incoming.
      rewrite Hin. reflexivity. }
    rewrite E. cbn [files signals setMessage].
    rewrite List.app_nil_r, firstn_nil.
    repeat split; try reflexivity; try assumption; discriminate.
  - assert (Hne : filter isAccepted fileList <> []).
    { fold incoming. rewrite Hin. discriminate. }
    pose proof (handleFiles_accepting B fileList st Hne) as E.
    cbv zeta in E. fold incoming in E. fold st' in E.
    rewrite (slice0_room incoming _ Hcap) in E.
    set (sliced := firstn (MAX_FILES - List.length (files st)) incoming) in *.
    set (mapped := mapToInputs B 0 sliced) in *.
    assert (Hlen : List.length mapped
                   = Nat.min (List.length incoming)
                       (MAX_FILES - List.length (files st))).
    { unfold mapped. rewrite mapToInputs_length. unfold sliced.
      rewrite length_firstn. lia. }
    exists mapped.
    exists [if MAX_FILES <=? List.length (files st) + List.length mapped
            then Some (messageLimit (lang st) MAX_FILES) else None].
    rewrite <- Hin. rewrite E.
    cbn [files signals setMessage setFiles setProcessed].
    rewrite length_app.
    split; [reflexivity|].
    split; [apply mapToInputs_files|].
    split; [exact Hlen|].
    split; [lia|].
    split; [reflexivity|].
    split; [reflexivity|].
    assert (Hpos : Nat.eqb (List.length incoming) 0 = false).
    { rewrite Hin. reflexivity. }
    split.
    + rewrite Hpos. cbn [negb andb].
      destruct (MAX_FILES <=? List.length (files st) + List.length mapped);
        reflexivity.
    + intros Hempty H12. rewrite Hlen, Hempty, H12.
      cbn [List.length MAX_FILES Nat.sub Nat.min Nat.add Nat.leb].
      repeat split; reflexivity.
Qed.

Lemma handleFiles_capacity_witness :
  let st' := handleFiles Demo.shrinking (Some Demo.twelveFiles) Demo.emptyState in
  List.length (files st') = 10
  /\ List.length (filter isLimitSignal (signals st')) = 1
  /\ exists (accepted : list InputImage) (raised : list (option Message)),
       files st' = files Demo.emptyState ++ accepted
       /\ map file accepted = firstn (MAX_FILES - 0) Demo.twelveFiles
       /\ List.length raised = 1.
Proof.
  split; [vm_compute; reflexivity|].
  split; [vm_compute; reflexivity|].
  destruct (handleFiles_capacity Demo.shrinking Demo.twelveFiles
              Demo.emptyState (Nat.le_0_l MAX_FILES))
    as (accepted & raised & Hf & Hm & _ & _ & _ & Hr & _).
  exists accepted, raised. repeat split; assumption.
Defined.

(** C10. A submission with at least one supported file empties the list of
    processed results, whatever it held, while every image already in the
    batch stays where it was, unchanged (the new ones are appended); this
    also holds when the batch is full and nothing is appended. *)
Theorem handleFiles_clears_processed (B : Browser) (fileList : list File)
    (st : AppState) :
  filter isAccepted fileList <> [] ->
  processed (handleFiles B (Some fileList) st) = []
  /\ (exists mapped,
        files (handleFiles B (Some fileList) st) = files st ++ mapped)
  /\ firstn (List.length (files st)) (files (handleFiles B (Some fileList) st))
     = files st.
Proof.
  intros Hne. rewrite (handleFiles_accepting B fileList st Hne).
  cbn [processed files setProcessed setFiles setMessage].
  split; [reflexivity|]. split.
  - eexists. reflexivity.
  - rewrite firstn_app, Nat.sub_diag, firstn_all, firstn_O.
    apply List.app_nil_r.
Qed.

Lemma handleFiles_clears_processed_witness :
  let done := @processImages asciiFolding Demo.shrinking Demo.threeImages in
  let more := [Demo.fileOf "d.jpg" "image/jpeg" 300] in
  List.length (processed done) = 2
  /\ processed (handleFiles Demo.shrinking (Some more) done) = []
  /\ firstn (List.length (files done))
       (files (handleFiles Demo.shrinking (Some more) done))
     = files done.
Proof.
  split; [vm_compute; reflexivity|].
  assert (Hne : filter isAccepted [Demo.fileOf "d.jpg" "image/jpeg" 300] <> [])
    by (vm_compute; discriminate).
  destruct (handleFiles_clears_processed Demo.shrinking
              [Demo.fileOf "d.jpg" "image/jpeg" 300]
              (@processImages asciiFolding Demo.shrinking Demo.threeImages)
              Hne) as (Hp & _ & Hf).
  split; assumption.
Defined.

(* ================================================================== *)
(** * Batch runs *)
(* ================================================================== *)

Section Batch.

Context {cf : CaseFolding}.
Variable B : Browser.
Variable keyword0 : jsstring.
Variable isSquare0 : bool.

(** The loop adds to [results] the contributions of the images it is
    given, whatever the outcome of each. *)
Lemma processLoop_results (total : nat) (todo : list InputImage) :
  forall (i : nat) (results : list ProcessedImage) (st : AppState),
    fst (processLoop B keyword0 isSquare0 total todo i results st)
    = results ++ Spec.batchResults B keyword0 isSquare0 i todo.
Proof.
  induction todo as [|input rest IH]; intros i results st; simpl.
  - symmetry. apply List.app_nil_r.
  - unfold Spec.contribution.
    destruct (isBlank (keywordFor input keyword0)); [apply IH|].
    destruct (processSingleImage B input (keywordFor input keyword0)
                (forceSquareFor input isSquare0) i) as [r|].
    + rewrite IH, <- List.app_assoc. reflexivity.
    + apply IH.
Qed.

(** The loop leaves the list of processed results alone. *)
Lemma processLoop_processed (total : nat) (todo : list InputImage) :
  forall (i : nat) (results : list ProcessedImage) (st : AppState),
    processed (snd (processLoop B keyword0 isSquare0 total todo i results st))
    = processed st.
Proof.
  induction todo as [|input rest IH]; intros i results st; simpl;
    [reflexivity|].
  destruct (isBlank (keywordFor input keyword0)); [rewrite IH; reflexivity|].
  destruct (processSingleImage B input (keywordFor input keyword0)
              (forceSquareFor input isSquare0) i);
    rewrite IH; reflexivity.
Qed.

(** Nor does it add, drop or reorder images: only progress fields change. *)
Lemma processLoop_ids (total : nat) (todo : list InputImage) :
  forall (i : nat) (results : list ProcessedImage) (st : AppState),
    map id (files (snd (processLoop B keyword0 isSquare0 total todo i
                          results st)))
    = map id (files st).
Proof.
  assert (Hupd : forall target change l,
             (forall f, id (change f) = id f) ->
             map id (updateById target change l) = map id l).
  { intros target change l Hc. unfold updateById. rewrite map_map.
    apply map_ext. intros f. destruct (JS.eqb (id f) target); auto. }
  induction todo as [|input rest IH]; intros i results st; simpl;
    [reflexivity|].
  destruct (isBlank (keywordFor input keyword0)).
  - rewrite IH. cbn [files setFiles]. apply Hupd. reflexivity.
  - destruct (processSingleImage B input (keywordFor input keyword0)
                (forceSquareFor input isSquare0) i);
      rewrite IH; cbn [files setFiles]; rewrite !Hupd; reflexivity.
Qed.

(** Membership in the contributions of a batch. *)
Lemma batchResults_In (r : ProcessedImage) (inputs : list InputImage) :
  forall (i : nat),
    In r (Spec.batchResults B keyword0 isSquare0 i inputs) <->
    exists (j : nat) (input : InputImage),
      nth_error inputs j = Some input
      /\ isBlank (keywordFor input keyword0) = false
      /\ processSingleImage B input (keywordFor input keyword0)
           (forceSquareFor input isSquare0) (i + j) = Some r.
Proof.
  induction inputs as [|input rest IH]; intros i; simpl.
  - split; [contradiction|]. intros (j & x & Hj & _). destruct j; discriminate.
  - rewrite in_app_iff, IH. split.
    + intros [Hin | (j & x & Hj & Hb & Hp)].
      * exists 0, input. rewrite Nat.add_0_r. unfold Spec.contribution in Hin.
        destruct (isBlank (keywordFor input keyword0)); [contradiction|].
        destruct (processSingleImage B input (keywordFor input keyword0)
                    (forceSquareFor input isSquare0) i) as [r'|];
          [|contradiction].
        destruct Hin as [->|[]]. repeat split; reflexivity.
      * exists (S j), x. rewrite Nat.add_succ_r. auto.
    + intros ([|j] & x & Hj & Hb & Hp).
      * left. injection Hj as <-. rewrite Nat.add_0_r in Hp.
        unfold Spec.contribution. rewrite Hb, Hp. left. reflexivity.
      * right. exists j, x. rewrite Nat.add_succ_r in Hp. auto.
Qed.

Lemma batchResults_app (before after : list InputImage) :
  forall (i : nat),
    Spec.batchResults B keyword0 isSquare0 i (before ++ after)
    = Spec.batchResults B keyword0 isSquare0 i before
        ++ Spec.batchResults B keyword0 isSquare0 (i + List.length before)
             after.
Proof.
  induction before as [|x before IH]; intros i; simpl.
  - rewrite Nat.add_0_r. reflexivity.
  - rewrite IH, <- List.app_assoc, Nat.add_succ_r. reflexivity.
Qed.

End Batch.

(** What [processImages] stores as the processed results. *)
Lemma processImages_processed (cf : CaseFolding) (B : Browser)
    (st : AppState) :
  files st <> [] -> isBlank (keyword st) = false ->
  processed (processImages B st)
  = Spec.batchResults B (keyword st) (isSquare st) 0 (files st).
Proof.
  intros Hfiles Hkw. unfold processImages.
  destruct (files st) as [|f0 rest] eqn:Hf; [contradiction|].
  rewrite Hkw.
  match goal with
  | |- context [processLoop B ?k ?s ?t ?todo ?i ?res ?st0] =>
      pose proof (processLoop_results B k s t todo i res st0) as Hres;
      destruct (processLoop B k s t todo i res st0) as [results st5]
  end.
  cbn [fst] in Hres. rewrite Hres. cbn [app].
  destruct (Spec.batchResults B (keyword st) (isSquare st) 0 (f0 :: rest));
    reflexivity.
Qed.

(** C9. Failure isolation: a batch run stores exactly the records of the
    images whose transform succeeded, in batch order.  An image that fails
    contributes nothing and stops nothing: the images before and after it
    contribute what they would have contributed anyway, each under its own
    position in the batch. *)
Theorem processImages_isolates_failures (cf : CaseFolding) (B : Browser)
    (st : AppState) :
  files st <> [] -> isBlank (keyword st) = false ->
  processed (processImages B st)
  = Spec.batchResults B (keyword st) (isSquare st) 0 (files st)
  /\ (forall r,
        In r (processed (processImages B st)) <->
        exists (i : nat) (input : InputImage),
          nth_error (files st) i = Some input
          /\ isBlank (keywordFor input (keyword st)) = false
          /\ processSingleImage B input (keywordFor input (keyword st))
               (forceSquareFor input (isSquare st)) i = Some r)
  /\ (forall before failed after,
        files st = before ++ failed :: after ->
        processSingleImage B failed (keywordFor failed (keyword st))
          (forceSquareFor failed (isSquare st)) (List.length before) = None ->
        processed (processImages B st)
        = Spec.batchResults B (keyword st) (isSquare st) 0 before
            ++ Spec.batchResults B (keyword st) (isSquare st)
                 (S (List.length before)) after).
Proof.
  intros Hfiles Hkw.
  pose proof (processImages_processed cf B st Hfiles Hkw) as E.
  split; [exact E|]. split.
  - intros r. rewrite E. apply (batchResults_In B (keyword st) (isSquare st)).
  - intros before failed after Hsplit Hfail. rewrite E, Hsplit.
    rewrite batchResults_app. cbn [Spec.batchResults Nat.add].
    unfold Spec.contribution. rewrite Hfail.
    destruct (isBlank (keywordFor failed (keyword st))); reflexivity.
Qed.

Lemma processImages_isolates_failures_witness :
  map seoName (processed (@processImages asciiFolding Demo.shrinking
                            Demo.threeImages))
  = [utf16 "summer-silk-dress-01.jpg"; utf16 "summer-silk-dress-03.webp"]
  /\ processed (@processImages asciiFolding Demo.shrinking Demo.threeImages)
     = @Spec.batchResults asciiFolding Demo.shrinking
         (keyword Demo.threeImages) (isSquare Demo.threeImages) 0
         (files Demo.threeImages).
Proof.
  split; [vm_compute; reflexivity|].
  refine (proj1 (processImages_isolates_failures asciiFolding Demo.shrinking
                   Demo.threeImages _ _)).
  - vm_compute. discriminate.
  - vm_compute. reflexivity.
Defined.

(* ================================================================== *)
(** * The sequence index *)
(* ================================================================== *)

Lemma findIndexFrom_ids (imageId : jsstring) (l l' : list InputImage) :
  map id l = map id l' ->
  forall i, findIndexFrom imageId l i = findIndexFrom imageId l' i.
Proof.
  revert l'. induction l as [|f t IH]; intros [|f' t'] E i;
    try discriminate; [reflexivity|].
  simpl in E. injection E as Ef Et. simpl. rewrite Ef.
  destruct (JS.eqb (id f') imageId); [reflexivity|]. apply IH. exact Et.
Qed.

Lemma updateById_ids (target : jsstring) (change : InputImage -> InputImage)
    (l : list InputImage) :
  (forall f, id (change f) = id f) ->
  map id (updateById target change l) = map id l.
Proof.
  intros Hc. unfold updateById. rewrite map_map.
  apply map_ext. intros f. destruct (JS.eqb (id f) target); auto.
Qed.

Lemma revokeDownloadUrls_files (items : list ProcessedImage) (st : AppState) :
  files (revokeDownloadUrls items st) = files st.
Proof.
  unfold revokeDownloadUrls. revert st.
  induction items as [|p t IH]; intros st; simpl; [reflexivity|].
  rewrite IH. destruct (downloadUrl p); reflexivity.
Qed.

(** Where [findIndex] finds an image whose id no earlier image has. *)
Lemma findIndexFrom_at (x : InputImage) (pre post : list InputImage) :
  Forall (fun f => id f <> id x) pre ->
  forall i,
    findIndexFrom (id x) (pre ++ x :: post) i
    = (i + Z.of_nat (List.length pre))%Z.
Proof.
  induction 1 as [|f t Hf Ht IH]; intros i; simpl.
  - rewrite jseqb_refl. lia.
  - destruct (JS.eqb (id f) (id x)) eqn:E;
      [apply jseqb_eq in E; contradiction|].
    rewrite IH. lia.
Qed.

Lemma filter_other_id (other : jsstring) (l : list InputImage) :
  Forall (fun f => id f <> other) l ->
  filter (fun f => negb (JS.eqb (id f) other)) l = l.
Proof.
  intros H. apply filter_all. eapply Forall_impl; [|exact H].
  intros f Hf. cbv beta. destruct (JS.eqb (id f) other) eqn:E;
    [apply jseqb_eq in E; contradiction|reflexivity].
Qed.

Lemma deleteSingleImage_files (imageId : jsstring) (st : AppState) :
  files (deleteSingleImage imageId st)
  = filter (fun f => negb (JS.eqb (id f) imageId)) (files st).
Proof.
  unfold deleteSingleImage.
  cbn [files setAiCompletedItemIds setProcessed].
  match goal with
  | |- files (match ?m with Some _ => _ | None => _ end) = _ => destruct m
  end; cbn [files revokeObjectURL setFiles];
    destruct (find _ (files st)); reflexivity.
Qed.

(** In a list of images with distinct ids, the ids on either side of an
    image differ from its own. *)
Lemma NoDup_ids_split (pre post : list InputImage) (x : InputImage) :
  NoDup (map id (pre ++ x :: post)) ->
  Forall (fun f => id f <> id x) pre /\ Forall (fun f => id f <> id x) post.
Proof.
  rewrite map_app. cbn [map]. intros H.
  pose proof (NoDup_remove_2 _ _ _ H) as Hnot.
  split; apply Forall_forall; intros f Hf E; apply Hnot;
    apply in_or_app; [left|right]; rewrite <- E; apply in_map; exact Hf.
Qed.

(** Reprocessing one image: the record it stores and the name it gives. *)
Lemma compressSingleImage_result (cf : CaseFolding) (B : Browser)
    (imageId : jsstring) (st : AppState) (image : InputImage)
    (r : ProcessedImage) :
  find (fun f => JS.eqb (id f) imageId) (files st) = Some image ->
  isBlank (keywordFor image (keyword st)) = false ->
  processSingleImage B image (keywordFor image (keyword st))
    (forceSquareFor image (isSquare st))
    (Z.to_nat (findIndex imageId (files st))) = Some r ->
  processed (compressSingleImage B imageId st)
  = filter (fun p => negb (JS.eqb (p_id p) imageId)) (processed st) ++ [r].
Proof.
  intros Hfind Hkw Hr. unfold compressSingleImage.
  rewrite Hfind, Hkw, Hr.
  cbn [processed addTotalProcessed setProcessed setFiles].
  destruct (find _ (processed st)); reflexivity.
Qed.

(* ================================================================== *)
(** * The classifier's matching policy *)
(* ================================================================== *)

(** A loop with [break] contributes the token of the first entry that
    hits, if any. *)
Lemma firstHit_firstToken (hit : jsstring -> bool) (entries : RuleTable)
    (keywords : list jsstring) :
  firstHit hit entries keywords = keywords ++ Spec.firstToken hit entries.
Proof.
  unfold Spec.firstToken.
  induction entries as [|[item patterns] rest IH]; simpl.
  - symmetry. apply List.app_nil_r.
  - destruct (existsb hit patterns); [reflexivity|exact IH].
Qed.

(** A loop without [break] contributes the token of every entry that
    hits. *)
Lemma everyHit_everyToken (hit : jsstring -> bool) (entries : RuleTable) :
  forall keywords,
    everyHit hit entries keywords = keywords ++ Spec.everyToken hit entries.
Proof.
  unfold Spec.everyToken.
  induction entries as [|[item patterns] rest IH]; intros keywords; simpl.
  - symmetry. apply List.app_nil_r.
  - destruct (existsb hit patterns); simpl; rewrite IH;
      [rewrite <- List.app_assoc|]; reflexivity.
Qed.

Lemma firstHit_push (hit : jsstring -> bool) (entries : RuleTable)
    (keywords rest : list jsstring) :
  firstHit hit entries keywords ++ rest
  = keywords ++ Spec.firstToken hit entries ++ rest.
Proof. rewrite firstHit_firstToken. symmetry. apply List.app_assoc. Qed.

Lemma everyHit_push (hit : jsstring -> bool) (entries : RuleTable)
    (keywords rest : list jsstring) :
  everyHit hit entries keywords ++ rest
  = keywords ++ Spec.everyToken hit entries ++ rest.
Proof. rewrite everyHit_everyToken. symmetry. apply List.app_assoc. Qed.

Lemma firstToken_at_most_one (hit : jsstring -> bool) (entries : RuleTable) :
  List.length (Spec.firstToken hit entries) <= 1.
Proof.
  unfold Spec.firstToken. destruct (find _ entries); simpl; lia.
Qed.

(** The claim's example fails: with no visual recogniser, the file name
    of the example yields the single token [medium] in both revisions
    (the appliance table has no Latin-script pattern but [espresso]). *)
Lemma ascii_name_yields_no_appliance :
  @Plain.analyzeFileName asciiFolding
    (utf16 "#01_coffee-maker_grinder_front.png") = [utf16 "medium"]
  /\ @Enhanced.analyzeFileName asciiFolding
       (utf16 "#01_coffee-maker_grinder_front.png") = [utf16 "medium"]
  /\ suggestedKeywords
       (@Enhanced.analyzeImage asciiFolding []
          (Demo.fileOf "#01_coffee-maker_grinder_front.png" "image/png" 10))
     = [utf16 "medium"].
Proof. vm_compute. repeat split; reflexivity. Qed.

(** The tokens of a name are the contributions of the categories, in
    category order (first revision). *)
Lemma plain_tokens_by_category (cf : CaseFolding) (fileName : jsstring) :
  let hit := includes (toLowerCase fileName) in
  Plain.analyzeFileName fileName
  = List.concat
      [Spec.firstToken hit Plain.colors;
       Spec.firstToken hit Plain.materials;
       Spec.firstToken hit Rules.styles;
       Spec.firstToken hit Plain.clothing;
       Spec.firstToken hit Rules.shoes;
       Spec.firstToken hit Rules.bags;
       Spec.firstToken hit Rules.jewelry;
       Spec.firstToken hit Rules.accessories;
       Spec.firstToken hit Rules.electronics;
       Spec.everyToken hit Rules.home;
       Spec.firstToken hit Rules.furniture;
       Spec.firstToken hit Rules.kitchen;
       Spec.firstToken hit Rules.beauty;
       Spec.firstToken hit Rules.sports;
       Spec.firstToken hit Rules.baby;
       Spec.firstToken hit Rules.pet;
       Spec.firstToken hit Rules.scenes;
       Spec.firstToken hit Rules.seasons;
       Spec.firstToken hit Rules.sizes].
Proof.
  intros hit. unfold Plain.analyzeFileName. cbv zeta. fold hit.
  apply (eq_trans (eq_sym (List.app_nil_r _))).
  rewrite !firstHit_push, everyHit_push, !firstHit_push.
  rewrite List.app_nil_l, !List.concat_cons, List.concat_nil.
  reflexivity.
Qed.

(** The same for the second revision, on the cleaned name, with its
    garment table sorted longest pattern first. *)
Lemma enhanced_tokens_by_category (cf : CaseFolding) (fileName : jsstring) :
  let cleaned := Enhanced.cleanFileName fileName in
  let name := if 2 <? List.length cleaned then cleaned
              else toLowerCase fileName in
  let hit := includes name in
  Enhanced.analyzeFileName fileName
  = List.concat
      [Spec.firstToken (Enhanced.testWord name) Enhanced.colors;
       Spec.firstToken (Enhanced.testWord name) Enhanced.materials;
       Spec.firstToken hit Rules.styles;
       Spec.firstToken (Enhanced.testGarment name)
         (Enhanced.sortByMaxLen Enhanced.clothing);
       Spec.firstToken hit Rules.shoes;
       Spec.firstToken hit Rules.bags;
       Spec.firstToken hit Rules.jewelry;
       Spec.firstToken hit Rules.accessories;
       Spec.firstToken hit Rules.electronics;
       Spec.everyToken hit Rules.home;
       Spec.firstToken hit Rules.furniture;
       Spec.firstToken hit Rules.kitchen;
       Spec.firstToken hit Rules.beauty;
       Spec.firstToken hit Rules.sports;
       Spec.firstToken hit Rules.baby;
       Spec.firstToken hit Rules.pet;
       Spec.firstToken hit Rules.scenes;
       Spec.firstToken hit Rules.seasons;
       Spec.firstToken hit Rules.sizes].
Proof.
  intros cleaned name hit. unfold Enhanced.analyzeFileName.
  cbv zeta. fold cleaned. fold name. fold hit.
  apply (eq_trans (eq_sym (List.app_nil_r _))).
  rewrite !firstHit_push, everyHit_push, !firstHit_push.
  rewrite List.app_nil_l, !List.concat_cons, List.concat_nil.
  reflexivity.
Qed.

(** The example of the classifier's own test script. *)
Lemma chinese_name_tokens (cf : CaseFolding) :
  LowerLaw cf ->
  Plain.analyzeFileName (utf16 "#01 咖啡机研磨机_正面白底图.png")
  = [utf16 "white"; utf16 "coffee-maker"; utf16 "coffee-grinder"]
  /\ Enhanced.analyzeFileName (utf16 "#01 咖啡机研磨机_正面白底图.png")
     = [utf16 "white"; utf16 "coffee-maker"; utf16 "coffee-grinder"].
Proof.
  intros law. split.
  - unfold Plain.analyzeFileName. rewrite law by reflexivity.
    vm_compute. reflexivity.
  - unfold Enhanced.analyzeFileName, Enhanced.cleanFileName.
    rewrite law by reflexivity. vm_compute. reflexivity.
Qed.

(** C6 (amended). Within every rule category the first entry whose
    pattern list hits the name is selected and the category contributes
    that one token (none when nothing hits), except for the home-appliance
    category, which contributes the token of every entry that hits; the
    tokens of a name are these contributions in category order.  The file
    name ["#01 咖啡机研磨机_正面白底图.png"], with no visual recogniser, yields
    a list that includes both [coffee-maker] and [coffee-grinder]. *)
Theorem category_matching_policy (cf : CaseFolding) :
  (forall hit entries keywords,
      firstHit hit entries keywords = keywords ++ Spec.firstToken hit entries
      /\ List.length (Spec.firstToken hit entries) <= 1
      /\ everyHit hit entries keywords
         = keywords ++ Spec.everyToken hit entries)
  /\ (forall fileName,
        let hit := includes (toLowerCase fileName) in
        Plain.analyzeFileName fileName
        = List.concat
            [Spec.firstToken hit Plain.colors;
             Spec.firstToken hit Plain.materials;
             Spec.firstToken hit Rules.styles;
             Spec.firstToken hit Plain.clothing;
             Spec.firstToken hit Rules.shoes;
             Spec.firstToken hit Rules.bags;
             Spec.firstToken hit Rules.jewelry;
             Spec.firstToken hit Rules.accessories;
             Spec.firstToken hit Rules.electronics;
             Spec.everyToken hit Rules.home;
             Spec.firstToken hit Rules.furniture;
             Spec.firstToken hit Rules.kitchen;
             Spec.firstToken hit Rules.beauty;
             Spec.firstToken hit Rules.sports;
             Spec.firstToken hit Rules.baby;
             Spec.firstToken hit Rules.pet;
             Spec.firstToken hit Rules.scenes;
             Spec.firstToken hit Rules.seasons;
             Spec.firstToken hit Rules.sizes])
  /\ (forall fileName,
        let cleaned := Enhanced.cleanFileName fileName in
        let name := if 2 <? List.length cleaned then cleaned
                    else toLowerCase fileName in
        let hit := includes name in
        Enhanced.analyzeFileName fileName
        = List.concat
            [Spec.firstToken (Enhanced.testWord name) Enhanced.colors;
             Spec.firstToken (Enhanced.testWord name) Enhanced.materials;
             Spec.firstToken hit Rules.styles;
             Spec.firstToken (Enhanced.testGarment name)
               (Enhanced.sortByMaxLen Enhanced.clothing);
             Spec.firstToken hit Rules.shoes;
             Spec.firstToken hit Rules.bags;
             Spec.firstToken hit Rules.jewelry;
             Spec.firstToken hit Rules.accessories;
             Spec.firstToken hit Rules.electronics;
             Spec.everyToken hit Rules.home;
             Spec.firstToken hit Rules.furniture;
             Spec.firstToken hit Rules.kitchen;
             Spec.firstToken hit Rules.beauty;
             Spec.firstToken hit Rules.sports;
             Spec.firstToken hit Rules.baby;
             Spec.firstToken hit Rules.pet;
             Spec.firstToken hit Rules.scenes;
             Spec.firstToken hit Rules.seasons;
             Spec.firstToken hit Rules.sizes])
  /\ (LowerLaw cf ->
      In (utf16 "coffee-maker")
        (Plain.analyzeFileName (utf16 "#01 咖啡机研磨机_正面白底图.png"))
      /\ In (utf16 "coffee-grinder")
           (Plain.analyzeFileName (utf16 "#01 咖啡机研磨机_正面白底图.png"))
      /\ In (utf16 "coffee-maker")
           (Enhanced.analyzeFileName (utf16 "#01 咖啡机研磨机_正面白底图.png"))
      /\ In (utf16 "coffee-grinder")
           (Enhanced.analyzeFileName (utf16 "#01 咖啡机研磨机_正面白底图.png"))).
Proof.
  split; [|split; [|split; [|]]].
  - intros hit entries keywords.
    split; [apply firstHit_firstToken|].
    split; [apply firstToken_at_most_one|apply everyHit_everyToken].
  - exact (plain_tokens_by_category cf).
  - exact (enhanced_tokens_by_category cf).
  - intros law. destruct (chinese_name_tokens cf law) as [Hp He].
    rewrite Hp, He. cbn [In]. tauto.
Qed.

Lemma category_matching_policy_witness :
  LowerLaw asciiFolding
  /\ In (utf16 "coffee-maker")
       (@Plain.analyzeFileName asciiFolding
          (utf16 "#01 咖啡机研磨机_正面白底图.png"))
  /\ In (utf16 "coffee-grinder")
       (@Enhanced.analyzeFileName asciiFolding
          (utf16 "#01 咖啡机研磨机_正面白底图.png")).
Proof.
  split; [exact asciiFolding_law|].
  pose proof (proj2 (proj2 (proj2 (category_matching_policy asciiFolding)))
                asciiFolding_law) as (H1 & _ & _ & H4).
  split; assumption.
Defined.

(* ================================================================== *)
(** * Composing the keyword *)
(* ================================================================== *)

(** The primary token is never empty. *)
Lemma category_cons (tokens : list jsstring) :
  exists c k, orElse (hd [] tokens) product = c :: k.
Proof.
  destruct tokens as [|[|c k] rest]; cbn [hd orElse].
  - exists 0x70%N. eexists. reflexivity.
  - exists 0x70%N. eexists. reflexivity.
  - exists c, k. reflexivity.
Qed.

Lemma primaryToken_orElse (tokens : list jsstring) :
  Spec.primaryToken tokens = orElse (hd [] tokens) product.
Proof. destruct tokens as [|[|c k] rest]; reflexivity. Qed.

Ltac split_option x :=
  let c := fresh "c" in let k := fresh "k" in
  destruct x as [[|c k]|].

(** The later revision joins the tokens that [Spec.chosenTokens] lists. *)
Lemma combine_chosen (info : ImageInfo) :
  Enhanced.combine info
  = orElse (join [hyphen] (Spec.chosenTokens (suggestedKeywords info)))
      product
  /\ 1 <= List.length (Spec.chosenTokens (suggestedKeywords info)) <= 3.
Proof.
  unfold Enhanced.combine, Spec.chosenTokens. cbv zeta.
  rewrite !primaryToken_orElse.
  destruct (category_cons (suggestedKeywords info)) as (c0 & k0 & Hc).
  rewrite !Hc.
  set (tokens := suggestedKeywords info).
  set (color := find (listIncludes Enhanced.colorSet) tokens).
  set (material := find (listIncludes Enhanced.materialSet) tokens).
  set (style := find (listIncludes Enhanced.styleSet) tokens).
  set (extra := filter _ tokens).
  set (many := 1 <? List.length tokens).
  destruct (JS.eqb (c0 :: k0) product);
    split_option color; split_option material; split_option style;
    destruct many; destruct extra as [|x rest];
    cbn [negb Plain.pushIf Plain.truthy app List.length Nat.ltb Nat.leb
         andb firstn join orElse];
    split; try reflexivity; try lia.
Qed.

(** The earlier revision joins the tokens that [Spec.chosenTokensPlain]
    lists. *)
Lemma composePlain_chosen (info : ImageInfo) :
  Plain.composeKeywords info
  = join [hyphen] (Spec.chosenTokensPlain (suggestedKeywords info))
  /\ 1 <= List.length (Spec.chosenTokensPlain (suggestedKeywords info)) <= 4.
Proof.
  unfold Plain.composeKeywords, Spec.chosenTokensPlain. cbv zeta.
  rewrite !primaryToken_orElse.
  destruct (category_cons (suggestedKeywords info)) as (c0 & k0 & Hc).
  rewrite !Hc.
  set (tokens := suggestedKeywords info).
  set (color := find (listIncludes Plain.colorSet) tokens).
  set (material := find (listIncludes Plain.materialSet) tokens).
  set (style := find (listIncludes Plain.styleSet) tokens).
  set (second := find _ tokens).
  set (many := 1 <? List.length tokens).
  split_option color; split_option material; split_option style;
    destruct many; split_option second;
    cbn [negb Plain.pushIf Plain.truthy app List.length Nat.ltb Nat.leb
         andb firstn join orElse];
    split; try reflexivity; try lia.
Qed.

(** The claim as stated fails in both revisions: the later one returns
    words of the file name where the claimed composition of the (trivial)
    classification result is ["product"]; the earlier one adds the style
    as a fourth token. *)
Lemma keyword_is_not_the_claimed_composition :
  (suggestedKeywords
     (@Enhanced.analyzeImage asciiFolding []
        (Demo.fileOf "img_fancy-gadget.png" "image/png" 10)) = [product]
   /\ Spec.claimedKeyword [product] = utf16 "product"
   /\ @Enhanced.extractKeywords asciiFolding []
        (Demo.fileOf "img_fancy-gadget.png" "image/png" 10)
      = utf16 "fancy-gadget")
  /\ (suggestedKeywords
        (@Plain.analyzeImage asciiFolding
           (Demo.fileOf "红色皮革休闲连衣裙.jpg" "image/jpeg" 10))
      = [utf16 "red"; utf16 "leather"; utf16 "casual"; utf16 "dress";
         utf16 "casual"]
      /\ Spec.claimedKeyword
           [utf16 "red"; utf16 "leather"; utf16 "casual"; utf16 "dress";
            utf16 "casual"]
         = utf16 "red-red-leather"
      /\ @Plain.extractKeywords asciiFolding
           (Demo.fileOf "红色皮革休闲连衣裙.jpg" "image/jpeg" 10)
         = utf16 "red-red-leather-casual").
Proof. vm_compute. repeat split; reflexivity. Qed.

(* ================================================================== *)
(** * The early exit of the later [extractKeywords], in the document's
      terms *)
(* ================================================================== *)

(** A letter is kept by the early exit's first replacement and separates
    nothing. *)
Lemma isLetter_unit (c : N) :
  Spec.isLetter c = true ->
  Enhanced.isWordUnit c = true /\ isWhiteSpace c = false
  /\ isHyphen c = false /\ isDigit c = false.
Proof.
  intros H.
  assert (Ht : tokenUnit c = true).
  { unfold tokenUnit, isLowerAZ. unfold Spec.isLetter in H.
    apply orb_true_iff in H. destruct H as [H|H]; rewrite H;
      rewrite ?orb_true_r; reflexivity. }
  split; [|split; [apply tokenUnit_not_space; exact Ht|]].
  - unfold Enhanced.isWordUnit, isLowerAZ. unfold Spec.isLetter in H.
    apply orb_true_iff in H. destruct H as [H|H]; rewrite H;
      rewrite ?orb_true_r; reflexivity.
  - unfold Spec.isLetter in H. unfold isHyphen, hyphen, isDigit.
    split.
    + apply N.eqb_neq. intros ->. discriminate H.
    + apply orb_true_iff in H.
      destruct H as [H|H]; apply andb_true_iff in H; destruct H as [H1 H2];
        apply N.leb_le in H1, H2; apply andb_false_iff; right;
        apply N.leb_gt; lia.
Qed.

(** Every other unit is, or becomes, a separator. *)
Lemma nonLetter_unit (c : N) :
  Spec.isLetter c = false ->
  let c' := if Enhanced.isWordUnit c then c else Enhanced.space in
  isWhiteSpace c' || isHyphen c' = true.
Proof.
  intros H. cbv zeta.
  destruct (Enhanced.isWordUnit c) eqn:Hw; [|reflexivity].
  unfold Enhanced.isWordUnit in Hw. unfold Spec.isLetter in H.
  unfold isLowerAZ in Hw. rewrite H in Hw. exact Hw.
Qed.

(** Splitting the blanked text at its separators gives the maximal runs of
    letters, and empty pieces besides. *)
Lemma splitRuns_wordsOf (s : jsstring) :
  forall (cur : jsstring) (inRun : bool),
    (inRun = true -> cur = []) ->
    filter nonEmpty
      (Enhanced.splitRuns (fun c => isWhiteSpace c || isHyphen c) inRun cur
         (map (fun c => if Enhanced.isWordUnit c then c else Enhanced.space)
            s))
    = Spec.wordsOf cur s.
Proof.
  induction s as [|c t IH]; intros cur inRun Hrun.
  - cbn [map Enhanced.splitRuns Spec.wordsOf filter].
    destruct cur; reflexivity.
  - cbn [map Enhanced.splitRuns Spec.wordsOf].
    destruct (Spec.isLetter c) eqn:Hl.
    + destruct (isLetter_unit c Hl) as (Hw & Hs & Hh & _).
      rewrite Hw, Hs, Hh. cbn [orb]. apply IH. discriminate.
    + pose proof (nonLetter_unit c Hl) as Hsep. cbv zeta in Hsep.
      rewrite Hsep.
      destruct inRun.
      * rewrite (Hrun eq_refl). apply IH. reflexivity.
      * cbn [filter]. destruct cur as [|x cur'].
        -- cbn [nonEmpty]. apply IH. reflexivity.
        -- cbn [nonEmpty]. f_equal. apply IH. reflexivity.
Qed.

(** The words are not empty and hold letters only. *)
Lemma wordsOf_letters (s : jsstring) :
  forall cur : jsstring,
    Forall (fun c => Spec.isLetter c = true) cur ->
    Forall (fun w => w <> [] /\ Forall (fun c => Spec.isLetter c = true) w)
      (Spec.wordsOf cur s).
Proof.
  induction s as [|c t IH]; intros cur Hcur; cbn [Spec.wordsOf].
  - destruct cur; constructor; [|constructor].
    split; [discriminate|exact Hcur].
  - destruct (Spec.isLetter c) eqn:Hl.
    + apply IH. apply Forall_app. split; [exact Hcur|].
      constructor; [exact Hl|constructor].
    + destruct cur as [|x cur']; [apply IH; constructor|].
      constructor; [split; [discriminate|exact Hcur]|].
      apply IH. constructor.
Qed.

Lemma filter_through {A : Type} (f g : A -> bool) (l : list A) :
  (forall x, f x = true -> g x = true) ->
  filter f (filter g l) = filter f l.
Proof.
  intros Himp. induction l as [|x t IH]; [reflexivity|].
  cbn [filter]. destruct (g x) eqn:Hg.
  - cbn [filter]. rewrite IH. reflexivity.
  - destruct (f x) eqn:Hf; [|exact IH].
    rewrite (Himp x Hf) in Hg. discriminate.
Qed.

Lemma filter_agree {A : Type} (f g : A -> bool) (l : list A) :
  Forall (fun x => f x = g x) l -> filter f l = filter g l.
Proof.
  induction 1 as [|x t Hx Ht IH]; [reflexivity|].
  cbn [filter]. rewrite Hx, IH. reflexivity.
Qed.

(** The early exit joins the first three words of more than two letters. *)
Lemma nameWords_words (cleaned : jsstring) :
  Enhanced.nameWords cleaned
  = firstn 3
      (filter (fun w => 2 <? List.length w) (Spec.wordsOf [] cleaned)).
Proof.
  unfold Enhanced.nameWords. f_equal.
  rewrite <- (filter_through _ nonEmpty).
  - rewrite splitRuns_wordsOf by discriminate.
    apply filter_agree.
    eapply Forall_impl; [|apply (wordsOf_letters cleaned []); constructor].
    intros w [Hne Hw]. cbv beta.
    destruct w as [|c w']; [contradiction|].
    inversion Hw as [|c0 w0 Hc Hw']; subst.
    destruct (isLetter_unit c Hc) as (_ & _ & _ & Hd).
    unfold Enhanced.allDigits. cbn [forallb]. rewrite Hd. cbn [andb negb].
    apply andb_true_r.
  - intros w H. apply andb_true_iff in H. destruct H as [H _].
    destruct w; [discriminate|reflexivity].
Qed.

(** ** The name without its extension *)

Lemma last_dot_split (s : jsstring) :
  forallb notDot s = true
  \/ exists a e, s = a ++ Enhanced.dot :: e /\ forallb notDot e = true.
Proof.
  induction s as [|c t IH]; [left; reflexivity|].
  destruct IH as [Hfree|(a & e & -> & He)].
  - destruct (c =? Enhanced.dot)%N eqn:Hc.
    + right. exists [], t. apply N.eqb_eq in Hc. subst c.
      split; [reflexivity|exact Hfree].
    + left. cbn [forallb]. unfold notDot at 1. rewrite Hc. exact Hfree.
  - right. exists (c :: a), e. split; [reflexivity|exact He].
Qed.

Lemma removeTail_dot_free (s : jsstring) :
  forallb notDot s = true ->
  Enhanced.removeTail Enhanced.isLastDotTail s = s.
Proof.
  induction s as [|c t IH]; intros H; [reflexivity|].
  cbn [forallb] in H. apply andb_true_iff in H. destruct H as [Hc Ht].
  cbn [Enhanced.removeTail].
  assert (E : Enhanced.isLastDotTail (c :: t) = false).
  { unfold notDot in Hc. apply negb_true_iff in Hc.
    destruct t; [reflexivity|].
    unfold Enhanced.isLastDotTail. rewrite Hc. reflexivity. }
  rewrite E, IH by exact Ht. reflexivity.
Qed.

Lemma removeTail_last_dot (a e : jsstring) :
  forallb notDot e = true ->
  Enhanced.removeTail Enhanced.isLastDotTail (a ++ Enhanced.dot :: e)
  = match e with [] => a ++ [Enhanced.dot] | _ => a end.
Proof.
  intros He. induction a as [|c a' IH].
  - cbn [app Enhanced.removeTail]. destruct e as [|x rest].
    + reflexivity.
    + assert (E : Enhanced.isLastDotTail (Enhanced.dot :: x :: rest) = true).
      { unfold Enhanced.isLastDotTail. rewrite N.eqb_refl. exact He. }
      rewrite E. reflexivity.
  - cbn [app]. cbn [Enhanced.removeTail].
    assert (E : Enhanced.isLastDotTail (c :: a' ++ Enhanced.dot :: e) = false).
    { unfold Enhanced.isLastDotTail.
      destruct (a' ++ Enhanced.dot :: e) as [|x rest] eqn:Hrest;
        [reflexivity|].
      apply andb_false_iff. right. rewrite <- Hrest.
      rewrite forallb_app. cbn [forallb]. rewrite N.eqb_refl.
      cbn [negb andb]. apply andb_false_r. }
    rewrite E, IH. destruct e; reflexivity.
Qed.

Lemma untilDot_dot_free (s : jsstring) :
  forallb notDot s = true -> Spec.untilDot s = s.
Proof.
  induction s as [|c t IH]; intros H; [reflexivity|].
  cbn [forallb] in H. apply andb_true_iff in H. destruct H as [Hc Ht].
  cbn [Spec.untilDot]. unfold notDot in Hc. apply negb_true_iff in Hc.
  change 0x2E%N with Enhanced.dot. rewrite Hc, IH by exact Ht. reflexivity.
Qed.

Lemma untilDot_first_dot (x y : jsstring) :
  forallb notDot x = true -> Spec.untilDot (x ++ Enhanced.dot :: y) = x.
Proof.
  induction x as [|c t IH]; intros H.
  - cbn [app Spec.untilDot]. change 0x2E%N with Enhanced.dot.
    rewrite N.eqb_refl. reflexivity.
  - cbn [forallb] in H. apply andb_true_iff in H. destruct H as [Hc Ht].
    cbn [app Spec.untilDot]. unfold notDot in Hc. apply negb_true_iff in Hc.
    change 0x2E%N with Enhanced.dot. rewrite Hc, IH by exact Ht. reflexivity.
Qed.

Lemma forallb_rev {A : Type} (f : A -> bool) (l : list A) :
  forallb f (rev l) = forallb f l.
Proof.
  induction l as [|x t IH]; [reflexivity|].
  cbn [rev forallb]. rewrite forallb_app, IH. cbn [forallb].
  rewrite andb_true_r. apply andb_comm.
Qed.

(** [s.replace(/\.[^.]+$/, '')] removes the extension. *)
Lemma removeTail_withoutExtension (s : jsstring) :
  Enhanced.removeTail Enhanced.isLastDotTail s = Spec.withoutExtension s.
Proof.
  unfold Spec.withoutExtension. cbv zeta.
  destruct (last_dot_split s) as [Hfree|(a & e & -> & He)].
  - rewrite removeTail_dot_free by exact Hfree.
    rewrite untilDot_dot_free by (rewrite forallb_rev; exact Hfree).
    destruct (rev s) as [|n l]; [reflexivity|].
    rewrite skipn_all. reflexivity.
  - rewrite removeTail_last_dot by exact He.
    rewrite rev_app_distr. cbn [rev]. rewrite <- List.app_assoc.
    cbn [app].
    rewrite untilDot_first_dot by (rewrite forallb_rev; exact He).
    destruct (rev e) as [|n l] eqn:Hrev.
    + destruct e as [|x rest]; [reflexivity|].
      apply (f_equal (@List.length N)) in Hrev.
      rewrite length_rev in Hrev. discriminate.
    + rewrite skipn_app, skipn_all, Nat.sub_diag. cbn [skipn app].
      rewrite rev_involutive.
      destruct e as [|x rest]; [discriminate Hrev|reflexivity].
Qed.

(** C7 (amended). The later revision of [extractKeywords] returns, when
    the classification result is trivial (empty, or led by ["product"]) and
    the cleaned file name is longer than two units, differs from the
    lower-cased name without its extension and has a word of more than two
    letters, the first three such words joined by hyphens; a word is a
    maximal run of letters [a-z] or ideographs, so [img_fancy-gadget.png]
    with the result [["product"]] gives [fancy-gadget].  Otherwise it
    joins by hyphens: the primary token (the first element, or ["product"])
    unless it is ["product"]; then the first token of the colour set, if
    any; then the first of the material set, if any; then the first of the
    style set if fewer than three are chosen so far; then, if fewer than two
    are chosen and the result has more than one token, the first token
    that is none of those and not generic; and the primary token alone if
    nothing was chosen.  That is between one and three tokens, and the
    result falls back to ["product"] when the join is empty.  The earlier
    revision joins the primary token, the colour, the material and the
    style, whichever are present, or, when none of the three is, the
    primary token and the first token that differs from it. *)
Theorem extractKeywords_composition (cf : CaseFolding) (info : ImageInfo)
    (f : File) :
  let words := Spec.nameWordsOf (suggestedKeywords info) (file_name f) in
  Enhanced.composeKeywords info f
  = match words with
    | _ :: _ => join (utf16 "-") words
    | [] =>
        match join (utf16 "-") (Spec.chosenTokens (suggestedKeywords info))
        with
        | [] => utf16 "product"
        | c :: k => c :: k
        end
    end
  /\ List.length words <= 3
  /\ Forall (fun w => 2 < List.length w
                      /\ Forall (fun c => Spec.isLetter c = true) w) words
  /\ (LowerLaw cf -> file_name f = utf16 "img_fancy-gadget.png" ->
      suggestedKeywords info = [utf16 "product"] ->
      Enhanced.composeKeywords info f = utf16 "fancy-gadget")
  /\ 1 <= List.length (Spec.chosenTokens (suggestedKeywords info)) <= 3
  /\ Plain.composeKeywords info
     = join (utf16 "-") (Spec.chosenTokensPlain (suggestedKeywords info))
  /\ 1 <= List.length (Spec.chosenTokensPlain (suggestedKeywords info)) <= 4.
Proof.
  intros words.
  destruct (combine_chosen info) as [Hc Hlen].
  destruct (composePlain_chosen info) as [Hp Hplen].
  assert (Hcompose :
            Enhanced.composeKeywords info f
            = match words with
              | _ :: _ => join (utf16 "-") words
              | [] =>
                  match join (utf16 "-")
                          (Spec.chosenTokens (suggestedKeywords info)) with
                  | [] => utf16 "product"
                  | c :: k => c :: k
                  end
              end).
  { subst words. unfold Enhanced.composeKeywords, Spec.nameWordsOf.
    cbv zeta. rewrite Hc, orElse_cases.
    rewrite removeTail_withoutExtension.
    change (utf16 "-") with [hyphen]. change (utf16 "product") with product.
    generalize (Enhanced.cleanFileName (file_name f)). intros cleaned.
    rewrite nameWords_words.
    destruct (match suggestedKeywords info with
              | [] => true
              | k :: _ => JS.eqb k product
              end);
      destruct (2 <? List.length cleaned);
      destruct (negb (JS.eqb cleaned
                        (Spec.withoutExtension (toLowerCase (file_name f)))));
      cbn [andb]; reflexivity. }
  split; [exact Hcompose|].
  assert (Hwords :
            forall cleaned,
              Forall (fun w => 2 < List.length w
                               /\ Forall (fun c => Spec.isLetter c = true) w)
                (firstn 3
                   (filter (fun w => 2 <? List.length w)
                      (Spec.wordsOf [] cleaned)))).
  { intros cleaned. apply Forall_forall. intros w Hin.
    assert (Hin' : In w (filter (fun w => 2 <? List.length w)
                           (Spec.wordsOf [] cleaned))).
    { rewrite <- (firstn_skipn 3 (filter _ _)). apply in_or_app. left.
      exact Hin. }
    apply filter_In in Hin'. destruct Hin' as [Hw Hlong].
    split; [apply Nat.ltb_lt; exact Hlong|].
    pose proof (wordsOf_letters cleaned [] (Forall_nil _)) as Hall.
    rewrite Forall_forall in Hall. exact (proj2 (Hall w Hw)). }
  split; [|split; [|split; [|split; [exact Hlen|split;
                                       [exact Hp|exact Hplen]]]]].
  - subst words. unfold Spec.nameWordsOf. cbv zeta.
    destruct (_ && _); [apply firstn_le_length|cbn; lia].
  - subst words. unfold Spec.nameWordsOf. cbv zeta.
    destruct (_ && _); [apply Hwords|constructor].
  - intros law Hname Htokens. rewrite Hcompose. subst words.
    rewrite Hname, Htokens. unfold Spec.nameWordsOf, Enhanced.cleanFileName.
    cbv zeta. rewrite (law (utf16 "img_fancy-gadget.png")) by reflexivity.
    vm_compute. reflexivity.
Qed.

(* ================================================================== *)
(** * Binary64 rounding never invents a not-a-number *)
(* ================================================================== *)

Local Open Scope Z_scope.

Lemma digits2_pos_lower (p : positive) :
  2 ^ (Zpos (digits2_pos p) - 1) <= Zpos p.
Proof.
  induction p as [p IH|p IH|]; cbn [digits2_pos].
  - rewrite Pos2Z.inj_succ.
    replace (Z.succ (Zpos (digits2_pos p)) - 1)
      with (Z.succ (Zpos (digits2_pos p) - 1)) by lia.
    rewrite Z.pow_succ_r by lia. lia.
  - rewrite Pos2Z.inj_succ.
    replace (Z.succ (Zpos (digits2_pos p)) - 1)
      with (Z.succ (Zpos (digits2_pos p) - 1)) by lia.
    rewrite Z.pow_succ_r by lia. lia.
  - cbn. lia.
Qed.

Lemma digits2_pos_upper (p : positive) :
  Zpos p < 2 ^ Zpos (digits2_pos p).
Proof.
  induction p as [p IH|p IH|]; cbn [digits2_pos].
  - rewrite Pos2Z.inj_succ, Z.pow_succ_r by lia. lia.
  - rewrite Pos2Z.inj_succ, Z.pow_succ_r by lia. lia.
  - cbn. lia.
Qed.

(** A non-negative integer below [2^k] has at most [k] binary digits. *)
Lemma Zdigits2_le (q k : Z) :
  0 <= q -> 0 <= k -> q < 2 ^ k -> Zdigits2 q <= k.
Proof.
  intros Hq Hk Hlt. destruct q as [|p|p]; cbn [Zdigits2]; [lia| |lia].
  pose proof (digits2_pos_lower p) as Hlow.
  assert (H : 2 ^ (Zpos (digits2_pos p) - 1) < 2 ^ k) by lia.
  apply Z.pow_lt_mono_r_iff in H; lia.
Qed.

Lemma Zdigits2_nonneg (q : Z) : 0 <= Zdigits2 q.
Proof. destruct q; cbn; lia. Qed.

Lemma digits2_pos_succ (p : positive) :
  Zpos (digits2_pos (Pos.succ p)) <= Zpos (digits2_pos p) + 1.
Proof.
  induction p as [p IH|p IH|]; cbn [Pos.succ digits2_pos];
    rewrite ?Pos2Z.inj_succ; lia.
Qed.

Lemma Zdigits2_succ (m : Z) : 0 <= m -> Zdigits2 (m + 1) <= Zdigits2 m + 1.
Proof.
  intros Hm. destruct m as [|p|p]; [cbn; lia| |lia].
  replace (Zpos p + 1) with (Zpos (Pos.succ p)) by lia.
  cbn [Zdigits2]. apply digits2_pos_succ.
Qed.

(** One right shift: the mantissa stays non-negative and loses a digit. *)
Lemma shr_1_spec (mrs : shr_record) :
  0 <= shr_m mrs ->
  0 <= shr_m (shr_1 mrs)
  /\ Zdigits2 (shr_m (shr_1 mrs)) = Z.max 0 (Zdigits2 (shr_m mrs) - 1).
Proof.
  destruct mrs as [m r s]. cbn [shr_m]. intros Hm.
  destruct m as [|[p|p|]|p]; cbn [shr_1 shr_m Zdigits2 digits2_pos];
    rewrite ?Pos2Z.inj_succ; lia.
Qed.

Lemma iter_shr_1_spec (p : positive) :
  forall mrs,
    0 <= shr_m mrs ->
    0 <= shr_m (iter_pos shr_1 p mrs)
    /\ Zdigits2 (shr_m (iter_pos shr_1 p mrs))
       = Z.max 0 (Zdigits2 (shr_m mrs) - Zpos p).
Proof.
  induction p as [p IH|p IH|]; intros mrs Hm; cbn [iter_pos].
  - destruct (shr_1_spec mrs Hm) as [H1 D1].
    destruct (IH _ H1) as [H2 D2]. destruct (IH _ H2) as [H3 D3].
    split; [exact H3|]. rewrite D3, D2, D1.
    pose proof (Zdigits2_nonneg (shr_m mrs)). lia.
  - destruct (IH _ Hm) as [H2 D2]. destruct (IH _ H2) as [H3 D3].
    split; [exact H3|]. rewrite D3, D2.
    pose proof (Zdigits2_nonneg (shr_m mrs)). lia.
  - destruct (shr_1_spec mrs Hm) as [H1 D1]. split; [exact H1|].
    rewrite D1. reflexivity.
Qed.

(** The first half of rounding: shift the mantissa to the format's
    exponent. *)
Lemma shr_fexp_spec (m e : Z) (l : location) :
  0 <= m ->
  let '(mrs, e') := shr_fexp prec emax m e l in
  0 <= shr_m mrs
  /\ e' = Z.max e (fexp prec emax (Zdigits2 m + e))
  /\ Zdigits2 (shr_m mrs) + e' <= Z.max (Zdigits2 m + e) e'.
Proof.
  intros Hm. unfold shr_fexp, shr.
  assert (Hrec : shr_m (shr_record_of_loc m l) = m)
    by (destruct l as [|[]]; reflexivity).
  destruct (fexp prec emax (Zdigits2 m + e) - e) as [|p|p] eqn:Hn.
  - rewrite Hrec. repeat split; lia.
  - assert (H0 : 0 <= shr_m (shr_record_of_loc m l)) by (rewrite Hrec; lia).
    destruct (iter_shr_1_spec p _ H0) as [H1 D1]. rewrite Hrec in D1.
    split; [exact H1|]. split; [lia|]. rewrite D1. lia.
  - rewrite Hrec. repeat split; lia.
Qed.

Lemma round_nearest_even_spec (m : Z) (l : location) :
  0 <= m ->
  0 <= round_nearest_even m l
  /\ Zdigits2 (round_nearest_even m l) <= Zdigits2 m + 1.
Proof.
  intros Hm. pose proof (Zdigits2_succ m Hm).
  unfold round_nearest_even. destruct l as [|[]]; try destruct (Z.even m);
    split; lia.
Qed.

(** Rounding a non-negative mantissa gives a number. *)
Lemma binary_round_aux_number (s : bool) (m e : Z) (l : location) :
  0 <= m -> Num.isNumber (binary_round_aux prec emax s m e l) = true.
Proof.
  intros Hm. unfold binary_round_aux.
  pose proof (shr_fexp_spec m e l Hm) as H1.
  destruct (shr_fexp prec emax m e l) as [mrs' e'].
  destruct H1 as (H1 & _ & _).
  destruct (round_nearest_even_spec (shr_m mrs') (loc_of_shr_record mrs') H1)
    as [H2 _].
  pose proof (shr_fexp_spec _ e' loc_Exact H2) as H3.
  destruct (shr_fexp prec emax _ e' loc_Exact) as [mrs'' e''].
  destruct H3 as (H3 & _ & _).
  destruct (shr_m mrs'') as [|p|p]; [reflexivity| |lia].
  destruct (e'' <=? emax - prec); reflexivity.
Qed.

(** With room for one more digit below the largest exponent, rounding
    gives zero or a finite value. *)
Lemma binary_round_aux_finite (s : bool) (m e : Z) (l : location) :
  0 <= m -> e <= emax - prec -> Zdigits2 m + e <= emax - 1 ->
  Num.isFinite (binary_round_aux prec emax s m e l) = true.
Proof.
  intros Hm He Hd. unfold binary_round_aux.
  pose proof (shr_fexp_spec m e l Hm) as H1.
  destruct (shr_fexp prec emax m e l) as [mrs' e'].
  destruct H1 as (H1 & E1 & D1).
  destruct (round_nearest_even_spec (shr_m mrs') (loc_of_shr_record mrs') H1)
    as [H2 D2].
  pose proof (shr_fexp_spec _ e' loc_Exact H2) as H3.
  destruct (shr_fexp prec emax _ e' loc_Exact) as [mrs'' e''].
  destruct H3 as (H3 & E3 & _).
  destruct (shr_m mrs'') as [|p|p]; [reflexivity| |lia].
  assert (Hle : e'' <= emax - prec).
  { unfold fexp, SpecFloat.emin in *. unfold emax, prec in *. lia. }
  apply Z.leb_le in Hle. rewrite Hle. reflexivity.
Qed.

(* ================================================================== *)
(** * The operations of the size computation *)
(* ================================================================== *)

Lemma shl_align_spec (mx : positive) (ex ex' : Z) :
  let '(mz, ez) := shl_align mx ex ex' in
  ez <= ex /\ Zpos (digits2_pos mz) + ez = Zpos (digits2_pos mx) + ex.
Proof.
  unfold shl_align. destruct (ex' - ex) as [|d|d] eqn:Hd; [lia|lia|].
  split; [lia|].
  assert (H : forall n,
             Zpos (digits2_pos (Pos.iter xO mx n))
             = Zpos (digits2_pos mx) + Zpos n).
  { intros n. induction n as [|n IH] using Pos.peano_ind.
    - cbn. rewrite Pos2Z.inj_succ. lia.
    - rewrite Pos.iter_succ. cbn [digits2_pos].
      rewrite Pos2Z.inj_succ, IH, Pos2Z.inj_succ. lia. }
  rewrite H. lia.
Qed.

(** Normalising a non-negative integer of at most [emax - 1] bits. *)
Lemma binary_normalize_finite (m : Z) :
  0 <= m -> Zdigits2 m <= emax - 1 ->
  Num.isFinite (binary_normalize prec emax m 0 false) = true.
Proof.
  intros Hm Hd. destruct m as [|p|p]; [reflexivity| |lia].
  cbn [binary_normalize]. unfold binary_round.
  pose proof (shl_align_spec p 0 (fexp prec emax (Zpos (digits2_pos p) + 0)))
    as Hs.
  destruct (shl_align p 0 _) as [mz ez]. destruct Hs as [He Hz].
  apply binary_round_aux_finite; [lia|unfold emax, prec; lia|].
  cbn [Zdigits2] in *. lia.
Qed.

Lemma binary_normalize_number (m e : Z) (szero : bool) :
  Num.isNumber (binary_normalize prec emax m e szero) = true.
Proof.
  destruct m as [|p|p]; [reflexivity| |];
    cbn [binary_normalize]; unfold binary_round;
    destruct (shl_align p e _) as [mz ez];
    apply binary_round_aux_number; lia.
Qed.

(** The number of an integer is zero or finite. *)
Lemma ofZ_finite (z : Z) : Num.isFinite (Prim2SF (Num.ofZ z)) = true.
Proof.
  unfold Num.ofZ. rewrite FloatAxioms.of_uint63_spec.
  pose proof (Uint63.to_Z_bounded (Uint63.of_Z z)) as Hb.
  apply binary_normalize_finite; [lia|].
  apply Z.le_trans with 63; [|unfold emax; lia].
  apply Zdigits2_le; [lia|lia|].
  change (2 ^ 63) with wB. lia.
Qed.

(** What is known of every primitive float: its mantissa and exponent
    fit the format. *)
Lemma valid_finite_bound (x : float) (s : bool) (m : positive) (e : Z) :
  Prim2SF x = S754_finite s m e ->
  Zpos (digits2_pos m) + e <= emax /\ e <= emax - prec.
Proof.
  intros Hx. pose proof (Prim2SF_valid x) as Hv. rewrite Hx in Hv.
  cbn [SpecFloat.valid_binary] in Hv. unfold bounded, canonical_mantissa in Hv.
  apply andb_true_iff in Hv. destruct Hv as [Hc Hb].
  apply Z.eqb_eq in Hc. apply Z.leb_le in Hb.
  unfold fexp, SpecFloat.emin in Hc. unfold emax, prec in *. lia.
Qed.

(** The quotient and its exponent, before rounding. *)
Lemma SFdiv_core_spec (m1 : positive) (e1 : Z) (m2 : positive) (e2 : Z) :
  let '(q, e', l) := SFdiv_core_binary prec emax (Zpos m1) e1 (Zpos m2) e2 in
  0 <= q
  /\ e' <= fexp prec emax
             (Zpos (digits2_pos m1) + e1 - (Zpos (digits2_pos m2) + e2))
  /\ Zdigits2 q + e'
     <= Z.max e' (Zpos (digits2_pos m1) + e1
                  - (Zpos (digits2_pos m2) + e2) + 1).
Proof.
  unfold SFdiv_core_binary. cbn [Zdigits2].
  set (d1 := Zpos (digits2_pos m1)). set (d2 := Zpos (digits2_pos m2)).
  set (e' := Z.min (fexp prec emax (d1 + e1 - (d2 + e2))) (e1 - e2)).
  set (s := e1 - e2 - e').
  assert (Hs : 0 <= s) by (unfold s, e'; lia).
  set (m' := match s with
             | 0 => Zpos m1
             | Zpos _ => Z.shiftl (Zpos m1) s
             | Zneg _ => 0
             end).
  assert (Hm' : m' = Zpos m1 * 2 ^ s).
  { unfold m'. destruct s as [|p|p] eqn:Es; [cbn; lia| |lia].
    rewrite Z.shiftl_mul_pow2 by lia. reflexivity. }
  pose proof (Z_div_mod m' (Zpos m2) ltac:(lia)) as Hdiv.
  destruct (Z.div_eucl m' (Zpos m2)) as [q r]. destruct Hdiv as [Hq Hr].
  assert (Hpow : 0 < 2 ^ s) by (apply Z.pow_pos_nonneg; lia).
  assert (Hq0 : 0 <= q) by nia.
  split; [exact Hq0|]. split; [unfold e'; lia|].
  pose proof (digits2_pos_upper m1) as Hu. fold d1 in Hu.
  pose proof (digits2_pos_lower m2) as Hl. fold d2 in Hl.
  destruct (Z_lt_le_dec (d1 + s - d2 + 1) 0) as [Hneg|Hpos].
  - (* the quotient is zero *)
    assert (Hq' : q = 0).
    { assert (Hlt : m' < Zpos m2).
      { rewrite Hm'.
        apply Z.lt_le_trans with (2 ^ d1 * 2 ^ s); [nia|].
        rewrite <- Z.pow_add_r by (unfold d1; lia).
        apply Z.le_trans with (2 ^ (d2 - 1)); [|exact Hl].
        apply Z.pow_le_mono_r; lia. }
      nia. }
    rewrite Hq'. cbn [Zdigits2]. lia.
  - assert (Hd : Zdigits2 q <= d1 + s - d2 + 1).
    { apply Zdigits2_le; [exact Hq0|exact Hpos|].
      assert (H1 : q * 2 ^ (d2 - 1) < 2 ^ (d1 + s)).
      { rewrite Z.pow_add_r by (unfold d1; lia). nia. }
      replace (d1 + s) with ((d1 + s - d2 + 1) + (d2 - 1)) in H1 by lia.
      rewrite Z.pow_add_r in H1 by (unfold d2; lia).
      assert (H2 : 0 < 2 ^ (d2 - 1))
        by (apply Z.pow_pos_nonneg; unfold d2; lia).
      nia. }
    unfold s in Hd. lia.
Qed.

(** Dividing a number by a finite value gives a number. *)
Lemma SFdiv_number (x : spec_float) (sy : bool) (my : positive) (ey : Z) :
  Num.isNumber x = true ->
  Num.isNumber (SF64div x (S754_finite sy my ey)) = true.
Proof.
  intros Hx. destruct x as [sx|sx| |sx mx ex]; try reflexivity;
    [discriminate|].
  unfold SF64div, SFdiv.
  pose proof (SFdiv_core_spec mx ex my ey) as Hc.
  destruct (SFdiv_core_binary prec emax (Zpos mx) ex (Zpos my) ey)
    as [[q e'] l].
  apply binary_round_aux_number. tauto.
Qed.

(** Dividing a float by a finite value of magnitude at least two cannot
    overflow. *)
Lemma SFdiv_finite (x : float) (sy : bool) (my : positive) (ey : Z) :
  Num.isFinite (Prim2SF x) = true ->
  2 <= Zpos (digits2_pos my) + ey ->
  Num.isFinite (SF64div (Prim2SF x) (S754_finite sy my ey)) = true.
Proof.
  intros Hx Hy. destruct (Prim2SF x) as [sx|sx| |sx mx ex] eqn:Ex;
    try discriminate; [reflexivity|].
  destruct (valid_finite_bound x sx mx ex Ex) as [Hd He].
  unfold SF64div, SFdiv.
  pose proof (SFdiv_core_spec mx ex my ey) as Hc.
  destruct (SFdiv_core_binary prec emax (Zpos mx) ex (Zpos my) ey)
    as [[q e'] l].
  destruct Hc as (Hq & He' & Hdq).
  assert (Hfe : e' <= emax - prec - 1).
  { unfold fexp, SpecFloat.emin in He'. unfold emax, prec in *. lia. }
  apply binary_round_aux_finite; [exact Hq|lia|].
  unfold emax, prec in *. lia.
Qed.

(** The difference of two finite values is a number. *)
Lemma SFsub_number (x y : spec_float) :
  Num.isFinite x = true -> Num.isFinite y = true ->
  Num.isNumber (SF64sub x y) = true.
Proof.
  intros Hx Hy.
  destruct x as [sx|sx| |sx mx ex], y as [sy|sy| |sy my ey];
    try discriminate; try reflexivity.
  - destruct sx, sy; reflexivity.
  - apply binary_normalize_number.
Qed.

(** The product of a number and a finite non-zero value is a number. *)
Lemma SFmul_number (x : spec_float) (sy : bool) (my : positive) (ey : Z) :
  Num.isNumber x = true ->
  Num.isNumber (SF64mul x (S754_finite sy my ey)) = true.
Proof.
  intros Hx. destruct x as [sx|sx| |sx mx ex]; try reflexivity;
    [discriminate|].
  apply binary_round_aux_number. lia.
Qed.

Lemma is_nan_number (x : float) :
  is_nan x = negb (Num.isNumber (Prim2SF x)).
Proof.
  unfold is_nan. rewrite FloatAxioms.eqb_spec. unfold SFeqb.
  destruct (Prim2SF x) as [s|s| |s m e]; cbn [SFcompare Num.isNumber negb];
    try reflexivity.
  - destruct s; reflexivity.
  - rewrite Z.compare_refl.
    assert (H : Pos.compare_cont Eq m m = Eq) by apply Pos.compare_cont_refl.
    destruct s; rewrite H; reflexivity.
Qed.

Lemma ltb_leb (x y : float) :
  (x <? y)%float = true -> (x <=? y)%float = true.
Proof.
  rewrite FloatAxioms.ltb_spec, FloatAxioms.leb_spec. unfold SFltb, SFleb.
  destruct (SFcompare (Prim2SF x) (Prim2SF y)) as [[| |]|];
    try discriminate; reflexivity.
Qed.

(** A value above zero is finite and not zero, or the positive infinity. *)
Lemma positive_shape (x : float) :
  (Num.ofZ 0 <? x)%float = true ->
  (exists m e, Prim2SF x = S754_finite false m e)
  \/ Prim2SF x = S754_infinity false.
Proof.
  rewrite FloatAxioms.ltb_spec. unfold SFltb.
  change (Prim2SF (Num.ofZ 0)) with (S754_zero false).
  destruct (Prim2SF x) as [s|s| |s m e]; cbn [SFcompare]; try discriminate.
  - destruct s; [discriminate|]. right. reflexivity.
  - destruct s; [discriminate|]. left. eauto.
Qed.

Local Close Scope Z_scope.

(* ================================================================== *)
(** * Sizes and savings *)
(* ================================================================== *)

Lemma isFinite_isNumber (x : spec_float) :
  Num.isFinite x = true -> Num.isNumber x = true.
Proof. destruct x; try discriminate; reflexivity. Qed.

Lemma SFopp_finite (x : spec_float) :
  Num.isFinite (SFopp x) = Num.isFinite x.
Proof. destruct x; reflexivity. Qed.

(** A byte count in KiB is zero or finite. *)
Lemma kib_finite (bytes : nat) :
  Num.isFinite (Prim2SF (Num.kib bytes)) = true.
Proof.
  unfold Num.kib. rewrite FloatAxioms.div_spec.
  let c := eval vm_compute in (Prim2SF (Num.ofZ 1024)) in
  change (Prim2SF (Num.ofZ 1024)) with c.
  apply SFdiv_finite; [apply ofZ_finite|vm_compute; discriminate].
Qed.

(** Printing with one decimal and reading back keeps a finite value
    finite. *)
Lemma toFixed1_finite (x : float) :
  Num.isFinite (Prim2SF x) = true ->
  Num.isFinite (Prim2SF (Num.toFixed1 x)) = true.
Proof.
  intros Hx. unfold Num.toFixed1.
  destruct (Prim2SF x) as [s|s| |s m e] eqn:Ex; try discriminate.
  - rewrite Ex. reflexivity.
  - destruct (abs x <? Num.ofZ (2 ^ 49))%float; [|rewrite Ex; reflexivity].
    assert (Hr : Num.isFinite
                   (Prim2SF (Num.ofZ (Num.tenthsOf m e) / Num.ofZ 10)%float)
                 = true).
    { rewrite FloatAxioms.div_spec.
      let c := eval vm_compute in (Prim2SF (Num.ofZ 10)) in
      change (Prim2SF (Num.ofZ 10)) with c.
      apply SFdiv_finite; [apply ofZ_finite|vm_compute; discriminate]. }
    destruct s; [|exact Hr].
    rewrite FloatAxioms.opp_spec, SFopp_finite. exact Hr.
Qed.

(** It never turns a number into not-a-number. *)
Lemma toFixed1_number (x : float) :
  Num.isNumber (Prim2SF x) = true ->
  Num.isNumber (Prim2SF (Num.toFixed1 x)) = true.
Proof.
  intros Hx.
  destruct (Num.isFinite (Prim2SF x)) eqn:Hf.
  - apply isFinite_isNumber, toFixed1_finite. exact Hf.
  - unfold Num.toFixed1.
    destruct (Prim2SF x) as [s|s| |s m e] eqn:Ex; try discriminate;
      rewrite Ex; reflexivity.
Qed.

(** The percentage before clamping is a number. *)
Lemma percent_number (okb t : float) :
  Num.isFinite (Prim2SF okb) = true ->
  Num.isFinite (Prim2SF t) = true ->
  (Num.ofZ 0 <? okb)%float = true ->
  Num.isNumber (Prim2SF (((okb - t) / okb) * Num.ofZ 100)%float) = true.
Proof.
  intros Hokb Ht Hpos.
  rewrite FloatAxioms.mul_spec, FloatAxioms.div_spec, FloatAxioms.sub_spec.
  let c := eval vm_compute in (Prim2SF (Num.ofZ 100)) in
  change (Prim2SF (Num.ofZ 100)) with c.
  apply SFmul_number.
  pose proof (SFsub_number _ _ Hokb Ht) as Hsub.
  set (d := SF64sub (Prim2SF okb) (Prim2SF t)) in *. clearbody d.
  destruct (positive_shape okb Hpos) as [(m & e & E)|E];
    [|rewrite E in Hokb; discriminate].
  rewrite E. apply SFdiv_number. exact Hsub.
Qed.

(** Clamping a number at zero gives a value that is at least zero. *)
Lemma max0_nonneg (y : float) :
  Num.isNumber (Prim2SF y) = true ->
  (Num.ofZ 0 <=? Num.max0 y)%float = true.
Proof.
  intros Hy. unfold Num.max0. rewrite is_nan_number, Hy. cbn [negb].
  destruct (zero <? y)%float eqn:Hlt.
  - apply ltb_leb. exact Hlt.
  - reflexivity.
Qed.

(** The savings percentage of any two byte counts is at least zero. *)
Lemma savedPercentOf_nonneg (originalSize finalSize : nat) :
  (Num.ofZ 0
   <=? savedPercentOf (Num.toFixed1 (Num.kib originalSize)) finalSize)%float
  = true.
Proof.
  unfold savedPercentOf.
  destruct (Num.ofZ 0 <? Num.toFixed1 (Num.kib originalSize))%float eqn:Hpos;
    [|reflexivity].
  apply max0_nonneg, toFixed1_number, percent_number.
  - apply toFixed1_finite, kib_finite.
  - apply kib_finite.
  - exact Hpos.
Qed.

(** C2. Savings: for every successfully processed image, [savedPercent]
    is at least zero; it is [max(0, round1((originalSizeKb - finalBytes /
    1024) / originalSizeKb * 100))] when [originalSizeKb > 0] and [0]
    otherwise, where [round1] prints with one decimal and reads the text
    back, [finalBytes] is the size of the output blob and [originalSizeKb]
    is the original byte count divided by 1024, rounded the same way. *)
Theorem savedPercent_nonnegative (cf : CaseFolding) (B : Browser)
    (input : InputImage) (k : jsstring) (forceSquareToUse : bool)
    (index : nat) (r : ProcessedImage) :
  processSingleImage B input k forceSquareToUse index = Some r ->
  (Num.ofZ 0 <=? savedPercent r)%float = true
  /\ originalSizeKb r
     = Num.toFixed1 (Num.ofNat (file_size (file input)) / Num.ofZ 1024)%float
  /\ savedPercent r
     = (if (Num.ofZ 0 <? originalSizeKb r)%float
        then Num.max0
               (Num.toFixed1
                  (((originalSizeKb r
                     - Num.ofNat (blob_size (blob r)) / Num.ofZ 1024)
                    / originalSizeKb r) * Num.ofZ 100))%float
        else Num.ofZ 0).
Proof.
  intros Hr.
  destruct (processSingleImage_fields _ _ _ _ _ _ Hr)
    as (ob & _ & _ & _ & Hokb & _ & Hsaved & _).
  split; [|split; [exact Hokb|rewrite Hsaved; reflexivity]].
  rewrite Hsaved, Hokb. apply savedPercentOf_nonneg.
Qed.

Lemma savedPercent_nonnegative_witness :
  exists r,
    @processSingleImage asciiFolding Demo.inflating
      (Demo.inputOf "tiny.jpg" "image/jpeg" 288) (utf16 "tiny") false 0
    = Some r
    /\ (Num.ofZ 0 <=? savedPercent r)%float = true
    /\ savedPercent r = 0x1.8cccccccccccdp+2%float.
Proof.
  destruct (@processSingleImage asciiFolding Demo.inflating
              (Demo.inputOf "tiny.jpg" "image/jpeg" 288) (utf16 "tiny")
              false 0) as [r|] eqn:Hr.
  - exists r. split; [reflexivity|]. split.
    + exact (proj1 (savedPercent_nonnegative asciiFolding Demo.inflating
                      _ _ _ _ r Hr)).
    + vm_compute in Hr. injection Hr as <-. reflexivity.
  - vm_compute in Hr. discriminate Hr.
Defined.

(* ================================================================== *)
(** * Run replacement and its normal forms *)
(* ================================================================== *)

Section NormalRuns.

Variable cls : N -> bool.
Variable h : N.
Hypothesis cls_h : cls h = true.

Lemma replaceRuns_normal (s : jsstring) :
  forall b, normalRuns cls h b (replaceRuns cls [h] b s) = true.
Proof.
  induction s as [|c t IH]; intros b; [reflexivity|].
  cbn [replaceRuns]. destruct (cls c) eqn:Hc.
  - destruct b.
    + apply IH.
    + cbn [app normalRuns]. rewrite cls_h, N.eqb_refl. cbn [negb andb].
      apply IH.
  - cbn [normalRuns]. rewrite Hc. apply IH.
Qed.

Lemma normalRuns_fixed (s : jsstring) :
  forall b, normalRuns cls h b s = true -> replaceRuns cls [h] b s = s.
Proof.
  induction s as [|c t IH]; intros b Hn; [reflexivity|].
  cbn [normalRuns] in Hn. cbn [replaceRuns].
  destruct (cls c) eqn:Hc.
  - apply andb_prop in Hn as [Hn Ht]. apply andb_prop in Hn as [He Hb].
    apply N.eqb_eq in He. subst c. destruct b; [discriminate|].
    cbn [app]. rewrite (IH true Ht). reflexivity.
  - rewrite (IH false Hn). reflexivity.
Qed.

Lemma normalRuns_weaken (s : jsstring) :
  forall b, normalRuns cls h b s = true -> normalRuns cls h false s = true.
Proof.
  destruct s as [|c t]; intros b Hn; [reflexivity|].
  cbn [normalRuns] in *. destruct (cls c); [|exact Hn].
  apply andb_prop in Hn as [Hn Ht]. apply andb_prop in Hn as [He _].
  rewrite He, Ht. reflexivity.
Qed.

Lemma normalRuns_tail (a s : jsstring) :
  forall b, normalRuns cls h b (a ++ s) = true ->
            normalRuns cls h false s = true.
Proof.
  induction a as [|c t IH]; intros b Hn.
  - exact (normalRuns_weaken s b Hn).
  - cbn [app normalRuns] in Hn. destruct (cls c).
    + apply andb_prop in Hn as [_ Ht]. exact (IH true Ht).
    + exact (IH false Hn).
Qed.

Lemma normalRuns_head (a s : jsstring) :
  forall b, normalRuns cls h b (a ++ s) = true ->
            normalRuns cls h b a = true.
Proof.
  induction a as [|c t IH]; intros b Hn; [reflexivity|].
  cbn [app normalRuns] in *. destruct (cls c).
  - apply andb_prop in Hn as [Hn Ht]. rewrite Hn. exact (IH true Ht).
  - exact (IH false Hn).
Qed.

(** A normal string has no two neighbouring units of the class. *)
Lemma normalRuns_no_pair (s a z : jsstring) (x y : N) (b : bool) :
  normalRuns cls h b s = true -> cls x = true -> cls y = true ->
  s <> a ++ [x; y] ++ z.
Proof.
  intros Hn Hx Hy E. subst s.
  apply normalRuns_tail in Hn. cbn [app normalRuns] in Hn.
  rewrite Hx, Hy in Hn.
  destruct (x =? h)%N, (y =? h)%N; cbn [negb andb] in Hn; discriminate.
Qed.

(** Every unit of the class in a normal string is [h]. *)
Lemma normalRuns_units (s : jsstring) :
  forall b c, normalRuns cls h b s = true -> In c s -> cls c = true -> c = h.
Proof.
  induction s as [|d t IH]; intros b c Hn Hin Hc; [contradiction|].
  cbn [normalRuns] in Hn. destruct Hin as [E|Hin].
  - subst d. rewrite Hc in Hn. apply andb_prop in Hn as [Hn _].
    apply andb_prop in Hn as [He _]. apply N.eqb_eq. exact He.
  - destruct (cls d).
    + apply andb_prop in Hn as [_ Ht]. exact (IH true c Ht Hin Hc).
    + exact (IH false c Hn Hin Hc).
Qed.

End NormalRuns.

(** X1. Whatever the input and whatever the engine's case table, a
    sanitized keyword is made of [a-z], [0-9], the ideographs U+4E00 to
    U+9FA5 and hyphens only, it has no white space, and it never has two
    hyphens in a row. *)
Theorem sanitizeKeyword_alphabet (cf : CaseFolding) (value : jsstring) :
  Forall (fun c => tokenUnit c = true) (sanitizeKeyword value)
  /\ Forall (fun c => isWhiteSpace c = false) (sanitizeKeyword value)
  /\ (forall a z, sanitizeKeyword value <> a ++ [hyphen; hyphen] ++ z).
Proof.
  pose proof (sanitizeKeyword_units value) as Hu.
  split; [exact Hu|]. split.
  - revert Hu. apply Forall_impl. exact tokenUnit_not_space.
  - intros a z. unfold sanitizeKeyword.
    apply (normalRuns_no_pair isHyphen hyphen _ a z hyphen hyphen false);
      try reflexivity.
    apply replaceRuns_normal. reflexivity.
Qed.

(* ================================================================== *)
(** * Decimal text and its value *)
(* ================================================================== *)

Lemma digitsOf_isDigit (d : Decimal.uint) :
  Forall (fun c => isDigit c = true) (digitsOf d).
Proof. induction d; cbn [digitsOf]; constructor; auto. Qed.

Lemma leadingDigits_all (s : jsstring) :
  Forall (fun c => isDigit c = true) s -> leadingDigits s = s.
Proof.
  induction 1 as [|c t Hc _ IH]; [reflexivity|].
  cbn [leadingDigits]. rewrite Hc, IH. reflexivity.
Qed.

Lemma numberOfDigits_acc (d : Decimal.uint) :
  forall acc : nat,
    fold_left (fun a c => (a * 10 + (Z.of_N c - 48))%Z) (digitsOf d)
      (Z.of_nat acc)
    = Z.of_nat (Nat.of_uint_acc d acc).
Proof.
  induction d; intros acc; cbn [digitsOf fold_left Nat.of_uint_acc];
    [reflexivity|..];
    rewrite <- IHd; f_equal; rewrite Nat.tail_mul_spec; lia.
Qed.

(** Reading the decimal text of a count gives the count. *)
Lemma numberOfDigits_decimal (n : nat) :
  numberOfDigits (decimal n) = Z.of_nat n.
Proof.
  transitivity (Z.of_nat (Nat.of_uint (Nat.to_uint n))).
  - exact (numberOfDigits_acc (Nat.to_uint n) 0).
  - rewrite DecimalNat.Unsigned.of_to. reflexivity.
Qed.

Lemma decimal_isDigit (n : nat) :
  Forall (fun c => isDigit c = true) (decimal n).
Proof. apply digitsOf_isDigit. Qed.

Lemma decimal_nonempty (n : nat) : decimal n <> [].
Proof.
  intros E. pose proof (numberOfDigits_decimal n) as Hn.
  destruct (Nat.eq_dec n 0) as [->|Hz]; [discriminate E|].
  rewrite E in Hn. cbn in Hn. lia.
Qed.

Lemma parseInt10_decimal (n : nat) :
  parseInt10 (decimal n) = Some (Z.of_nat n).
Proof.
  pose proof (decimal_isDigit n) as Hd.
  pose proof (decimal_nonempty n) as Hne.
  pose proof (numberOfDigits_decimal n) as Hv.
  unfold parseInt10.
  destruct (decimal n) as [|c t]; [contradiction|].
  inversion Hd as [|? ? Hc Ht]; subst.
  assert (Hw : isWhiteSpace c = false /\ (c =? 0x2D)%N = false
               /\ (c =? 0x2B)%N = false).
  { unfold isDigit in Hc. apply andb_prop in Hc as [H1 H2].
    apply N.leb_le in H1, H2. unfold isWhiteSpace.
    repeat split;
      repeat match goal with
             | |- (_ || _) = false => apply orb_false_iff; split
             | |- (_ && _) = false => apply andb_false_iff; left
             | |- (_ =? _)%N = false => apply N.eqb_neq; lia
             | |- (_ <=? _)%N = false => apply N.leb_gt; lia
             end. }
  destruct Hw as (Hw & Hm & Hp).
  cbn [trimStart]. rewrite Hw, Hm, Hp.
  rewrite (leadingDigits_all (c :: t) Hd), Hv. reflexivity.
Qed.

(** X2. The lifetime count survives a reload: the text that a run writes
    to local storage is read back by the mount effect as the count it was
    written from (counts below [2^53], which a number holds exactly),
    whatever count the freshly mounted component starts with. *)
Theorem stored_total_round_trip (st fresh : AppState) (n : nat) :
  (Z.of_nat (totalProcessedCount st + n) < 2 ^ 53)%Z ->
  storedTotal (addTotalProcessed n st)
  = Some (decimal (totalProcessedCount st + n))
  /\ totalProcessedCount
       (loadTotal (storedTotal (addTotalProcessed n st)) fresh)
     = totalProcessedCount (addTotalProcessed n st).
Proof.
  intros _. split; [reflexivity|].
  unfold storedTotal, loadTotal.
  cbn [addTotalProcessed persistedTotal option_map totalProcessedCount].
  pose proof (parseInt10_decimal (totalProcessedCount st + n)) as Hp.
  pose proof (decimal_nonempty (totalProcessedCount st + n)) as Hne.
  destruct (decimal (totalProcessedCount st + n)) as [|c t];
    [contradiction|].
  rewrite Hp.
  destruct (0 <=? Z.of_nat (totalProcessedCount st + n))%Z eqn:H0;
    [|apply Z.leb_gt in H0; lia].
  cbn [setTotalProcessedCount totalProcessedCount].
  apply Nat2Z.id.
Qed.

Lemma stored_total_round_trip_witness :
  totalProcessedCount
    (loadTotal (storedTotal (addTotalProcessed 12 Demo.emptyState))
       Demo.emptyState) = 12.
Proof.
  exact (proj2 (stored_total_round_trip Demo.emptyState Demo.emptyState 12
                  ltac:(vm_compute; reflexivity))).
Defined.

(* ================================================================== *)
(** * Names tell positions apart *)
(* ================================================================== *)

(** A string splits in one way only at the first occurrence of a unit. *)
Lemma split_first_unique (d : N) (a1 : jsstring) :
  forall a2 b1 b2 : jsstring,
    a1 ++ d :: b1 = a2 ++ d :: b2 -> ~ In d a1 -> ~ In d a2 ->
    a1 = a2 /\ b1 = b2.
Proof.
  induction a1 as [|x a1 IH]; intros [|y a2] b1 b2 E H1 H2; cbn [app] in E.
  - injection E as ->. split; reflexivity.
  - injection E as <- _. exfalso. apply H2. left. reflexivity.
  - injection E as -> _. exfalso. apply H1. left. reflexivity.
  - injection E as -> E.
    destruct (IH a2 b1 b2 E) as [-> ->].
    + intros Hin. apply H1. right. exact Hin.
    + intros Hin. apply H2. right. exact Hin.
    + split; reflexivity.
Qed.

(** And in one way only at the last occurrence. *)
Lemma split_last_unique (d : N) (a1 a2 b1 b2 : jsstring) :
  a1 ++ d :: b1 = a2 ++ d :: b2 -> ~ In d b1 -> ~ In d b2 ->
  a1 = a2 /\ b1 = b2.
Proof.
  intros E H1 H2. apply (f_equal (@rev N)) in E.
  rewrite !rev_app_distr in E. cbn [rev] in E.
  rewrite <- !List.app_assoc in E. cbn [app] in E.
  destruct (split_first_unique d (rev b1) (rev b2) (rev a1) (rev a2) E)
    as [Eb Ea].
  - rewrite <- in_rev. exact H1.
  - rewrite <- in_rev. exact H2.
  - split.
    + rewrite <- (rev_involutive a1), Ea. apply rev_involutive.
    + rewrite <- (rev_involutive b1), Eb. apply rev_involutive.
Qed.

Lemma paddedIndex_isDigit (n : nat) :
  Forall (fun c => isDigit c = true) (Spec.paddedIndex n).
Proof.
  unfold Spec.paddedIndex. destruct (n <? 10).
  - constructor; [reflexivity|apply decimal_isDigit].
  - apply decimal_isDigit.
Qed.

Lemma numberOfDigits_paddedIndex (n : nat) :
  numberOfDigits (Spec.paddedIndex n) = Z.of_nat n.
Proof.
  unfold Spec.paddedIndex. destruct (n <? 10).
  - exact (numberOfDigits_decimal n).
  - exact (numberOfDigits_decimal n).
Qed.

Lemma extensionFor_no_dot (type : jsstring) :
  ~ In Enhanced.dot (Spec.extensionFor type).
Proof.
  unfold Spec.extensionFor.
  destruct (JS.eqb type (utf16 "image/png"));
    [|destruct (JS.eqb type (utf16 "image/webp"))];
    vm_compute; intuition discriminate.
Qed.

Lemma digits_no_hyphen (s : jsstring) :
  Forall (fun c => isDigit c = true) s -> ~ In hyphen s.
Proof.
  intros Hd Hin. rewrite Forall_forall in Hd.
  specialize (Hd hyphen Hin). discriminate.
Qed.

(** The name of an output determines its sequence index, whatever the
    keywords and the types. *)
Lemma name_index `{CaseFolding} (k1 k2 t1 t2 : jsstring) (i1 i2 : nat) :
  Spec.name k1 i1 t1 = Spec.name k2 i2 t2 -> i1 = i2.
Proof.
  unfold Spec.name.
  rewrite <- (orElse_cases (sanitizeKeyword k1) (utf16 "product")),
          <- (orElse_cases (sanitizeKeyword k2) (utf16 "product")).
  change (utf16 "-") with [hyphen]. change (utf16 ".") with [Enhanced.dot].
  change (utf16 "product") with product.
  intros E.
  rewrite !List.app_assoc in E.
  change ([Enhanced.dot] ++ Spec.extensionFor t1)
    with (Enhanced.dot :: Spec.extensionFor t1) in E.
  rewrite <- !List.app_assoc in E.
  set (n1 := orElse (sanitizeKeyword k1) product) in *.
  set (n2 := orElse (sanitizeKeyword k2) product) in *.
  assert (E' : (n1 ++ [hyphen] ++ Spec.paddedIndex i1)
                 ++ Enhanced.dot :: Spec.extensionFor t1
               = (n2 ++ [hyphen] ++ Spec.paddedIndex i2)
                 ++ Enhanced.dot :: Spec.extensionFor t2).
  { rewrite <- !List.app_assoc. exact E. }
  apply split_last_unique in E' as [E' _];
    try apply extensionFor_no_dot.
  apply (split_last_unique hyphen) in E' as [_ E'];
    try (apply digits_no_hyphen, paddedIndex_isDigit).
  apply Nat2Z.inj. rewrite <- !numberOfDigits_paddedIndex, E'. reflexivity.
Qed.

Section BatchNames.

Context `{CaseFolding}.
Variable B : Browser.
Variable keyword0 : jsstring.
Variable isSquare0 : bool.

Lemma batchResults_names (inputs : list InputImage) :
  forall i : nat,
    NoDup (map seoName (Spec.batchResults B keyword0 isSquare0 i inputs)).
Proof.
  induction inputs as [|input rest IH]; intros i; [constructor|].
  cbn [Spec.batchResults]. unfold Spec.contribution.
  destruct (isBlank (keywordFor input keyword0)); [apply IH|].
  destruct (processSingleImage B input (keywordFor input keyword0)
              (forceSquareFor input isSquare0) i) as [r|] eqn:Hr;
    [|apply IH].
  cbn [app map]. constructor; [|apply IH].
  intros Hin. apply in_map_iff in Hin as (r' & En & Hin).
  apply (batchResults_In B keyword0 isSquare0) in Hin
    as (j & input' & _ & _ & Hr').
  destruct (processSingleImage_fields _ _ _ _ _ _ Hr)
    as (_ & _ & _ & Hn & _).
  destruct (processSingleImage_fields _ _ _ _ _ _ Hr')
    as (_ & _ & _ & Hn' & _).
  rewrite Hn, Hn' in En. apply name_index in En. lia.
Qed.

End BatchNames.

(** X3. The output names of one batch run are pairwise distinct, whatever
    keywords the images carry and whichever of them fail: no two results
    can claim the same entry of the archive. *)
Theorem batch_names_distinct (cf : CaseFolding) (B : Browser)
    (st : AppState) :
  files st <> [] -> isBlank (keyword st) = false ->
  NoDup (map seoName (processed (processImages B st))).
Proof.
  intros Hf Hk. rewrite (processImages_processed cf B st Hf Hk).
  apply batchResults_names.
Qed.

Lemma batch_names_distinct_witness :
  NoDup
    (map seoName
       (processed (@processImages asciiFolding Demo.shrinking
                     Sample.twoImages))).
Proof.
  apply (batch_names_distinct asciiFolding Demo.shrinking Sample.twoImages).
  - vm_compute. discriminate.
  - vm_compute. reflexivity.
Defined.

(* ================================================================== *)
(** * What the handlers keep *)
(* ================================================================== *)

Lemma updateById_core (target : jsstring)
    (change : InputImage -> InputImage) (l : list InputImage) :
  (forall f, id (change f) = id f /\ file (change f) = file f) ->
  map core (updateById target change l) = map core l.
Proof.
  intros Hc. unfold updateById. rewrite map_map.
  apply map_ext. intros f. destruct (JS.eqb (id f) target); [|reflexivity].
  unfold core. destruct (Hc f) as [-> ->]. reflexivity.
Qed.

Lemma revokeDownloadUrls_processed (items : list ProcessedImage)
    (st : AppState) :
  processed (revokeDownloadUrls items st) = processed st.
Proof.
  unfold revokeDownloadUrls. revert st.
  induction items as [|p t IH]; intros st; simpl; [reflexivity|].
  rewrite IH. destruct (downloadUrl p); reflexivity.
Qed.

Lemma processLoop_core {cf : CaseFolding} (B : Browser) (k : jsstring)
    (sq : bool) (total : nat) (todo : list InputImage) :
  forall (i : nat) (results : list ProcessedImage) (st : AppState),
    map core (files (snd (processLoop B k sq total todo i results st)))
    = map core (files st).
Proof.
  induction todo as [|input rest IH]; intros i results st; simpl;
    [reflexivity|].
  destruct (isBlank (keywordFor input k)).
  - rewrite IH. cbn [files setFiles]. apply updateById_core.
    intros f. split; reflexivity.
  - destruct (processSingleImage B input (keywordFor input k)
                (forceSquareFor input sq) i);
      rewrite IH; cbn [files setFiles];
      rewrite !updateById_core; try reflexivity;
      intros f; split; reflexivity.
Qed.

Lemma processImages_core (cf : CaseFolding) (B : Browser) (st : AppState) :
  map core (files (processImages B st)) = map core (files st).
Proof.
  unfold processImages.
  destruct (files st) as [|f0 rest] eqn:Hf; [rewrite Hf; reflexivity|].
  destruct (isBlank (keyword st)); [rewrite Hf; reflexivity|].
  match goal with
  | |- context [processLoop B ?k ?s ?t ?todo ?i ?res ?st0] =>
      pose proof (processLoop_core B k s t todo i res st0) as Hc;
      destruct (processLoop B k s t todo i res st0) as [results st5]
  end.
  cbn [snd] in Hc.
  assert (E : map core (files st5) = map core (f0 :: rest)).
  { rewrite Hc. cbn [files setFiles]. rewrite revokeDownloadUrls_files.
    cbn [files setMessage setIsProcessing]. rewrite Hf, map_map.
    reflexivity. }
  destruct results; cbn [files setMessage setIsProcessing setProcessed
                          addTotalProcessed]; exact E.
Qed.

Lemma compressSingleImage_core (cf : CaseFolding) (B : Browser)
    (imageId : jsstring) (st : AppState) :
  map core (files (compressSingleImage B imageId st)) = map core (files st).
Proof.
  unfold compressSingleImage.
  destruct (find (fun f => JS.eqb (id f) imageId) (files st)) as [image|];
    [|reflexivity].
  destruct (isBlank (keywordFor image (keyword st))); [reflexivity|].
  match goal with
  | |- context [setFiles
                  (updateById imageId (withProgress (Some true) (Some 0)))
                  ?s1] =>
      assert (E1 : files s1 = files st)
        by (destruct (find _ (processed st)); reflexivity);
      set (st2 := setFiles _ s1) in *
  end.
  assert (Hst2 : map core (files st2) = map core (files st)).
  { subst st2. cbn [files setFiles]. rewrite E1. apply updateById_core.
    intros f. split; reflexivity. }
  destruct (processSingleImage B image _ _ _);
    cbn [files setFiles setProcessed setMessage addTotalProcessed];
    (rewrite updateById_core by (intros f; split; reflexivity));
    exact Hst2.
Qed.

Lemma handleFiles_files (B : Browser) (fileList : option (list File))
    (st : AppState) :
  List.length (files st) <= MAX_FILES ->
  exists mapped,
    files (handleFiles B fileList st) = files st ++ mapped
    /\ List.length (files st) + List.length mapped <= MAX_FILES.
Proof.
  intros Hle. destruct fileList as [fileList|];
    [|exists []; rewrite List.app_nil_r; split;
      [reflexivity|cbn [List.length]; lia]].
  destruct (filter isAccepted fileList) as [|f0 incoming] eqn:Hin.
  - exists []. rewrite List.app_nil_r. split; [|cbn [List.length]; lia].
    unfold handleFiles. fold isAccepted. rewrite Hin. reflexivity.
  - rewrite (handleFiles_accepting B fileList st)
      by (rewrite Hin; discriminate).
    cbn [files setProcessed setFiles setMessage].
    eexists. split; [reflexivity|].
    rewrite mapToInputs_length, (slice0_room _ _ Hle), length_firstn. lia.
Qed.

Lemma deleteSingleImage_processed (imageId : jsstring) (st : AppState) :
  processed (deleteSingleImage imageId st)
  = filter (fun p => negb (JS.eqb (p_id p) imageId)) (processed st).
Proof.
  unfold deleteSingleImage.
  cbn [processed setAiCompletedItemIds setProcessed].
  match goal with
  | |- context [match ?m with Some _ => _ | None => _ end] =>
      destruct m
  end; cbn [processed revokeObjectURL setFiles];
    destruct (find _ (files st)); reflexivity.
Qed.

Lemma handleClear_files (st : AppState) :
  files (handleClear st) = [] /\ processed (handleClear st) = [].
Proof. split; reflexivity. Qed.

(** The final blob is the smaller of the input and the encoder's result. *)
Lemma final_blob_size `{CaseFolding} (B : Browser) (input : InputImage)
    (k : jsstring) (sq : bool) (index : nat) (r : ProcessedImage) :
  processSingleImage B input k sq index = Some r ->
  blob_size (blob r) <= file_size (file input).
Proof.
  intros Hr.
  destruct (processSingleImage_fields _ _ _ _ _ _ Hr)
    as (ob & _ & Hb & _).
  rewrite Hb. unfold file_size.
  destruct (blob_size (file_blob (file input)) <? blob_size ob) eqn:E.
  - lia.
  - apply Nat.ltb_ge in E. exact E.
Qed.

(* ================================================================== *)
(** * One image through the pipeline *)
(* ================================================================== *)

(** X6. A processed image is never larger than its input: the blob of a
    result is the input file's own blob or the encoder's last output, and
    in both cases it has at most as many bytes as the input file. *)
Theorem final_blob_never_larger (cf : CaseFolding) (B : Browser)
    (input : InputImage) (k : jsstring) (forceSquareToUse : bool)
    (index : nat) (r : ProcessedImage) :
  processSingleImage B input k forceSquareToUse index = Some r ->
  blob_size (blob r) <= file_size (file input)
  /\ (blob r = file_blob (file input)
      \/ encodeImage B input forceSquareToUse = Some (blob r)).
Proof.
  intros Hr. split; [exact (final_blob_size _ _ _ _ _ _ Hr)|].
  destruct (processSingleImage_fields _ _ _ _ _ _ Hr)
    as (ob & He & Hb & _).
  rewrite Hb.
  destruct (blob_size (file_blob (file input)) <? blob_size ob);
    [left; reflexivity|right; exact He].
Qed.

Lemma final_blob_never_larger_witness :
  exists r,
    @processSingleImage asciiFolding Demo.inflating
      (Demo.inputOf "tiny.jpg" "image/jpeg" 288) (utf16 "tiny") false 0
    = Some r
    /\ blob_size (blob r) <= 288.
Proof.
  destruct (@processSingleImage asciiFolding Demo.inflating
              (Demo.inputOf "tiny.jpg" "image/jpeg" 288) (utf16 "tiny")
              false 0) as [r|] eqn:Hr.
  - exists r. split; [reflexivity|].
    exact (proj1 (final_blob_never_larger asciiFolding Demo.inflating
                    _ _ _ _ r Hr)).
  - vm_compute in Hr. discriminate Hr.
Defined.

(* ================================================================== *)
(** * Reprocessing, deleting and clearing *)
(* ================================================================== *)

Lemma filter_neg_then_pos {A : Type} (f : A -> bool) (l : list A) :
  filter f (filter (fun x => negb (f x)) l) = [].
Proof.
  induction l as [|x t IH]; [reflexivity|].
  cbn [filter]. destruct (f x) eqn:E; cbn [negb]; [exact IH|].
  cbn [filter]. rewrite E. exact IH.
Qed.

(** X7. A successful reprocess replaces: the results of the other images
    stay in their order, the earlier results of this image are dropped
    and the new one is put last, so that exactly one result carries the
    image's id; the lifetime count grows by one and is written to local
    storage.  The global keyword plays no part beyond being the fallback
    of the image's own. *)
Theorem reprocess_replaces (cf : CaseFolding) (B : Browser)
    (imageId : jsstring) (st : AppState) (image : InputImage)
    (r : ProcessedImage) :
  find (fun f => JS.eqb (id f) imageId) (files st) = Some image ->
  isBlank (keywordFor image (keyword st)) = false ->
  processSingleImage B image (keywordFor image (keyword st))
    (forceSquareFor image (isSquare st))
    (Z.to_nat (findIndex imageId (files st))) = Some r ->
  let st' := compressSingleImage B imageId st in
  processed st'
  = filter (fun p => negb (JS.eqb (p_id p) imageId)) (processed st) ++ [r]
  /\ filter (fun p => JS.eqb (p_id p) imageId) (processed st') = [r]
  /\ totalProcessedCount st' = totalProcessedCount st + 1
  /\ persistedTotal st' = Some (totalProcessedCount st + 1)
  /\ signals st' = signals st.
Proof.
  intros Hfind Hkw Hr st'.
  pose proof (compressSingleImage_result cf B imageId st image r
                Hfind Hkw Hr) as Hp.
  split; [exact Hp|]. split.
  - subst st'. rewrite Hp, filter_app.
    rewrite (filter_neg_then_pos (fun p => JS.eqb (p_id p) imageId)).
    cbn [filter app].
    destruct (processSingleImage_fields _ _ _ _ _ _ Hr)
      as (_ & _ & _ & _ & _ & _ & _ & Hid & _).
    rewrite Hid. rewrite (proj2 (find_some _ _ Hfind)). reflexivity.
  - subst st'. unfold compressSingleImage. rewrite Hfind, Hkw, Hr.
    cbn [totalProcessedCount persistedTotal signals addTotalProcessed
           setProcessed setFiles].
    destruct (find _ (processed st));
      cbn [totalProcessedCount signals revokeObjectURL];
      repeat split; reflexivity.
Qed.

Lemma reprocess_replaces_witness :
  exists r,
    filter
      (fun p => JS.eqb (p_id p) (Demo.idAt Sample.twoImages 1))
      (processed
         (@compressSingleImage asciiFolding Demo.shrinking
            (Demo.idAt Sample.twoImages 1)
            (@processImages asciiFolding Demo.shrinking Sample.twoImages)))
    = [r].
Proof.
  set (st := @processImages asciiFolding Demo.shrinking Sample.twoImages).
  set (i := Demo.idAt Sample.twoImages 1).
  destruct (find (fun f => JS.eqb (id f) i) (files st)) as [image|] eqn:Hf;
    [|vm_compute in Hf; discriminate Hf].
  destruct (@processSingleImage asciiFolding Demo.shrinking image
              (keywordFor image (keyword st))
              (forceSquareFor image (isSquare st))
              (Z.to_nat (findIndex i (files st)))) as [r|] eqn:Hr.
  - exists r.
    refine (proj1 (proj2 (reprocess_replaces asciiFolding Demo.shrinking
                            i st image r Hf _ Hr))).
    vm_compute in Hf. injection Hf as <-. vm_compute. reflexivity.
  - vm_compute in Hf. injection Hf as <-. vm_compute in Hr.
    discriminate Hr.
Defined.

(** X8. A failed reprocess keeps the results as they are, the earlier
    result of the image included, although the download URL of that result
    has been revoked before the attempt; it shows the retry message and
    leaves the lifetime count alone. *)
Theorem failed_reprocess_keeps_revoked_result (cf : CaseFolding)
    (B : Browser) (imageId : jsstring) (st : AppState)
    (image : InputImage) (old : ProcessedImage) :
  find (fun f => JS.eqb (id f) imageId) (files st) = Some image ->
  isBlank (keywordFor image (keyword st)) = false ->
  processSingleImage B image (keywordFor image (keyword st))
    (forceSquareFor image (isSquare st))
    (Z.to_nat (findIndex imageId (files st))) = None ->
  find (fun p => JS.eqb (p_id p) imageId) (processed st) = Some old ->
  let st' := compressSingleImage B imageId st in
  processed st' = processed st
  /\ In old (processed st')
  /\ revoked st' = revoked st ++ [downloadUrl old]
  /\ message st' = Some (messageRetry (lang st))
  /\ totalProcessedCount st' = totalProcessedCount st
  /\ persistedTotal st' = persistedTotal st.
Proof.
  intros Hfind Hkw Hr Hold st'. subst st'.
  unfold compressSingleImage. rewrite Hfind, Hkw, Hr, Hold.
  cbn [processed revoked message totalProcessedCount persistedTotal
         setMessage setFiles revokeObjectURL].
  repeat split; try reflexivity.
  exact (proj1 (find_some _ _ Hold)).
Qed.

Lemma failed_reprocess_keeps_revoked_result_witness :
  exists old,
    In old
      (processed
         (@compressSingleImage asciiFolding Sample.broken
            (Demo.idAt Sample.twoImages 1)
            (@processImages asciiFolding Demo.shrinking Sample.twoImages)))
    /\ In (downloadUrl old)
         (revoked
            (@compressSingleImage asciiFolding Sample.broken
               (Demo.idAt Sample.twoImages 1)
               (@processImages asciiFolding Demo.shrinking
                  Sample.twoImages))).
Proof.
  set (st := @processImages asciiFolding Demo.shrinking Sample.twoImages).
  set (i := Demo.idAt Sample.twoImages 1).
  destruct (find (fun f => JS.eqb (id f) i) (files st)) as [image|] eqn:Hf;
    [|vm_compute in Hf; discriminate Hf].
  destruct (find (fun p => JS.eqb (p_id p) i) (processed st)) as [old|]
    eqn:Ho; [|vm_compute in Ho; discriminate Ho].
  exists old.
  assert (Hk : isBlank (keywordFor image (keyword st)) = false).
  { vm_compute in Hf. injection Hf as <-. vm_compute. reflexivity. }
  assert (Hr : @processSingleImage asciiFolding Sample.broken image
                 (keywordFor image (keyword st))
                 (forceSquareFor image (isSquare st))
                 (Z.to_nat (findIndex i (files st))) = None).
  { vm_compute in Hf. injection Hf as <-. vm_compute. reflexivity. }
  destruct (failed_reprocess_keeps_revoked_result asciiFolding
              Sample.broken i st image old Hf Hk Hr Ho)
    as (_ & Hin & Hrev & _).
  split; [exact Hin|]. rewrite Hrev. apply in_or_app. right. left.
  reflexivity.
Defined.

(* ================================================================== *)
(** * States, field by field *)
(* ================================================================== *)

Lemma state_ext (a b : AppState) :
  keyword a = keyword b -> files a = files b -> processed a = processed b ->
  isSquare a = isSquare b -> batchProcessing a = batchProcessing b ->
  message a = message b -> lang a = lang b ->
  totalProcessedCount a = totalProcessedCount b ->
  aiCompletedItemIds a = aiCompletedItemIds b ->
  signals a = signals b -> revoked a = revoked b ->
  persistedTotal a = persistedTotal b ->
  a = b.
Proof.
  destruct a, b. cbn. intros. subst. reflexivity.
Qed.

Lemma find_after_filter {A : Type} (f : A -> bool) (l : list A) :
  find f (filter (fun x => negb (f x)) l) = None.
Proof.
  induction l as [|x t IH]; [reflexivity|].
  cbn [filter]. destruct (f x) eqn:E; cbn [negb]; [exact IH|].
  cbn [find]. rewrite E. exact IH.
Qed.

Lemma filter_twice {A : Type} (f : A -> bool) (l : list A) :
  filter f (filter f l) = filter f l.
Proof.
  induction l as [|x t IH]; [reflexivity|].
  cbn [filter]. destruct (f x) eqn:E; [|exact IH].
  cbn [filter]. rewrite E, IH. reflexivity.
Qed.

(** Deleting an id that no image and no result carries changes nothing
    but the set of images marked as recognised. *)
Lemma deleteSingleImage_absent (imageId : jsstring) (st : AppState) :
  find (fun f => JS.eqb (id f) imageId) (files st) = None ->
  find (fun p => JS.eqb (p_id p) imageId) (processed st) = None ->
  deleteSingleImage imageId st
  = setAiCompletedItemIds (filter (fun i => negb (JS.eqb i imageId)))
      (setProcessed (filter (fun p => negb (JS.eqb (p_id p) imageId)))
         (setFiles (filter (fun f => negb (JS.eqb (id f) imageId))) st)).
Proof.
  intros Hf Hp. unfold deleteSingleImage. rewrite Hf.
  cbn [processed setFiles]. rewrite Hp. reflexivity.
Qed.

Lemma deleteSingleImage_ai (imageId : jsstring) (st : AppState) :
  aiCompletedItemIds (deleteSingleImage imageId st)
  = filter (fun i => negb (JS.eqb i imageId)) (aiCompletedItemIds st).
Proof.
  unfold deleteSingleImage. cbn [aiCompletedItemIds setAiCompletedItemIds
                                   setProcessed].
  match goal with
  | |- context [match ?m with Some _ => _ | None => _ end] => destruct m
  end; cbn [aiCompletedItemIds revokeObjectURL setFiles];
    destruct (find _ (files st)); reflexivity.
Qed.

(** X9. Deleting is idempotent: a second deletion of the same id finds
    neither an image nor a result, revokes nothing, and leaves every cell
    of the state as the first deletion left it. *)
Theorem deleteSingleImage_idempotent (imageId : jsstring) (st : AppState) :
  deleteSingleImage imageId (deleteSingleImage imageId st)
  = deleteSingleImage imageId st.
Proof.
  set (st' := deleteSingleImage imageId st).
  assert (Hf : files st'
               = filter (fun f => negb (JS.eqb (id f) imageId)) (files st))
    by apply deleteSingleImage_files.
  assert (Hp : processed st'
               = filter (fun p => negb (JS.eqb (p_id p) imageId))
                   (processed st))
    by apply deleteSingleImage_processed.
  assert (Ha : aiCompletedItemIds st'
               = filter (fun i => negb (JS.eqb i imageId))
                   (aiCompletedItemIds st))
    by apply deleteSingleImage_ai.
  rewrite deleteSingleImage_absent.
  - apply state_ext;
      cbn [keyword files processed isSquare batchProcessing message lang
             totalProcessedCount aiCompletedItemIds signals revoked
             persistedTotal setAiCompletedItemIds setProcessed setFiles];
      try reflexivity.
    + rewrite Hf. apply filter_twice.
    + rewrite Hp. apply filter_twice.
    + rewrite Ha. apply filter_twice.
  - rewrite Hf. apply (find_after_filter (fun f => JS.eqb (id f) imageId)).
  - rewrite Hp.
    apply (find_after_filter (fun p => JS.eqb (p_id p) imageId)).
Qed.

(* ================================================================== *)
(** * Object URLs *)
(* ================================================================== *)

Lemma revokeDownloadUrls_frame (items : list ProcessedImage) :
  forall st : AppState,
    let st' := revokeDownloadUrls items st in
    keyword st' = keyword st /\ files st' = files st
    /\ processed st' = processed st /\ isSquare st' = isSquare st
    /\ batchProcessing st' = batchProcessing st /\ message st' = message st
    /\ lang st' = lang st
    /\ totalProcessedCount st' = totalProcessedCount st
    /\ aiCompletedItemIds st' = aiCompletedItemIds st
    /\ signals st' = signals st
    /\ persistedTotal st' = persistedTotal st
    /\ revoked st'
       = revoked st ++ filter nonEmptyUrl (map downloadUrl items).
Proof.
  unfold revokeDownloadUrls.
  induction items as [|p t IH]; intros st; cbn [fold_left map filter].
  - rewrite List.app_nil_r. repeat split; reflexivity.
  - destruct (downloadUrl p) as [|c u] eqn:Hu; cbn [nonEmptyUrl].
    + apply IH.
    + specialize (IH (revokeObjectURL (c :: u) st)). cbv zeta in IH.
      cbn [keyword files processed isSquare batchProcessing message lang
             totalProcessedCount aiCompletedItemIds signals revoked
             persistedTotal revokeObjectURL] in IH.
      rewrite <- List.app_assoc in IH. exact IH.
Qed.

Lemma revokePreviews_frame (items : list InputImage) :
  forall st : AppState,
    let st' :=
      fold_left (fun s f => revokeObjectURL (previewUrl f) s) items st in
    keyword st' = keyword st /\ files st' = files st
    /\ processed st' = processed st /\ isSquare st' = isSquare st
    /\ batchProcessing st' = batchProcessing st /\ message st' = message st
    /\ lang st' = lang st
    /\ totalProcessedCount st' = totalProcessedCount st
    /\ aiCompletedItemIds st' = aiCompletedItemIds st
    /\ signals st' = signals st
    /\ persistedTotal st' = persistedTotal st
    /\ revoked st' = revoked st ++ map previewUrl items.
Proof.
  induction items as [|f t IH]; intros st; cbn [fold_left map].
  - rewrite List.app_nil_r. repeat split; reflexivity.
  - specialize (IH (revokeObjectURL (previewUrl f) st)). cbv zeta in IH.
    cbn [keyword files processed isSquare batchProcessing message lang
           totalProcessedCount aiCompletedItemIds signals revoked
           persistedTotal revokeObjectURL] in IH.
    rewrite <- List.app_assoc in IH. exact IH.
Qed.

(** X10. Clearing releases what the batch holds: it revokes the preview
    URL of every image and the download URL of every result that has one,
    in that order, empties the images, the results, the keyword, the
    message and the set of recognised images, and keeps the lifetime
    count (in memory and in local storage). *)
Theorem handleClear_releases (st : AppState) :
  let st' := handleClear st in
  revoked st'
  = revoked st ++ map previewUrl (files st)
      ++ filter nonEmptyUrl (map downloadUrl (processed st))
  /\ files st' = [] /\ processed st' = [] /\ keyword st' = []
  /\ message st' = None /\ aiCompletedItemIds st' = []
  /\ totalProcessedCount st' = totalProcessedCount st
  /\ persistedTotal st' = persistedTotal st
  /\ canProcess st' = false.
Proof.
  intros st'. subst st'. unfold handleClear, canProcess.
  cbn [revoked files processed keyword message aiCompletedItemIds
         totalProcessedCount persistedTotal batchProcessing
         setAiCompletedItemIds setMessage setKeyword setProcessed setFiles].
  destruct (revokePreviews_frame (files st) st)
    as (_ & _ & _ & _ & _ & _ & _ & Ht1 & _ & _ & Hp1 & Hr1).
  destruct (revokeDownloadUrls_frame (processed st)
              (fold_left (fun s f => revokeObjectURL (previewUrl f) s)
                 (files st) st))
    as (_ & _ & _ & _ & _ & _ & _ & Ht2 & _ & _ & Hp2 & Hr2).
  rewrite Hr2, Hr1, Ht2, Ht1, Hp2, Hp1, <- List.app_assoc.
  repeat split; reflexivity.
Qed.

Lemma handleClear_cells (st : AppState) :
  totalProcessedCount (handleClear st) = totalProcessedCount st
  /\ persistedTotal (handleClear st) = persistedTotal st.
Proof.
  unfold handleClear.
  cbn [totalProcessedCount persistedTotal setAiCompletedItemIds setMessage
         setKeyword setProcessed setFiles].
  destruct (revokePreviews_frame (files st) st)
    as (_ & _ & _ & _ & _ & _ & _ & Ht1 & _ & _ & Hp1 & _).
  destruct (revokeDownloadUrls_frame (processed st)
              (fold_left (fun s f => revokeObjectURL (previewUrl f) s)
                 (files st) st))
    as (_ & _ & _ & _ & _ & _ & _ & Ht2 & _ & _ & Hp2 & _).
  rewrite Ht2, Ht1, Hp2, Hp1. split; reflexivity.
Qed.

(* ================================================================== *)
(** * The batch run as the user sees it *)
(* ================================================================== *)

(** The loop writes to the images' progress fields and to nothing else. *)
Lemma processLoop_frame {cf : CaseFolding} (B : Browser) (k : jsstring)
    (sq : bool) (total : nat) (todo : list InputImage) :
  forall (i : nat) (results : list ProcessedImage) (st : AppState),
    exists l,
      snd (processLoop B k sq total todo i results st)
      = setFiles (fun _ => l) st.
Proof.
  induction todo as [|input rest IH]; intros i results st;
    cbn [processLoop].
  - exists (files st). cbn [snd]. destruct st. reflexivity.
  - destruct (isBlank (keywordFor input k)).
    + destruct (IH (S i) results
                  (setFiles
                     (updateById (id input) (withProgress (Some false) None))
                     st)) as (l & ->).
      exists l. reflexivity.
    + destruct (processSingleImage B input (keywordFor input k)
                  (forceSquareFor input sq) i) as [r|];
        match goal with
        | |- context [processLoop B k sq total rest (S i) ?res ?s] =>
            destruct (IH (S i) res s) as (l & ->)
        end; exists l; reflexivity.
Qed.

(** What a run that passes its guard leaves in the cells other than the
    images. *)
Lemma processImages_cells (cf : CaseFolding) (B : Browser) (st : AppState) :
  files st <> [] -> isBlank (keyword st) = false ->
  let st' := processImages B st in
  let verdict :=
    match processed st' with
    | [] => messageFail (lang st)
    | _ => messageDone (lang st)
    end in
  signals st'
  = signals st ++ [Some (messageProcessing (lang st)); Some verdict]
  /\ message st' = Some verdict
  /\ batchProcessing st' = false
  /\ totalProcessedCount st'
     = totalProcessedCount st + List.length (processed st')
  /\ persistedTotal st'
     = match processed st' with
       | [] => persistedTotal st
       | _ => Some (totalProcessedCount st + List.length (processed st'))
       end
  /\ revoked st'
     = revoked st ++ filter nonEmptyUrl (map downloadUrl (processed st))
  /\ keyword st' = keyword st /\ isSquare st' = isSquare st
  /\ lang st' = lang st.
Proof.
  intros Hf Hk. cbv zeta. unfold processImages.
  destruct (files st) as [|f0 rest] eqn:Ef; [contradiction|].
  rewrite Hk.
  match goal with
  | |- context [processLoop B ?k ?s ?t ?todo ?i ?res ?st0] =>
      destruct (processLoop_frame B k s t todo i res st0) as (l & Hl);
      destruct (processLoop B k s t todo i res st0) as [results st5]
  end.
  cbn [snd] in Hl. subst st5.
  destruct (revokeDownloadUrls_frame (processed st)
              (setMessage (Some (messageProcessing (lang st)))
                 (setIsProcessing true st)))
    as (Hkw & _ & _ & Hsq & _ & _ & Hlang & Ht & _ & Hs & Hp & Hr).
  cbn [keyword isSquare lang totalProcessedCount signals persistedTotal
         revoked setMessage setIsProcessing] in Hkw, Hsq, Hlang, Ht, Hs,
                                                 Hp, Hr.
  destruct results as [|r0 results];
    cbn [signals message batchProcessing totalProcessedCount persistedTotal
           revoked keyword isSquare lang processed addTotalProcessed
           setMessage setIsProcessing setProcessed setFiles List.length];
    rewrite ?Hkw, ?Hsq, ?Hlang, ?Ht, ?Hs, ?Hp, ?Hr, <- ?List.app_assoc,
            ?Nat.add_0_r;
    repeat split; reflexivity.
Qed.

(** X11. A batch run that passes its guard tells the user twice: first
    that it is processing, last whether it is done (at least one result) or
    has failed (none).  It ends with the busy flag down, has revoked the
    download URL of every earlier result that had one, has added the number
    of its results to the lifetime count, and has written the count to local
    storage unless there was no result. *)
Theorem batch_run_protocol (cf : CaseFolding) (B : Browser)
    (st : AppState) :
  files st <> [] -> isBlank (keyword st) = false ->
  let st' := processImages B st in
  let verdict :=
    match processed st' with
    | [] => messageFail (lang st)
    | _ => messageDone (lang st)
    end in
  signals st'
  = signals st ++ [Some (messageProcessing (lang st)); Some verdict]
  /\ message st' = Some verdict
  /\ batchProcessing st' = false
  /\ totalProcessedCount st'
     = totalProcessedCount st + List.length (processed st')
  /\ persistedTotal st'
     = match processed st' with
       | [] => persistedTotal st
       | _ => Some (totalProcessedCount st + List.length (processed st'))
       end
  /\ revoked st'
     = revoked st ++ filter nonEmptyUrl (map downloadUrl (processed st)).
Proof.
  intros Hf Hk.
  destruct (processImages_cells cf B st Hf Hk)
    as (H1 & H2 & H3 & H4 & H5 & H6 & _).
  cbv zeta. repeat split; assumption.
Qed.

Lemma batch_run_protocol_witness :
  message (@processImages asciiFolding Demo.shrinking Demo.threeImages)
  = Some (messageDone en).
Proof.
  destruct (batch_run_protocol asciiFolding Demo.shrinking Demo.threeImages)
    as (_ & Hm & _).
  - vm_compute. discriminate.
  - vm_compute. reflexivity.
  - rewrite Hm. vm_compute. reflexivity.
Defined.

(* ================================================================== *)
(** * Progress of a batch run *)
(* ================================================================== *)

(** X13. In a batch of at most [MAX_FILES] images the progress shown while
    the image at position [i] is processed, [floor((i + 1) / n * 90)] in
    binary64 arithmetic, never exceeds 90, is exactly 90 for the last
    image, and grows strictly from each image to the next. *)
Theorem progress_increases_to_90 (n i : nat) :
  n <= MAX_FILES -> i < n ->
  progressOf i n <= 90
  /\ (i + 1 = n -> progressOf i n = 90)
  /\ (i + 1 < n -> progressOf i n < progressOf (i + 1) n).
Proof.
  intros Hn Hi.
  assert (Hall :
            forallb
              (fun n =>
                 forallb
                   (fun i =>
                      (progressOf i n <=? 90)
                      && (if i + 1 =? n then progressOf i n =? 90
                          else progressOf i n <? progressOf (i + 1) n))
                   (seq 0 n))
              (seq 0 (S MAX_FILES)) = true)
    by (vm_compute; reflexivity).
  rewrite forallb_forall in Hall.
  specialize (Hall n). rewrite forallb_forall in Hall.
  assert (Hc : (progressOf i n <=? 90)
               && (if i + 1 =? n then progressOf i n =? 90
                   else progressOf i n <? progressOf (i + 1) n) = true).
  { apply Hall; apply in_seq; lia. }
  apply andb_prop in Hc as [Hle Hc]. apply Nat.leb_le in Hle.
  split; [exact Hle|]. split.
  - intros E. apply Nat.eqb_eq in E. rewrite E in Hc.
    apply Nat.eqb_eq. exact Hc.
  - intros Hlt. destruct (i + 1 =? n) eqn:E.
    + apply Nat.eqb_eq in E. lia.
    + apply Nat.ltb_lt. exact Hc.
Qed.

Lemma progress_increases_to_90_witness :
  progressOf 6 10 <= 90 /\ progressOf 6 10 < progressOf 7 10.
Proof.
  destruct (progress_increases_to_90 10 6) as (H1 & _ & H3).
  - unfold MAX_FILES. lia.
  - lia.
  - split; [exact H1|]. apply H3. lia.
Defined.

(* ================================================================== *)
(** * The preview of the output name *)
(* ================================================================== *)

(** X14. For an image that has no result yet and whose keyword is not
    blank, the name previewed in its row is the name a successful run at
    that position produces if and only if the text after the last dot of
    the file's name (["jpg"] when there is none) is the extension the type
    table gives for the file's type (["jpg"] for a type outside the
    table): the preview takes the extension from the file's name, the
    pipeline from its type. *)
Theorem preview_matches_final_name (cf : CaseFolding) (B : Browser)
    (st : AppState) (item : InputImage) (index : nat)
    (r : ProcessedImage) :
  find (fun p => JS.eqb (p_id p) (id item)) (processed st) = None ->
  isBlank (keywordFor item (keyword st)) = false ->
  processSingleImage B item (keywordFor item (keyword st))
    (forceSquareFor item (isSquare st)) index = Some r ->
  (previewName st item index = named (seoName r)
   <-> match pop (splitOn Enhanced.dot [] (file_name (file item))) with
       | Some (c :: e) => c :: e
       | _ => utf16 "jpg"
       end
       = match mimeToExt (file_type (file item)) with
         | Some e => e
         | None => utf16 "jpg"
         end).
Proof.
  intros Hnone Hk Hr.
  destruct (processSingleImage_fields _ _ _ _ _ _ Hr)
    as (_ & _ & _ & Hn & _).
  unfold previewName, generatePreviewName. rewrite Hnone, Hk, Hn.
  unfold Spec.name, indexStrOf. rewrite padStart_paddedIndex.
  rewrite originalType_extension.
  rewrite <- (orElse_cases (sanitizeKeyword (keywordFor item (keyword st)))
                (utf16 "product")).
  assert (Hext : Spec.extensionFor (file_type (file item))
                 = match mimeToExt (file_type (file item)) with
                   | Some e => e
                   | None => utf16 "jpg"
                   end).
  { unfold Spec.extensionFor, mimeToExt.
    destruct (JS.eqb (file_type (file item)) (utf16 "image/jpeg")) eqn:Ej.
    - apply jseqb_eq in Ej. rewrite Ej. reflexivity.
    - destruct (JS.eqb (file_type (file item)) (utf16 "image/png"));
        [reflexivity|].
      destruct (JS.eqb (file_type (file item)) (utf16 "image/webp"));
        reflexivity. }
  rewrite <- Hext.
  set (ext := match pop _ with Some (c :: e) => c :: e | _ => utf16 "jpg" end).
  set (head := orElse (sanitizeKeyword (keywordFor item (keyword st)))
                 product).
  change (utf16 "product") with product. fold head.
  split.
  - intros E. injection E as E.
    apply app_inv_head in E. injection E as E.
    apply app_inv_head in E. injection E as E. exact E.
  - intros ->. reflexivity.
Qed.

Lemma preview_matches_final_name_witness :
  exists r,
    @previewName asciiFolding Sample.twoImages
      (Demo.inputOf "a.jpg" "image/jpeg" 400) 0
    = named (seoName r).
Proof.
  destruct (@processSingleImage asciiFolding Demo.shrinking
              (Demo.inputOf "a.jpg" "image/jpeg" 400)
              (keywordFor (Demo.inputOf "a.jpg" "image/jpeg" 400)
                 (keyword Sample.twoImages))
              (forceSquareFor (Demo.inputOf "a.jpg" "image/jpeg" 400)
                 (isSquare Sample.twoImages)) 0) as [r|] eqn:Hr;
    [|vm_compute in Hr; discriminate Hr].
  exists r.
  apply (preview_matches_final_name asciiFolding Demo.shrinking
           Sample.twoImages _ 0 r); [| |exact Hr|];
    vm_compute; reflexivity.
Defined.

(* ================================================================== *)
(** * The language *)
(* ================================================================== *)

Lemma isPrefixOf_app (a b s : jsstring) :
  isPrefixOf (a ++ b) s = true -> isPrefixOf a s = true.
Proof.
  revert s. induction a as [|x a IH]; intros s Hp; [reflexivity|].
  destruct s as [|y s]; [discriminate|].
  cbn [app isPrefixOf] in *. apply andb_prop in Hp as [-> Hp].
  exact (IH s Hp).
Qed.

(** X15. The language detected from the browser is Chinese exactly when
    the lower-cased [navigator.language] starts with ["zh"] (the five
    longer entries of the list add nothing), English for every other
    language and for a missing one, and Chinese where there is no
    [navigator] object at all. *)
Theorem detectLang_is_zh_prefix (cf : CaseFolding)
    (language : option jsstring) :
  detectLangFromNavigator None = zh
  /\ (detectLangFromNavigator (Some language) = zh
      <-> exists l, language = Some l
                    /\ startsWith (toLowerCase l) (utf16 "zh") = true)
  /\ (detectLangFromNavigator (Some language) <> zh
      -> detectLangFromNavigator (Some language) = en).
Proof.
  split; [reflexivity|].
  assert (Hlist : forall nav,
             existsb (startsWith nav) zhList
             = startsWith nav (utf16 "zh")).
  { intros nav. unfold zhList. cbn [map existsb].
    destruct (startsWith nav (utf16 "zh")) eqn:Hz; [reflexivity|].
    cbn [orb]. rewrite orb_false_r.
    repeat match goal with
           | |- (_ || _) = false => apply orb_false_iff; split
           end;
      match goal with
      | |- startsWith nav ?p = false =>
          destruct (startsWith nav p) eqn:Hp; [|reflexivity];
          rewrite <- Hz; symmetry; unfold startsWith in *;
          apply (isPrefixOf_app (utf16 "zh") (skipn 2 p)); exact Hp
      end. }
  unfold detectLangFromNavigator. split.
  - destruct language as [l|].
    + rewrite Hlist.
      replace (orElse (toLowerCase l) []) with (toLowerCase l)
        by (destruct (toLowerCase l); reflexivity).
      destruct (startsWith (toLowerCase l) (utf16 "zh")) eqn:Hz.
      * split; [|reflexivity]. intros _. exists l. split; [reflexivity|].
        exact Hz.
      * split; [discriminate|]. intros (l' & E & Hz').
        injection E as <-. rewrite Hz in Hz'. discriminate.
    + rewrite Hlist. cbn. split; [discriminate|].
      intros (l & E & _). discriminate.
  - destruct (existsb _ zhList); [contradiction|reflexivity].
Qed.

(** X16. A language chosen by hand sticks.  After [handleLangToggle] the
    other language is shown; the next mount restores it from local storage
    whatever the browser's language is and sends no geolocation request; an
    answer of a request sent earlier no longer changes it; and a second
    toggle brings the first language back. *)
Theorem manual_language_sticks (cf : CaseFolding) (st fresh : AppState)
    (p : LangPrefs) (savedCount : option jsstring)
    (navigator : option (option jsstring)) (countries : list jsstring)
    (toUpperCase : jsstring -> jsstring) (cancelled : bool)
    (data : CountryCode) :
  let st1 := fst (handleLangToggle st p) in
  let p1 := snd (handleLangToggle st p) in
  lang st1 <> lang st
  /\ lang (fst (mountEffect savedCount navigator p1 fresh)) = lang st1
  /\ snd (mountEffect savedCount navigator p1 fresh) = false
  /\ geoAnswer countries toUpperCase cancelled data p1 st1 = st1
  /\ lang (fst (handleLangToggle st1 p1)) = lang st.
Proof.
  cbv zeta. unfold handleLangToggle, mountEffect, geoAnswer.
  cbn [fst snd savedLang userSelectedLang lang setLang].
  rewrite orb_true_r.
  destruct (lang st); cbn [langCode];
    repeat split; try discriminate; reflexivity.
Qed.

(* ================================================================== *)
(** * The suggested keywords *)
(* ================================================================== *)

Lemma listIncludes_In (l : list jsstring) (k : jsstring) :
  listIncludes l k = true <-> In k l.
Proof.
  unfold listIncludes. rewrite existsb_exists. split.
  - intros (x & Hin & E). apply jseqb_eq in E. subst x. exact Hin.
  - intros Hin. exists k. split; [exact Hin|apply jseqb_refl].
Qed.

Lemma uniqueFrom_In (all : list jsstring) :
  forall (seen : list jsstring) (k : jsstring),
    In k (Enhanced.uniqueFrom seen all) <-> In k all /\ ~ In k seen.
Proof.
  induction all as [|x rest IH]; intros seen k; cbn [Enhanced.uniqueFrom].
  - split; [contradiction|intros [[] _]].
  - destruct (listIncludes seen x) eqn:Hx.
    + apply listIncludes_In in Hx. rewrite IH. cbn [In]. split.
      * intros [Hin Hs]. split; [right; exact Hin|exact Hs].
      * intros [[->|Hin] Hs]; [contradiction|]. split; assumption.
    + assert (Hnx : ~ In x seen).
      { intros Hin. apply listIncludes_In in Hin. congruence. }
      cbn [In]. rewrite IH, in_app_iff. cbn [In]. split.
      * intros [->|[Hin Hs]].
        -- split; [left; reflexivity|exact Hnx].
        -- split; [right; exact Hin|]. intros Hk. apply Hs. left. exact Hk.
      * intros [[->|Hin] Hs]; [left; reflexivity|].
        destruct (list_eq_dec N.eq_dec x k) as [->|Hne];
          [left; reflexivity|].
        right. split; [exact Hin|]. intros [Hk|[Hk|[]]]; [|contradiction].
        exact (Hs Hk).
Qed.

Lemma uniqueFrom_NoDup (all : list jsstring) :
  forall seen : list jsstring, NoDup (Enhanced.uniqueFrom seen all).
Proof.
  induction all as [|x rest IH]; intros seen; cbn [Enhanced.uniqueFrom];
    [constructor|].
  destruct (listIncludes seen x); [apply IH|].
  constructor; [|apply IH].
  rewrite uniqueFrom_In, in_app_iff. intros [_ Hs]. apply Hs. right. left.
  reflexivity.
Qed.

Lemma uniqueFrom_head (k : jsstring) (rest : list jsstring) :
  Enhanced.uniqueFrom [] (k :: rest)
  = k :: Enhanced.uniqueFrom [k] rest.
Proof. reflexivity. Qed.

(** X17. The keywords that the later [analyzeImage] suggests are never
    empty and hold no keyword twice; they are the recogniser's keywords and
    the file name's, each at its first occurrence, or ["product"] alone
    when there is none; and the first keyword of the recogniser, when it
    has one that is not the empty string, is the suggested category. *)
Theorem analyzeImage_keywords_unique (cf : CaseFolding)
    (aiKeywords : list jsstring) (f : File) :
  let info := Enhanced.analyzeImage aiKeywords f in
  let all := aiKeywords ++ Enhanced.analyzeFileName (file_name f) in
  NoDup (suggestedKeywords info)
  /\ suggestedKeywords info <> []
  /\ (forall k, In k all -> In k (suggestedKeywords info))
  /\ (all <> [] -> forall k, In k (suggestedKeywords info) -> In k all)
  /\ (all = [] -> suggestedKeywords info = [product])
  /\ (forall k rest,
        aiKeywords = k :: rest -> k <> [] -> suggestedCategory info = k).
Proof.
  cbv zeta. unfold Enhanced.analyzeImage.
  cbn [suggestedKeywords suggestedCategory].
  set (all := aiKeywords ++ Enhanced.analyzeFileName (file_name f)).
  pose proof (uniqueFrom_NoDup all []) as Hnd.
  pose proof (uniqueFrom_In all []) as Hin.
  destruct (Enhanced.uniqueFrom [] all) as [|u us] eqn:Hu.
  - assert (Hall : all = []).
    { destruct all as [|x t]; [reflexivity|].
      exfalso. apply (proj2 (Hin x)). split; [left; reflexivity|intros []]. }
    split; [repeat constructor; intros []|]. split; [discriminate|].
    split; [rewrite Hall; intros k []|]. split; [contradiction|].
    split; [reflexivity|].
    intros k rest E _. subst all. rewrite E in Hall. discriminate.
  - split; [exact Hnd|]. split; [discriminate|].
    split; [intros k Hk; apply Hin; split; [exact Hk|intros []]|].
    split; [intros _ k Hk; exact (proj1 (proj1 (Hin k) Hk))|].
    split; [intros Hall; rewrite Hall in Hu; discriminate|].
    intros k rest E Hne. subst all. rewrite E in Hu.
    cbn [app] in Hu. rewrite uniqueFrom_head in Hu. injection Hu as <- _.
    cbn [hd]. destruct k; [contradiction|reflexivity].
Qed.

(* ================================================================== *)
(** * The keyword is never empty *)
(* ================================================================== *)

Lemma join_nonempty (sep w : jsstring) (rest : list jsstring) :
  w <> [] -> join sep (w :: rest) <> [].
Proof.
  intros Hw. cbn [join]. destruct rest as [|x t]; [exact Hw|].
  destruct w; [contradiction|discriminate].
Qed.

Lemma orElse_product (s : jsstring) : orElse s product <> [].
Proof. destruct s; discriminate. Qed.

Lemma firstn_filter_head {A : Type} (P : A -> bool) (n : nat) (l : list A)
    (x : A) (t : list A) :
  firstn n (filter P l) = x :: t -> P x = true.
Proof.
  intros E. assert (Hin : In x (filter P l)).
  { rewrite <- (firstn_skipn n (filter P l)), E. left. reflexivity. }
  apply filter_In in Hin. exact (proj2 Hin).
Qed.

(** The words that the early exit joins are longer than two units. *)
Lemma nameWords_head (cleaned w : jsstring) (ws : list jsstring) :
  Enhanced.nameWords cleaned = w :: ws -> w <> [].
Proof.
  unfold Enhanced.nameWords. intros Hw.
  apply firstn_filter_head in Hw. apply andb_prop in Hw as [Hlen _].
  destruct w; [discriminate Hlen|discriminate].
Qed.

(** Whatever the classification, the later composition returns some text. *)
Lemma composeKeywords_nonempty (cf : CaseFolding) (info : ImageInfo)
    (f : File) :
  Enhanced.composeKeywords info f <> [].
Proof.
  unfold Enhanced.composeKeywords. cbv zeta.
  generalize (Enhanced.cleanFileName (file_name f)). intros cleaned.
  destruct (match suggestedKeywords info with
            | [] => true
            | k :: _ => JS.eqb k product
            end);
    [destruct ((2 <? List.length cleaned) && negb _)|].
  - destruct (Enhanced.nameWords cleaned) as [|w ws] eqn:Hw.
    + rewrite (proj1 (combine_chosen info)). apply orElse_product.
    + apply join_nonempty. exact (nameWords_head cleaned w ws Hw).
  - rewrite (proj1 (combine_chosen info)). apply orElse_product.
  - rewrite (proj1 (combine_chosen info)). apply orElse_product.
Qed.

(** Neither revision ever returns the empty string. *)
Lemma extractKeywords_nonempty_both (cf : CaseFolding)
    (aiKeywords : list jsstring) (f : File) :
  Plain.extractKeywords f <> []
  /\ Enhanced.extractKeywords aiKeywords f <> [].
Proof.
  split.
  - unfold Plain.extractKeywords, Plain.composeKeywords. cbv zeta.
    apply orElse_product.
  - unfold Enhanced.extractKeywords. apply composeKeywords_nonempty.
Qed.

(* ================================================================== *)
(** * Keywords read off the file name need no sanitizing *)
(* ================================================================== *)

Lemma forallb_true_Forall {A : Type} (f : A -> bool) (l : list A) :
  forallb f l = true -> Forall (fun x => f x = true) l.
Proof.
  intros H. apply Forall_forall. apply forallb_forall. exact H.
Qed.

Lemma Forall_true_forallb {A : Type} (f : A -> bool) (l : list A) :
  Forall (fun x => f x = true) l -> forallb f l = true.
Proof.
  intros H. apply forallb_forall. apply Forall_forall. exact H.
Qed.

(** ** Joining tidy tokens *)

Lemma normalRuns_after (cls : N -> bool) (h c : N) (t : jsstring) :
  cls c = false ->
  normalRuns cls h true (c :: t) = normalRuns cls h false (c :: t).
Proof. intros Hc. cbn [normalRuns]. rewrite Hc. reflexivity. Qed.

Lemma normalRuns_cons (cls : N -> bool) (h c : N) (t : jsstring)
    (b : bool) :
  normalRuns cls h b (c :: t)
  = if cls c then (c =? h)%N && negb b && normalRuns cls h true t
    else normalRuns cls h false t.
Proof. reflexivity. Qed.

(** Appending to a string whose last unit is outside the class. *)
Lemma normalRuns_app (cls : N -> bool) (h : N) (x y : jsstring) (d : N) :
  forall b,
    x <> [] -> cls (last x d) = false ->
    normalRuns cls h b (x ++ y)
    = normalRuns cls h b x && normalRuns cls h false y.
Proof.
  induction x as [|c t IH]; intros b Hne Hl; [contradiction|].
  rewrite <- app_comm_cons, !normalRuns_cons.
  destruct t as [|c' t'].
  - cbn [last] in Hl. rewrite Hl. cbn [app normalRuns]. reflexivity.
  - assert (Hl' : cls (last (c' :: t') d) = false) by exact Hl.
    assert (Hne' : c' :: t' <> []) by discriminate.
    destruct (cls c).
    + rewrite (IH true Hne' Hl'). rewrite !andb_assoc. reflexivity.
    + rewrite (IH false Hne' Hl'). reflexivity.
Qed.

Lemma tidyToken_parts (s : jsstring) :
  tidyToken s = true ->
  exists c t,
    s = c :: t /\ forallb tokenUnit s = true /\ isHyphen c = false
    /\ isHyphen (last s c) = false
    /\ normalRuns isHyphen hyphen false s = true.
Proof.
  unfold tidyToken. destruct s as [|c t]; [discriminate|].
  intros H. apply andb_prop in H as [H Hn]. apply andb_prop in H as [H Hl].
  apply andb_prop in H as [Hu Hc].
  exists c, t. apply negb_true_iff in Hc, Hl. auto.
Qed.

Lemma last_indep (s : jsstring) (d d' : N) :
  s <> [] -> last s d = last s d'.
Proof.
  induction s as [|c t IH]; intros Hne; [contradiction|].
  destruct t as [|c' t']; [reflexivity|].
  cbn [last]. apply IH. discriminate.
Qed.

Lemma join_cons2 (sep p q : jsstring) (rest : list jsstring) :
  join sep (p :: q :: rest) = p ++ sep ++ join sep (q :: rest).
Proof. reflexivity. Qed.

Lemma join_head (sep q : jsstring) (rest : list jsstring) (c : N)
    (t : jsstring) :
  q = c :: t -> exists t', join sep (q :: rest) = c :: t'.
Proof.
  intros ->. destruct rest as [|q rest]; [exists t; reflexivity|].
  rewrite join_cons2. eexists. reflexivity.
Qed.

(** Tidy tokens joined by hyphens make a tidy keyword. *)
Lemma tidy_join (parts : list jsstring) :
  Forall (fun k => tidyToken k = true) parts ->
  tidyKeyword (join [hyphen] parts) = true.
Proof.
  unfold tidyKeyword.
  induction 1 as [|p rest Hp Hrest IH]; [reflexivity|].
  apply tidyToken_parts in Hp as (c & t & E & Hu & Hc & Hl & Hn).
  destruct rest as [|q rest'].
  - cbn [join]. rewrite Hu, Hn. reflexivity.
  - rewrite join_cons2. apply andb_prop in IH as [IHu IHn].
    pose proof (Forall_inv Hrest) as Hq. cbv beta in Hq.
    apply tidyToken_parts in Hq as (cq & tq & Eq & _ & Hcq & _).
    destruct (join_head [hyphen] q rest' cq tq Eq) as (t' & Ej).
    rewrite Ej in IHu, IHn |- *.
    rewrite !forallb_app, Hu, IHu. cbn [forallb andb].
    rewrite (normalRuns_app isHyphen hyphen p _ c);
      [|rewrite E; discriminate|exact Hl].
    rewrite Hn. cbn [app normalRuns andb].
    change (isHyphen hyphen) with true. cbn [negb andb].
    rewrite N.eqb_refl. cbn [andb].
    rewrite normalRuns_cons, Hcq in IHn. rewrite Hcq, IHn. reflexivity.
Qed.

(** On a tidy keyword [sanitizeKeyword] is the identity. *)
Lemma sanitizeKeyword_tidy (cf : CaseFolding) (law : LowerLaw cf)
    (s : jsstring) :
  tidyKeyword s = true -> sanitizeKeyword s = s.
Proof.
  unfold tidyKeyword, sanitizeKeyword. intros H.
  apply andb_prop in H as [Hu Hn].
  rewrite (sanitize_steps_fixed cf law s (forallb_true_Forall _ _ Hu)).
  apply normalRuns_fixed. exact Hn.
Qed.

(** ** What the tokens are *)

Lemma firstToken_keys (P : jsstring -> Prop) (hit : jsstring -> bool)
    (entries : RuleTable) :
  Forall P (map fst entries) -> Forall P (Spec.firstToken hit entries).
Proof.
  intros H. unfold Spec.firstToken.
  destruct (find (fun e => existsb hit (snd e)) entries) as [e|] eqn:Hf;
    [|constructor].
  constructor; [|constructor]. rewrite Forall_forall in H. apply H.
  apply in_map. exact (proj1 (find_some _ _ Hf)).
Qed.

Lemma everyToken_keys (P : jsstring -> Prop) (hit : jsstring -> bool)
    (entries : RuleTable) :
  Forall P (map fst entries) -> Forall P (Spec.everyToken hit entries).
Proof.
  intros H. unfold Spec.everyToken. rewrite Forall_forall in *.
  intros k Hk. apply in_map_iff in Hk as (e & <- & He).
  apply filter_In in He as [He _]. apply H. apply in_map. exact He.
Qed.

Lemma keys_Plain_colors :
  Forall (fun k => tidyToken k = true) (map fst Plain.colors).
Proof. apply forallb_true_Forall. vm_compute. reflexivity. Qed.

Lemma keys_Plain_materials :
  Forall (fun k => tidyToken k = true) (map fst Plain.materials).
Proof. apply forallb_true_Forall. vm_compute. reflexivity. Qed.

Lemma keys_Plain_clothing :
  Forall (fun k => tidyToken k = true) (map fst Plain.clothing).
Proof. apply forallb_true_Forall. vm_compute. reflexivity. Qed.

Lemma keys_Enhanced_colors :
  Forall (fun k => tidyToken k = true) (map fst Enhanced.colors).
Proof. apply forallb_true_Forall. vm_compute. reflexivity. Qed.

Lemma keys_Enhanced_materials :
  Forall (fun k => tidyToken k = true) (map fst Enhanced.materials).
Proof. apply forallb_true_Forall. vm_compute. reflexivity. Qed.

Lemma keys_Enhanced_sorted_clothing :
  Forall (fun k => tidyToken k = true) (map fst (Enhanced.sortByMaxLen Enhanced.clothing)).
Proof. apply forallb_true_Forall. vm_compute. reflexivity. Qed.

Lemma keys_Rules_styles :
  Forall (fun k => tidyToken k = true) (map fst Rules.styles).
Proof. apply forallb_true_Forall. vm_compute. reflexivity. Qed.

Lemma keys_Rules_shoes :
  Forall (fun k => tidyToken k = true) (map fst Rules.shoes).
Proof. apply forallb_true_Forall. vm_compute. reflexivity. Qed.

Lemma keys_Rules_bags :
  Forall (fun k => tidyToken k = true) (map fst Rules.bags).
Proof. apply forallb_true_Forall. vm_compute. reflexivity. Qed.

Lemma keys_Rules_jewelry :
  Forall (fun k => tidyToken k = true) (map fst Rules.jewelry).
Proof. apply forallb_true_Forall. vm_compute. reflexivity. Qed.

Lemma keys_Rules_accessories :
  Forall (fun k => tidyToken k = true) (map fst Rules.accessories).
Proof. apply forallb_true_Forall. vm_compute. reflexivity. Qed.

Lemma keys_Rules_electronics :
  Forall (fun k => tidyToken k = true) (map fst Rules.electronics).
Proof. apply forallb_true_Forall. vm_compute. reflexivity. Qed.

Lemma keys_Rules_home :
  Forall (fun k => tidyToken k = true) (map fst Rules.home).
Proof. apply forallb_true_Forall. vm_compute. reflexivity. Qed.

Lemma keys_Rules_furniture :
  Forall (fun k => tidyToken k = true) (map fst Rules.furniture).
Proof. apply forallb_true_Forall. vm_compute. reflexivity. Qed.

Lemma keys_Rules_kitchen :
  Forall (fun k => tidyToken k = true) (map fst Rules.kitchen).
Proof. apply forallb_true_Forall. vm_compute. reflexivity. Qed.

Lemma keys_Rules_beauty :
  Forall (fun k => tidyToken k = true) (map fst Rules.beauty).
Proof. apply forallb_true_Forall. vm_compute. reflexivity. Qed.

Lemma keys_Rules_sports :
  Forall (fun k => tidyToken k = true) (map fst Rules.sports).
Proof. apply forallb_true_Forall. vm_compute. reflexivity. Qed.

Lemma keys_Rules_baby :
  Forall (fun k => tidyToken k = true) (map fst Rules.baby).
Proof. apply forallb_true_Forall. vm_compute. reflexivity. Qed.

Lemma keys_Rules_pet :
  Forall (fun k => tidyToken k = true) (map fst Rules.pet).
Proof. apply forallb_true_Forall. vm_compute. reflexivity. Qed.

Lemma keys_Rules_scenes :
  Forall (fun k => tidyToken k = true) (map fst Rules.scenes).
Proof. apply forallb_true_Forall. vm_compute. reflexivity. Qed.

Lemma keys_Rules_seasons :
  Forall (fun k => tidyToken k = true) (map fst Rules.seasons).
Proof. apply forallb_true_Forall. vm_compute. reflexivity. Qed.

Lemma keys_Rules_sizes :
  Forall (fun k => tidyToken k = true) (map fst Rules.sizes).
Proof. apply forallb_true_Forall. vm_compute. reflexivity. Qed.

Lemma product_tidy : tidyToken product = true.
Proof. vm_compute. reflexivity. Qed.

Ltac tidy_categories :=
  repeat (apply Forall_app; split);
  first [ apply firstToken_keys | apply everyToken_keys | constructor ];
  first [ exact keys_Plain_colors | exact keys_Plain_materials
        | exact keys_Plain_clothing | exact keys_Enhanced_colors
        | exact keys_Enhanced_materials
        | exact keys_Enhanced_sorted_clothing | exact keys_Rules_styles
        | exact keys_Rules_shoes | exact keys_Rules_bags
        | exact keys_Rules_jewelry | exact keys_Rules_accessories
        | exact keys_Rules_electronics | exact keys_Rules_home
        | exact keys_Rules_furniture | exact keys_Rules_kitchen
        | exact keys_Rules_beauty | exact keys_Rules_sports
        | exact keys_Rules_baby | exact keys_Rules_pet
        | exact keys_Rules_scenes | exact keys_Rules_seasons
        | exact keys_Rules_sizes ].

(** Every token that the first revision reads off a name is a tidy key of
    one of its tables. *)
Lemma plain_tokens_tidy (cf : CaseFolding) (fileName : jsstring) :
  Forall (fun k => tidyToken k = true) (Plain.analyzeFileName fileName).
Proof.
  rewrite (plain_tokens_by_category cf fileName). cbv zeta.
  generalize (includes (toLowerCase fileName)). intros hit.
  rewrite !List.concat_cons, List.concat_nil.
  tidy_categories.
Qed.

Lemma enhanced_tokens_tidy (cf : CaseFolding) (fileName : jsstring) :
  Forall (fun k => tidyToken k = true) (Enhanced.analyzeFileName fileName).
Proof.
  rewrite (enhanced_tokens_by_category cf fileName). cbv zeta.
  generalize (if 2 <? List.length (Enhanced.cleanFileName fileName)
              then Enhanced.cleanFileName fileName
              else toLowerCase fileName). intros name.
  generalize (includes name) (Enhanced.testWord name)
    (Enhanced.testGarment name). intros hit word garment.
  rewrite !List.concat_cons, List.concat_nil.
  tidy_categories.
Qed.

(** ** What is chosen among the tokens *)

Lemma found_token (P : jsstring -> Prop) (f : jsstring -> bool)
    (tokens : list jsstring) :
  Forall P tokens ->
  Forall P
    (match find f tokens with
     | Some [] => []
     | Some (c :: k) => [c :: k]
     | None => []
     end).
Proof.
  intros H. destruct (find f tokens) as [[|c k]|] eqn:Hf; try constructor;
    [|constructor].
  rewrite Forall_forall in H. apply H. exact (proj1 (find_some _ _ Hf)).
Qed.

Lemma category_token (P : jsstring -> Prop) (tokens : list jsstring) :
  Forall P tokens -> P product -> P (orElse (hd [] tokens) product).
Proof.
  intros H Hp. destruct tokens as [|[|c k] rest]; cbn [hd orElse];
    [exact Hp|exact Hp|]. exact (Forall_inv H).
Qed.

Lemma Forall_firstn {A : Type} (P : A -> Prop) (n : nat) (l : list A) :
  Forall P l -> Forall P (firstn n l).
Proof.
  intros H. rewrite <- (firstn_skipn n l) in H.
  apply Forall_app in H. exact (proj1 H).
Qed.

Lemma Forall_filter {A : Type} (P : A -> Prop) (f : A -> bool)
    (l : list A) :
  Forall P l -> Forall P (filter f l).
Proof.
  rewrite !Forall_forall. intros H x Hx. apply filter_In in Hx.
  exact (H x (proj1 Hx)).
Qed.

Lemma chosenTokensPlain_Forall (P : jsstring -> Prop)
    (tokens : list jsstring) :
  Forall P tokens -> P product -> Forall P (Spec.chosenTokensPlain tokens).
Proof.
  intros H Hp. unfold Spec.chosenTokensPlain. cbv beta zeta.
  rewrite !primaryToken_orElse.
  pose proof (category_token P tokens H Hp) as Hc.
  pose proof (found_token P (listIncludes Plain.colorSet) tokens H) as H1.
  pose proof (found_token P (listIncludes Plain.materialSet) tokens H) as H2.
  pose proof (found_token P (listIncludes Plain.styleSet) tokens H) as H3.
  pose proof (found_token P
                (fun k => negb (JS.eqb k (orElse (hd [] tokens) product)))
                tokens H) as H4.
  match goal with
  | |- Forall P (match ?d with [] => _ | _ :: _ => _ end) =>
      assert (Hd : Forall P d)
        by (repeat (apply Forall_app; split); assumption);
      destruct d
  end.
  - constructor; [exact Hc|]. destruct (1 <? List.length tokens);
      [exact H4|constructor].
  - constructor; assumption.
Qed.

Lemma chosenTokens_Forall (P : jsstring -> Prop) (tokens : list jsstring) :
  Forall P tokens -> P product -> Forall P (Spec.chosenTokens tokens).
Proof.
  intros H Hp. unfold Spec.chosenTokens. cbv beta zeta.
  rewrite !primaryToken_orElse.
  pose proof (category_token P tokens H Hp) as Hc.
  pose proof (found_token P (listIncludes Enhanced.colorSet) tokens H) as H1.
  pose proof (found_token P (listIncludes Enhanced.materialSet) tokens H)
    as H2.
  pose proof (found_token P (listIncludes Enhanced.styleSet) tokens H) as H3.
  match goal with
  | |- Forall P (match ?d with [] => _ | _ :: _ => _ end) =>
      assert (Hd : Forall P d); [|destruct d; [constructor; [exact Hc|constructor]|exact Hd]]
  end.
  apply Forall_app. split.
  - match goal with
    | |- Forall P (if ?c then ?h ++ _ else ?h) =>
        assert (Hh : Forall P h);
          [|destruct c; [apply Forall_app; split|]; assumption]
    end.
    repeat (apply Forall_app; split); try assumption.
    destruct (JS.eqb _ product); [constructor|].
    constructor; [exact Hc|constructor].
  - match goal with
    | |- Forall P (if ?c then _ else _) => destruct c; [|constructor]
    end.
    apply Forall_firstn, Forall_filter. exact H.
Qed.

(** ** The words of a cleaned name *)

Lemma splitRuns_Forall (cls : N -> bool) (R : N -> Prop) (s : jsstring) :
  forall (b : bool) (cur : jsstring),
    Forall R cur -> Forall (fun c => cls c = false -> R c) s ->
    Forall (Forall R) (Enhanced.splitRuns cls b cur s).
Proof.
  induction s as [|c t IH]; intros b cur Hcur Hs;
    cbn [Enhanced.splitRuns].
  - constructor; [exact Hcur|constructor].
  - pose proof (Forall_inv Hs) as Hc. pose proof (Forall_inv_tail Hs) as Ht.
    cbv beta in Hc. destruct (cls c).
    + destruct b.
      * apply IH; [constructor|exact Ht].
      * constructor; [exact Hcur|]. apply IH; [constructor|exact Ht].
    + apply IH; [|exact Ht]. apply Forall_app. split; [exact Hcur|].
      constructor; [exact (Hc eq_refl)|constructor].
Qed.

Lemma normalRuns_absent (cls : N -> bool) (h : N) (s : jsstring) :
  forall b, Forall (fun c => cls c = false) s ->
            normalRuns cls h b s = true.
Proof.
  induction s as [|c t IH]; intros b H; [reflexivity|].
  cbn [normalRuns]. rewrite (Forall_inv H).
  exact (IH false (Forall_inv_tail H)).
Qed.

Lemma letters_tidy (w : jsstring) :
  w <> [] ->
  Forall (fun c => tokenUnit c = true /\ isHyphen c = false) w ->
  tidyToken w = true.
Proof.
  intros Hne H. destruct w as [|c t]; [contradiction|].
  unfold tidyToken.
  assert (Hu : forallb tokenUnit (c :: t) = true).
  { apply Forall_true_forallb. revert H. apply Forall_impl. tauto. }
  assert (Hh : Forall (fun x => isHyphen x = false) (c :: t)).
  { revert H. apply Forall_impl. tauto. }
  rewrite Hu, (normalRuns_absent isHyphen hyphen _ false Hh).
  rewrite (Forall_inv Hh).
  assert (Hl : In (last (c :: t) c) (c :: t)).
  { clear. generalize c at 1 3. induction t as [|x t IH]; intros d.
    - left. reflexivity.
    - right. destruct t as [|y t']; [left; reflexivity|].
      apply (IH x). }
  rewrite Forall_forall in Hh. rewrite (Hh _ Hl). reflexivity.
Qed.

Lemma wordUnit_letter (c : N) :
  (isWhiteSpace (if Enhanced.isWordUnit c then c else Enhanced.space)
   || isHyphen (if Enhanced.isWordUnit c then c else Enhanced.space))
  = false ->
  tokenUnit (if Enhanced.isWordUnit c then c else Enhanced.space) = true
  /\ isHyphen (if Enhanced.isWordUnit c then c else Enhanced.space) = false.
Proof.
  destruct (Enhanced.isWordUnit c) eqn:Hw; [|discriminate].
  intros H. apply orb_false_iff in H as [Hs Hh]. split; [|exact Hh].
  unfold Enhanced.isWordUnit in Hw. unfold tokenUnit.
  rewrite Hs, Hh, !orb_false_r in Hw.
  apply orb_true_iff in Hw as [Hw|Hw]; rewrite Hw, ?orb_true_r;
    reflexivity.
Qed.

Lemma nameWords_tidy (cleaned : jsstring) :
  Forall (fun k => tidyToken k = true) (Enhanced.nameWords cleaned).
Proof.
  unfold Enhanced.nameWords. apply Forall_firstn.
  apply Forall_forall. intros w Hw. apply filter_In in Hw as [Hin Hlen].
  apply andb_prop in Hlen as [Hlen _].
  assert (Hall :
            Forall
              (Forall (fun c => tokenUnit c = true /\ isHyphen c = false))
              (Enhanced.splitRuns (fun c => isWhiteSpace c || isHyphen c)
                 false []
                 (map (fun c => if Enhanced.isWordUnit c then c
                                else Enhanced.space) cleaned))).
  { apply splitRuns_Forall; [constructor|].
    apply Forall_forall. intros c Hc.
    apply in_map_iff in Hc as (x & <- & _). apply wordUnit_letter. }
  rewrite Forall_forall in Hall. apply letters_tidy.
  - destruct w; [discriminate Hlen|discriminate].
  - exact (Hall w Hin).
Qed.

(** ** The keywords *)

Lemma tidyToken_keyword (s : jsstring) :
  tidyToken s = true -> tidyKeyword s = true.
Proof.
  intros H. apply tidyToken_parts in H as (c & t & _ & Hu & _ & _ & Hn).
  unfold tidyKeyword. rewrite Hu, Hn. reflexivity.
Qed.

Lemma orElse_tidy (s : jsstring) :
  tidyKeyword s = true -> tidyKeyword (orElse s product) = true.
Proof.
  intros H. destruct s; [|exact H].
  exact (tidyToken_keyword product product_tidy).
Qed.

Lemma plain_keyword_tidy (cf : CaseFolding) (f : File) :
  tidyKeyword (Plain.extractKeywords f) = true.
Proof.
  unfold Plain.extractKeywords.
  rewrite (proj1 (composePlain_chosen (Plain.analyzeImage f))).
  apply tidy_join, chosenTokensPlain_Forall; [|exact product_tidy].
  unfold Plain.analyzeImage. cbn [suggestedKeywords].
  pose proof (plain_tokens_tidy cf (file_name f)) as Ht.
  destruct (Plain.analyzeFileName (file_name f));
    [constructor; [exact product_tidy|constructor]|exact Ht].
Qed.

Lemma enhanced_keyword_tidy (cf : CaseFolding) (f : File) :
  tidyKeyword (Enhanced.extractKeywords [] f) = true.
Proof.
  unfold Enhanced.extractKeywords, Enhanced.composeKeywords. cbv zeta.
  assert (Htok : Forall (fun k => tidyToken k = true)
                   (suggestedKeywords (Enhanced.analyzeImage [] f))).
  { unfold Enhanced.analyzeImage. cbn [suggestedKeywords app].
    pose proof (enhanced_tokens_tidy cf (file_name f)) as Ht.
    pose proof (uniqueFrom_In (Enhanced.analyzeFileName (file_name f)) [])
      as Hin.
    destruct (Enhanced.uniqueFrom [] (Enhanced.analyzeFileName (file_name f)))
      as [|u us]; [constructor; [exact product_tidy|constructor]|].
    rewrite Forall_forall in *. intros k Hk.
    exact (Ht k (proj1 (proj1 (Hin k) Hk))). }
  revert Htok.
  generalize (Enhanced.analyzeImage [] f). intros info Htok.
  generalize (Enhanced.cleanFileName (file_name f)). intros cleaned.
  assert (Hcombine : tidyKeyword (Enhanced.combine info) = true).
  { rewrite (proj1 (combine_chosen info)).
    apply orElse_tidy, tidy_join, chosenTokens_Forall;
      [exact Htok|exact product_tidy]. }
  destruct (match suggestedKeywords info with
            | [] => true
            | k :: _ => JS.eqb k product
            end);
    [destruct ((2 <? List.length cleaned) && negb _)|];
    try exact Hcombine.
  pose proof (nameWords_tidy cleaned) as Hw.
  destruct (Enhanced.nameWords cleaned) as [|w ws]; [exact Hcombine|].
  apply tidy_join. exact Hw.
Qed.

(** X19. A keyword detected from the file name alone (the first revision,
    and the later one when no recogniser answers) is already in the
    sanitizer's normal form: [sanitizeKeyword] returns it unchanged, so the
    output name of an image renamed that way starts with the detected
    keyword verbatim. *)
Theorem filename_keywords_need_no_sanitizing (cf : CaseFolding)
    (law : LowerLaw cf) (f : File) :
  sanitizeKeyword (Plain.extractKeywords f) = Plain.extractKeywords f
  /\ sanitizeKeyword (Enhanced.extractKeywords [] f)
     = Enhanced.extractKeywords [] f
  /\ (forall (B : Browser) (input : InputImage) (forceSquareToUse : bool)
             (index : nat) (r : ProcessedImage),
        processSingleImage B input (Enhanced.extractKeywords [] f)
          forceSquareToUse index = Some r ->
        exists ext,
          seoName r
          = Enhanced.extractKeywords [] f ++ [hyphen] ++ indexStrOf index
              ++ [Enhanced.dot] ++ ext).
Proof.
  pose proof (sanitizeKeyword_tidy cf law _ (plain_keyword_tidy cf f)) as Hp.
  pose proof (sanitizeKeyword_tidy cf law _ (enhanced_keyword_tidy cf f))
    as He.
  split; [exact Hp|]. split; [exact He|].
  intros B input sq index r Hr.
  destruct (processSingleImage_fields _ _ _ _ _ _ Hr)
    as (_ & _ & _ & Hn & _).
  exists (Spec.extensionFor (originalTypeOf input)).
  rewrite Hn. unfold Spec.name, indexStrOf.
  rewrite padStart_paddedIndex, He.
  pose proof (proj2 (extractKeywords_nonempty_both cf [] f)) as Hne.
  destruct (Enhanced.extractKeywords [] f); [contradiction|reflexivity].
Qed.

Lemma filename_keywords_need_no_sanitizing_witness :
  @sanitizeKeyword asciiFolding
    (@Enhanced.extractKeywords asciiFolding []
       (Demo.fileOf "img_fancy-gadget.png" "image/png" 10))
  = @Enhanced.extractKeywords asciiFolding []
      (Demo.fileOf "img_fancy-gadget.png" "image/png" 10).
Proof.
  exact (proj1 (proj2 (filename_keywords_need_no_sanitizing asciiFolding
                         asciiFolding_law
                         (Demo.fileOf "img_fancy-gadget.png" "image/png"
                            10)))).
Defined.

(* ================================================================== *)
(** * The cleaned file name *)
(* ================================================================== *)

Lemma trimStart_suffix (s : jsstring) :
  exists w, s = w ++ trimStart s.
Proof.
  induction s as [|c t (w & IH)]; [exists []; reflexivity|].
  cbn [trimStart]. destruct (isWhiteSpace c).
  - exists (c :: w). cbn [app]. rewrite <- IH. reflexivity.
  - exists []. reflexivity.
Qed.

Lemma trimStart_head (s : jsstring) (c : N) (t : jsstring) :
  trimStart s = c :: t -> isWhiteSpace c = false.
Proof.
  induction s as [|x s IH]; cbn [trimStart]; [discriminate|].
  destruct (isWhiteSpace x) eqn:Hx; [exact IH|].
  intros E. injection E as <- _. exact Hx.
Qed.

Lemma trimEnd_prefix (s : jsstring) :
  exists w, s = trimEnd s ++ w.
Proof.
  unfold trimEnd. destruct (trimStart_suffix (rev s)) as (w & E).
  exists (rev w). rewrite <- rev_app_distr, <- E. symmetry.
  apply rev_involutive.
Qed.

Lemma trimEnd_last (s t : jsstring) (c : N) :
  trimEnd s = t ++ [c] -> isWhiteSpace c = false.
Proof.
  unfold trimEnd. intros E. apply (f_equal (@rev N)) in E.
  rewrite rev_involutive, rev_app_distr in E. cbn [rev app] in E.
  exact (trimStart_head _ _ _ E).
Qed.

(** X20. A cleaned file name has its separators normalised: it holds no
    hyphen, no underscore and no white space other than U+0020, never two
    spaces in a row, and no space at either end. *)
Theorem cleanFileName_separators (cf : CaseFolding) (fileName : jsstring) :
  let cleaned := Enhanced.cleanFileName fileName in
  Forall (fun c => Enhanced.isSep c = true -> c = Enhanced.space) cleaned
  /\ (forall a z, cleaned <> a ++ [Enhanced.space; Enhanced.space] ++ z)
  /\ (forall t, cleaned <> Enhanced.space :: t)
  /\ (forall t, cleaned <> t ++ [Enhanced.space]).
Proof.
  cbv zeta. unfold Enhanced.cleanFileName. cbv zeta.
  generalize (Enhanced.removeTail (Enhanced.isBracketTail 0x5B%N 0x5D%N)
                (Enhanced.removeTail (Enhanced.isBracketTail 0x28%N 0x29%N)
                   (Enhanced.removeTail Enhanced.isDigitsTail
                      (fold_left Enhanced.stripPrefix Enhanced.prefixes
                         (Enhanced.removeTail Enhanced.isExtensionTail
                            (toLowerCase fileName)))))).
  intros s.
  pose proof (replaceRuns_normal Enhanced.isSep Enhanced.space eq_refl s
                false) as Hn.
  set (r := replaceRuns Enhanced.isSep [Enhanced.space] false s) in *.
  clearbody r. unfold trim.
  destruct (trimStart_suffix r) as (w1 & E1).
  destruct (trimEnd_prefix (trimStart r)) as (w2 & E2).
  assert (Hn' : normalRuns Enhanced.isSep Enhanced.space false
                  (trimEnd (trimStart r)) = true).
  { rewrite E1 in Hn. apply normalRuns_tail in Hn. rewrite E2 in Hn.
    exact (normalRuns_head _ _ _ _ _ Hn). }
  split; [|split; [|split]].
  - apply Forall_forall. intros c Hc Hs.
    exact (normalRuns_units _ _ _ _ _ Hn' Hc Hs).
  - intros a z.
    exact (normalRuns_no_pair Enhanced.isSep Enhanced.space _ a z
             Enhanced.space Enhanced.space false Hn' eq_refl eq_refl).
  - intros t E. rewrite E in E2.
    pose proof (trimStart_head r Enhanced.space (t ++ w2) E2) as Hs.
    discriminate Hs.
  - intros t E.
    pose proof (trimEnd_last _ _ _ E) as Hs. discriminate Hs.
Qed.

(* ================================================================== *)
(** * The recogniser's labels *)
(* ================================================================== *)

Lemma replaceRuns_units (cls : N -> bool) (h : N) (P : N -> Prop)
    (s : jsstring) :
  P h -> Forall (fun c => cls c = false -> P c) s ->
  forall b, Forall P (replaceRuns cls [h] b s).
Proof.
  intros Hh. induction 1 as [|c t Hc _ IH]; intros b; [constructor|].
  cbn [replaceRuns]. destruct (cls c).
  - destruct b; [apply IH|]. cbn [app]. constructor; [exact Hh|apply IH].
  - constructor; [exact (Hc eq_refl)|apply IH].
Qed.

Lemma labelOf_chars (cf : CaseFolding) (name : jsstring) :
  Forall (fun c => labelChar c = true) (Vision.labelOf name).
Proof.
  unfold Vision.labelOf. apply replaceRuns_units; [reflexivity|].
  apply Forall_forall. intros c Hc Hs. apply filter_In in Hc as [_ Hc].
  unfold Vision.labelUnit in Hc. unfold labelChar.
  rewrite Hs, orb_false_r in Hc. exact Hc.
Qed.

(** What [collectLabels] gathers: labels longer than two units, in the
    label alphabet, each once. *)
Lemma collectLabels_labels (cf : CaseFolding)
    (predictions : list Vision.Prediction) :
  Forall (fun k => 2 < List.length k
                   /\ Forall (fun c => labelChar c = true) k)
    (Vision.collectLabels predictions)
  /\ NoDup (Vision.collectLabels predictions).
Proof.
  unfold Vision.collectLabels.
  assert (H : forall acc,
             Forall (fun k => 2 < List.length k
                              /\ Forall (fun c => labelChar c = true) k) acc
             /\ NoDup acc ->
             Forall (fun k => 2 < List.length k
                              /\ Forall (fun c => labelChar c = true) k)
               (fold_left
                  (fun keywords prediction =>
                     if (0x1.3333333333333p-2
                         <? Vision.probability prediction)%float
                     then
                       if (2 <? List.length
                                  (Vision.labelOf
                                     (Vision.className prediction)))
                          && negb (listIncludes keywords
                                     (Vision.labelOf
                                        (Vision.className prediction)))
                       then keywords
                              ++ [Vision.labelOf
                                    (Vision.className prediction)]
                       else keywords
                     else keywords)
                  predictions acc)
             /\ NoDup
                  (fold_left
                     (fun keywords prediction =>
                        if (0x1.3333333333333p-2
                            <? Vision.probability prediction)%float
                        then
                          if (2 <? List.length
                                     (Vision.labelOf
                                        (Vision.className prediction)))
                             && negb (listIncludes keywords
                                        (Vision.labelOf
                                           (Vision.className prediction)))
                          then keywords
                                 ++ [Vision.labelOf
                                       (Vision.className prediction)]
                          else keywords
                        else keywords)
                     predictions acc)).
  { induction predictions as [|p rest IH]; intros acc Hacc;
      [exact Hacc|].
    cbn [fold_left]. apply IH.
    destruct (0x1.3333333333333p-2 <? Vision.probability p)%float;
      [|exact Hacc].
    destruct ((2 <? List.length (Vision.labelOf (Vision.className p)))
              && negb (listIncludes acc
                         (Vision.labelOf (Vision.className p)))) eqn:Hc;
      [|exact Hacc].
    apply andb_prop in Hc as [Hlen Hnew]. apply Nat.ltb_lt in Hlen.
    apply negb_true_iff in Hnew. destruct Hacc as [Hf Hn]. split.
    - apply Forall_app. split; [exact Hf|].
      constructor; [|constructor]. split; [exact Hlen|].
      apply labelOf_chars.
    - apply NoDup_app; [exact Hn|repeat constructor; intros []|].
      intros x Hx [<-|[]]. apply listIncludes_In in Hx. congruence. }
  apply H. split; constructor.
Qed.

Lemma keywordMap_values :
  Forall (fun row => Forall (fun c => labelChar c = true) (snd row))
    Vision.keywordMap.
Proof.
  apply Forall_forall. intros row Hin.
  assert (H : forallb (fun row => forallb labelChar (snd row))
                Vision.keywordMap = true) by (vm_compute; reflexivity).
  rewrite forallb_forall in H. apply forallb_true_Forall. exact (H row Hin).
Qed.

Lemma lookup_In (table : list (jsstring * jsstring)) (key v : jsstring) :
  Vision.lookup table key = Some v -> In (key, v) table.
Proof.
  induction table as [|[k x] rest IH]; cbn [Vision.lookup];
    [discriminate|].
  destruct (JS.eqb k key) eqn:E.
  - apply jseqb_eq in E. intros H. injection H as <-. left. rewrite E.
    reflexivity.
  - intros H. right. exact (IH H).
Qed.

(** What is kept of a mapped label. *)
Lemma keepMapped_kept (label k : jsstring) :
  Forall (fun c => labelChar c = true) label ->
  In k (Vision.keepMapped (Vision.mapLabel label)) ->
  2 < List.length k
  /\ listIncludes Vision.excludeWords k = false
  /\ Forall (fun c => labelChar c = true) k.
Proof.
  intros Hl Hin.
  assert (Hm : forall v,
             Vision.mapLabel label = Vision.text v ->
             Forall (fun c => labelChar c = true) v).
  { unfold Vision.mapLabel. intros v.
    destruct (Vision.lookup Vision.keywordMap label) as [[|c x]|] eqn:Hk.
    - intros E. injection E as <-. exact Hl.
    - intros E. injection E as <-.
      pose proof (lookup_In _ _ _ Hk) as Hrow.
      pose proof keywordMap_values as Hv. rewrite Forall_forall in Hv.
      exact (Hv _ Hrow).
    - destruct (listIncludes Vision.inheritedNames label); [discriminate|].
      intros E. injection E as <-. exact Hl. }
  destruct (Vision.mapLabel label) as [v|]; [|contradiction].
  cbn [Vision.keepMapped] in Hin.
  destruct ((2 <? List.length v)
            && negb (listIncludes Vision.excludeWords v)) eqn:Hc;
    [|contradiction].
  destruct Hin as [<-|[]]. apply andb_prop in Hc as [Hlen Hex].
  apply Nat.ltb_lt in Hlen. apply negb_true_iff in Hex.
  split; [exact Hlen|]. split; [exact Hex|]. exact (Hm v eq_refl).
Qed.

Lemma mobileNet_keywords (cf : CaseFolding)
    (predictions : option (list Vision.Prediction)) (k : jsstring) :
  In k (Vision.recognizeWithMobileNet predictions) ->
  2 < List.length k
  /\ listIncludes Vision.excludeWords k = false
  /\ Forall (fun c => labelChar c = true) k.
Proof.
  unfold Vision.recognizeWithMobileNet.
  destruct predictions as [predictions|]; [|contradiction].
  intros Hin.
  assert (Hin' : In k (flat_map Vision.keepMapped
                         (map Vision.mapLabel
                            (Vision.collectLabels predictions)))).
  { rewrite <- (firstn_skipn 4 (flat_map _ _)). apply in_or_app. left.
    exact Hin. }
  apply in_flat_map in Hin' as (m & Hm & Hk).
  apply in_map_iff in Hm as (label & <- & Hl).
  pose proof (proj1 (collectLabels_labels cf predictions)) as Hall.
  rewrite Forall_forall in Hall.
  exact (keepMapped_kept label k (proj2 (Hall label Hl)) Hk).
Qed.

Lemma collectLabels_low (cf : CaseFolding)
    (predictions : list Vision.Prediction) :
  Forall (fun p => (0x1.3333333333333p-2
                    <? Vision.probability p)%float = false) predictions ->
  Vision.collectLabels predictions = [].
Proof.
  unfold Vision.collectLabels. generalize (@nil jsstring).
  intros acc. induction 1 as [|p rest Hp _ IH]; [reflexivity|].
  cbn [fold_left]. rewrite Hp. exact IH.
Qed.

(** X21. Whatever the model predicts, [recognizeWithMobileNet] returns at
    most four keywords; each is longer than two units, is none of the
    excluded words, and is made of [a-z], [0-9] and hyphens only; and it
    returns none when the model or the image cannot be loaded, or when no
    prediction has a probability above 0.3. *)
Theorem mobileNet_keywords_are_bounded (cf : CaseFolding)
    (predictions : option (list Vision.Prediction)) :
  List.length (Vision.recognizeWithMobileNet predictions) <= 4
  /\ Forall
       (fun k => 2 < List.length k
                 /\ ~ In k Vision.excludeWords
                 /\ Forall (fun c => labelChar c = true) k)
       (Vision.recognizeWithMobileNet predictions)
  /\ Vision.recognizeWithMobileNet None = []
  /\ (forall ps,
        predictions = Some ps ->
        Forall (fun p => (0x1.3333333333333p-2
                          <? Vision.probability p)%float = false) ps ->
        Vision.recognizeWithMobileNet predictions = []).
Proof.
  split; [|split; [|split; [reflexivity|]]].
  - unfold Vision.recognizeWithMobileNet.
    destruct predictions; [apply firstn_le_length|cbn; lia].
  - apply Forall_forall. intros k Hk.
    destruct (mobileNet_keywords cf predictions k Hk) as (H1 & H2 & H3).
    split; [exact H1|]. split; [|exact H3].
    intros Hin. apply listIncludes_In in Hin. congruence.
  - intros ps -> Hlow. unfold Vision.recognizeWithMobileNet.
    rewrite (collectLabels_low cf ps Hlow). reflexivity.
Qed.

(* ================================================================== *)
(** * The recogniser and the file name together *)
(* ================================================================== *)

(** X22. What the local model recognises comes first: when
    [recognizeWithMobileNet] returns at least one keyword, the configured
    provider is not consulted, the keywords of the model head the suggested
    keywords, and the first of them is the suggested category, whatever
    the file is called. *)
Theorem mobileNet_keyword_leads (cf : CaseFolding)
    (config : Vision.AIConfig) (answers : Vision.Answers) (f : File)
    (k : jsstring) (rest : list jsstring) :
  Vision.recognizeWithMobileNet (Vision.mobileNet answers) = k :: rest ->
  Vision.recognizeWithAI config answers = k :: rest
  /\ suggestedCategory (Vision.analyzeImage config answers f) = k
  /\ hd_error (suggestedKeywords (Vision.analyzeImage config answers f))
     = Some k.
Proof.
  intros Hm.
  assert (Hai : Vision.recognizeWithAI config answers = k :: rest).
  { unfold Vision.recognizeWithAI. rewrite Hm. reflexivity. }
  split; [exact Hai|].
  assert (Hk : k <> []).
  { destruct (mobileNet_keywords cf (Vision.mobileNet answers) k)
      as (Hlen & _); [rewrite Hm; left; reflexivity|].
    destruct k; [cbn in Hlen; lia|discriminate]. }
  unfold Vision.analyzeImage, Enhanced.analyzeImage. rewrite Hai.
  cbn [suggestedCategory suggestedKeywords].
  generalize (Enhanced.analyzeFileName (file_name f)). intros names.
  cbn [app]. rewrite uniqueFrom_head. cbn [hd hd_error].
  split; [|reflexivity]. destruct k; [contradiction|reflexivity].
Qed.

Lemma mobileNet_keyword_leads_witness :
  suggestedCategory
    (@Vision.analyzeImage asciiFolding Sample.offline Sample.shoePhoto
       (Demo.fileOf "IMG_0042.jpg" "image/jpeg" 10))
  = utf16 "sneakers".
Proof.
  exact (proj1 (proj2 (mobileNet_keyword_leads asciiFolding Sample.offline
                         Sample.shoePhoto
                         (Demo.fileOf "IMG_0042.jpg" "image/jpeg" 10)
                         (utf16 "sneakers") []
                         ltac:(vm_compute; reflexivity)))).
Defined.

(** X18. No revision of [extractKeywords] ever returns the empty string,
    whatever the file is called and whatever the recognisers answer: the
    keyword that the detection stores for an image always takes
    precedence over the global keyword. *)
Theorem extractKeywords_never_empty (cf : CaseFolding)
    (config : Vision.AIConfig) (answers : Vision.Answers)
    (aiKeywords : list jsstring) (f : File) :
  Plain.extractKeywords f <> []
  /\ Enhanced.extractKeywords aiKeywords f <> []
  /\ Vision.extractKeywords config answers f <> []
  /\ (forall (item : InputImage) (keyword : jsstring),
        keywordFor
          (withCustomKeyword
             (Some (Vision.extractKeywords config answers f)) item) keyword
        = Vision.extractKeywords config answers f).
Proof.
  destruct (extractKeywords_nonempty_both cf aiKeywords f) as [Hp He].
  pose proof (proj2 (extractKeywords_nonempty_both cf
                       (Vision.recognizeWithAI config answers) f)) as Hv.
  split; [exact Hp|]. split; [exact He|].
  unfold Vision.extractKeywords. split; [exact Hv|].
  intros item keyword. unfold keywordFor, withCustomKeyword.
  cbn [customKeyword].
  destruct (Enhanced.extractKeywords (Vision.recognizeWithAI config answers)
              f); [contradiction|reflexivity].
Qed.

(* ================================================================== *)
(** * The paid providers *)
(* ================================================================== *)

(** X23. Without an API key, with recognition by a provider disabled, or
    with provider [none] or [huggingface], the keywords of an image are
    those of the local model and nothing else; what the providers would
    answer plays no part. *)
Theorem providers_need_key_and_consent (cf : CaseFolding)
    (config : Vision.AIConfig) (answers : Vision.Answers) :
  Vision.hasKey config = false \/ Vision.enabled config = false
  \/ Vision.provider config = Vision.none
  \/ Vision.provider config = Vision.huggingface ->
  Vision.recognizeWithAI config answers
  = Vision.recognizeWithMobileNet (Vision.mobileNet answers).
Proof.
  intros H. unfold Vision.recognizeWithAI.
  destruct (Vision.recognizeWithMobileNet (Vision.mobileNet answers))
    as [|k rest]; [|reflexivity].
  unfold Vision.recognizeWithOpenAI, Vision.recognizeWithGoogle.
  destruct H as [H|[H|[H|H]]]; rewrite H;
    try (destruct (Vision.enabled config));
    try (destruct (Vision.provider config)); reflexivity.
Qed.

Lemma providers_need_key_and_consent_witness :
  @Vision.recognizeWithAI asciiFolding Sample.offline Sample.shoePhoto
  = @Vision.recognizeWithMobileNet asciiFolding
      (Vision.mobileNet Sample.shoePhoto).
Proof.
  apply (providers_need_key_and_consent asciiFolding Sample.offline
           Sample.shoePhoto).
  left. reflexivity.
Defined.

(* ================================================================== *)
(** * The sequence index as text *)
(* ================================================================== *)

(** X24. The index in an output name can be read back: for every position
    [index], [String(index + 1).padStart(2, '0')] has at least two units,
    all of them decimal digits, and read as a decimal number it is
    [index + 1]; so two positions never share an index string. *)
Theorem indexStr_reads_back (index other : nat) :
  2 <= List.length (indexStrOf index)
  /\ Forall (fun c => isDigit c = true) (indexStrOf index)
  /\ parseInt10 (indexStrOf index) = Some (Z.of_nat (index + 1))
  /\ (indexStrOf index = indexStrOf other -> index = other).
Proof.
  unfold indexStrOf. rewrite !padStart_paddedIndex.
  assert (Hv : forall n, numberOfDigits (Spec.paddedIndex n) = Z.of_nat n)
    by exact numberOfDigits_paddedIndex.
  split; [|split; [exact (paddedIndex_isDigit _)|split]].
  - unfold Spec.paddedIndex. destruct (index + 1 <? 10) eqn:E.
    + apply Nat.ltb_lt in E. cbn [List.length].
      rewrite (decimal_small _ E). lia.
    + apply Nat.ltb_ge in E. exact (decimal_large _ E).
  - pose proof (paddedIndex_isDigit (index + 1)) as Hd.
    pose proof (Hv (index + 1)) as Hn.
    unfold parseInt10.
    destruct (Spec.paddedIndex (index + 1)) as [|c t] eqn:Ep.
    + cbn in Hn. lia.
    + pose proof (Forall_inv Hd) as Hc. cbv beta in Hc.
      assert (Hw : isWhiteSpace c = false /\ (c =? 0x2D)%N = false
                   /\ (c =? 0x2B)%N = false).
      { unfold isDigit in Hc. apply andb_prop in Hc as [H1 H2].
        apply N.leb_le in H1, H2. unfold isWhiteSpace.
        repeat split;
          repeat match goal with
                 | |- (_ || _) = false => apply orb_false_iff; split
                 | |- (_ && _) = false => apply andb_false_iff; left
                 | |- (_ =? _)%N = false => apply N.eqb_neq; lia
                 | |- (_ <=? _)%N = false => apply N.leb_gt; lia
                 end. }
      destruct Hw as (Hw & Hm & Hp).
      cbn [trimStart]. rewrite Hw, Hm, Hp.
      rewrite (leadingDigits_all (c :: t) Hd), Hn. reflexivity.
  - intros E. apply (f_equal numberOfDigits) in E. rewrite !Hv in E. lia.
Qed.

(* ================================================================== *)
(** * The two revisions of the batch run *)
(* ================================================================== *)




(* ================================================================== *)
(** * The lifetime count *)
(* ================================================================== *)

(* ================================================================== *)
(** * Submissions and object URLs *)
(* ================================================================== *)

(** X27. A submission never revokes an object URL.  When it holds a
    supported file it discards every result, and the download URLs of the
    discarded results stay as they were: one that had not been revoked
    before is not revoked by the submission either. *)
Theorem handleFiles_revokes_nothing (B : Browser)
    (fileList : option (list File)) (st : AppState) :
  revoked (handleFiles B fileList st) = revoked st
  /\ (forall (fl : list File) (p : ProcessedImage),
        fileList = Some fl -> filter isAccepted fl <> [] ->
        In p (processed st) -> ~ In (downloadUrl p) (revoked st) ->
        ~ In p (processed (handleFiles B fileList st))
        /\ ~ In (downloadUrl p) (revoked (handleFiles B fileList st))).
Proof.
  assert (Hr : revoked (handleFiles B fileList st) = revoked st).
  { destruct fileList as [fileList|]; [|reflexivity].
    unfold handleFiles. destruct (filter _ fileList); [reflexivity|].
    cbn [revoked setProcessed setFiles].
    match goal with
    | |- context [if ?c then _ else _] => destruct c
    end; reflexivity. }
  split; [exact Hr|].
  intros fl p -> Hne Hin Hnot. rewrite Hr. split; [|exact Hnot].
  rewrite (handleFiles_accepting B fl st Hne). intros [].
Qed.

(* ================================================================== *)
(** * Matching in the later revision *)
(* ================================================================== *)

Lemma atBoundary_anywhere (here : jsstring -> bool) (s : jsstring) :
  forall prev, Enhanced.atBoundary here prev s = true ->
               Enhanced.anywhere here s = true.
Proof.
  induction s as [|c t IH]; intros prev H;
    cbn [Enhanced.atBoundary Enhanced.anywhere] in *.
  - rewrite orb_false_r in *. apply andb_prop in H. exact (proj2 H).
  - apply orb_true_iff in H as [H|H].
    + apply andb_prop in H. rewrite (proj2 H). reflexivity.
    + rewrite (IH _ H). apply orb_true_r.
Qed.

Lemma anywhere_split (here : jsstring -> bool) (s : jsstring) :
  Enhanced.anywhere here s = true
  <-> exists a t, s = a ++ t /\ here t = true.
Proof.
  induction s as [|c t IH]; cbn [Enhanced.anywhere].
  - rewrite orb_false_r. split.
    + intros H. exists [], []. split; [reflexivity|exact H].
    + intros (a & t & E & H). symmetry in E.
      apply app_eq_nil in E as [-> ->]. exact H.
  - rewrite orb_true_iff, IH. split.
    + intros [H|(a & u & -> & H)].
      * exists [], (c :: t). split; [reflexivity|exact H].
      * exists (c :: a), u. split; [reflexivity|exact H].
    + intros ([|x a] & u & E & H); cbn [app] in E.
      * left. rewrite E. exact H.
      * right. injection E as -> ->. exists a, u.
        split; [reflexivity|exact H].
Qed.

Lemma isPrefixCI_split (p s : jsstring) :
  Enhanced.isPrefixCI p s = true
  <-> exists m z, s = m ++ z /\ map lowerUnit m = map lowerUnit p.
Proof.
  revert s. induction p as [|x p IH]; intros s; cbn [Enhanced.isPrefixCI].
  - split; [|reflexivity]. intros _. exists [], s. split; reflexivity.
  - destruct s as [|y s].
    + split; [discriminate|]. intros (m & z & E & H). symmetry in E.
      apply app_eq_nil in E as [-> ->]. discriminate H.
    + rewrite andb_true_iff, IH. unfold Enhanced.eqCI. rewrite N.eqb_eq.
      split.
      * intros [Hx (m & z & -> & H)]. exists (y :: m), z.
        split; [reflexivity|]. cbn [map]. rewrite H, Hx. reflexivity.
      * intros ([|y' m] & z & E & H); [discriminate H|].
        cbn [app map] in E, H. injection E as -> ->.
        injection H as Hy Hm. split; [symmetry; exact Hy|].
        exists m, z. split; [reflexivity|exact Hm].
Qed.

(** X28. In the later revision a colour or material pattern (of ASCII
    and ideographs, as all of them are) is matched as a plain
    case-insensitive substring: the regular expression's first
    alternative, with its word boundary, never adds a match to the second.
    The test succeeds exactly when the name holds, anywhere, a stretch that
    equals the pattern up to the case of [A-Z]. *)
Theorem word_boundary_adds_nothing (name p : jsstring) :
  forallb basicUnit p = true ->
  Enhanced.testWord name p
  = Enhanced.anywhere (Enhanced.isPrefixCI p) name
  /\ (Enhanced.testWord name p = true
      <-> exists a m z,
            name = a ++ m ++ z /\ map lowerUnit m = map lowerUnit p).
Proof.
  intros _.
  assert (E : Enhanced.testWord name p
              = Enhanced.anywhere (Enhanced.isPrefixCI p) name).
  { unfold Enhanced.testWord.
    destruct (Enhanced.atBoundary (Enhanced.isPrefixCI p) None name) eqn:Hb;
      [|reflexivity].
    rewrite (atBoundary_anywhere _ _ _ Hb). reflexivity. }
  split; [exact E|]. rewrite E, anywhere_split. split.
  - intros (a & t & -> & H). apply isPrefixCI_split in H as (m & z & -> & H).
    exists a, m, z. split; [reflexivity|exact H].
  - intros (a & m & z & -> & H). exists a, (m ++ z).
    split; [reflexivity|]. apply isPrefixCI_split. exists m, z.
    split; [reflexivity|exact H].
Qed.

Lemma word_boundary_adds_nothing_witness :
  Enhanced.testWord (utf16 "bored-panda.jpg") (utf16 "red") = true.
Proof.
  apply (proj2 (word_boundary_adds_nothing (utf16 "bored-panda.jpg")
                  (utf16 "red") ltac:(vm_compute; reflexivity))).
  exists (utf16 "bo"), (utf16 "red"), (utf16 "-panda.jpg").
  split; reflexivity.
Defined.

(* ================================================================== *)
(** * The order of the garment table *)
(* ================================================================== *)

Lemma insertByMaxLen_length (x : jsstring * list jsstring)
    (sorted : RuleTable) :
  List.length (Enhanced.insertByMaxLen x sorted) = S (List.length sorted).
Proof.
  induction sorted as [|y rest IH]; cbn [Enhanced.insertByMaxLen];
    [reflexivity|].
  destruct (Enhanced.maxLen (snd y) <? Enhanced.maxLen (snd x));
    cbn [List.length]; [reflexivity|]. rewrite IH. reflexivity.
Qed.

Lemma insertByMaxLen_In (x e : jsstring * list jsstring)
    (sorted : RuleTable) :
  In e (Enhanced.insertByMaxLen x sorted) <-> e = x \/ In e sorted.
Proof.
  induction sorted as [|y rest IH]; cbn [Enhanced.insertByMaxLen].
  - cbn [In]. split; intros [H|H]; auto.
  - destruct (Enhanced.maxLen (snd y) <? Enhanced.maxLen (snd x)).
    + cbn [In]. split; intros [H|[H|H]]; auto.
    + cbn [In]. rewrite IH. split; intros [H|[H|H]]; auto.
Qed.

Lemma filter_none {A : Type} (f : A -> bool) (l : list A) :
  (forall z, In z l -> f z = false) -> filter f l = [].
Proof.
  induction l as [|x t IH]; intros H; [reflexivity|].
  cbn [filter]. rewrite (H x (or_introl eq_refl)).
  apply IH. intros z Hz. apply H. right. exact Hz.
Qed.

Lemma descending_cons (x : jsstring * list jsstring) (rest : RuleTable) :
  descending (x :: rest) = true
  <-> Forall (fun y => Enhanced.maxLen (snd y) <= Enhanced.maxLen (snd x))
        rest
      /\ descending rest = true.
Proof.
  cbn [descending]. rewrite andb_true_iff, forallb_forall, Forall_forall.
  split; intros [H1 H2]; (split; [|exact H2]); intros y Hy;
    specialize (H1 y Hy); [apply Nat.leb_le|apply Nat.leb_le]; exact H1.
Qed.

Lemma insertByMaxLen_descending (x : jsstring * list jsstring)
    (sorted : RuleTable) :
  descending sorted = true ->
  descending (Enhanced.insertByMaxLen x sorted) = true.
Proof.
  induction sorted as [|y rest IH]; intros Hd;
    cbn [Enhanced.insertByMaxLen].
  - reflexivity.
  - apply descending_cons in Hd as [Hy Hrest].
    destruct (Enhanced.maxLen (snd y) <? Enhanced.maxLen (snd x)) eqn:E.
    + apply Nat.ltb_lt in E. apply descending_cons. split.
      * constructor; [lia|]. revert Hy. apply Forall_impl. intros z Hz.
        lia.
      * apply descending_cons. split; assumption.
    + apply Nat.ltb_ge in E. apply descending_cons. split; [|exact (IH Hrest)].
      apply Forall_forall. intros z Hz.
      apply insertByMaxLen_In in Hz as [->|Hz]; [exact E|].
      rewrite Forall_forall in Hy. exact (Hy z Hz).
Qed.

Lemma insertByMaxLen_filter (n : nat) (x : jsstring * list jsstring)
    (sorted : RuleTable) :
  descending sorted = true ->
  filter (fun e => Enhanced.maxLen (snd e) =? n)
    (Enhanced.insertByMaxLen x sorted)
  = filter (fun e => Enhanced.maxLen (snd e) =? n) sorted
      ++ filter (fun e => Enhanced.maxLen (snd e) =? n) [x].
Proof.
  induction sorted as [|y rest IH]; intros Hd;
    cbn [Enhanced.insertByMaxLen]; [reflexivity|].
  apply descending_cons in Hd as [Hy Hrest].
  destruct (Enhanced.maxLen (snd y) <? Enhanced.maxLen (snd x)) eqn:E.
  - apply Nat.ltb_lt in E.
    change (x :: y :: rest) with ([x] ++ y :: rest). rewrite filter_app.
    cbn [filter]. destruct (Enhanced.maxLen (snd x) =? n) eqn:En;
      [|rewrite List.app_nil_r; reflexivity].
    apply Nat.eqb_eq in En.
    assert (Hnone : filter (fun e => Enhanced.maxLen (snd e) =? n)
                      (y :: rest) = []).
    { apply filter_none. intros z Hz.
      apply Nat.eqb_neq. destruct Hz as [<-|Hz]; [lia|].
      rewrite Forall_forall in Hy. specialize (Hy z Hz). lia. }
    cbn [filter] in Hnone. rewrite Hnone. reflexivity.
  - cbn [filter]. rewrite (IH Hrest).
    destruct (Enhanced.maxLen (snd y) =? n); reflexivity.
Qed.

Lemma sortByMaxLen_from (entries : RuleTable) :
  forall acc : RuleTable,
    descending acc = true ->
    let sorted :=
      fold_left (fun sorted x => Enhanced.insertByMaxLen x sorted) entries
        acc in
    descending sorted = true
    /\ List.length sorted = List.length acc + List.length entries
    /\ (forall e, In e sorted <-> In e acc \/ In e entries)
    /\ (forall n,
          filter (fun e => Enhanced.maxLen (snd e) =? n) sorted
          = filter (fun e => Enhanced.maxLen (snd e) =? n) acc
              ++ filter (fun e => Enhanced.maxLen (snd e) =? n) entries).
Proof.
  induction entries as [|x rest IH]; intros acc Hd; cbv zeta;
    cbn [fold_left].
  - split; [exact Hd|]. split; [cbn [List.length]; lia|].
    split; [intros e; cbn [In]; tauto|].
    intros n. cbn [filter]. rewrite List.app_nil_r. reflexivity.
  - destruct (IH (Enhanced.insertByMaxLen x acc)
                (insertByMaxLen_descending x acc Hd))
      as (H1 & H2 & H3 & H4).
    split; [exact H1|]. split.
    + rewrite H2, insertByMaxLen_length. cbn [List.length]. lia.
    + split.
      * intros e. rewrite H3, insertByMaxLen_In. cbn [In]. split.
        -- intros [[->|H]|H]; auto.
        -- intros [H|[<-|H]]; auto.
      * intros n. rewrite H4, (insertByMaxLen_filter n x acc Hd).
        rewrite <- List.app_assoc, <- filter_app. reflexivity.
Qed.

(** X29. The garment table is tried longest pattern first, and otherwise
    in the order it is written: for a table in which every entry has a
    pattern, the sorted entries are the entries of the table (none lost,
    none added), an entry never comes after one whose longest pattern is
    shorter, and entries whose longest patterns are equally long keep
    their order. *)
Theorem garments_longest_first (entries : RuleTable) :
  Forall (fun e => snd e <> []) entries ->
  let sorted := Enhanced.sortByMaxLen entries in
  descending sorted = true
  /\ List.length sorted = List.length entries
  /\ (forall e, In e sorted <-> In e entries)
  /\ (forall n,
        filter (fun e => Enhanced.maxLen (snd e) =? n) sorted
        = filter (fun e => Enhanced.maxLen (snd e) =? n) entries).
Proof.
  intros _. cbv zeta. unfold Enhanced.sortByMaxLen.
  destruct (sortByMaxLen_from entries [] eq_refl) as (H1 & H2 & H3 & H4).
  split; [exact H1|]. split; [exact H2|]. split.
  - intros e. rewrite H3. cbn [In]. tauto.
  - exact H4.
Qed.

Lemma garments_longest_first_witness :
  descending (Enhanced.sortByMaxLen Enhanced.clothing) = true.
Proof.
  refine (proj1 (garments_longest_first Enhanced.clothing _)).
  apply Forall_forall. intros e He Hn.
  assert (H : forallb (fun e => negb (Nat.eqb (List.length (snd e)) 0))
                Enhanced.clothing = true) by (vm_compute; reflexivity).
  rewrite forallb_forall in H. specialize (H e He). rewrite Hn in H.
  discriminate H.
Defined.

(* ================================================================== *)
(** * The component in time: what every continuation keeps *)
(* ================================================================== *)

Lemma counted_refl (st : AppState) : counted st st.
Proof. left. split; reflexivity. Qed.

Lemma counted_same (st st1 st2 : AppState) :
  totalProcessedCount st1 = totalProcessedCount st ->
  persistedTotal st1 = persistedTotal st ->
  counted st1 st2 -> counted st st2.
Proof. unfold counted. intros <- <- H. exact H. Qed.

Lemma counted_then (st st1 st2 : AppState) :
  counted st st1 ->
  totalProcessedCount st2 = totalProcessedCount st1 ->
  persistedTotal st2 = persistedTotal st1 ->
  counted st st2.
Proof. unfold counted. intros H -> ->. exact H. Qed.

Lemma batchEnd_cells (closure : AppState) (results : list ProcessedImage)
    (st : AppState) :
  files (batchEnd closure results st) = files st
  /\ processed (batchEnd closure results st) = results
  /\ counted st (batchEnd closure results st).
Proof.
  unfold batchEnd, counted.
  destruct results as [|r rest];
    cbn [files processed totalProcessedCount persistedTotal
         addTotalProcessed setMessage setIsProcessing setProcessed
         List.length];
    repeat split; try reflexivity.
  - left. split; reflexivity.
  - right. split; [lia|reflexivity].
Qed.

Lemma updateById_rows (target : jsstring)
    (change : InputImage -> InputImage) (st : AppState) :
  (forall f, id (change f) = id f /\ file (change f) = file f) ->
  map core (files (setFiles (updateById target change) st))
  = map core (files st).
Proof. intros H. cbn [files setFiles]. apply updateById_core. exact H. Qed.

Lemma batchLoop_cells (closure : AppState) (todo : list InputImage) :
  forall (i : nat) (results : list ProcessedImage) (st : AppState),
    map core (files (fst (batchLoop closure todo i results st)))
    = map core (files st)
    /\ counted st (fst (batchLoop closure todo i results st)).
Proof.
  induction todo as [|input rest IH]; intros i results st;
    cbn [batchLoop].
  - cbn [fst]. destruct (batchEnd_cells closure results st) as (Hf & _ & Hc).
    rewrite Hf. split; [reflexivity|exact Hc].
  - destruct (isBlank (keywordFor input (keyword closure))).
    + match goal with
      | |- context [batchLoop closure rest (S i) results ?s] =>
          destruct (IH (S i) results s) as [Hf Hc]
      end.
      rewrite Hf. split.
      * apply updateById_rows. intros f. split; reflexivity.
      * eapply counted_same; [| |exact Hc]; reflexivity.
    + cbn [fst]. split; [|left; split; reflexivity].
      apply updateById_rows. intros f. split; reflexivity.
Qed.

Section Continuations.

Context {cf : CaseFolding}.
Variable B : Browser.

Lemma batchResume_cells (closure : AppState) (i : nat)
    (results : list ProcessedImage) (st : AppState) :
  map core (files (fst (batchResume B closure i results st)))
  = map core (files st)
  /\ counted st (fst (batchResume B closure i results st)).
Proof.
  unfold batchResume.
  destruct (skipn i (files closure)) as [|input rest];
    [split; [reflexivity|apply counted_refl]|].
  destruct (processSingleImage B input _ _ i) as [result|];
    match goal with
    | |- context [batchLoop closure rest (S i) ?r ?s] =>
        destruct (batchLoop_cells closure rest (S i) r s) as [Hf Hc]
    end;
    (split;
     [rewrite Hf; apply updateById_rows; intros f; split; reflexivity
     |eapply counted_same; [| |exact Hc]; reflexivity]).
Qed.

Lemma batchStart_cells (closure st : AppState) :
  map core (files (fst (batchStart closure st))) = map core (files st)
  /\ counted st (fst (batchStart closure st)).
Proof.
  unfold batchStart.
  destruct (files closure) as [|f0 rest0] eqn:Hfiles;
    [split; [reflexivity|apply counted_refl]|].
  destruct (isBlank (keyword closure));
    [split; [reflexivity|apply counted_refl]|].
  rewrite <- Hfiles.
  match goal with
  | |- context [batchLoop closure (files closure) 0 [] ?s] =>
      destruct (batchLoop_cells closure (files closure) 0 [] s) as [Hf Hc];
      destruct (batchLoop closure (files closure) 0 [] s) as [st5 t]
  end.
  cbn [fst] in *.
  destruct (revokeDownloadUrls_frame (processed closure)
              (setMessage (Some (messageProcessing (lang closure)))
                 (setIsProcessing true st)))
    as (_ & Hrf & _ & _ & _ & _ & _ & Hrc & _ & _ & Hrp & _).
  cbv zeta in Hrf, Hrc, Hrp.
  split.
  - rewrite Hf. cbn [files setFiles]. rewrite Hrf.
    cbn [files setMessage setIsProcessing]. rewrite map_map.
    apply map_ext. reflexivity.
  - eapply counted_same; [| |exact Hc];
      cbn [totalProcessedCount persistedTotal setFiles];
      [rewrite Hrc|rewrite Hrp]; reflexivity.
Qed.

Lemma reprocessStart_cells (closure : AppState) (imageId : jsstring)
    (st : AppState) :
  map core (files (fst (reprocessStart closure imageId st)))
  = map core (files st)
  /\ counted st (fst (reprocessStart closure imageId st)).
Proof.
  unfold reprocessStart.
  destruct (find _ (files closure)) as [image|];
    [|split; [reflexivity|apply counted_refl]].
  destruct (isBlank _); [split; [reflexivity|left; split; reflexivity]|].
  cbn [fst].
  destruct (find _ (processed closure)); split;
    try (left; split; reflexivity);
    cbn [files setFiles revokeObjectURL]; apply updateById_core;
    intros f; split; reflexivity.
Qed.

Lemma reprocessResume_cells (closure : AppState) (imageId : jsstring)
    (st : AppState) :
  map core (files (fst (reprocessResume B closure imageId st)))
  = map core (files st)
  /\ counted st (fst (reprocessResume B closure imageId st)).
Proof.
  unfold reprocessResume.
  destruct (find _ (files closure)) as [image|];
    [|split; [reflexivity|apply counted_refl]].
  destruct (processSingleImage B image _ _ _) as [result|]; cbn [fst];
    (split;
     [cbn [files setFiles setProcessed addTotalProcessed setMessage];
      apply updateById_core; intros f; split; reflexivity|]).
  - right.
    cbn [totalProcessedCount persistedTotal addTotalProcessed setProcessed
         setFiles].
    split; [lia|reflexivity].
  - left. split; reflexivity.
Qed.

Lemma geoAnswer_cells (countries : list jsstring)
    (toUpperCase : jsstring -> jsstring) (cancelled : bool)
    (data : CountryCode) (p : LangPrefs) (st : AppState) :
  files (geoAnswer countries toUpperCase cancelled data p st) = files st
  /\ counted st (geoAnswer countries toUpperCase cancelled data p st).
Proof.
  unfold geoAnswer.
  destruct (cancelled || userSelectedLang p);
    [split; [reflexivity|apply counted_refl]|].
  destruct data;
    repeat match goal with
           | |- context [if ?c then _ else _] => destruct c
           end;
    split; try reflexivity; apply counted_refl || (left; split; reflexivity).
Qed.

(** Whatever continuation comes due, the rows keep their ids and files,
    and the lifetime count and its stored copy go on together. *)
Lemma advance_cells (p : LangPrefs) (t : Task) (st : AppState) :
  map core (files (fst (advance B p t st))) = map core (files st)
  /\ counted st (fst (advance B p t st)).
Proof.
  destruct t; cbn [advance].
  - apply batchResume_cells.
  - cbn [fst]. split; [|left; split; reflexivity].
    unfold clearProgress. cbn [files setFiles]. rewrite map_map.
    apply map_ext. reflexivity.
  - apply reprocessStart_cells.
  - apply reprocessResume_cells.
  - cbn [fst]. split; [|left; split; reflexivity].
    unfold clearProgressOf. apply updateById_rows.
    intros f. split; reflexivity.
  - cbn [fst]. split; [|left; split; reflexivity].
    unfold aiAnswer. cbn [files setAiCompletedItemIds].
    apply updateById_rows. intros f. split; reflexivity.
  - cbn [fst]. split; [reflexivity|left; split; reflexivity].
  - cbn [fst]. destruct (geoAnswer_cells zhCountries toUpperCase cancelled
                           data p st) as [Hf Hc].
    rewrite Hf. split; [reflexivity|exact Hc].
  - cbn [fst]. split; [reflexivity|apply counted_refl].
Qed.

Lemma progressTick_rows (imageId : jsstring) (st : AppState) :
  map core (files (progressTick imageId st)) = map core (files st).
Proof.
  unfold progressTick. cbn [files setFiles]. rewrite map_map.
  apply map_ext. intros f.
  destruct (isProcessing f) as [[|]|]; try reflexivity.
  destruct (processingProgress f); try reflexivity.
  destruct (JS.eqb (id f) imageId); reflexivity.
Qed.

Lemma commitEditor_cells (m : Component) :
  map core (files (cells (commitEditor m))) = map core (files (cells m))
  /\ counted (cells m) (cells (commitEditor m)).
Proof.
  unfold commitEditor.
  destruct (editingItemId (ui m)) as [itemId|];
    [|split; [reflexivity|apply counted_refl]].
  destruct (rowOf (cells m) itemId) as [item|];
    [|split; [reflexivity|apply counted_refl]].
  destruct (matched (cells m) (id item));
    cbn [cells later setUi setCells]; unfold commitKeywordEdit;
    (split; [apply updateById_rows; intros f; split; reflexivity
            |left; split; reflexivity]).
Qed.

(** Every event but a submission, a deletion and Clear leaves the rows
    as they are. *)
Lemma react_rows (m : Component) (e : Event) :
  keepsRows e = true ->
  map core (files (cells (react B m e))) = map core (files (cells m)).
Proof.
  intros Hk. destruct e; try discriminate Hk; cbn [react].
  - reflexivity.
  - reflexivity.
  - destruct (hasProcessedImages (cells m)).
    + unfold downloadZip. destruct (processed (cells m)); reflexivity.
    + pose proof (proj1 (batchStart_cells (cells m) (cells m))) as Hf.
      destruct (batchStart (cells m) (cells m)) as [st' [t|]];
        cbn [fst] in Hf; exact Hf.
  - reflexivity.
  - reflexivity.
  - destruct (editingItemId (withHovered None (ui m))) as [editing|];
      [destruct (JS.eqb editing itemId)|]; reflexivity.
  - destruct (rowOf (cells m) itemId); reflexivity.
  - reflexivity.
  - apply commitEditor_cells.
  - reflexivity.
  - apply commitEditor_cells.
  - unfold handleSingleImageAiDetect.
    destruct (rowOf (cells m) itemId); reflexivity.
  - destruct (nth_error (pending m) n) as [t|]; [|reflexivity].
    pose proof (proj1 (advance_cells (prefs m) t (cells m))) as Hf.
    destruct (advance B (prefs m) t (cells m)) as [st' t']. exact Hf.
  - destruct (nth_error (pending m) n) as [[]|]; try reflexivity.
    apply progressTick_rows.
Qed.

Lemma react_capacity (m : Component) (e : Event) :
  List.length (files (cells m)) <= MAX_FILES ->
  List.length (files (cells (react B m e))) <= MAX_FILES.
Proof.
  intros Hle. destruct (keepsRows e) eqn:Hk.
  - pose proof (react_rows m e Hk) as E.
    apply (f_equal (@List.length _)) in E. rewrite !length_map in E. lia.
  - destruct e; try discriminate Hk; cbn [react cells setCells].
    + destruct (handleFiles_files (fromCall (randomCalls m) B) fileList
                  (cells m) Hle) as (mapped & -> & Hm).
      rewrite length_app. exact Hm.
    + destruct (handleClear_files (cells m)) as [-> _]. cbn. lia.
    + rewrite deleteSingleImage_files.
      pose proof (filter_length_le
                    (fun f => negb (JS.eqb (id f) itemId))
                    (files (cells m))).
      lia.
Qed.

Lemma handleFiles_count (B0 : Browser) (fileList : option (list File))
    (st : AppState) :
  counted st (handleFiles B0 fileList st).
Proof.
  left. unfold handleFiles.
  destruct fileList as [fileList|]; [|split; reflexivity].
  destruct (filter _ fileList); [split; reflexivity|].
  cbn [totalProcessedCount persistedTotal setProcessed setFiles].
  match goal with
  | |- context [if ?c then _ else _] => destruct c
  end; split; reflexivity.
Qed.

Lemma deleteSingleImage_count (imageId : jsstring) (st : AppState) :
  counted st (deleteSingleImage imageId st).
Proof.
  left. unfold deleteSingleImage.
  cbn [totalProcessedCount persistedTotal setAiCompletedItemIds
       setProcessed].
  match goal with
  | |- context [match ?x with Some _ => _ | None => _ end] => destruct x
  end;
    cbn [totalProcessedCount persistedTotal revokeObjectURL setFiles];
    destruct (find _ (files st)); split; reflexivity.
Qed.

Lemma react_count (m : Component) (e : Event) :
  counted (cells m) (cells (react B m e)).
Proof.
  destruct e; cbn [react cells setCells later setUi];
    try (left; split; reflexivity).
  - apply handleFiles_count.
  - destruct (hasProcessedImages (cells m)).
    + unfold downloadZip. destruct (processed (cells m)); apply counted_refl.
    + pose proof (proj2 (batchStart_cells (cells m) (cells m))) as Hc.
      destruct (batchStart (cells m) (cells m)) as [st' [t|]];
        cbn [fst] in Hc; exact Hc.
  - left. apply handleClear_cells.
  - destruct (editingItemId (withHovered None (ui m))) as [editing|];
      [destruct (JS.eqb editing itemId)|]; apply counted_refl.
  - destruct (rowOf (cells m) itemId); apply counted_refl.
  - apply commitEditor_cells.
  - apply commitEditor_cells.
  - unfold handleSingleImageAiDetect.
    destruct (rowOf (cells m) itemId); [left; split; reflexivity|].
    apply counted_refl.
  - apply deleteSingleImage_count.
  - destruct (nth_error (pending m) n) as [t|]; [|apply counted_refl].
    pose proof (proj2 (advance_cells (prefs m) t (cells m))) as Hc.
    destruct (advance B (prefs m) t (cells m)) as [st' t']. exact Hc.
  - destruct (nth_error (pending m) n) as [[]|]; try apply counted_refl.
    left. split; reflexivity.
Qed.

End Continuations.

(* ================================================================== *)
(** * The sequence index in time *)
(* ================================================================== *)

Lemma skipn_cons_next {A : Type} (l : list A) :
  forall (i : nat) (x : A) (rest : list A),
    skipn i l = x :: rest ->
    firstn (S i) l = firstn i l ++ [x]
    /\ skipn (S i) l = rest
    /\ nth_error l i = Some x
    /\ List.length (firstn i l) = i.
Proof.
  induction l as [|y t IH]; intros i x rest H.
  - destruct i; discriminate H.
  - destruct i as [|i].
    + cbn in H. injection H as -> ->. repeat split.
    + cbn [skipn] in H. destruct (IH i x rest H) as (H1 & H2 & H3 & H4).
      cbn [firstn app skipn nth_error List.length].
      rewrite <- H1. repeat split; try assumption. rewrite H4. reflexivity.
Qed.

Lemma nth_error_skipn_cons {A : Type} (l : list A) :
  forall (i : nat) (x : A),
    nth_error l i = Some x -> exists rest, skipn i l = x :: rest.
Proof.
  induction l as [|y t IH]; intros i x H.
  - destruct i; discriminate H.
  - destruct i as [|i].
    + cbn in H. injection H as ->. exists t. reflexivity.
    + cbn [skipn]. apply IH. exact H.
Qed.

Section Positions.

Context {cf : CaseFolding}.
Variable B : Browser.

(** The results of the first [i + 1] images, from those of the first
    [i]. *)
Lemma batchResults_next (closure : AppState) (i : nat) (input : InputImage)
    (rest : list InputImage) :
  skipn i (files closure) = input :: rest ->
  Spec.batchResults B (keyword closure) (isSquare closure) 0
    (firstn (S i) (files closure))
  = Spec.batchResults B (keyword closure) (isSquare closure) 0
      (firstn i (files closure))
      ++ Spec.contribution B (keyword closure) (isSquare closure) i input.
Proof.
  intros Hskip.
  destruct (skipn_cons_next _ _ _ _ Hskip) as (Hfirst & _ & _ & Hlen).
  rewrite Hfirst, batchResults_app, Hlen. cbn [Spec.batchResults Nat.add].
  rewrite List.app_nil_r. reflexivity.
Qed.

Lemma batchLoop_named (closure : AppState) (todo : list InputImage) :
  forall (i : nat) (results : list ProcessedImage) (st : AppState),
    skipn i (files closure) = todo ->
    results
    = Spec.batchResults B (keyword closure) (isSquare closure) 0
        (firstn i (files closure)) ->
    namedByPosition B closure (snd (batchLoop closure todo i results st))
      (fst (batchLoop closure todo i results st)).
Proof.
  induction todo as [|input rest IH]; intros i results st Hskip Hres;
    cbn [batchLoop].
  - cbn [fst snd namedByPosition].
    rewrite (proj1 (proj2 (batchEnd_cells closure results st))), Hres.
    rewrite <- (firstn_skipn i (files closure)) at 2.
    rewrite Hskip, List.app_nil_r. reflexivity.
  - destruct (skipn_cons_next _ _ _ _ Hskip) as (_ & Hnext & Hnth & _).
    destruct (isBlank (keywordFor input (keyword closure))) eqn:Hblank.
    + apply IH; [exact Hnext|].
      rewrite (batchResults_next closure i input rest Hskip).
      unfold Spec.contribution. rewrite Hblank, List.app_nil_r. exact Hres.
    + cbn [fst snd namedByPosition]. split; [reflexivity|].
      split; [|exact Hres]. exists input. split; assumption.
Qed.

(** A batch run that names by position goes on doing so when the pipeline
    answers, whatever the cells are by then. *)
Lemma batchResume_named (closure : AppState) (i : nat)
    (results : list ProcessedImage) (st0 st : AppState) :
  namedByPosition B closure (batchAwaits closure i results) st0 ->
  namedByPosition B closure (snd (batchResume B closure i results st))
    (fst (batchResume B closure i results st)).
Proof.
  cbn [namedByPosition]. intros (_ & (input & Hnth & Hblank) & Hres).
  destruct (nth_error_skipn_cons _ _ _ Hnth) as [rest Hskip].
  destruct (skipn_cons_next _ _ _ _ Hskip) as (_ & Hnext & _ & _).
  unfold batchResume. rewrite Hskip.
  pose proof (batchResults_next closure i input rest Hskip) as Hstep.
  unfold Spec.contribution in Hstep. rewrite Hblank in Hstep.
  destruct (processSingleImage B input _ _ i) as [result|];
    apply batchLoop_named; try exact Hnext; rewrite Hstep, <- Hres;
    [reflexivity|symmetry; apply List.app_nil_r].
Qed.

Lemma batchStart_named (closure st st' : AppState) (t : Task) :
  batchStart closure st = (st', Some t) -> namedByPosition B closure t st'.
Proof.
  unfold batchStart.
  destruct (files closure) as [|f0 rest0] eqn:Hfiles; [discriminate|].
  destruct (isBlank (keyword closure)); [discriminate|].
  rewrite <- Hfiles.
  match goal with
  | |- context [batchLoop closure (files closure) 0 [] ?s] =>
      pose proof (batchLoop_named closure (files closure) 0 [] s
                    eq_refl eq_refl) as Hn;
      destruct (batchLoop closure (files closure) 0 [] s) as [st5 t5]
  end.
  intros E. injection E as <- <-. exact Hn.
Qed.

(** The names of a batch run, by position in the list it captured. *)
Lemma batchResults_names_by_position (closure : AppState)
    (r : ProcessedImage) :
  In r (Spec.batchResults B (keyword closure) (isSquare closure) 0
          (files closure)) ->
  exists (i : nat) (input : InputImage),
    nth_error (files closure) i = Some input
    /\ p_id r = id input
    /\ seoName r
       = Spec.name (keywordFor input (keyword closure)) (i + 1)
           (originalTypeOf input).
Proof.
  intros Hin.
  apply (batchResults_In B (keyword closure) (isSquare closure)) in Hin.
  destruct Hin as (i & input & Hnth & _ & Hr).
  exists i, input. split; [exact Hnth|].
  destruct (processSingleImage_fields _ _ _ _ _ _ Hr)
    as (ob & _ & _ & Hname & _ & _ & _ & Hid & _).
  split; [exact Hid|exact Hname].
Qed.

(** A reprocess names by the position in the list it captured. *)
Lemma reprocessResume_named (closure : AppState) (imageId : jsstring)
    (st : AppState) (image : InputImage) (r : ProcessedImage) :
  find (fun f => JS.eqb (id f) imageId) (files closure) = Some image ->
  processSingleImage B image (keywordFor image (keyword closure))
    (forceSquareFor image (isSquare closure))
    (Z.to_nat (findIndex imageId (files closure))) = Some r ->
  snd (reprocessResume B closure imageId st) = progressTimeout imageId
  /\ processed (fst (reprocessResume B closure imageId st))
     = filter (fun p => negb (JS.eqb (p_id p) imageId)) (processed st) ++ [r]
  /\ seoName r
     = Spec.name (keywordFor image (keyword closure))
         (Z.to_nat (findIndex imageId (files closure)) + 1)
         (originalTypeOf image).
Proof.
  intros Hfind Hr. unfold reprocessResume. rewrite Hfind, Hr.
  cbn [fst snd processed addTotalProcessed setProcessed setFiles].
  repeat split.
  destruct (processSingleImage_fields _ _ _ _ _ _ Hr)
    as (ob & _ & _ & Hname & _). exact Hname.
Qed.

Lemma Forall_replaceAt {A : Type} (P : A -> Prop) (x : A) (l : list A) :
  forall n : nat, Forall P l -> P x -> Forall P (replaceAt n x l).
Proof.
  induction l as [|y t IH]; intros n Hl Hx; [destruct n; constructor|].
  inversion Hl as [|y0 t0 Hy Ht]; subst.
  destruct n as [|n]; cbn [replaceAt]; constructor; auto.
Qed.

Lemma namedTask_any (t : Task) (st st' : AppState) :
  namedTask B t st -> namedTask B t st'.
Proof. destruct t; intros H; exact H. Qed.

Lemma named_pending (m m' : Component) :
  pending m' = pending m -> batchesNamed B m -> batchesNamed B m'.
Proof.
  unfold batchesNamed. intros -> H.
  eapply Forall_impl; [|exact H]. intros t Ht.
  exact (namedTask_any t _ _ Ht).
Qed.

Lemma named_later (m m' : Component) (t : Task) :
  pending m' = pending m ++ [t] -> batchesNamed B m ->
  namedTask B t (cells m') -> batchesNamed B m'.
Proof.
  unfold batchesNamed. intros -> H Ht. apply Forall_app. split.
  - eapply Forall_impl; [|exact H]. intros t0 Ht0.
    exact (namedTask_any t0 _ _ Ht0).
  - constructor; [exact Ht|constructor].
Qed.

Lemma named_replace (m m' : Component) (n : nat) (t : Task) :
  pending m' = replaceAt n t (pending m) -> batchesNamed B m ->
  namedTask B t (cells m') -> batchesNamed B m'.
Proof.
  unfold batchesNamed. intros -> H Ht. apply Forall_replaceAt; [|exact Ht].
  eapply Forall_impl; [|exact H]. intros t0 Ht0.
  exact (namedTask_any t0 _ _ Ht0).
Qed.

Lemma advance_named (p : LangPrefs) (t : Task) (st st0 : AppState) :
  namedTask B t st0 ->
  namedTask B (snd (advance B p t st)) (fst (advance B p t st)).
Proof.
  intros H. destruct t; cbn [advance]; try exact I.
  - pose proof (batchResume_named closure i results st0 st H) as Hnext.
    destruct (batchResume B closure i results st) as [st' t'].
    cbn [fst snd] in *. destruct t'; try exact I.
    cbn [namedTask namedByPosition] in Hnext |- *.
    destruct Hnext as (-> & Hnext). split; [reflexivity|exact Hnext].
  - unfold reprocessStart.
    destruct (find _ (files closure)); [|exact I].
    destruct (isBlank _); exact I.
  - unfold reprocessResume.
    destruct (find _ (files closure)); [|exact I].
    destruct (processSingleImage B _ _ _ _); exact I.
Qed.

(** Whatever happens to the component, every pending batch run names by
    position in the list it captured when it was started. *)
Lemma react_batchesNamed (m : Component) (e : Event) :
  batchesNamed B m -> batchesNamed B (react B m e).
Proof.
  intros H.
  destruct e; cbn [react];
    try (apply (named_pending m); [reflexivity|exact H]).
  - destruct (hasProcessedImages (cells m)).
    + unfold downloadZip. destruct (processed (cells m)); [exact H|].
      apply (named_later m _ (zipAwaits zip)); [reflexivity|exact H|exact I].
    + destruct (batchStart (cells m) (cells m)) as [st' [t|]] eqn:Hs;
        [|apply (named_pending m); [reflexivity|exact H]].
      apply (named_later m _ t); [reflexivity|exact H|].
      pose proof (batchStart_named _ _ _ _ Hs) as Hn.
      destruct t; try exact I. cbn [namedTask namedByPosition] in Hn |- *.
      destruct Hn as (-> & Hn). split; [reflexivity|exact Hn].
  - destruct (editingItemId (withHovered None (ui m))) as [editing|];
      [destruct (JS.eqb editing itemId)|];
      apply (named_pending m); try reflexivity; exact H.
  - destruct (rowOf (cells m) itemId);
      apply (named_pending m); try reflexivity; exact H.
  - unfold commitEditor.
    destruct (editingItemId (ui m)) as [itemId|]; [|exact H].
    destruct (rowOf (cells m) itemId) as [item|]; [|exact H].
    destruct (matched (cells m) (id item));
      [|apply (named_pending m); [reflexivity|exact H]].
    eapply (named_later m); [reflexivity|exact H|exact I].
  - unfold commitEditor.
    destruct (editingItemId (ui m)) as [itemId|]; [|exact H].
    destruct (rowOf (cells m) itemId) as [item|]; [|exact H].
    destruct (matched (cells m) (id item));
      [|apply (named_pending m); [reflexivity|exact H]].
    eapply (named_later m); [reflexivity|exact H|exact I].
  - unfold handleSingleImageAiDetect.
    destruct (rowOf (cells m) itemId); [|exact H].
    eapply (named_later m); [reflexivity|exact H|exact I].
  - destruct (nth_error (pending m) n) as [t|] eqn:Hn; [|exact H].
    pose proof (advance_named (prefs m) t (cells m) (cells m)) as Hnext.
    destruct (advance B (prefs m) t (cells m)) as [st' t'] eqn:Ha.
    apply (named_replace m _ n t'); [reflexivity|exact H|].
    apply Hnext.
    unfold batchesNamed in H. rewrite Forall_forall in H.
    exact (H t (nth_error_In _ _ Hn)).
  - destruct (nth_error (pending m) n) as [[]|];
      apply (named_pending m); try reflexivity; exact H.
Qed.

Lemma handleFiles_appends (B0 : Browser) (fileList : option (list File))
    (st : AppState) :
  exists mapped, files (handleFiles B0 fileList st) = files st ++ mapped.
Proof.
  unfold handleFiles.
  destruct fileList as [fileList|];
    [|exists []; symmetry; apply List.app_nil_r].
  destruct (filter _ fileList);
    [exists []; symmetry; apply List.app_nil_r|].
  eexists. cbn [files setProcessed setFiles].
  match goal with
  | |- context [if ?c then _ else _] => destruct c
  end; reflexivity.
Qed.

Lemma findIndexFrom_app (imageId : jsstring) (l l' : list InputImage) :
  In imageId (map id l) ->
  forall i, findIndexFrom imageId (l ++ l') i = findIndexFrom imageId l i.
Proof.
  induction l as [|f t IH]; intros Hin i; [destruct Hin|].
  cbn [app findIndexFrom]. destruct (JS.eqb (id f) imageId) eqn:E;
    [reflexivity|].
  apply IH. destruct Hin as [Hin|Hin]; [|exact Hin].
  cbn in Hin. subst imageId. rewrite jseqb_refl in E. discriminate.
Qed.

End Positions.

(* ================================================================== *)
(** * The sequence index, event by event *)
(* ================================================================== *)

Lemma run_batchesNamed {cf : CaseFolding} (B : Browser)
    (events : list Event) :
  forall m : Component, batchesNamed B m -> batchesNamed B (run B events m).
Proof.
  unfold run. induction events as [|e rest IH]; intros m H; [exact H|].
  cbn [fold_left]. apply IH, react_batchesNamed, H.
Qed.

Lemma core_ids (l l' : list InputImage) :
  map core l' = map core l -> map id l' = map id l.
Proof.
  intros E. apply (f_equal (map fst)) in E. rewrite !map_map in E. exact E.
Qed.

(** The claim as stated fails.  Three images are submitted and the first
    is deleted before the run: the image that was third in is named with
    index 2.  And in a run over three images of which the first fails and
    is deleted while the run goes on, the second image is named with index
    2 by the run, which numbers by the list it was started with, and with
    index 1 when it is reprocessed after the run. *)
Lemma index_changes_after_delete :
  let names (m : option Component) :=
    option_map
      (fun m => map (fun p => (originalName p, seoName p))
                  (processed (cells m))) m in
  names (@play asciiFolding Demo.shrinking Session.deleteThenRun
           Session.start)
  = Some [(utf16 "b.png", utf16 "summer-silk-dress-01.png");
          (utf16 "c.webp", utf16 "summer-silk-dress-02.webp")]
  /\ names (@play asciiFolding Demo.shrinking Session.editDuringRun
              Session.start)
     = Some [(utf16 "b.png", utf16 "summer-silk-dress-02.png");
             (utf16 "c.webp", utf16 "summer-silk-dress-03.webp")]
  /\ names (@play asciiFolding Demo.shrinking
              (Session.editDuringRun ++ Session.thenCommit) Session.start)
     = Some [(utf16 "c.webp", utf16 "summer-silk-dress-03.webp");
             (utf16 "b.png", utf16 "summer-silk-dress-01.png")].
Proof. vm_compute. repeat split; reflexivity. Qed.

(** C5 (amended). The index in an output name is the image's 1-based
    position in the list of images that the naming handler captured.  A
    batch run captures the cells of the moment the main button is
    clicked: while it waits for the image at position [i] its results are
    those of the images before [i] of that list, each under its own
    position, whatever events come in between, and it ends by storing the
    results of that whole list.  A reprocess is the [compressSingleImage]
    of the render in which the keyword editor was committed, called by a
    timer 300 ms later: it names the image with one more than its
    [findIndex] in the list of that render.  No original index is stored.
    A position is unchanged by every event but a submission, a deletion
    and Clear; a submission appends, so the images present keep theirs;
    deleting a later image keeps it and deleting an earlier image lowers
    it by one, for the handlers created afterwards. *)
Theorem sequence_index_is_captured_position (cf : CaseFolding)
    (B : Browser) :
  (forall (m : Component) (zip : Blob) (st' : AppState) (t : Task),
      hasProcessedImages (cells m) = false ->
      batchStart (cells m) (cells m) = (st', Some t) ->
      pending (react B m (clickMain zip)) = pending m ++ [t]
      /\ namedByPosition B (cells m) t st')
  /\ (forall (m : Component) (itemId : jsstring) (item : InputImage)
             (old : ProcessedImage),
        editingItemId (ui m) = Some itemId ->
        rowOf (cells m) itemId = Some item ->
        matched (cells m) (id item) = Some old ->
        pending (react B m pressEnter)
        = pending m ++ [reprocessTimeout (cells m) (id item)]
        /\ pending (react B m blur)
           = pending m ++ [reprocessTimeout (cells m) (id item)])
  /\ (forall (events : list Event) (m : Component),
        batchesNamed B m -> batchesNamed B (run B events m))
  /\ (forall (closure : AppState) (i : nat) (results : list ProcessedImage)
             (st0 st : AppState),
        namedByPosition B closure (batchAwaits closure i results) st0 ->
        namedByPosition B closure
          (snd (batchResume B closure i results st))
          (fst (batchResume B closure i results st)))
  /\ (forall (closure : AppState) (r : ProcessedImage),
        In r (Spec.batchResults B (keyword closure) (isSquare closure) 0
                (files closure)) ->
        exists (i : nat) (input : InputImage),
          nth_error (files closure) i = Some input
          /\ p_id r = id input
          /\ seoName r
             = Spec.name (keywordFor input (keyword closure)) (i + 1)
                 (originalTypeOf input))
  /\ (forall (closure : AppState) (imageId : jsstring) (st1 st2 : AppState)
             (image : InputImage) (r : ProcessedImage),
        find (fun f => JS.eqb (id f) imageId) (files closure) = Some image ->
        isBlank (keywordFor image (keyword closure)) = false ->
        processSingleImage B image (keywordFor image (keyword closure))
          (forceSquareFor image (isSquare closure))
          (Z.to_nat (findIndex imageId (files closure))) = Some r ->
        snd (reprocessStart closure imageId st1)
        = reprocessAwaits closure imageId
        /\ processed (fst (reprocessResume B closure imageId st2))
           = filter (fun p => negb (JS.eqb (p_id p) imageId)) (processed st2)
               ++ [r]
        /\ seoName r
           = Spec.name (keywordFor image (keyword closure))
               (Z.to_nat (findIndex imageId (files closure)) + 1)
               (originalTypeOf image))
  /\ (forall (m : Component) (e : Event) (imageId : jsstring),
        keepsRows e = true ->
        findIndex imageId (files (cells (react B m e)))
        = findIndex imageId (files (cells m)))
  /\ (forall (m : Component) (fileList : option (list File))
             (imageId : jsstring),
        In imageId (map id (files (cells m))) ->
        findIndex imageId (files (cells (react B m (dropFiles fileList))))
        = findIndex imageId (files (cells m)))
  /\ (forall (m : Component) before deleted between later after,
        NoDup (map id (files (cells m))) ->
        files (cells m) = before ++ deleted :: between ++ later :: after ->
        findIndex (id later) (files (cells m))
        = Z.of_nat (List.length before + 1 + List.length between)
        /\ findIndex (id later)
             (files (cells (react B m (clickDelete (id deleted)))))
           = Z.of_nat (List.length before + List.length between)
        /\ nth_error (files (cells m))
             (List.length before + 1 + List.length between) = Some later
        /\ nth_error (files (cells (react B m (clickDelete (id deleted)))))
             (List.length before + List.length between) = Some later)
  /\ (forall (m : Component) before earlier between deleted after,
        NoDup (map id (files (cells m))) ->
        files (cells m) = before ++ earlier :: between ++ deleted :: after ->
        findIndex (id earlier)
          (files (cells (react B m (clickDelete (id deleted)))))
        = findIndex (id earlier) (files (cells m))).
Proof.
  split; [|split; [|split; [|split; [|split; [|split; [|split; [|split;
    [|split]]]]]]]].
  - intros m zip st' t Hnone Hs. cbn [react]. rewrite Hnone, Hs.
    split; [reflexivity|]. exact (batchStart_named B _ _ _ _ Hs).
  - intros m itemId item old He Hrow Hm. cbn [react]. unfold commitEditor.
    rewrite He, Hrow, Hm. split; reflexivity.
  - intros events m. apply run_batchesNamed.
  - intros closure i results st0 st. apply batchResume_named.
  - intros closure r. apply batchResults_names_by_position.
  - intros closure imageId st1 st2 image r Hfind Hblank Hr.
    split.
    + unfold reprocessStart. rewrite Hfind, Hblank. reflexivity.
    + destruct (reprocessResume_named B closure imageId st2 image r Hfind Hr)
        as (_ & Hp & Hn). split; assumption.
  - intros m e imageId Hk. apply findIndexFrom_ids, core_ids.
    apply react_rows. exact Hk.
  - intros m fileList imageId Hin. cbn [react cells].
    destruct (handleFiles_appends (fromCall (randomCalls m) B) fileList
                (cells m)) as [mapped ->].
    apply findIndexFrom_app. exact Hin.
  - intros m before deleted between later after Hnd Hsplit.
    cbn [react cells setCells].
    rewrite deleteSingleImage_files, Hsplit.
    rewrite Hsplit in Hnd.
    destruct (NoDup_ids_split before _ deleted Hnd) as [Hb Ha].
    assert (Hnd' : NoDup (map id ((before ++ deleted :: between)
                                    ++ later :: after))).
    { rewrite <- List.app_assoc. exact Hnd. }
    destruct (NoDup_ids_split _ after later Hnd') as [Hpre Hpost].
    rewrite filter_app. cbn [filter]. rewrite jseqb_refl. cbn [negb].
    rewrite (filter_other_id _ before Hb), (filter_other_id _ _ Ha).
    replace (before ++ deleted :: between ++ later :: after)
      with ((before ++ deleted :: between) ++ later :: after)
      by (rewrite <- List.app_assoc; reflexivity).
    replace (before ++ between ++ later :: after)
      with ((before ++ between) ++ later :: after)
      by (rewrite <- List.app_assoc; reflexivity).
    split; [|split; [|split]].
    + unfold findIndex.
      rewrite (findIndexFrom_at later _ after Hpre).
      rewrite length_app. cbn [List.length]. lia.
    + unfold findIndex. rewrite findIndexFrom_at.
      * rewrite length_app. lia.
      * apply Forall_app in Hpre. destruct Hpre as [H1 H2].
        apply Forall_app. split; [exact H1|]. inversion H2. assumption.
    + rewrite nth_error_app2
        by (rewrite length_app; cbn [List.length]; lia).
      rewrite length_app. cbn [List.length].
      replace (List.length before + 1 + List.length between
               - (List.length before + S (List.length between)))
        with 0 by lia.
      reflexivity.
    + rewrite nth_error_app2 by (rewrite length_app; lia).
      rewrite length_app, Nat.sub_diag. reflexivity.
  - intros m before earlier between deleted after Hnd Hsplit.
    cbn [react cells setCells].
    rewrite deleteSingleImage_files, Hsplit.
    rewrite Hsplit in Hnd.
    destruct (NoDup_ids_split before _ earlier Hnd) as [Hb Ha].
    assert (Hnd' : NoDup (map id ((before ++ earlier :: between)
                                    ++ deleted :: after))).
    { rewrite <- List.app_assoc. exact Hnd. }
    destruct (NoDup_ids_split _ after deleted Hnd') as [Hpre Hpost].
    apply Forall_app in Hpre. destruct Hpre as [H1 H2].
    inversion H2 as [|e b He Hbetween]; subst.
    rewrite filter_app. cbn [filter].
    destruct (JS.eqb (id earlier) (id deleted)) eqn:E;
      [apply jseqb_eq in E; contradiction|]. cbn [negb].
    rewrite (filter_other_id _ before H1).
    unfold findIndex. rewrite !findIndexFrom_at by exact Hb. reflexivity.
Qed.

Lemma sequence_index_is_captured_position_witness :
  @batchesNamed asciiFolding Demo.shrinking
    (@run asciiFolding Demo.shrinking Session.editDuringRun Session.start).
Proof.
  apply (proj1 (proj2 (proj2
           (sequence_index_is_captured_position asciiFolding
              Demo.shrinking)))).
  constructor.
Defined.

(* ================================================================== *)
(** * Invariants of the component in time *)
(* ================================================================== *)

(** X4. Whatever the user does and whenever the pending runs,
    reprocessings and timers come due, with whatever cells they captured,
    a batch that holds at most [MAX_FILES] images never comes to hold
    more. *)
Theorem capacity_is_invariant (cf : CaseFolding) (B : Browser)
    (events : list Event) (m : Component) :
  List.length (files (cells m)) <= MAX_FILES ->
  List.length (files (cells (run B events m))) <= MAX_FILES.
Proof.
  unfold run. revert m.
  induction events as [|e rest IH]; intros m Hle; [exact Hle|].
  cbn [fold_left]. apply IH. apply react_capacity. exact Hle.
Qed.

Lemma capacity_is_invariant_witness :
  List.length
    (files
       (cells
          (@run asciiFolding Demo.shrinking
             [dropFiles (Some Demo.twelveFiles);
              changeKeyword (utf16 "lamp"); clickMain Session.archive;
              dropFiles (Some Demo.twelveFiles); resume 0]
             Session.start))) <= MAX_FILES.
Proof.
  apply (capacity_is_invariant asciiFolding Demo.shrinking).
  cbn. unfold MAX_FILES. lia.
Defined.

(** X26. The lifetime count only grows, and local storage keeps up with
    it: whatever the user does and whenever the pending continuations
    come due, the count never decreases, and if its stored copy equals it
    at the start (after the mount effect has read it, or after any run
    that wrote it), it equals it at the end. *)
Theorem lifetime_count_is_kept (cf : CaseFolding) (B : Browser)
    (events : list Event) (m : Component) :
  totalProcessedCount (cells m)
  <= totalProcessedCount (cells (run B events m))
  /\ (persistedTotal (cells m) = Some (totalProcessedCount (cells m)) ->
      persistedTotal (cells (run B events m))
      = Some (totalProcessedCount (cells (run B events m)))).
Proof.
  unfold run. revert m.
  induction events as [|e rest IH]; intros m; cbn [fold_left];
    [split; [lia|auto]|].
  destruct (IH (react B m e)) as [Hle Hp].
  destruct (react_count B m e) as [[Hc Hs]|[Hc Hs]].
  - split; [lia|]. intros Hstart. apply Hp. rewrite Hs, Hc. exact Hstart.
  - split; [lia|]. intros _. apply Hp. exact Hs.
Qed.

(* ================================================================== *)
(** * A reprocess that comes due after Clear *)
(* ================================================================== *)

Lemma nth_error_last {A : Type} (l : list A) (x : A) :
  nth_error (l ++ [x]) (List.length l) = Some x.
Proof. induction l as [|y t IH]; [reflexivity|exact IH]. Qed.

Lemma replaceAt_last {A : Type} (l : list A) (x y : A) :
  replaceAt (List.length l) y (l ++ [x]) = l ++ [y].
Proof.
  induction l as [|z t IH]; [reflexivity|].
  cbn [List.length app replaceAt]. rewrite IH. reflexivity.
Qed.

Lemma rowOf_files (st : AppState) (itemId : jsstring) (item : InputImage) :
  rowOf st itemId = Some item -> 0 < List.length (files st).
Proof.
  unfold rowOf. destruct (files st); [discriminate|]. cbn. lia.
Qed.

(** X5. A result can outlive its image.  When the keyword editor is
    open on a row that has a result and is left (its edit is committed),
    and the user then clears the page before the 300 ms timer comes due,
    the reprocess still runs with the cells of the commit: the page ends
    with no image, no keyword and one result, that of the cleared image,
    counted in the lifetime count; the main button then offers the
    download and cannot start a run. *)
Theorem reprocess_outlives_clear (cf : CaseFolding) (B : Browser)
    (m : Component) (item : InputImage) (old r : ProcessedImage) :
  editingItemId (ui m) = Some (id item) ->
  rowOf (cells m) (id item) = Some item ->
  matched (cells m) (id item) = Some old ->
  isBlank (keywordFor item (keyword (cells m))) = false ->
  processSingleImage B item (keywordFor item (keyword (cells m)))
    (forceSquareFor item (isSquare (cells m)))
    (Z.to_nat (findIndex (id item) (files (cells m)))) = Some r ->
  exists m',
    play B [blur; clickClear; resume (List.length (pending m));
            resume (List.length (pending m))] m = Some m'
    /\ files (cells m') = []
    /\ processed (cells m') = [r]
    /\ p_id r = id item
    /\ originalName r = file_name (file item)
    /\ keyword (cells m') = []
    /\ hasProcessedImages (cells m') = true
    /\ canProcess (cells m') = false
    /\ totalProcessedCount (cells m') = totalProcessedCount (cells m) + 1.
Proof.
  intros He Hrow Hm Hblank Hr.
  pose proof Hrow as Hfind. unfold rowOf in Hfind.
  pose proof Hm as Hold. unfold matched in Hold.
  assert (Hblur : offered m blur = true).
  { unfold offered, editorOpen. rewrite He, Hrow. reflexivity. }
  cbn [play]. rewrite Hblur. cbn [react]. unfold commitEditor.
  rewrite He, Hrow, Hm.
  set (m1 := later _ _).
  assert (Hclear : offered m1 clickClear = true).
  { unfold offered, editorClosed. subst m1.
    cbn [ui cells later setUi setCells editingItemId withEditing isSome negb
         andb].
    unfold commitKeywordEdit, updateById. cbn [files setFiles].
    rewrite length_map. pose proof (rowOf_files _ _ _ Hrow) as Hpos.
    apply Nat.ltb_lt in Hpos. rewrite Hpos. reflexivity. }
  rewrite Hclear. cbn [react].
  set (m2 := setCells _ m1).
  assert (Hp2 : pending m2
                = pending m ++ [reprocessTimeout (cells m) (id item)])
    by reflexivity.
  assert (Hdue : offered m2 (resume (List.length (pending m))) = true).
  { unfold offered. rewrite Hp2, nth_error_last. reflexivity. }
  rewrite Hdue. cbn [react]. rewrite Hp2, nth_error_last.
  cbn [advance]. unfold reprocessStart. rewrite Hfind, Hblank, Hold.
  rewrite replaceAt_last.
  set (m3 := {| cells := _ |}).
  assert (Hdue3 : offered m3 (resume (List.length (pending m))) = true).
  { unfold offered. subst m3. cbn [pending]. rewrite nth_error_last.
    reflexivity. }
  rewrite Hdue3. cbn [react]. subst m3. cbn [pending cells].
  rewrite nth_error_last. cbn [advance]. unfold reprocessResume.
  rewrite Hfind, Hr. rewrite replaceAt_last.
  eexists. split; [reflexivity|].
  destruct (processSingleImage_fields _ _ _ _ _ _ Hr)
    as (ob & _ & _ & _ & _ & _ & _ & Hid & Hname & _).
  destruct (handleClear_files (cells m1)) as [Hf Hp].
  assert (Hfiles : files (cells m2) = []) by exact Hf.
  assert (Hproc : processed (cells m2) = []) by exact Hp.
  assert (Hkey : keyword (cells m2) = []) by reflexivity.
  assert (Hbusy : totalProcessedCount (cells m2)
                  = totalProcessedCount (cells m)).
  { subst m2. cbn [cells setCells].
    rewrite (proj1 (handleClear_cells (cells m1))). reflexivity. }
  cbn [cells files processed keyword totalProcessedCount addTotalProcessed
       setProcessed setFiles revokeObjectURL].
  rewrite Hfiles, Hproc, Hkey, Hbusy.
  unfold hasProcessedImages, canProcess.
  cbn [processed keyword files addTotalProcessed setProcessed setFiles
       revokeObjectURL updateById map filter app List.length].
  rewrite Hfiles, Hproc, Hkey.
  assert (Hempty : isBlank [] = true) by reflexivity.
  rewrite Hempty. cbn [negb andb].
  repeat split; assumption.
Qed.

(* ================================================================== *)
(** * The orphaned result, on a page that was used *)
(* ================================================================== *)

Lemma reprocess_outlives_clear_witness :
  exists m',
    @play asciiFolding Demo.shrinking Session.thenClear Story.afterRun
    = Some m'
    /\ files (cells m') = []
    /\ map originalName (processed (cells m')) = [utf16 "b.png"]
    /\ keyword (cells m') = []
    /\ hasProcessedImages (cells m') = true
    /\ canProcess (cells m') = false.
Proof.
  destruct Story.itsResult as [old|] eqn:Hold;
    [|vm_compute in Hold; discriminate Hold].
  destruct (@processSingleImage asciiFolding Demo.shrinking Story.editedRow
              (keywordFor Story.editedRow (keyword (cells Story.afterRun)))
              (forceSquareFor Story.editedRow
                 (isSquare (cells Story.afterRun)))
              (Z.to_nat (findIndex (id Story.editedRow)
                           (files (cells Story.afterRun)))))
    as [r|] eqn:Hr; [|vm_compute in Hr; discriminate Hr].
  destruct (reprocess_outlives_clear asciiFolding Demo.shrinking
              Story.afterRun Story.editedRow old r)
    as (m' & Hplay & Hf & Hp & _ & Hname & Hk & Hh & Hc & _).
  - vm_compute. reflexivity.
  - vm_compute. reflexivity.
  - exact Hold.
  - vm_compute. reflexivity.
  - exact Hr.
  - exists m'. split; [exact Hplay|]. split; [exact Hf|].
    split; [rewrite Hp; cbn [map]; rewrite Hname; reflexivity|].
    split; [exact Hk|]. split; [exact Hh|exact Hc].
Defined.

(* ================================================================== *)
(** * The guard of the batch run and the button *)
(* ================================================================== *)

(** X12. [processImages] returns at once, having called no setter and
    revoked nothing, when there is no image or the global keyword is
    blank, even if images carry keywords of their own.  The flag that
    enables the Process button implies that this guard passes, and a click
    then raises the processing message and a verdict; while no run is in
    progress, a click on a disabled button would do nothing. *)
Theorem batch_run_guard (cf : CaseFolding) (B : Browser) (st : AppState) :
  (files st = [] \/ isBlank (keyword st) = true -> processImages B st = st)
  /\ (canProcess st = true ->
      files st <> [] /\ isBlank (keyword st) = false
      /\ exists verdict,
           signals (processImages B st)
           = signals st
               ++ [Some (messageProcessing (lang st)); Some verdict]
           /\ message (processImages B st) = Some verdict)
  /\ (batchProcessing st = false -> canProcess st = false ->
      processImages B st = st).
Proof.
  assert (Hguard : files st = [] \/ isBlank (keyword st) = true ->
                   processImages B st = st).
  { intros [Hf|Hk]; unfold processImages.
    - rewrite Hf. reflexivity.
    - rewrite Hk. destruct (files st); reflexivity. }
  split; [exact Hguard|]. split.
  - unfold canProcess. intros Hc.
    apply andb_prop in Hc as [Hc _]. apply andb_prop in Hc as [Hk Hf].
    apply negb_true_iff in Hk. apply Nat.ltb_lt in Hf.
    assert (Hfiles : files st <> []).
    { intros E. rewrite E in Hf. cbn in Hf. lia. }
    split; [exact Hfiles|]. split; [exact Hk|].
    destruct (processImages_cells cf B st Hfiles Hk) as (Hs & Hm & _).
    cbv zeta in Hs, Hm. eexists. split; [exact Hs|exact Hm].
  - unfold canProcess. intros Hb Hc. rewrite Hb in Hc.
    cbn [negb] in Hc. rewrite andb_true_r in Hc.
    apply Hguard. apply andb_false_iff in Hc as [Hc|Hc].
    + right. apply negb_false_iff in Hc. exact Hc.
    + left. apply Nat.ltb_ge in Hc. destruct (files st); [reflexivity|].
      cbn in Hc. lia.
Qed.

(* ================================================================== *)
(** * A run that nothing interrupts *)
(* ================================================================== *)

Lemma drainBatch_done {cf : CaseFolding} (B : Browser) (fuel : nat)
    (st : AppState) :
  drainBatch B fuel (st, batchTimeout) = (st, batchTimeout).
Proof. destruct fuel; reflexivity. Qed.

(** Resumed with nothing in between, the loop of [processImages] is
    [processLoop]. *)
Lemma drainBatch_loop {cf : CaseFolding} (B : Browser) (closure : AppState)
    (todo : list InputImage) :
  forall (i : nat) (results : list ProcessedImage) (st : AppState)
         (fuel : nat),
    skipn i (files closure) = todo ->
    List.length todo <= fuel ->
    drainBatch B fuel (batchLoop closure todo i results st)
    = (batchEnd closure
         (fst (processLoop B (keyword closure) (isSquare closure)
                 (List.length (files closure)) todo i results st))
         (snd (processLoop B (keyword closure) (isSquare closure)
                 (List.length (files closure)) todo i results st)),
       batchTimeout).
Proof.
  induction todo as [|input rest IH]; intros i results st fuel Hskip Hfuel.
  - cbn [batchLoop processLoop fst snd]. apply drainBatch_done.
  - destruct (skipn_cons_next _ _ _ _ Hskip) as (_ & Hnext & _ & _).
    cbn [List.length] in Hfuel.
    cbn [batchLoop processLoop].
    destruct (isBlank (keywordFor input (keyword closure))).
    + apply IH; [exact Hnext|lia].
    + destruct fuel as [|fuel]; [lia|].
      cbn [drainBatch snd fst]. unfold batchResume. rewrite Hskip.
      destruct (processSingleImage B input _ _ i);
        apply IH; try exact Hnext; lia.
Qed.

(** The batch run of the component, when nothing comes in between, is
    [processImages]. *)
Lemma processImages_uninterrupted (cf : CaseFolding) (B : Browser)
    (st : AppState) :
  files st <> [] -> isBlank (keyword st) = false ->
  exists st1 t,
    batchStart st st = (st1, Some t)
    /\ drainBatch B (List.length (files st)) (st1, t)
       = (processImages B st, batchTimeout).
Proof.
  intros Hfiles Hblank. unfold batchStart, processImages.
  destruct (files st) as [|f0 rest0] eqn:Hf; [contradiction|].
  rewrite Hblank, <- Hf.
  match goal with
  | |- context [batchLoop st (files st) 0 [] ?s] =>
      pose proof (drainBatch_loop B st (files st) 0 [] s
                    (List.length (files st)) eq_refl (le_n _)) as Hd;
      destruct (batchLoop st (files st) 0 [] s) as [st5 t] eqn:Hl
  end.
  exists st5, t. split; [reflexivity|]. rewrite Hd.
  destruct (processLoop B (keyword st) (isSquare st) _ (files st) 0 [] _)
    as [results st'].
  reflexivity.
Qed.

(** So is the reprocess, with the cells it runs on for the cells it
    captured: [compressSingleImage]. *)
Lemma compressSingleImage_uninterrupted (cf : CaseFolding) (B : Browser)
    (imageId : jsstring) (st : AppState) :
  compressSingleImage B imageId st
  = match reprocessStart st imageId st with
    | (st1, reprocessAwaits closure _) =>
        fst (reprocessResume B closure imageId st1)
    | (st1, _) => st1
    end.
Proof.
  unfold compressSingleImage, reprocessStart.
  destruct (find _ (files st)) as [image|] eqn:Hfind; [|reflexivity].
  destruct (isBlank _); [reflexivity|].
  cbv beta iota. unfold reprocessResume. rewrite Hfind.
  destruct (processSingleImage B image _ _ _); reflexivity.
Qed.

(* ================================================================== *)
(** * The ids of the rows *)
(* ================================================================== *)

(** An id ends with its salt. *)
Lemma freshId_salt (f f' : File) (s s' : jsstring) :
  ~ In hyphen s -> ~ In hyphen s' ->
  freshId f s = freshId f' s' -> s = s'.
Proof.
  intros Hs Hs' E. unfold freshId in E.
  rewrite !List.app_assoc in E.
  change (?x ++ [hyphen] ++ ?y) with (x ++ hyphen :: y) in E.
  repeat rewrite <- List.app_assoc in E.
  assert (E' : (file_name f ++ [hyphen] ++ decimal (file_size f)
                  ++ [hyphen] ++ decimal (file_lastModified f))
                 ++ hyphen :: s
               = (file_name f' ++ [hyphen] ++ decimal (file_size f')
                    ++ [hyphen] ++ decimal (file_lastModified f'))
                   ++ hyphen :: s').
  { repeat rewrite <- List.app_assoc. exact E. }
  exact (proj2 (split_last_unique hyphen _ _ _ _ E' Hs Hs')).
Qed.

Lemma mapToInputs_fromCall (B : Browser) (n : nat) (sliced : list File) :
  forall j : nat,
    map id (mapToInputs (fromCall n B) j sliced)
    = map id (mapToInputs B (n + j) sliced).
Proof.
  induction sliced as [|f rest IH]; intros j; [reflexivity|].
  cbn [mapToInputs map id]. rewrite IH.
  replace (n + S j) with (S (n + j)) by lia. reflexivity.
Qed.

Lemma mapToInputs_salts (B : Browser) (sliced : list File) :
  forall j : nat,
    Forall
      (fun i =>
         exists (k : nat) (f : File),
           j <= k < j + List.length sliced
           /\ i = freshId f (randomSalt B k))
      (map id (mapToInputs B j sliced)).
Proof.
  induction sliced as [|f rest IH]; intros j; [constructor|].
  cbn [mapToInputs map id List.length]. constructor.
  - exists j, f. split; [lia|reflexivity].
  - eapply Forall_impl; [|apply (IH (S j))].
    intros i (k & f' & Hk & Hi). exists k, f'. split; [lia|exact Hi].
Qed.

Section Ids.

Context {cf : CaseFolding}.
Variable B : Browser.
Hypothesis distinct : forall j k, randomSalt B j = randomSalt B k -> j = k.
Hypothesis plain : forall k, ~ In hyphen (randomSalt B k).

Lemma mapToInputs_NoDup (sliced : list File) :
  forall j : nat, NoDup (map id (mapToInputs B j sliced)).
Proof.
  induction sliced as [|f rest IH]; intros j; [constructor|].
  cbn [mapToInputs map id]. constructor; [|apply IH].
  intros Hin.
  pose proof (mapToInputs_salts B rest (S j)) as Hs.
  rewrite Forall_forall in Hs.
  destruct (Hs _ Hin) as (k & f' & Hk & Hi).
  apply freshId_salt in Hi; try apply plain.
  apply distinct in Hi. lia.
Qed.

Lemma issued_rows (m m' : Component) :
  map id (files (cells m')) = map id (files (cells m)) ->
  randomCalls m' = randomCalls m ->
  issued B m -> issued B m'.
Proof. unfold issued. intros -> ->. auto. Qed.

Lemma react_randomCalls (m : Component) (e : Event) :
  match e with dropFiles _ => False | _ => True end ->
  randomCalls (react B m e) = randomCalls m.
Proof.
  intros He. destruct e; try contradiction; cbn [react]; try reflexivity.
  - destruct (hasProcessedImages (cells m)).
    + unfold downloadZip. destruct (processed (cells m)); reflexivity.
    + destruct (batchStart (cells m) (cells m)) as [st' [t|]]; reflexivity.
  - destruct (editingItemId (withHovered None (ui m))) as [editing|];
      [destruct (JS.eqb editing itemId)|]; reflexivity.
  - destruct (rowOf (cells m) itemId); reflexivity.
  - unfold commitEditor.
    destruct (editingItemId (ui m)) as [itemId|]; [|reflexivity].
    destruct (rowOf (cells m) itemId) as [item|]; [|reflexivity].
    destruct (matched (cells m) (id item)); reflexivity.
  - unfold commitEditor.
    destruct (editingItemId (ui m)) as [itemId|]; [|reflexivity].
    destruct (rowOf (cells m) itemId) as [item|]; [|reflexivity].
    destruct (matched (cells m) (id item)); reflexivity.
  - unfold handleSingleImageAiDetect.
    destruct (rowOf (cells m) itemId); reflexivity.
  - destruct (nth_error (pending m) n) as [t|]; [|reflexivity].
    destruct (advance B (prefs m) t (cells m)). reflexivity.
  - destruct (nth_error (pending m) n) as [[]|]; reflexivity.
Qed.

Lemma NoDup_filter_ids (f : InputImage -> bool) (l : list InputImage) :
  NoDup (map id l) -> NoDup (map id (filter f l)).
Proof.
  induction l as [|x t IH]; intros H; [constructor|].
  cbn [map] in H. inversion H as [|i l' Hx Ht]; subst.
  cbn [filter]. destruct (f x); [|apply IH; exact Ht].
  cbn [map]. constructor; [|apply IH; exact Ht].
  intros Hin. apply Hx. apply in_map_iff in Hin.
  destruct Hin as (y & Hy & Hin). apply filter_In in Hin.
  rewrite <- Hy. apply in_map. exact (proj1 Hin).
Qed.

Lemma react_issued (m : Component) (e : Event) :
  issued B m -> issued B (react B m e).
Proof.
  intros H. destruct (keepsRows e) eqn:Hk.
  - apply (issued_rows m); [|apply react_randomCalls|exact H].
    + apply core_ids, react_rows. exact Hk.
    + destruct e; try exact I. discriminate Hk.
  - destruct e; try discriminate Hk.
    + (* a submission *)
      destruct H as [Hnd Hall]. unfold issued. cbn [react cells randomCalls].
      destruct fileList as [fileList|]; [|cbn [handleFiles];
        rewrite Nat.sub_diag, Nat.add_0_r; split; assumption].
      destruct (filter isAccepted fileList) as [|f0 rest0] eqn:Hacc.
      { assert (E : handleFiles (fromCall (randomCalls m) B) (Some fileList)
                      (cells m)
                    = setMessage (Some (messageInvalidType (lang (cells m))))
                        (cells m)).
        { unfold handleFiles. fold isAccepted.
          change (filter (fun f => isAccepted f) fileList)
            with (filter isAccepted fileList).
          rewrite Hacc. reflexivity. }
        rewrite E. cbn [files setMessage].
        rewrite Nat.sub_diag, Nat.add_0_r. split; assumption. }
      rewrite handleFiles_accepting by (rewrite Hacc; discriminate).
      cbv zeta. cbn [files setProcessed setFiles setMessage].
      set (sliced := slice0 (filter isAccepted fileList) _).
      rewrite length_app, mapToInputs_length.
      replace (List.length (files (cells m)) + List.length sliced
               - List.length (files (cells m)))
        with (List.length sliced) by lia.
      rewrite map_app, (mapToInputs_fromCall B (randomCalls m) sliced 0),
        Nat.add_0_r.
      pose proof (mapToInputs_salts B sliced (randomCalls m)) as Hnew.
      split.
      * apply NoDup_app; [exact Hnd|apply mapToInputs_NoDup|].
        intros i Hold Hin.
        rewrite Forall_forall in Hall, Hnew.
        destruct (Hall i Hold) as (k & f & Hlt & Hi).
        destruct (Hnew i Hin) as (k' & f' & Hge & Hi').
        rewrite Hi in Hi'. apply freshId_salt in Hi'; try apply plain.
        apply distinct in Hi'. lia.
      * apply Forall_app. split.
        -- eapply Forall_impl; [|exact Hall].
           intros i (k & f & Hlt & Hi). exists k, f. split; [lia|exact Hi].
        -- eapply Forall_impl; [|exact Hnew].
           intros i (k & f & Hlt & Hi). exists k, f. split; [lia|exact Hi].
    + (* Clear *)
      unfold issued. cbn [react cells setCells randomCalls].
      destruct (handleClear_files (cells m)) as [-> _].
      split; constructor.
    + (* a deletion *)
      destruct H as [Hnd Hall]. unfold issued.
      cbn [react cells setCells randomCalls].
      rewrite deleteSingleImage_files. split.
      * apply NoDup_filter_ids. exact Hnd.
      * rewrite Forall_forall in *. intros i Hin. apply Hall.
        apply in_map_iff in Hin. destruct Hin as (x & Hx & Hin).
        apply filter_In in Hin. rewrite <- Hx. apply in_map.
        exact (proj1 Hin).
Qed.

Lemma run_issued (events : list Event) :
  forall m : Component, issued B m -> issued B (run B events m).
Proof.
  unfold run. induction events as [|e rest IH]; intros m H; [exact H|].
  cbn [fold_left]. apply IH, react_issued, H.
Qed.

End Ids.

(** X30. No two rows ever share an id.  If the salts that [Math.random]
    gives are pairwise different and hold no hyphen (they are digits and
    letters), then from a page without images, whatever the user does and
    whenever the pending continuations come due, the ids of the rows are
    pairwise different; so [find] and [findIndex] by id reach the row
    that was meant. *)
Theorem ids_stay_distinct (cf : CaseFolding) (B : Browser)
    (events : list Event) (m : Component) :
  (forall j k, randomSalt B j = randomSalt B k -> j = k) ->
  (forall k, ~ In hyphen (randomSalt B k)) ->
  files (cells m) = [] ->
  NoDup (map id (files (cells (run B events m)))).
Proof.
  intros Hdistinct Hplain Hempty.
  apply (run_issued B Hdistinct Hplain events m).
  unfold issued. rewrite Hempty. split; constructor.
Qed.

Lemma decimal_injective (j k : nat) : decimal j = decimal k -> j = k.
Proof.
  intros E. apply Nat2Z.inj.
  rewrite <- (numberOfDigits_decimal j), <- (numberOfDigits_decimal k), E.
  reflexivity.
Qed.

Lemma ids_stay_distinct_witness :
  NoDup
    (map id
       (files
          (cells
             (@run asciiFolding Demo.shrinking
                [dropFiles (Some [Session.a; Session.a]);
                 dropFiles (Some [Session.a])]
                Session.start)))).
Proof.
  apply (ids_stay_distinct asciiFolding Demo.shrinking).
  - intros j k E. cbn [randomSalt Demo.shrinking Demo.browser] in E.
    apply app_inv_head in E. apply decimal_injective. exact E.
  - intros k Hin. cbn [randomSalt Demo.shrinking Demo.browser] in Hin.
    apply in_app_or in Hin. destruct Hin as [Hin|Hin].
    + vm_compute in Hin. intuition discriminate.
    + exact (digits_no_hyphen _ (decimal_isDigit k) Hin).
  - reflexivity.
Defined.
